(* ===== verification/_CoqProject ===== *)
-Q . S2P
Prelude.v
Errors.v
MdsftpData.v
MdsftpWire.v
MdsftpChannel.v
MdsftpConnection.v
MdsftpPool.v
MetaStore.v
FragmentLedger.v
LedgerCorrect.v
LedgerLocks.v
LockTable.v
TransferManager.v
ChannelHandler.v
HandlerCorrect.v
Placement.v
FileAccess.v
Paths.v
Permissions.v
Database.v
BucketSpace.v
UploadSessions.v
Directories.v
FileServices.v
Uploads.v
Listing.v
Migration.v
Dashboard.v
Tokens.v
ProtocolMacro.v
Mgpp.v
Controller.v
Addresses.v
Config.v
Accounts.v
Enrolment.v
Peers.v
UploadPipe.v
Routes.v
Orphans.v
