(* ===== verification/Prelude.v ===== *)
(** * Meowith: a verification development

    Meowith stores the files of applications as fragments spread over a cluster of storage
    nodes.  A client talks to one node over HTTP; that node splits an upload over the cluster,
    reserves space, moves the bytes to other nodes over its own protocol (MDSFTP), and joins
    the fragments again for a download.  A controller registers the nodes and spreads the
    invalidation of caches (MGPP), a dashboard manages applications and buckets, and a database
    holds the records of files.  This library models the storage and transfer core of that
    system, the services and routes on top of it, the dashboard, the controller and the way a
    node gets into the cluster, and proves what they promise.

    ** The parts, and where they are modelled

    - [Prelude]: machine integers with their wrap-around, [result], big-endian encodings, byte
      slices, sums over maps; shared by all files.
    - [Errors]: the error enums of [commons/src/error] and their conversions.
    - [MdsftpData]: flags, results and ranges of [protocol/src/mdsftp/data.rs], with the class
      [ByteCode] of the types sent as one byte.
    - [MdsftpWire]: the packet format of [protocol/src/mdsftp/net]: types, header,
      pre-validation, the writer, and one round of the reader's framing.
    - [MdsftpChannel]: [channel.rs] and [handler.rs]: every sender method, the decoding of every
      packet into a call of the interface [ChannelPacketHandler], pending requests and their
      answers, interruption.
    - [MdsftpConnection]: [connection.rs] and [net/packet_reader.rs]: many channels on one
      stream, the reader loop, channel ids, and the tasks that open, drop and close.
    - [MdsftpPool]: [pool.rs], [server.rs] and the node's authenticator: choosing, creating,
      sweeping and accepting connections.
    - [MetaStore]: the metadata store of [node/src/io], as the class [ExtFragmentMetaStore] with
      its laws and the embedded implementation as an instance.
    - [FragmentLedger], [LedgerCorrect]: [node/src/io/fragment_ledger.rs], the account of the
      fragments, reservations and space of a node over its data directory.
    - [LedgerLocks]: the order in which the same operations take the ledger's locks.
    - [LockTable]: [node/src/locking], read and write locks per fragment.
    - [TransferManager]: [node/src/file_transfer/transfer_manager.rs], the upload loop with its
      flow control.
    - [ChannelHandler], [HandlerCorrect]: [node/src/file_transfer/channel_handler.rs], how a node
      answers its peers; the instance of [ChannelPacketHandler] over the ledger, the lock table
      and the transfer manager.
    - [Placement]: [node/src/public/service/reservation_service.rs], the split of an upload over
      the cluster and its reservation; the remote side is the handler of [ChannelHandler].
    - [FileAccess]: the byte ranges of downloads and the resumption of durable uploads in
      [file_access_service.rs] and [file_io_service.rs].
    - [Paths]: [data/src/pathlib.rs] and the extractors of the node, the normal form of paths.
    - [Permissions]: permissions as bit masks, permits of tokens and their check
      ([commons/src/permission], [user_middleware.rs]).
    - [Database]: the tables of [data/src/model] and every query of [data/src/access], over the
      class [Database] of database drivers; [DatabaseLaws] and [ReliableDatabase] are what its
      clients rely on, [Tables] and [Faulty] are instances.
    - [BucketSpace]: the optimistic update of a bucket's counters, by many clients at once.
    - [UploadSessions]: [durable_transfer_session_manager.rs], who may write to an upload.
    - [Directories]: [directory_action_service.rs] and [try_mkdir], the tree of directories.
    - [FileServices]: [chunk_service.rs] and [file_action_service.rs], deleting and renaming
      files over the database and the nodes.
    - [Uploads]: the whole upload handlers of [file_access_service.rs].
    - [Listing]: [file_list_service.rs] and the whole download handler.
    - [Migration]: [migration_service.rs], moving fragments away from a node.
    - [Dashboard]: the services of [dashboard/src/public] on applications, members, roles,
      buckets and quotas.
    - [Tokens]: tokens from their issue by the dashboard to their check at a node.
    - [ProtocolMacro]: [protocol_macro/src], the code derived for an enum of packets, for any
      list of field types.
    - [Mgpp]: [protocol/src/framework] and [protocol/src/mgpp]: connections of a derived
      protocol, the server and the client of MGPP, the controller's authenticator
      ([controller/src/mgpp]), and the pausing of a node ([node/src/lib.rs]).
    - [Controller]: [controller/src]: registration, tokens, health and removal of nodes over the
      database and MGPP.
    - [Accounts]: [auth_framework/src] and the login, registration and set-up of users in
      [dashboard/src/public/auth] and [controller/src/setup].
    - [Addresses]: [addr_header.rs] of [commons/src/autoconfigure], the header with the addresses
      and names of a certificate request, and the printed form of IP addresses it relies on.
    - [Config]: the configuration of a node ([node/src/config]) with its sizes and its validation,
      and the configuration files of node, controller and dashboard with their defaults.
    - [Enrolment]: [auth_conf.rs] and [ssl_conf.rs] of [commons/src/autoconfigure] against the
      routes of [controller/src/discovery]: registration, tokens and certificates, with requests
      or responses that get lost; OpenSSL is the class [Pki] with its laws.
    - [Peers]: the maps of the other nodes: [node/src/peer], [node_storage_map.rs], the request
      context of a node, and the refresh and the start in [node/src/lib.rs].
    - [UploadPipe]: the two tasks of the upload routes in [file_transfer.rs] and their pipe.
    - [Routes]: [node/src/public/routes], every route over the services above, with the status
      and the headers of the answer.
    - [Orphans]: the removal of orphaned fragments of [fragment_ledger.rs] over the database.

    The nodes' services run in the monad [effect] of [Prelude] over the cluster of [Placement]
    and a database; the files above [Database] prove their theorems against its class.

    ** How the code is represented

    Structs are records, enums inductive types, maps [gmap]s, byte strings lists of [Z], and a
    [Uuid] its 128-bit number.  An operation with [&mut self] takes the state and returns it
    with a [result]; a panic, or a wait that never ends, is [None] or an outcome of its own.  Where objects are shared (the
    channels of a connection, the connections of a pool, the locks of the table) the state has
    a store of objects and refers to them by identity.  Integers are unbounded [Z] with the
    wrap-around of the release profile written out ([wrap], [u64_add], [u64_sub]) where the
    code can reach it.  Concurrent tasks are steps of one state in any order; a step is what
    runs under one lock.  Clocks, drawn ids and random numbers are arguments.

    ** What the theorems show

    - Transport: packets and whole conversations survive framing unchanged, one encoding each
      ([MdsftpWire]); the reader survives any input and terminates; messages reach the handler
      of their channel only; replies complete their requests ([MdsftpChannel],
      [MdsftpConnection]).
    - Connections: ids of the two ends never clash; the channel count covers the channels in
      use; the pool picks the least used connection, sweeps only unused ones and admits only
      authenticated peers ([MdsftpConnection], [MdsftpPool]).
    - Storage: the ledger's counters agree with its maps and files in every reachable state, it
      refines a life cycle per fragment, and each operation does what it should on every branch
      ([LedgerCorrect]); its ordered operations cannot deadlock ([LedgerLocks]); locks exclude
      ([LockTable]).
    - Transfers: an acknowledged upload sends exactly the requested bytes within its window;
      sender and receiver together store exactly them; no peer can break the accounting
      ([TransferManager], [HandlerCorrect]).
    - Files: a split of an upload is exact, its reservation all or nothing; a download delivers
      exactly the range; a resumed upload completes the file ([Placement], [FileAccess]).
    - Records: counters of buckets stay exact under concurrent updates ([BucketSpace]); an
      upload session has one writer ([UploadSessions]); directories stay a tree
      ([Directories]); uploads are all or nothing, and deletions and renamings touch exactly
      their file ([FileServices], [Uploads]); downloads and listings return what is recorded
      ([Listing]).
    - Rights: masks mean the permissions they were made of ([Permissions]); a token grants no
      more than its issuer had, and a deleted one is refused ([Tokens]); buckets stay within
      the quota of their application, and only who may changes them ([Dashboard]).
    - Control: the derived codec is exact on readable layouts ([ProtocolMacro]); invalidations
      reach every connected node, a deleted token is refused everywhere, and only nodes with
      their token get a connection ([Mgpp]); the controller accepts exactly the last token of
      each node ([Controller]).
    - Cluster: an enrolled node is known to the controller under its token and its certificate
      names what was configured; a restart keeps its identity; a valid code gets a node in
      ([Enrolment]); the space of its ledger is what its peers plan with ([Peers]).
    - Edges: a configuration is accepted only with usable values, sizes are exact below 2^64
      ([Config]); the header of addresses is read back ([Addresses]); the pipe of an upload
      neither loses nor invents bytes and every request is answered ([UploadPipe]); no
      permission means no effect, and a download announces what it sends ([Routes]).
    - Accounts: who registered under a free name can log in with the password, of which 72
      bytes count; nobody but the first user becomes an administrator unless an administrator
      makes them one ([Accounts]).
    - Deviations: theorems that state what the code does where it falls short of its purpose,
      such as reserved space that leaks, operations that can deadlock, a migrated fragment that
      is lost, a token that reaches into the buckets of another application, an old token that
      stays accepted, a broken connection that blocks all invalidations, a registration whose
      lost answer uses up its code, and an orphan removal that waits for itself.

    ** Bounds and fuel

    [read_packets] and the [read_loop]s of MDSFTP and MGPP take a number of packets as fuel;
    every packet takes at least nine bytes, or five, so one more than the length of the stream
    is enough, and [reader_total] and [node_reader_total] prove that the loops end within it.
    [lossy], the lossy decoding of UTF-8, has the number of its bytes as fuel.  Counters are
    exact below 2^64; theorems about the channel count speak of executions of fewer than 2^64
    steps, those about uploads of chunk numbers below 2^32, as the code does.
    [directory_iterator] takes one unit of fuel per visited directory; on a tree the number of
    directories is enough, and a directory named by two dots needs more than any fuel.
    [update_bucket_loop] is bounded by the 2048 attempts of the code.  [digits] prints a number
    with as many digits as its fuel allows: 3 for an octet, 4 for a group of an IPv6 address,
    20 for a [u64], as many as these numbers have.  Executions of [UploadPipe] have no fuel; a
    cost bounds their length.  All other recursion is on lists or maps.

    ** What is not modelled

    TLS, sockets, HTTP, JSON web tokens, the database and the file system are parameters or,
    for the data directory, a map of files; foreign code appears only through its documented
    behaviour as a hypothesis with a witness.  What a transfer between nodes does is an argument of
    the upload handlers.  Texts are sequences of 8-bit characters; white space of Unicode around
    a size is not trimmed.  Not modelled are the building of servers, TLS acceptors, database
    sessions and log outputs at a start, the fields of certificates other than names and
    validity, routes that only forward to a modelled service of the controller or the dashboard,
    and the assembly of tokens in the macros: they are calls of foreign libraries with nothing
    of the program's own to state. *)
From Stdlib Require Import ZArith Lia List.
From stdpp Require Import base numbers list gmap fin_maps relations.

Local Open Scope Z_scope.

(** ** Scope *)
Declare Scope meowith_scope.
Delimit Scope meowith_scope with meow.

(** ** Machine integers

    A Rust integer of width [w] is a [Z]; arithmetic that can leave the width is
    written with an explicit [wrap], the behaviour of the release profile. *)
Abbreviation u8 := Z (only parsing).
Abbreviation u16 := Z (only parsing).
Abbreviation u32 := Z (only parsing).
Abbreviation u64 := Z (only parsing).
Abbreviation i64 := Z (only parsing).
Abbreviation i8 := Z (only parsing).
Abbreviation usize := Z (only parsing).
(** A [Uuid] is its 128-bit big-endian value ([Uuid::as_u128]). *)
Abbreviation Uuid := Z (only parsing).

Definition in_width (w x : Z) : Prop := 0 <= x < 2 ^ w.

#[global] Instance in_width_dec w x : Decision (in_width w x).
Proof. unfold in_width. apply _. Defined.

Definition wrap (w x : Z) : Z := x mod 2 ^ w.

(** Two's complement reinterpretation at width [w] (the [as i64], [as i8] casts). *)
Definition as_signed (w x : Z) : Z :=
  let r := x mod 2 ^ w in
  if decide (r < 2 ^ (w - 1)) then r else r - 2 ^ w.

Definition u64_add (a b : u64) : u64 := wrap 64 (a + b).
Definition u64_sub (a b : u64) : u64 := wrap 64 (a - b).
(** [u64::saturating_sub] *)
Definition saturating_sub (a b : u64) : u64 := Z.max 0 (a - b).
(** [bool as u8] *)
Definition bool_u8 (b : bool) : u8 := if b then 1 else 0.

(** ** Results *)
Inductive result (E A : Type) : Type :=
| Ok (a : A)
| Err (e : E).
Arguments Ok {E A} a.
Arguments Err {E A} e.

Definition result_bind {E A B} (m : result E A) (f : A -> result E B) : result E B :=
  match m with Ok a => f a | Err e => Err e end.

Definition map_err {E F A} (f : E -> F) (m : result E A) : result F A :=
  match m with Ok a => Ok a | Err e => Err (f e) end.

Definition ok_or {E A} (o : option A) (e : E) : result E A :=
  match o with Some a => Ok a | None => Err e end.

Definition is_ok {E A} (m : result E A) : bool :=
  match m with Ok _ => true | Err _ => false end.

Notation "x <-? m ; k" := (result_bind m (fun x => k))
  (at level 100, m at next level, k at level 200, right associativity) : meowith_scope.

(** ** Effects: a computation over a state that may fail, with the notations of stdpp's monads

    A failed computation keeps the changes made before the failure, as the code does. *)
Definition effect (S E A : Type) : Type := S -> S * result E A.

#[global] Instance effect_ret {S E} : MRet (effect S E) := fun A a s => (s, Ok a).

#[global] Instance effect_bind {S E} : MBind (effect S E) := fun A B f m s =>
  match m s with
  | (s, Ok a) => f a s
  | (s, Err e) => (s, Err e)
  end.

Definition throw {S E A} (e : E) : effect S E A := fun s => (s, Err e).
Definition gets {S E A} (f : S -> A) : effect S E A := fun s => (s, Ok (f s)).
Definition modify {S E} (f : S -> S) : effect S E unit := fun s => (f s, Ok tt).
Definition of_result {S E A} (r : result E A) : effect S E A := fun s => (s, r).
(** [map_err], and the conversion of errors by [?]. *)
Definition on_err {S E F A} (f : E -> F) (m : effect S E A) : effect S F A := fun s =>
  let '(s, r) := m s in (s, map_err f r).
(** The result itself, for code that inspects or ignores it. *)
Definition attempt {S E F A} (m : effect S E A) : effect S F (result E A) := fun s =>
  let '(s, r) := m s in (s, Ok r).

(** A loop over a list that stops at the first failure. *)
Fixpoint for_each {S E A} (f : A -> effect S E unit) (l : list A) : effect S E unit :=
  match l with
  | [] => mret tt
  | x :: l => f x ;; for_each f l
  end.

#[global] Instance result_eq_dec {E A} `{EqDecision E, EqDecision A} : EqDecision (result E A).
Proof. solve_decision. Defined.

(** [take] and [skip] of a 64-bit number of elements. *)
Definition take_z {A} (n : Z) (l : list A) : list A := take (Z.to_nat (Z.min n (Z.of_nat (length l)))) l.
Definition drop_z {A} (n : Z) (l : list A) : list A := drop (Z.to_nat (Z.min n (Z.of_nat (length l)))) l.

(** ** Big-endian byte strings ([to_be_bytes], [from_be_bytes]) *)
Definition be_decode (bs : list u8) : Z := fold_left (fun acc b => acc * 256 + b) bs 0.

Fixpoint be_encode (n : nat) (x : Z) : list u8 :=
  match n with
  | O => []
  | S m => be_encode m (x / 256) ++ [x mod 256]
  end.

Definition u16_be (x : u16) : list u8 := be_encode 2 x.
Definition u32_be (x : u32) : list u8 := be_encode 4 x.
Definition u64_be (x : u64) : list u8 := be_encode 8 x.
(** [Uuid::as_bytes] *)
Definition uuid_bytes (x : Uuid) : list u8 := be_encode 16 x.

Definition is_bytes (bs : list u8) : Prop := Forall (in_width 8) bs.

(** [&v[a..b]] on an in-range slice. *)
Definition slice {A} (a b : nat) (l : list A) : list A := take (b - a) (drop a l).

(** ** Sums over finite maps *)
Definition map_sum {K A} `{Countable K} (f : A -> Z) (m : gmap K A) : Z :=
  map_fold (fun _ x acc => f x + acc) 0 m.

Definition list_sum (l : list Z) : Z := fold_right Z.add 0 l.

(** ** Automation *)
Create HintDb meow.
Create Rewrite HintDb meow.

Ltac destruct_result :=
  match goal with
  | H : context [match ?m with Ok _ => _ | Err _ => _ end] |- _ => destruct m eqn:?
  | |- context [match ?m with Ok _ => _ | Err _ => _ end] => destruct m eqn:?
  end.

Ltac split_ands := repeat match goal with |- _ /\ _ => split end.

(** Splits on every boolean or [decide] test of the goal and closes arithmetic leaves. *)
Ltac case_tests :=
  repeat (match goal with
          | |- context [if decide ?P then _ else _] => destruct (decide P)
          | H : context [if decide ?P then _ else _] |- _ => destruct (decide P)
          | |- context [if ?b then _ else _] => destruct b eqn:?
          | H : context [if ?b then _ else _] |- _ => destruct b eqn:?
          end; simplify_eq/=).

(** ** Generic lemmas *)
Lemma wrap_small w x : in_width w x -> wrap w x = x.
Proof. intros H. apply Z.mod_small, H. Qed.

Lemma wrap_range w x : 0 <= w -> in_width w (wrap w x).
Proof. intros Hw. apply Z.mod_pos_bound. apply Z.pow_pos_nonneg; lia. Qed.

Lemma u64_add_small a b : in_width 64 (a + b) -> u64_add a b = a + b.
Proof. apply wrap_small. Qed.

Lemma u64_sub_small a b : in_width 64 a -> 0 <= b <= a -> u64_sub a b = a - b.
Proof. intros Ha Hb. apply wrap_small. unfold in_width in *. lia. Qed.

(** A subtraction undoes an addition of the same amount even when the addition wrapped. *)
Lemma u64_sub_add a b : in_width 64 a -> u64_sub (u64_add a b) b = a.
Proof.
  intros Ha. unfold u64_sub, u64_add, wrap.
  rewrite Zminus_mod_idemp_l. replace (a + b - b) with a by lia. apply Z.mod_small, Ha.
Qed.

(** Wrapping counters follow the exact total modulo the width. *)
Lemma u64_add_wrap a b : u64_add (wrap 64 a) b = wrap 64 (a + b).
Proof. unfold u64_add, wrap. apply Zplus_mod_idemp_l. Qed.

Lemma u64_sub_wrap a b : u64_sub (wrap 64 a) b = wrap 64 (a - b).
Proof. unfold u64_sub, wrap. apply Zminus_mod_idemp_l. Qed.

Lemma saturating_sub_range a b :
  in_width 64 a -> 0 <= b -> 0 <= saturating_sub a b <= a.
Proof. unfold saturating_sub, in_width. lia. Qed.

Lemma as_signed_add w x d : 0 <= w -> as_signed w (as_signed w x + d) = as_signed w (x + d).
Proof.
  intros Hw. assert (E : (as_signed w x + d) mod 2 ^ w = (x + d) mod 2 ^ w).
  { unfold as_signed. case_decide.
    - apply Zplus_mod_idemp_l.
    - replace (x mod 2 ^ w - 2 ^ w + d) with (x mod 2 ^ w + d + (-1) * 2 ^ w) by lia.
      rewrite Z_mod_plus_full. apply Zplus_mod_idemp_l. }
  unfold as_signed at 1 3. by rewrite E.
Qed.

Lemma as_signed_small w x : 0 < w -> - 2 ^ (w - 1) <= x < 2 ^ (w - 1) -> as_signed w x = x.
Proof.
  intros Hw Hx. assert (E : 2 ^ w = 2 * 2 ^ (w - 1)).
  { rewrite <- Z.pow_succ_r by lia. f_equal. lia. }
  unfold as_signed. rewrite E. destruct (decide (0 <= x)) as [H0|H0].
  - rewrite Z.mod_small, decide_True by lia. done.
  - assert (Em : x mod (2 * 2 ^ (w - 1)) = x + 2 * 2 ^ (w - 1)).
    { symmetry. apply (Z.mod_unique_pos _ _ (-1)); lia. }
    rewrite Em, decide_False by lia. lia.
Qed.

Lemma list_sum_insert {A} (g : A -> Z) (l : list A) i x y :
  l !! i = Some x -> list_sum (map g (<[i := y]> l)) = list_sum (map g l) - g x + g y.
Proof.
  revert i. induction l as [|z l IH]; intros [|i]; simpl; [done|done| |].
  - intros [= ->]. lia.
  - intros Hi. rewrite (IH i) by done. lia.
Qed.

Lemma result_bind_ok {E A B} (m : result E A) (f : A -> result E B) b :
  result_bind m f = Ok b <-> exists a, m = Ok a /\ f a = Ok b.
Proof. destruct m; simpl; split; [eauto|by intros (? & [= ->] & ?)|done|by intros (? & ? & _)]. Qed.

Lemma prefix_snoc_inv {A} (k l : list A) x :
  k `prefix_of` l ++ [x] -> k = l ++ [x] \/ k `prefix_of` l.
Proof.
  intros [m E]. destruct m as [|y m _] using rev_ind; [left; by rewrite app_nil_r in E|].
  rewrite app_assoc in E. apply app_inj_tail in E as [-> _]. right. by exists m.
Qed.

Lemma effect_bind_ok {S E A B} (m : effect S E A) (f : A -> effect S E B) s s' b :
  (m ≫= f) s = (s', Ok b) <-> exists s1 a, m s = (s1, Ok a) /\ f a s1 = (s', Ok b).
Proof.
  unfold mbind, effect_bind. destruct (m s) as [s1 [a|e]]; split.
  - eauto.
  - by intros (? & ? & [= <- <-] & ?).
  - done.
  - by intros (? & ? & ? & _).
Qed.

Lemma effect_bind_assoc {S E A B C} (m : effect S E A) (f : A -> effect S E B) (g : B -> effect S E C) s :
  (m ≫= (fun a => f a ≫= g)) s = ((m ≫= f) ≫= g) s.
Proof. unfold mbind, effect_bind. by destruct (m s) as [s1 [a|e]]. Qed.

Lemma effect_bind_run {S E A B} (m : effect S E A) (f : A -> effect S E B) s s1 a :
  m s = (s1, Ok a) -> (m ≫= f) s = f a s1.
Proof. unfold mbind, effect_bind. by intros ->. Qed.

(** A sequence that succeeds did so in both of its parts. *)
Lemma bind_ok {S E A B} (m : effect S E A) (f : A -> effect S E B) s s' b :
  (x ← m; f x) s = (s', Ok b) -> exists s1 a, m s = (s1, Ok a) /\ f a s1 = (s', Ok b).
Proof. unfold mbind, effect_bind. destruct (m s) as [s1 [a|e]]; [eauto|congruence]. Qed.

Lemma be_encode_length n x : length (be_encode n x) = n.
Proof. revert x. induction n; intros; simpl; [done|]. rewrite length_app, IHn. simpl. lia. Qed.

Lemma be_decode_app l1 l2 :
  be_decode (l1 ++ l2) = be_decode l1 * 256 ^ Z.of_nat (length l2) + be_decode l2.
Proof.
  unfold be_decode. rewrite fold_left_app.
  generalize (fold_left (fun acc b => acc * 256 + b) l1 0). intros a. revert a.
  induction l2 as [|b l2 IH]; intros a; [simpl; lia|].
  cbn [fold_left length]. rewrite IH, (IH (0 * 256 + b)).
  rewrite Nat2Z.inj_succ, Z.pow_succ_r by lia. lia.
Qed.

Lemma be_decode_encode n x :
  0 <= x < 256 ^ Z.of_nat n -> be_decode (be_encode n x) = x.
Proof.
  revert x. induction n as [|n IH]; intros x Hx; [simpl in *; unfold be_decode; simpl; lia|].
  rewrite Nat2Z.inj_succ, Z.pow_succ_r in Hx by lia.
  simpl be_encode. rewrite be_decode_app, IH.
  - simpl. unfold be_decode. simpl. pose proof (Z_div_mod_eq_full x 256). lia.
  - split; [apply Z.div_pos; lia|]. apply Z.div_lt_upper_bound; lia.
Qed.

Lemma be_encode_bytes n x : is_bytes (be_encode n x).
Proof.
  revert x. induction n; intros; simpl; [constructor|].
  apply Forall_app; split; [apply IHn|]. repeat constructor; apply Z.mod_pos_bound; lia.
Qed.

Lemma be_decode_range bs : is_bytes bs -> 0 <= be_decode bs < 256 ^ Z.of_nat (length bs).
Proof.
  induction bs as [|b bs IH] using rev_ind; intros Hb; [unfold be_decode; simpl; lia|].
  apply Forall_app in Hb as [Hbs Hb]. inversion Hb; subst. specialize (IH Hbs).
  rewrite be_decode_app, length_app, Nat2Z.inj_add, Z.pow_add_r by lia.
  unfold in_width in *. cbn. nia.
Qed.

(** Decoding is injective on byte strings of one length: encoding gives them back. *)
Lemma be_encode_decode bs : is_bytes bs -> be_encode (length bs) (be_decode bs) = bs.
Proof.
  induction bs as [|b bs IH] using rev_ind; intros Hb; [done|].
  apply Forall_app in Hb as [Hbs Hb]. inversion Hb as [|? ? Hb' _]; subst.
  assert (Hd : be_decode (bs ++ [b]) = be_decode bs * 256 + b) by (rewrite be_decode_app; done).
  rewrite length_app, Nat.add_comm, Hd. unfold in_width in Hb'. simpl.
  rewrite Z.div_add_l, (Z.div_small b), Z.add_0_r by lia.
  rewrite (Z.add_comm _ b), Z_mod_plus_full, Z.mod_small by lia.
  by rewrite IH.
Qed.

Lemma u16_be_roundtrip x : in_width 16 x -> be_decode (u16_be x) = x.
Proof. intros H. apply be_decode_encode. exact H. Qed.
Lemma u32_be_roundtrip x : in_width 32 x -> be_decode (u32_be x) = x.
Proof. intros H. apply be_decode_encode. exact H. Qed.
Lemma u64_be_roundtrip x : in_width 64 x -> be_decode (u64_be x) = x.
Proof. intros H. apply be_decode_encode. exact H. Qed.
Lemma uuid_bytes_roundtrip x : in_width 128 x -> be_decode (uuid_bytes x) = x.
Proof. intros H. apply be_decode_encode. exact H. Qed.

Lemma slice_app_exact {A} (p l q : list A) (a b : nat) :
  length p = a -> length l = (b - a)%nat -> slice a b (p ++ l ++ q) = l.
Proof. intros <- Hl. unfold slice. rewrite drop_app_length, <- Hl. apply take_app_length. Qed.

Lemma slice_app_end {A} (p l : list A) (a b : nat) :
  length p = a -> length l = (b - a)%nat -> slice a b (p ++ l) = l.
Proof. intros <- Hl. unfold slice. rewrite drop_app_length, <- Hl. apply firstn_all. Qed.

Lemma take_z_all {A} n (l : list A) : Z.of_nat (length l) <= n -> take_z n l = l.
Proof. intros Hn. unfold take_z. apply take_ge. lia. Qed.

Lemma insert_alter {K A} `{Countable K} (f : A -> A) (m : gmap K A) k x :
  m !! k = Some x -> <[k := f x]> m = alter f k m.
Proof.
  intros Hk. apply map_eq. intros j. destruct (decide (k = j)) as [<-|Hne].
  - by rewrite lookup_insert_eq, lookup_alter_eq, Hk.
  - by rewrite lookup_insert_ne, lookup_alter_ne.
Qed.

Lemma alter_absent {K A} `{Countable K} (f : A -> A) (m : gmap K A) k :
  m !! k = None -> alter f k m = m.
Proof.
  intros Hk. apply map_eq. intros j. destruct (decide (k = j)) as [<-|Hne].
  - by rewrite lookup_alter_eq, Hk.
  - by rewrite lookup_alter_ne.
Qed.

Lemma map_sum_empty {K A} `{Countable K} (f : A -> Z) : map_sum f (∅ : gmap K A) = 0.
Proof. apply map_fold_empty. Qed.

Lemma map_sum_insert {K A} `{Countable K} (f : A -> Z) (m : gmap K A) k x :
  m !! k = None -> map_sum f (<[k:=x]> m) = f x + map_sum f m.
Proof.
  intros Hk. unfold map_sum.
  rewrite (map_fold_insert_L (fun _ x acc => f x + acc) 0 k x m); [done|intros; lia|done].
Qed.

Lemma map_sum_delete {K A} `{Countable K} (f : A -> Z) (m : gmap K A) k x :
  m !! k = Some x -> map_sum f (delete k m) = map_sum f m - f x.
Proof.
  intros Hk. rewrite <- (insert_delete_id m k x) at 2 by done.
  rewrite map_sum_insert by apply lookup_delete_eq. lia.
Qed.

Lemma map_sum_delete_none {K A} `{Countable K} (f : A -> Z) (m : gmap K A) k :
  m !! k = None -> map_sum f (delete k m) = map_sum f m.
Proof. intros Hk. by rewrite delete_id. Qed.

(** Replacing an entry shifts the sum by the difference of the two values. *)
Lemma map_sum_update {K A} `{Countable K} (f : A -> Z) (m : gmap K A) k x y :
  m !! k = Some x -> map_sum f (<[k:=y]> m) = map_sum f m - f x + f y.
Proof.
  intros Hk. rewrite <- insert_delete_eq, map_sum_insert by apply lookup_delete_eq.
  rewrite (map_sum_delete f m k x Hk). lia.
Qed.

Lemma map_sum_nonneg {K A} `{Countable K} (f : A -> Z) (m : gmap K A) :
  (forall k x, m !! k = Some x -> 0 <= f x) -> 0 <= map_sum f m.
Proof.
  induction m as [|k x m Hk IH] using map_ind; intros Hf; [rewrite map_sum_empty; lia|].
  rewrite map_sum_insert by done.
  specialize (Hf k x (lookup_insert_eq m k x)) as Hx.
  assert (0 <= map_sum f m); [|lia].
  apply IH. intros k' x' Hk'. apply (Hf k'). rewrite lookup_insert_ne; [done|congruence].
Qed.

(** One entry of a map of non-negative values is bounded by the sum. *)
Lemma map_sum_lookup_le {K A} `{Countable K} (f : A -> Z) (m : gmap K A) k x :
  (forall k x, m !! k = Some x -> 0 <= f x) -> m !! k = Some x -> f x <= map_sum f m.
Proof.
  intros Hf Hk. pose proof (map_sum_delete f m k x Hk) as Hd.
  assert (0 <= map_sum f (delete k m)); [|lia].
  apply map_sum_nonneg. intros k' x' Hk'. apply lookup_delete_Some in Hk' as [_ Hk']. eauto.
Qed.

Lemma list_sum_app l1 l2 : list_sum (l1 ++ l2) = list_sum l1 + list_sum l2.
Proof. induction l1; simpl; lia. Qed.

Lemma list_sum_perm l1 l2 : l1 ≡ₚ l2 -> list_sum l1 = list_sum l2.
Proof. unfold list_sum. induction 1; simpl; lia. Qed.

(** The sum over the values of a map that satisfy a test. *)
Lemma map_sum_filter_list {K A} `{Countable K} (f : A -> Z) (p : A -> bool) (m : gmap K A) :
  list_sum (map f (filter (fun x => p x = true) (map snd (map_to_list m))))
  = map_sum f (filter (fun kx : K * A => p kx.2 = true) m).
Proof.
  induction m as [|k x m Hk IH] using map_ind; [by rewrite map_to_list_empty, map_filter_empty, map_sum_empty|].
  rewrite (list_sum_perm _ (map f (filter (fun x => p x = true) (x :: map snd (map_to_list m))))).
  2: { apply Permutation_map. change (x :: map snd (map_to_list m)) with (map snd ((k, x) :: map_to_list m)).
       by rewrite map_to_list_insert. }
  rewrite filter_cons. destruct (decide (p x = true)) as [Hp|Hp].
  - rewrite map_filter_insert_True by done. rewrite map_sum_insert.
    + cbn [map]. change (list_sum (?a :: ?l)) with (a + list_sum l). by rewrite IH.
    + apply map_lookup_filter_None. by left.
  - rewrite map_filter_insert_False by done. by rewrite delete_id, IH.
Qed.

#[export] Hint Rewrite be_encode_length @length_app : meow.
#[export] Hint Resolve be_encode_bytes wrap_range : meow.
#[export] Hint Resolve u16_be_roundtrip u32_be_roundtrip u64_be_roundtrip
  uuid_bytes_roundtrip : meow.
