(* ===== verification/Errors.v ===== *)
(** * Error values

    The error enums of [commons/src/error]: [MDSFTPError] of the node-to-node protocol,
    [MeowithIoError] of the fragment ledger, [ProtocolError] of the protocol framework, and
    the conversions between them.  Boxed foreign errors carried for logging only are
    dropped from the constructors. *)
From stdpp Require Import base decidable.
From S2P Require Import Prelude.
Local Open Scope Z_scope.

Inductive MDSFTPError : Type :=
| ConnectionError
| SSLError
| NoSuchNode
| AddressResolutionError
| ConnectionAuthenticationError
| NoSuchChunkId
| ReserveError (max_space : u64)
| ReservationError
| BadChunkRange
| MaxChannels
| Interrupted
| ShuttingDown
| RemoteError
| NoPacketHandler
| NoPool
| Internal.

#[global] Instance MDSFTPError_eq_dec : EqDecision MDSFTPError.
Proof. solve_decision. Defined.

Abbreviation MDSFTPResult A := (result MDSFTPError A).

Inductive MeowithIoError : Type :=
| IoNotFound
| IoInternal
| InvalidDataDir
| InsufficientDiskSpace
| Paused.

#[global] Instance MeowithIoError_eq_dec : EqDecision MeowithIoError.
Proof. solve_decision. Defined.

Abbreviation MeowithIoResult A := (result MeowithIoError A).

Inductive ProtocolError : Type :=
| PShuttingDown
| PConnectionError
| PAuthenticationFailed
| PWriteError
| PInvalidFormat
| PSizeMismatch
| PReadError
| PUuid
| PAmbiguous
| PCustom.

#[global] Instance ProtocolError_eq_dec : EqDecision ProtocolError.
Proof. solve_decision. Defined.

(** [impl From<ProtocolError> for MDSFTPError] *)
Definition mdsftp_of_protocol (e : ProtocolError) : MDSFTPError :=
  match e with
  | PShuttingDown => ShuttingDown
  | PConnectionError => ConnectionError
  | PAuthenticationFailed => ConnectionAuthenticationError
  | PWriteError | PInvalidFormat | PSizeMismatch | PReadError
  | PUuid | PAmbiguous | PCustom => ConnectionError
  end.

(** The errors a client of the node sees; their messages are dropped. *)
Inductive NodeClientError : Type :=
| NcInternalError
| NcBadRequest
| NcBadResourcePath
| NcNotFound
| NcEntityExists
| NcNoSuchSession
| NcBadAuth
| NcInsufficientStorage
| NcProtocolError
| NcNotEmpty
| NcRangeUnsatisfiable.

#[global] Instance NodeClientError_eq_dec : EqDecision NodeClientError.
Proof. solve_decision. Defined.

Abbreviation NodeClientResponse A := (result NodeClientError A).

Definition client_of_io (e : MeowithIoError) : NodeClientError :=
  match e with IoNotFound => NcNotFound | _ => NcInternalError end.

Definition client_of_mdsftp (e : MDSFTPError) : NodeClientError :=
  match e with ReserveError _ => NcInsufficientStorage | _ => NcInternalError end.
