(* ===== verification/MdsftpData.v ===== *)
(** * MDSFTP data types

    [protocol/src/mdsftp/data.rs]: the flag bytes and enums carried inside MDSFTP payloads,
    and [ChunkRange]. *)
From Stdlib Require Import ZArith Lia.
From stdpp Require Import base numbers decidable.
From S2P Require Import Prelude Errors.
Local Open Scope Z_scope.

Inductive LockKind : Type := LockRead | LockWrite.

Definition LockKind_of_u8 (value : u8) : LockKind :=
  if decide (Z.land value 1 = 0) then LockRead else LockWrite.

Definition u8_of_LockKind (value : LockKind) : u8 :=
  match value with LockRead => 0 | LockWrite => 1 end.

Inductive ChunkErrorKind : Type := NotAvailable | NotFound.

Definition MDSFTPError_of_ChunkErrorKind (value : ChunkErrorKind) : MDSFTPError :=
  match value with NotAvailable => RemoteError | NotFound => NoSuchChunkId end.

Definition ChunkErrorKind_of_u8 (value : u8) : ChunkErrorKind :=
  let v := Z.land value 2 in
  if decide (v = 0) then NotAvailable
  else if decide (v = 2) then NotFound
  else NotAvailable.

Definition u8_of_ChunkErrorKind (value : ChunkErrorKind) : u8 :=
  match value with NotAvailable => 0 | NotFound => 2 end.

Record ReserveFlags : Type := mkReserveFlags {
  auto_start : bool;
  durable : bool;
  temp : bool;
  overwrite : bool
}.

Definition u8_of_ReserveFlags (value : ReserveFlags) : u8 :=
  bool_u8 (auto_start value)
  + Z.shiftl (bool_u8 (durable value)) 1
  + Z.shiftl (bool_u8 (temp value)) 2
  + Z.shiftl (bool_u8 (overwrite value)) 3.

Definition ReserveFlags_of_u8 (value : u8) : ReserveFlags :=
  {| auto_start := bool_decide (Z.land value 1 <> 0);
     durable := bool_decide (Z.land value 2 <> 0);
     temp := bool_decide (Z.land value 4 <> 0);
     overwrite := bool_decide (Z.land value 8 <> 0) |}.

Record PutFlags : Type := mkPutFlags { append : bool }.

Definition u8_of_PutFlags (value : PutFlags) : u8 := bool_u8 (append value).

Definition PutFlags_of_u8 (value : u8) : PutFlags :=
  {| append := bool_decide (Z.land value 1 <> 0) |}.

Record CommitFlags : Type := mkCommitFlags {
  reject : bool;
  keep_alive : bool;
  final : bool
}.

Definition CommitFlags_reject : CommitFlags := mkCommitFlags true false false.
Definition CommitFlags_keep_alive : CommitFlags := mkCommitFlags false true false.
Definition CommitFlags_final : CommitFlags := mkCommitFlags false false true.

Definition u8_of_CommitFlags (value : CommitFlags) : u8 :=
  Z.lor (Z.lor (bool_u8 (reject value)) (Z.shiftl (bool_u8 (keep_alive value)) 1))
        (Z.shiftl (bool_u8 (final value)) 2).

Definition CommitFlags_of_u8 (value : u8) : CommitFlags :=
  {| reject := bool_decide (Z.land value 1 <> 0);
     keep_alive := bool_decide (Z.land value 2 <> 0);
     final := bool_decide (Z.land value 4 <> 0) |}.

Record ReserveResult : Type := mkReserveResult {
  rr_chunk_id : Uuid;
  rr_chunk_buffer : u16
}.

Record LockAcquireResult : Type := mkLockAcquireResult {
  lar_kind : LockKind;
  lar_chunk_id : Uuid
}.

Record PutResult : Type := mkPutResult { pr_chunk_buffer : u16 }.

Record QueryResult : Type := mkQueryResult { qr_size : u64 }.

Record CommitResult : Type := mkCommitResult {}.

(** [start] inclusive, [end] exclusive. *)
Record ChunkRange : Type := mkChunkRange { range_start : u64; range_end : u64 }.

Definition ChunkRange_default : ChunkRange := mkChunkRange 0 0.

Definition ChunkRange_new (start end_ : u64) : MDSFTPResult ChunkRange :=
  if decide (end_ <= start) then Err BadChunkRange else Ok (mkChunkRange start end_).

Definition ChunkRange_size (r : ChunkRange) : u64 := u64_sub (range_end r) (range_start r).

Definition ChunkRange_into_option (r : ChunkRange) : option ChunkRange :=
  if decide (u64_add (range_start r) (range_end r) <> 0) then Some r else None.

#[global] Instance LockKind_eq_dec : EqDecision LockKind.
Proof. solve_decision. Defined.
#[global] Instance ChunkErrorKind_eq_dec : EqDecision ChunkErrorKind.
Proof. solve_decision. Defined.
#[global] Instance ReserveFlags_eq_dec : EqDecision ReserveFlags.
Proof. solve_decision. Defined.
#[global] Instance PutFlags_eq_dec : EqDecision PutFlags.
Proof. solve_decision. Defined.
#[global] Instance CommitFlags_eq_dec : EqDecision CommitFlags.
Proof. solve_decision. Defined.
#[global] Instance ReserveResult_eq_dec : EqDecision ReserveResult.
Proof. solve_decision. Defined.
#[global] Instance LockAcquireResult_eq_dec : EqDecision LockAcquireResult.
Proof. solve_decision. Defined.
#[global] Instance PutResult_eq_dec : EqDecision PutResult.
Proof. solve_decision. Defined.
#[global] Instance QueryResult_eq_dec : EqDecision QueryResult.
Proof. solve_decision. Defined.
#[global] Instance CommitResult_eq_dec : EqDecision CommitResult.
Proof. solve_decision. Defined.
#[global] Instance ChunkRange_eq_dec : EqDecision ChunkRange.
Proof. solve_decision. Defined.

(** What the rest of the code relies on for a type sent as one byte: encoding stays in a
    byte and decoding inverts it. *)
Class ByteCode (A : Type) := {
  to_u8 : A -> u8;
  of_u8 : u8 -> A;
  to_u8_byte : forall a, in_width 8 (to_u8 a);
  of_to_u8 : forall a, of_u8 (to_u8 a) = a
}.

#[global, refine] Instance LockKind_code : ByteCode LockKind :=
  { to_u8 := u8_of_LockKind; of_u8 := LockKind_of_u8 }.
Proof.
  - by intros [].
  - by intros [].
Defined.
#[global, refine] Instance ChunkErrorKind_code : ByteCode ChunkErrorKind :=
  { to_u8 := u8_of_ChunkErrorKind; of_u8 := ChunkErrorKind_of_u8 }.
Proof.
  - by intros [].
  - by intros [].
Defined.
#[global, refine] Instance ReserveFlags_code : ByteCode ReserveFlags :=
  { to_u8 := u8_of_ReserveFlags; of_u8 := ReserveFlags_of_u8 }.
Proof.
  - by intros [[] [] [] []].
  - by intros [[] [] [] []].
Defined.
#[global, refine] Instance PutFlags_code : ByteCode PutFlags :=
  { to_u8 := u8_of_PutFlags; of_u8 := PutFlags_of_u8 }.
Proof.
  - by intros [[]].
  - by intros [[]].
Defined.
#[global, refine] Instance CommitFlags_code : ByteCode CommitFlags :=
  { to_u8 := u8_of_CommitFlags; of_u8 := CommitFlags_of_u8 }.
Proof.
  - by intros [[] [] []].
  - by intros [[] [] []].
Defined.

(** ** Lemmas *)

(** A lock-error byte carries the lock kind in bit 0 and the error kind in bit 1, so each
    half decodes independently of the other. *)
Lemma lock_err_byte (k : LockKind) (e : ChunkErrorKind) :
  let b := Z.lor (u8_of_LockKind k) (u8_of_ChunkErrorKind e) in
  LockKind_of_u8 b = k /\ ChunkErrorKind_of_u8 b = e.
Proof. by destruct k, e. Qed.

Lemma ChunkRange_new_ok (start end_ : u64) r :
  ChunkRange_new start end_ = Ok r <-> start < end_ /\ r = mkChunkRange start end_.
Proof. unfold ChunkRange_new. case_decide; naive_solver lia. Qed.

(** A range that [ChunkRange::new] accepts has its exact, positive size. *)
Lemma ChunkRange_size_new (start end_ : u64) r :
  in_width 64 start -> in_width 64 end_ ->
  ChunkRange_new start end_ = Ok r ->
  ChunkRange_size r = end_ - start /\ 0 < ChunkRange_size r.
Proof.
  intros Hs He [Hlt ->]%ChunkRange_new_ok. unfold ChunkRange_size. simpl.
  rewrite u64_sub_small by (unfold in_width in *; lia). lia.
Qed.

#[export] Hint Rewrite @of_to_u8 : meow.
