(* ===== verification/MdsftpWire.v ===== *)
(** * MDSFTP framing

    [protocol/src/mdsftp/net]: packet types, the nine byte header, payload pre-validation,
    the packet writer and the framing half of the packet reader.  A TLS stream is the list
    of bytes written to it so far and not read yet; [write_all] fails once the stream is
    closed and [read_exact] fails when fewer bytes are left than asked for. *)
From Stdlib Require Import ZArith Lia List.
From stdpp Require Import base numbers list decidable.
From S2P Require Import Prelude Errors MdsftpData.
Local Open Scope Z_scope.

Inductive MDSFTPPacketType : Type :=
| FileChunk | Retrieve | Put | RecvAck | DeleteChunk | Reserve | ReserveCancel
| ReserveOk | ReserveErr | LockReq | LockAcquire | LockErr | PutOk | PutErr
| Commit | CommitOk | CommitErr | Query | QueryResponse
| ChannelOpen | ChannelClose | ChannelErr.

#[global] Instance MDSFTPPacketType_eq_dec : EqDecision MDSFTPPacketType.
Proof. solve_decision. Defined.

(** The discriminants ([IntoPrimitive]). *)
Definition packet_type_id (t : MDSFTPPacketType) : u8 :=
  match t with
  | FileChunk => 1 | Retrieve => 2 | Put => 3 | RecvAck => 4 | DeleteChunk => 5
  | Reserve => 6 | ReserveCancel => 7 | ReserveOk => 8 | ReserveErr => 9
  | LockReq => 10 | LockAcquire => 11 | LockErr => 12 | PutOk => 13 | PutErr => 14
  | Commit => 15 | CommitOk => 16 | CommitErr => 17 | Query => 18 | QueryResponse => 19
  | ChannelOpen => 128 | ChannelClose => 129 | ChannelErr => 130
  end.

Definition all_packet_types : list MDSFTPPacketType :=
  [FileChunk; Retrieve; Put; RecvAck; DeleteChunk; Reserve; ReserveCancel; ReserveOk;
   ReserveErr; LockReq; LockAcquire; LockErr; PutOk; PutErr; Commit; CommitOk; CommitErr;
   Query; QueryResponse; ChannelOpen; ChannelClose; ChannelErr].

(** [MDSFTPPacketType::try_from] ([TryFromPrimitive]): the variant of that discriminant. *)
Definition packet_type_try_from (id : u8) : option MDSFTPPacketType :=
  find (fun t => bool_decide (packet_type_id t = id)) all_packet_types.

Definition is_system (t : MDSFTPPacketType) : bool := bool_decide (128 <= packet_type_id t).

Definition payload_size_of (t : MDSFTPPacketType) : u32 :=
  match t with
  | FileChunk => 6 | Retrieve => 34 | Put => 25 | RecvAck => 4 | Reserve => 9 + 16 + 16
  | ReserveCancel => 16 | ReserveOk => 18 | ReserveErr => 8 | LockReq => 17
  | LockAcquire => 17 | LockErr => 17 | ChannelOpen => 0 | ChannelClose => 0
  | ChannelErr => 0 | DeleteChunk => 16 | PutOk => 2 | PutErr => 1 | Commit => 17
  | Query => 16 | QueryResponse => 9 | CommitOk => 0 | CommitErr => 1
  end.

Definition HEADER_SIZE : nat := 9.
Definition PAYLOAD_SIZE : Z := 2 ^ 32 - 1.

Record MDSFTPHeader : Type := mkHeader {
  packet_id : u8;
  stream_id : u32;
  payload_size : u32
}.

Record MDSFTPRawPacket : Type := mkRaw {
  packet_type : MDSFTPPacketType;
  raw_stream_id : u32;
  payload : list u8
}.

#[global] Instance MDSFTPRawPacket_eq_dec : EqDecision MDSFTPRawPacket.
Proof. solve_decision. Defined.

Definition read_header (raw : list u8) : MDSFTPHeader :=
  {| packet_id := nth 0 raw 0;
     stream_id := be_decode (slice 1 5 raw);
     payload_size := be_decode (slice 5 9 raw) |}.

Definition write_header (header : MDSFTPHeader) (buf : list u8) : list u8 :=
  let buf := <[0%nat := packet_id header]> buf in
  let buf := list_inserts 1 (u32_be (stream_id header)) buf in
  list_inserts 5 (u32_be (payload_size header)) buf.

Definition pre_validate (t : MDSFTPPacketType) (header : MDSFTPHeader) : bool :=
  match t with
  | FileChunk => bool_decide (payload_size_of t <= payload_size header)
  | _ => bool_decide (payload_size_of t = payload_size header)
  end.

(** ** Writer *)
Record WriteStream : Type := mkWriteStream { ws_sent : list u8; ws_open : bool }.

Definition write_all (bs : list u8) (s : WriteStream) : WriteStream * result unit unit :=
  if ws_open s then (mkWriteStream (ws_sent s ++ bs) true, Ok tt) else (s, Err tt).

Record PacketWriter : Type := mkWriter {
  w_stream : WriteStream;
  w_header_buf : list u8;
  w_last_write : Z
}.

Definition PacketWriter_new (stream : WriteStream) (now : Z) : PacketWriter :=
  mkWriter stream (replicate HEADER_SIZE 0) now.

(** Writes the parts in order, stopping at the first failure (the [?] after each). *)
Fixpoint write_parts (parts : list (list u8)) (s : WriteStream)
  : WriteStream * result unit unit :=
  match parts with
  | [] => (s, Ok tt)
  | bs :: rest =>
      match write_all bs s with
      | (s', Ok _) => write_parts rest s'
      | (s', Err e) => (s', Err e)
      end
  end.

(** [None] is the panic on an oversized payload. *)
Definition write_raw_packet (now : Z) (data : MDSFTPRawPacket) (w : PacketWriter)
  : option (PacketWriter * result unit unit) :=
  if decide (PAYLOAD_SIZE < Z.of_nat (length (payload data))) then None
  else
    let buf := write_header
      {| packet_id := packet_type_id (packet_type data);
         stream_id := raw_stream_id data;
         payload_size := wrap 32 (Z.of_nat (length (payload data))) |} (w_header_buf w) in
    let '(s, r) := write_parts [buf; payload data] (w_stream w) in
    Some (mkWriter s buf now, r).

Definition write_chunk (now : Z) (sid : u32) (payload_header content : list u8)
    (w : PacketWriter) : PacketWriter * result unit unit :=
  let total_size := wrap 32 (Z.of_nat (length payload_header + length content)) in
  let buf := write_header
    {| packet_id := packet_type_id FileChunk; stream_id := sid; payload_size := total_size |}
    (w_header_buf w) in
  let '(s, r) := write_parts [buf; payload_header; content] (w_stream w) in
  (mkWriter s buf now, r).

(** ** Reader: framing of one packet *)
Definition read_exact (n : nat) (stream : list u8) : option (list u8 * list u8) :=
  if decide (n <= length stream)%nat then Some (take n stream, drop n stream) else None.

Inductive ReadOutcome : Type :=
| HeaderReadFailed
| PacketTypeReadFailed
| PreValidateFailed
| PayloadReadFailed
| ReadPacket (raw : MDSFTPRawPacket) (rest : list u8).

(** One iteration of the reader loop up to the dispatch of the packet. *)
Definition read_packet (stream : list u8) : ReadOutcome :=
  match read_exact HEADER_SIZE stream with
  | None => HeaderReadFailed
  | Some (header_buf, stream) =>
      let header := read_header header_buf in
      match packet_type_try_from (packet_id header) with
      | None => PacketTypeReadFailed
      | Some t =>
          if negb (pre_validate t header) then PreValidateFailed
          else match read_exact (Z.to_nat (payload_size header)) stream with
               | None => PayloadReadFailed
               | Some (pl, stream) =>
                   if decide (Z.of_nat (length pl) <> payload_size header)
                   then PayloadReadFailed
                   else ReadPacket {| packet_type := t; raw_stream_id := stream_id header;
                                      payload := pl |} stream
               end
      end
  end.

(** Every packet the reader gets out of a byte stream, and the outcome it stops with. *)
Fixpoint read_packets (fuel : nat) (stream : list u8) : list MDSFTPRawPacket * ReadOutcome :=
  match fuel with
  | O => ([], read_packet stream)
  | S fuel =>
      match read_packet stream with
      | ReadPacket p rest => let '(ps, o) := read_packets fuel rest in (p :: ps, o)
      | o => ([], o)
      end
  end.

(** ** Specification: a packet as bytes *)
Definition raw_bytes (p : MDSFTPRawPacket) : list u8 :=
  packet_type_id (packet_type p) :: u32_be (raw_stream_id p)
    ++ u32_be (Z.of_nat (length (payload p))) ++ payload p.

(** The packets a peer may send: a size the reader accepts, bytes for payload. *)
Definition wf_raw (p : MDSFTPRawPacket) : Prop :=
  in_width 32 (raw_stream_id p) /\ is_bytes (payload p)
  /\ Z.of_nat (length (payload p)) <= PAYLOAD_SIZE
  /\ match packet_type p with
     | FileChunk => 6 <= Z.of_nat (length (payload p))
     | t => Z.of_nat (length (payload p)) = payload_size_of t
     end.

#[global] Instance wf_raw_dec p : Decision (wf_raw p).
Proof. unfold wf_raw, is_bytes. destruct (packet_type p); apply _. Defined.

(** Writing a sequence of packets. *)
Definition write_raw_packets (now : Z) (ps : list MDSFTPRawPacket) (w : PacketWriter)
    : option (PacketWriter * result unit unit) :=
  fold_left (fun acc p =>
    match acc with
    | Some (w, Ok _) => write_raw_packet now p w
    | _ => acc
    end) ps (Some (w, Ok tt)).

(** A writer ready for use: an open stream and the nine byte header buffer. *)
Definition writer_ready (w : PacketWriter) : Prop :=
  ws_open (w_stream w) = true /\ length (w_header_buf w) = HEADER_SIZE.

(** ** Lemmas *)
Lemma packet_type_try_from_id t : packet_type_try_from (packet_type_id t) = Some t.
Proof. by destruct t. Qed.

Lemma packet_type_try_from_Some id t :
  packet_type_try_from id = Some t <-> packet_type_id t = id.
Proof.
  split; [|intros <-; apply packet_type_try_from_id].
  unfold packet_type_try_from. intros [_ H]%find_some. by apply bool_decide_eq_true in H.
Qed.

Lemma write_header_bytes h buf :
  length buf = HEADER_SIZE ->
  write_header h buf = packet_id h :: u32_be (stream_id h) ++ u32_be (payload_size h).
Proof.
  intros Hl. do 9 (destruct buf as [|? buf]; [done|]). destruct buf; [|done]. done.
Qed.

Lemma read_header_bytes t sid n rest :
  in_width 32 sid -> in_width 32 n ->
  read_header (take HEADER_SIZE (packet_type_id t :: u32_be sid ++ u32_be n ++ rest))
  = mkHeader (packet_type_id t) sid n.
Proof.
  intros Hs Hn. unfold read_header. f_equal.
  - rewrite <- (u32_be_roundtrip sid Hs) at 2. done.
  - rewrite <- (u32_be_roundtrip n Hn) at 2. done.
Qed.

Lemma read_exact_app n l rest : length l = n -> read_exact n (l ++ rest) = Some (l, rest).
Proof.
  intros <-. unfold read_exact. rewrite decide_True by (rewrite length_app; lia).
  by rewrite take_app_length, drop_app_length.
Qed.

Lemma read_exact_Some n s l rest :
  read_exact n s = Some (l, rest) -> s = l ++ rest /\ length l = n.
Proof.
  unfold read_exact. case_decide; intros [= <- <-]. split; [by rewrite take_drop|].
  rewrite length_take. lia.
Qed.

Lemma pre_validate_wf p :
  wf_raw p ->
  pre_validate (packet_type p)
    (mkHeader (packet_type_id (packet_type p)) (raw_stream_id p)
       (Z.of_nat (length (payload p)))) = true.
Proof.
  intros (_ & _ & _ & H). unfold pre_validate. destruct (packet_type p);
    apply bool_decide_eq_true; simpl in *; done.
Qed.

Lemma read_packet_raw_bytes p rest :
  wf_raw p -> read_packet (raw_bytes p ++ rest) = ReadPacket p rest.
Proof.
  intros Hwf. pose proof Hwf as (Hs & Hb & Hl & _). unfold PAYLOAD_SIZE in Hl.
  assert (Hn : in_width 32 (Z.of_nat (length (payload p)))) by (unfold in_width; lia).
  unfold read_packet, raw_bytes.
  change ((packet_type_id (packet_type p) :: u32_be (raw_stream_id p) ++
    u32_be (Z.of_nat (length (payload p))) ++ payload p) ++ rest)
  with ((packet_type_id (packet_type p) :: u32_be (raw_stream_id p) ++
    u32_be (Z.of_nat (length (payload p)))) ++ payload p ++ rest).
  rewrite read_exact_app by done.
  pose proof (read_header_bytes (packet_type p) _ _ [] Hs Hn) as Hr.
  rewrite app_nil_r in Hr. change (take HEADER_SIZE ?l) with l in Hr. rewrite Hr.
  cbn [packet_id stream_id payload_size].
  rewrite packet_type_try_from_id, pre_validate_wf by done. cbn [negb].
  rewrite Nat2Z.id, read_exact_app by done. rewrite decide_False by lia. by destruct p.
Qed.

Lemma be_slice4 a (h : list u8) :
  is_bytes h -> (a + 4 <= length h)%nat ->
  u32_be (be_decode (slice a (a + 4) h)) = slice a (a + 4) h
  /\ in_width 32 (be_decode (slice a (a + 4) h)).
Proof.
  intros Hb Hl. set (l := slice a (a + 4) h).
  assert (Hlen : length l = 4%nat) by (unfold l, slice; rewrite length_take, length_drop; lia).
  assert (Hbl : is_bytes l) by (apply Forall_take, Forall_drop, Hb).
  split; [unfold u32_be; rewrite <- Hlen; by apply be_encode_decode|].
  pose proof (be_decode_range l Hbl) as Hr. by rewrite Hlen in Hr.
Qed.

(** Nine bytes are the header they decode to, re-encoded. *)
Lemma read_header_inv h :
  is_bytes h -> length h = HEADER_SIZE ->
  h = packet_id (read_header h) :: u32_be (stream_id (read_header h))
        ++ u32_be (payload_size (read_header h))
  /\ in_width 32 (stream_id (read_header h)) /\ in_width 32 (payload_size (read_header h)).
Proof.
  intros Hb Hl. cbn [packet_id stream_id payload_size read_header].
  destruct (be_slice4 1 h Hb) as [E1 W1]; [rewrite Hl; unfold HEADER_SIZE; lia|].
  destruct (be_slice4 5 h Hb) as [E2 W2]; [rewrite Hl; unfold HEADER_SIZE; lia|].
  simpl Nat.add in *. rewrite E1, E2. split; [|done].
  do 9 (destruct h as [|? h]; [done|]). by destruct h.
Qed.

(** Framing is canonical: the bytes consumed for a packet are exactly the bytes a writer
    produces for it. *)
Lemma read_packet_inv s p rest :
  is_bytes s -> read_packet s = ReadPacket p rest -> s = raw_bytes p ++ rest /\ wf_raw p.
Proof.
  intros Hb. unfold read_packet.
  destruct (read_exact HEADER_SIZE s) as [[h s']|] eqn:Hh; [|done].
  apply read_exact_Some in Hh as [-> Hlh].
  destruct (packet_type_try_from _) as [t|] eqn:Ht; [|done].
  apply packet_type_try_from_Some in Ht.
  destruct (pre_validate t _) eqn:Hp; [|done]. cbn [negb].
  destruct (read_exact _ s') as [[pl r]|] eqn:Hpl; [|done].
  apply read_exact_Some in Hpl as [-> Hlen]. case_decide; [done|]. intros [= <- <-].
  apply Forall_app in Hb as [Hbh [Hbp Hbr]%Forall_app].
  assert (Hsz : Z.of_nat (length pl) = payload_size (read_header h)) by lia.
  destruct (read_header_inv h Hbh Hlh) as (Heq & Hws & Hwp).
  unfold raw_bytes, wf_raw. cbn [packet_type raw_stream_id payload]. rewrite Hsz, Ht.
  split; [rewrite Heq at 1; by rewrite <- !app_comm_cons, <- !app_assoc|].
  split_ands; [done|done|unfold PAYLOAD_SIZE, in_width in *; lia|].
  unfold pre_validate in Hp. destruct t; apply bool_decide_eq_true in Hp; cbn in *; lia.
Qed.

(** What [write_raw_packet] puts on an open stream. *)
Lemma write_raw_packet_open now p w :
  Z.of_nat (length (payload p)) <= PAYLOAD_SIZE ->
  ws_open (w_stream w) = true -> length (w_header_buf w) = HEADER_SIZE ->
  exists w', write_raw_packet now p w = Some (w', Ok tt)
    /\ ws_sent (w_stream w') = ws_sent (w_stream w) ++ raw_bytes p
    /\ ws_open (w_stream w') = true /\ length (w_header_buf w') = HEADER_SIZE
    /\ w_last_write w' = now.
Proof.
  intros Hl Ho Hb. unfold write_raw_packet. rewrite decide_False by lia.
  rewrite write_header_bytes by done. cbn [packet_id stream_id payload_size].
  rewrite wrap_small by (unfold PAYLOAD_SIZE, in_width in *; lia).
  unfold write_parts, write_all. rewrite Ho. eexists. split; [done|]. cbn -[u32_be app].
  unfold raw_bytes. rewrite <- !app_assoc, <- !app_comm_cons, <- !app_assoc. done.
Qed.

(** A chunk is framed like the raw packet of its two parts, as long as they fit a payload. *)
Lemma write_chunk_open now sid ph content w :
  Z.of_nat (length ph + length content) <= PAYLOAD_SIZE ->
  ws_open (w_stream w) = true -> length (w_header_buf w) = HEADER_SIZE ->
  exists w', write_chunk now sid ph content w = (w', Ok tt)
    /\ ws_sent (w_stream w')
       = ws_sent (w_stream w) ++ raw_bytes (mkRaw FileChunk sid (ph ++ content))
    /\ ws_open (w_stream w') = true /\ length (w_header_buf w') = HEADER_SIZE
    /\ w_last_write w' = now.
Proof.
  intros Hl Ho Hb. unfold write_chunk.
  rewrite write_header_bytes by done. cbn [packet_id stream_id payload_size].
  rewrite wrap_small by (unfold PAYLOAD_SIZE, in_width in *; lia).
  unfold write_parts, write_all. rewrite Ho. eexists. split; [done|]. cbn -[u32_be app].
  unfold raw_bytes. cbn [packet_type raw_stream_id payload].
  rewrite length_app. rewrite <- !app_assoc, <- !app_comm_cons, <- !app_assoc. done.
Qed.

Lemma read_packets_raw_bytes ps fuel :
  Forall wf_raw ps -> (length ps <= fuel)%nat ->
  read_packets fuel (concat (map raw_bytes ps)) = (ps, HeaderReadFailed).
Proof.
  intros Hps. revert fuel. induction Hps as [|p ps Hp Hps IH]; intros fuel Hf.
  - by destruct fuel.
  - destruct fuel as [|fuel]; [simpl in Hf; lia|]. cbn [map concat read_packets].
    rewrite read_packet_raw_bytes by done. rewrite IH by (simpl in Hf; lia). done.
Qed.

Lemma raw_bytes_length p : length (raw_bytes p) = (HEADER_SIZE + length (payload p))%nat.
Proof.
  unfold raw_bytes, u32_be. cbn [length]. rewrite !length_app, !be_encode_length.
  unfold HEADER_SIZE. lia.
Qed.

Lemma raw_bytes_is_bytes p : wf_raw p -> is_bytes (raw_bytes p).
Proof.
  intros (Hs & Hb & Hl & _). unfold raw_bytes. constructor; [by destruct (packet_type p)|].
  apply Forall_app; split; [apply be_encode_bytes|].
  apply Forall_app; split; [apply be_encode_bytes|done].
Qed.

(** Each packet consumes at least a header, so the stream's length is enough fuel. *)
Lemma read_packets_fuel fuel1 fuel2 s :
  (length s <= fuel1)%nat -> (length s <= fuel2)%nat ->
  read_packets fuel1 s = read_packets fuel2 s.
Proof.
  assert (Hnil : read_packet [] = HeaderReadFailed) by done.
  revert fuel2 s. induction fuel1 as [|f1 IH]; intros fuel2 s H1 H2.
  - destruct s; [|simpl in H1; lia]. destruct fuel2; simpl; by rewrite ?Hnil.
  - destruct fuel2 as [|f2]; [destruct s; [simpl; by rewrite Hnil|simpl in H2; lia]|].
    simpl. destruct (read_packet s) as [| | | |p rest] eqn:Hr; try done.
    assert (length rest < length s)%nat; [|rewrite (IH f2 rest); [done|lia|lia]].
    clear IH. revert Hr. unfold read_packet.
    destruct (read_exact HEADER_SIZE s) as [[h s']|] eqn:Hh; [|done].
    apply read_exact_Some in Hh as [-> Hlh].
    destruct (packet_type_try_from _); [|done]. destruct (negb _); [done|].
    destruct (read_exact _ s') as [[pl r]|] eqn:Hpl; [|done].
    apply read_exact_Some in Hpl as [-> _]. case_decide; [done|]. intros [= _ ->].
    rewrite !length_app, Hlh. unfold HEADER_SIZE. lia.
Qed.

Lemma write_raw_packets_open now ps w :
  Forall wf_raw ps -> writer_ready w ->
  exists w', write_raw_packets now ps w = Some (w', Ok tt) /\ writer_ready w'
    /\ ws_sent (w_stream w') = ws_sent (w_stream w) ++ concat (map raw_bytes ps).
Proof.
  intros Hps. revert w. induction Hps as [|p ps Hp Hps IH]; intros w [Ho Hb].
  - exists w. rewrite app_nil_r. done.
  - destruct (write_raw_packet_open now p w) as (w1 & E1 & S1 & O1 & B1 & _);
      [apply Hp|done|done|].
    destruct (IH w1) as (w2 & E2 & R2 & S2); [done|].
    exists w2. split_ands; [|done|].
    + unfold write_raw_packets in *. cbn [fold_left]. by rewrite E1.
    + cbn [map concat]. by rewrite S2, S1, <- app_assoc.
Qed.

(** C28: framing round trip.  Any sequence of packets of valid sizes written by
    [write_raw_packet] to a fresh open stream is read back by the reader as exactly the
    same sequence, in order, after which the reader finds the stream exhausted. *)
Theorem framing_roundtrip now ps w :
  Forall wf_raw ps -> writer_ready w -> ws_sent (w_stream w) = [] ->
  exists w', write_raw_packets now ps w = Some (w', Ok tt)
    /\ read_packets (length (ws_sent (w_stream w'))) (ws_sent (w_stream w'))
       = (ps, HeaderReadFailed).
Proof.
  intros Hps Hw He. destruct (write_raw_packets_open now ps w Hps Hw) as (w' & E & _ & Hs).
  exists w'. split; [done|]. rewrite He in Hs. simpl in Hs. rewrite Hs.
  rewrite <- (read_packets_raw_bytes ps (length ps + length (concat (map raw_bytes ps)))) by
    (done || lia).
  apply read_packets_fuel; lia.
Qed.

Lemma framing_roundtrip_witness :
  exists w', write_raw_packets 5
      [mkRaw Query 7 (uuid_bytes 3); mkRaw FileChunk 7 [1; 0; 0; 0; 9; 65]; mkRaw ChannelClose 7 []]
      (PacketWriter_new (mkWriteStream [] true) 0) = Some (w', Ok tt)
    /\ read_packets (length (ws_sent (w_stream w'))) (ws_sent (w_stream w'))
       = ([mkRaw Query 7 (uuid_bytes 3); mkRaw FileChunk 7 [1; 0; 0; 0; 9; 65];
           mkRaw ChannelClose 7 []], HeaderReadFailed).
Proof.
  apply framing_roundtrip; [|done|done].
  repeat apply Forall_cons_2; try apply Forall_nil_2; apply (bool_decide_unpack _); vm_compute; done.
Defined.

(** Framing is canonical and complete.  On a byte stream the reader accepts a packet
    [p] leaving [rest] exactly when the stream starts with the encoding of [p], a packet of
    a size the protocol allows, followed by [rest]: no two byte strings decode to one
    packet and nothing malformed gets past pre-validation. *)
Theorem framing_canonical s p rest :
  is_bytes s -> (read_packet s = ReadPacket p rest <-> s = raw_bytes p ++ rest /\ wf_raw p).
Proof.
  intros Hb. split; [by apply read_packet_inv|].
  intros [-> Hp]. by apply read_packet_raw_bytes.
Qed.

Lemma framing_canonical_witness :
  read_packet [4; 0; 0; 0; 9; 0; 0; 0; 4; 0; 0; 1; 0; 77] = ReadPacket (mkRaw RecvAck 9 [0; 0; 1; 0]) [77].
Proof.
  apply framing_canonical; [|split; [reflexivity|]];
    apply (bool_decide_unpack _); vm_compute; done.
Defined.
