(* ===== verification/MdsftpChannel.v ===== *)
(** * MDSFTP channels

    [protocol/src/mdsftp/channel.rs]: what each sender method puts in a payload, and how
    [handle_packet] takes a payload apart again, completes the pending request or calls the
    registered handler.  A pending request is the identity of the sender half of its mpsc
    channel; a delivery is a value sent to such a channel.  [None] is a panic. *)
From Stdlib Require Import ZArith Lia List.
From stdpp Require Import base numbers list decidable option.
From S2P Require Import Prelude Errors MdsftpData MdsftpWire.
Local Open Scope Z_scope.

(** ** Payloads of the sender methods *)
Definition request_lock (sid : u32) (kind : LockKind) (chunk_id : Uuid) : MDSFTPRawPacket :=
  mkRaw LockReq sid (to_u8 kind :: uuid_bytes chunk_id).

Definition try_reserve_packet (sid : u32) (desired : u64)
    (associated_file_id associated_bucket_id : Uuid) (flags : ReserveFlags)
    : MDSFTPRawPacket :=
  mkRaw Reserve sid
    (to_u8 flags :: u64_be desired ++ uuid_bytes associated_file_id
       ++ uuid_bytes associated_bucket_id).

Definition cancel_reserve (sid : u32) (chunk_id : Uuid) : MDSFTPRawPacket :=
  mkRaw ReserveCancel sid (uuid_bytes chunk_id).

Definition respond_lock_ok (sid : u32) (chunk_id : Uuid) (kind : LockKind)
    : MDSFTPRawPacket :=
  mkRaw LockAcquire sid (to_u8 kind :: uuid_bytes chunk_id).

Definition respond_lock_err (sid : u32) (chunk_id : Uuid) (kind : LockKind)
    (error_kind : ChunkErrorKind) : MDSFTPRawPacket :=
  mkRaw LockErr sid (Z.lor (to_u8 kind) (to_u8 error_kind) :: uuid_bytes chunk_id).

Definition respond_reserve_ok (sid : u32) (chunk_id : Uuid) (chunk_buffer : u16)
    : MDSFTPRawPacket :=
  mkRaw ReserveOk sid (uuid_bytes chunk_id ++ u16_be chunk_buffer).

Definition respond_reserve_err (sid : u32) (available_space : u64) : MDSFTPRawPacket :=
  mkRaw ReserveErr sid (u64_be available_space).

Definition respond_receive_ack (sid : u32) (chunk_id : u32) : MDSFTPRawPacket :=
  mkRaw RecvAck sid (u32_be chunk_id).

Definition respond_put_ok (sid : u32) (chunk_buffer : u16) : MDSFTPRawPacket :=
  mkRaw PutOk sid (u16_be chunk_buffer).

Definition query_chunk (sid : u32) (chunk_id : Uuid) : MDSFTPRawPacket :=
  mkRaw Query sid (uuid_bytes chunk_id).

Definition respond_query (sid : u32) (size : u64) (exists_ : bool) : MDSFTPRawPacket :=
  mkRaw QueryResponse sid (bool_u8 exists_ :: u64_be size).

Definition respond_put_err (sid : u32) (err : ChunkErrorKind) : MDSFTPRawPacket :=
  mkRaw PutErr sid [to_u8 err].

Definition retrieve_req (sid : u32) (chunk_id : Uuid) (chunk_buffer : u16)
    (range : option ChunkRange) : MDSFTPRawPacket :=
  let range := default ChunkRange_default range in
  mkRaw Retrieve sid
    (uuid_bytes chunk_id ++ u16_be chunk_buffer ++ u64_be (range_start range)
       ++ u64_be (range_end range)).

Definition delete_chunk (sid : u32) (chunk_id : Uuid) : MDSFTPRawPacket :=
  mkRaw DeleteChunk sid (uuid_bytes chunk_id).

Definition commit (sid : u32) (flags : CommitFlags) (chunk_id : Uuid) : MDSFTPRawPacket :=
  mkRaw Commit sid (to_u8 flags :: uuid_bytes chunk_id).

Definition respond_commit_err (sid : u32) (err : ChunkErrorKind) : MDSFTPRawPacket :=
  mkRaw CommitErr sid [to_u8 err].

Definition respond_commit_ok (sid : u32) : MDSFTPRawPacket := mkRaw CommitOk sid [].

Definition request_put (sid : u32) (flags : PutFlags) (chunk_id : Uuid) (size : u64)
    : MDSFTPRawPacket :=
  mkRaw Put sid (to_u8 flags :: uuid_bytes chunk_id ++ u64_be size).

(** The five byte prefix [send_chunk] writes before the content. *)
Definition chunk_header (is_last : bool) (id : u32) : list u8 :=
  (if is_last then 1 else 0) :: u32_be id.

Definition send_chunk (now : Z) (sid : u32) (is_last : bool) (id : u32) (content : list u8)
    (w : PacketWriter) : PacketWriter * MDSFTPResult unit :=
  let '(w, r) := write_chunk now sid (chunk_header is_last id) content w in
  (w, map_err (fun _ => ConnectionError) r).

(** ** Handler interface ([ChannelPacketHandler] of handler.rs) *)
Inductive HandlerCall : Type :=
| HandleFileChunk (content : list u8) (id : u32) (is_last : bool)
| HandleRetrieve (id : Uuid) (chunk_buffer : u16) (range : option ChunkRange)
| HandlePut (flags : PutFlags) (chunk_id : Uuid) (content_size : u64)
| HandleReserve (desired : u64) (associated_bucket_id associated_file_id : Uuid)
    (flags : ReserveFlags)
| HandleReserveCancel (chunk_id : Uuid)
| HandleLockReq (chunk_id : Uuid) (kind : LockKind)
| HandleReceiveAck (chunk_id : u32)
| HandleDeleteChunk (chunk_id : Uuid)
| HandleCommit (chunk_id : Uuid) (flags : CommitFlags)
| HandleQuery (chunk_id : Uuid).

Class ChannelPacketHandler (H : Type) := {
  handle_call : HandlerCall -> H -> H * MDSFTPResult unit;
  handle_interrupt : H -> H * MDSFTPResult unit
}.

(** ** Channel state *)
Abbreviation Sender := nat (only parsing).

Record Channel (H : Type) : Type := mkChannel {
  ch_id : u32;
  incoming_handler : option H;
  mdsftp_handler_channel : bool;
  handler_sender : option Sender;
  lock_sender : option Sender;
  reserve_sender : option Sender;
  put_sender : option Sender;
  query_sender : option Sender;
  commit_sender : option Sender
}.
Arguments mkChannel {H}.
Arguments ch_id {H}.
Arguments incoming_handler {H}.
Arguments mdsftp_handler_channel {H}.
Arguments handler_sender {H}.
Arguments lock_sender {H}.
Arguments reserve_sender {H}.
Arguments put_sender {H}.
Arguments query_sender {H}.
Arguments commit_sender {H}.

Definition Channel_new {H} (id : u32) : Channel H :=
  mkChannel id None false None None None None None None.

Inductive Delivery : Type :=
| ToLock (tx : Sender) (r : MDSFTPResult LockAcquireResult)
| ToReserve (tx : Sender) (r : MDSFTPResult ReserveResult)
| ToPut (tx : Sender) (r : MDSFTPResult PutResult)
| ToQuery (tx : Sender) (r : MDSFTPResult QueryResult)
| ToCommit (tx : Sender) (r : MDSFTPResult CommitResult)
| ToHandler (tx : Sender) (r : MDSFTPResult unit).

Definition set_handler {H} (h : option H) (c : Channel H) : Channel H :=
  mkChannel (ch_id c) h (mdsftp_handler_channel c) (handler_sender c) (lock_sender c)
    (reserve_sender c) (put_sender c) (query_sender c) (commit_sender c).
Definition set_handler_sender {H} (s : option Sender) (c : Channel H) : Channel H :=
  mkChannel (ch_id c) (incoming_handler c) (mdsftp_handler_channel c) s (lock_sender c)
    (reserve_sender c) (put_sender c) (query_sender c) (commit_sender c).
Definition set_lock_sender {H} (s : option Sender) (c : Channel H) : Channel H :=
  mkChannel (ch_id c) (incoming_handler c) (mdsftp_handler_channel c) (handler_sender c) s
    (reserve_sender c) (put_sender c) (query_sender c) (commit_sender c).
Definition set_reserve_sender {H} (s : option Sender) (c : Channel H) : Channel H :=
  mkChannel (ch_id c) (incoming_handler c) (mdsftp_handler_channel c) (handler_sender c)
    (lock_sender c) s (put_sender c) (query_sender c) (commit_sender c).
Definition set_put_sender {H} (s : option Sender) (c : Channel H) : Channel H :=
  mkChannel (ch_id c) (incoming_handler c) (mdsftp_handler_channel c) (handler_sender c)
    (lock_sender c) (reserve_sender c) s (query_sender c) (commit_sender c).
Definition set_query_sender {H} (s : option Sender) (c : Channel H) : Channel H :=
  mkChannel (ch_id c) (incoming_handler c) (mdsftp_handler_channel c) (handler_sender c)
    (lock_sender c) (reserve_sender c) (put_sender c) s (commit_sender c).
Definition set_commit_sender {H} (s : option Sender) (c : Channel H) : Channel H :=
  mkChannel (ch_id c) (incoming_handler c) (mdsftp_handler_channel c) (handler_sender c)
    (lock_sender c) (reserve_sender c) (put_sender c) (query_sender c) s.

(** [set_incoming_handler]: the new handler, its result channel and its handle. *)
Definition set_incoming_handler {H} (tx : Sender) (h : H) (c : Channel H) : Channel H :=
  mkChannel (ch_id c) (Some h) true (Some tx) (lock_sender c)
    (reserve_sender c) (put_sender c) (query_sender c) (commit_sender c).

(** [&payload[a..b]]: a panic when out of range. *)
Definition get_slice {A} (a b : nat) (l : list A) : option (list A) :=
  if decide (b <= length l)%nat then Some (slice a b l) else None.

(** [Uuid::from_bytes] and the [from_be_bytes] of a payload slice. *)
Definition get_be (a b : nat) (l : list u8) : option Z := be_decode <$> get_slice a b l.

(** ** Decoding of the packets a handler receives

    [Some (Ok None)] is the [_ => {}] arm; [Some (Err e)] an early return by [?]. *)
Definition decode_call (p : MDSFTPRawPacket) : option (MDSFTPResult (option HandlerCall)) :=
  let pl := payload p in
  match packet_type p with
  | FileChunk =>
      first ← pl !! 0%nat;
      chunk_id ← get_be 1 5 pl;
      Some (Ok (Some (HandleFileChunk (drop 5 pl) chunk_id (bool_decide (first = 1)))))
  | Retrieve =>
      chunk_id ← get_be 0 16 pl;
      chunk_buffer ← get_be 16 18 pl;
      start ← get_be 18 26 pl;
      end_ ← get_be 26 34 pl;
      Some (if decide (u64_add start end_ = 0)
            then Ok (Some (HandleRetrieve chunk_id chunk_buffer None))
            else result_bind (ChunkRange_new start end_)
                   (fun r => Ok (Some (HandleRetrieve chunk_id chunk_buffer (Some r)))))
  | Put =>
      flags ← pl !! 0%nat;
      chunk_id ← get_be 1 17 pl;
      size ← get_be 17 25 pl;
      Some (Ok (Some (HandlePut (of_u8 flags) chunk_id size)))
  | Reserve =>
      flags ← pl !! 0%nat;
      size ← get_be 1 9 pl;
      associated_file_id ← get_be 9 25 pl;
      associated_bucket_id ← get_be 25 41 pl;
      Some (Ok (Some (HandleReserve size associated_bucket_id associated_file_id (of_u8 flags))))
  | ReserveCancel =>
      chunk_id ← get_be 0 16 pl;
      Some (Ok (Some (HandleReserveCancel chunk_id)))
  | LockReq =>
      kind ← pl !! 0%nat;
      chunk_id ← get_be 1 17 pl;
      Some (Ok (Some (HandleLockReq chunk_id (of_u8 kind))))
  | RecvAck =>
      chunk_id ← get_be 0 4 pl;
      Some (Ok (Some (HandleReceiveAck chunk_id)))
  | DeleteChunk =>
      chunk_id ← get_be 0 16 pl;
      Some (Ok (Some (HandleDeleteChunk chunk_id)))
  | Commit =>
      flags ← pl !! 0%nat;
      chunk_id ← get_be 1 17 pl;
      Some (Ok (Some (HandleCommit chunk_id (of_u8 flags))))
  | Query =>
      chunk_id ← get_be 0 16 pl;
      Some (Ok (Some (HandleQuery chunk_id)))
  | _ => Some (Ok None)
  end.

(** ** Packet handling *)
Section handle.
  Context {H : Type} `{ChannelPacketHandler H}.
  (** Whether the receiver half of a pending request still exists. *)
  Variable alive : Sender -> bool.

(** [tx.send(..).await.unwrap()] *)
Definition deliver (tx : Sender) (d : Delivery) (c : Channel H)
    : option (Channel H * list Delivery * MDSFTPResult unit) :=
  if alive tx then Some (c, [d], Ok tt) else None.

(** The packets managed by the user: those the registered handler receives. *)
Definition handle_user_packet (p : MDSFTPRawPacket) (c : Channel H)
    : option (Channel H * list Delivery * MDSFTPResult unit) :=
  match incoming_handler c with
  | None => Some (c, [], Ok tt)
  | Some h =>
      if mdsftp_handler_channel c then
        call ← decode_call p;
        match call with
        | Err e => Some (c, [], Err e)
        | Ok None => Some (c, [], Ok tt)
        | Ok (Some call) =>
            let '(h', r) := handle_call call h in Some (set_handler (Some h') c, [], r)
        end
      else None
  end.

Definition handle_packet (p : MDSFTPRawPacket) (c : Channel H)
    : option (Channel H * list Delivery * MDSFTPResult unit) :=
  let pl := payload p in
  match packet_type p with
  | ReserveOk =>
      let c' := set_reserve_sender None c in
      match reserve_sender c with
      | Some tx =>
          chunk_id ← get_be 0 16 pl;
          chunk_buffer ← get_be 16 18 pl;
          deliver tx (ToReserve tx (Ok (mkReserveResult chunk_id chunk_buffer))) c'
      | None => Some (c', [], Ok tt)
      end
  | ReserveErr =>
      let c' := set_reserve_sender None c in
      match reserve_sender c with
      | Some tx =>
          if decide (length pl = 8%nat)
          then deliver tx (ToReserve tx (Err (ReserveError (be_decode pl)))) c'
          else None
      | None => Some (c', [], Ok tt)
      end
  | LockAcquire =>
      let c' := set_lock_sender None c in
      match lock_sender c with
      | Some tx =>
          chunk_id ← get_be 1 17 pl;
          kind ← pl !! 0%nat;
          deliver tx (ToLock tx (Ok (mkLockAcquireResult (of_u8 kind) chunk_id))) c'
      | None => Some (c', [], Ok tt)
      end
  | LockErr =>
      let c' := set_lock_sender None c in
      match lock_sender c with
      | Some tx =>
          k ← pl !! 0%nat;
          deliver tx (ToLock tx (Err (MDSFTPError_of_ChunkErrorKind (of_u8 k)))) c'
      | None => Some (c', [], Ok tt)
      end
  | PutErr =>
      let c' := set_put_sender None c in
      match put_sender c with
      | Some tx =>
          k ← pl !! 0%nat;
          deliver tx (ToPut tx (Err (MDSFTPError_of_ChunkErrorKind (of_u8 k)))) c'
      | None => Some (c', [], Ok tt)
      end
  | PutOk =>
      let c' := set_put_sender None c in
      match put_sender c with
      | Some tx =>
          chunk_buffer ← get_be 0 2 pl;
          deliver tx (ToPut tx (Ok (mkPutResult chunk_buffer))) c'
      | None => Some (c', [], Ok tt)
      end
  | CommitErr =>
      let c' := set_commit_sender None c in
      match commit_sender c with
      | Some tx =>
          k ← pl !! 0%nat;
          deliver tx (ToCommit tx (Err (MDSFTPError_of_ChunkErrorKind (of_u8 k)))) c'
      | None => Some (c', [], Ok tt)
      end
  | CommitOk =>
      let c' := set_commit_sender None c in
      match commit_sender c with
      | Some tx => deliver tx (ToCommit tx (Ok mkCommitResult)) c'
      | None => Some (c', [], Ok tt)
      end
  | QueryResponse =>
      let c' := set_query_sender None c in
      match query_sender c with
      | Some tx =>
          exists_ ← pl !! 0%nat;
          if decide (exists_ = 1) then
            size ← get_be 1 9 pl;
            deliver tx (ToQuery tx (Ok (mkQueryResult size))) c'
          else deliver tx (ToQuery tx (Err NoSuchChunkId)) c'
      | None => Some (c', [], Ok tt)
      end
  | _ => handle_user_packet p c
  end.

(** [mark_handler_closed] *)
Definition mark_handler_closed (r : MDSFTPResult unit) (c : Channel H)
    : Channel H * list Delivery :=
  match handler_sender c with
  | Some tx => (set_handler_sender None c, [ToHandler tx r])
  | None => (c, [])
  end.

(** [interrupt]: every pending request fails, the transfer handle is released and the
    handler is told.  The slots keep their senders. *)
Definition interrupt (c : Channel H) : Channel H * list Delivery :=
  let fail (s : option Sender) (d : Sender -> Delivery) := option_list (d <$> s) in
  let ds :=
    fail (lock_sender c) (fun tx => ToLock tx (Err Interrupted))
    ++ fail (reserve_sender c) (fun tx => ToReserve tx (Err Interrupted))
    ++ fail (put_sender c) (fun tx => ToPut tx (Err Interrupted))
    ++ fail (query_sender c) (fun tx => ToQuery tx (Err Interrupted))
    ++ fail (commit_sender c) (fun tx => ToCommit tx (Err Interrupted)) in
  match handler_sender c with
  | Some tx =>
      (match incoming_handler c with
       | Some h => set_handler (Some (fst (handle_interrupt h))) c
       | None => c
       end, ds ++ [ToHandler tx (Ok tt)])
  | None => (c, ds)
  end.
End handle.

(** ** What travels between two peers

    The requests and notifications a peer can send to the other side's handler, with the
    packet the sender method writes and the call the receiving handler must see. *)
Inductive ClientMsg : Type :=
| MFileChunk (is_last : bool) (id : u32) (content : list u8)
| MRetrieve (chunk_id : Uuid) (chunk_buffer : u16) (range : option ChunkRange)
| MPut (flags : PutFlags) (chunk_id : Uuid) (size : u64)
| MReserve (desired : u64) (file_id bucket_id : Uuid) (flags : ReserveFlags)
| MReserveCancel (chunk_id : Uuid)
| MLockReq (kind : LockKind) (chunk_id : Uuid)
| MRecvAck (chunk_id : u32)
| MDeleteChunk (chunk_id : Uuid)
| MCommit (flags : CommitFlags) (chunk_id : Uuid)
| MQuery (chunk_id : Uuid).

Definition client_packet (sid : u32) (m : ClientMsg) : MDSFTPRawPacket :=
  match m with
  | MFileChunk is_last id content =>
      mkRaw FileChunk sid (chunk_header is_last id ++ content)
  | MRetrieve chunk_id chunk_buffer range => retrieve_req sid chunk_id chunk_buffer range
  | MPut flags chunk_id size => request_put sid flags chunk_id size
  | MReserve desired file_id bucket_id flags =>
      try_reserve_packet sid desired file_id bucket_id flags
  | MReserveCancel chunk_id => cancel_reserve sid chunk_id
  | MLockReq kind chunk_id => request_lock sid kind chunk_id
  | MRecvAck chunk_id => respond_receive_ack sid chunk_id
  | MDeleteChunk chunk_id => delete_chunk sid chunk_id
  | MCommit flags chunk_id => commit sid flags chunk_id
  | MQuery chunk_id => query_chunk sid chunk_id
  end.

Definition client_call (m : ClientMsg) : HandlerCall :=
  match m with
  | MFileChunk is_last id content => HandleFileChunk content id is_last
  | MRetrieve chunk_id chunk_buffer range => HandleRetrieve chunk_id chunk_buffer range
  | MPut flags chunk_id size => HandlePut flags chunk_id size
  | MReserve desired file_id bucket_id flags => HandleReserve desired bucket_id file_id flags
  | MReserveCancel chunk_id => HandleReserveCancel chunk_id
  | MLockReq kind chunk_id => HandleLockReq chunk_id kind
  | MRecvAck chunk_id => HandleReceiveAck chunk_id
  | MDeleteChunk chunk_id => HandleDeleteChunk chunk_id
  | MCommit flags chunk_id => HandleCommit chunk_id flags
  | MQuery chunk_id => HandleQuery chunk_id
  end.

(** Arguments within their Rust types; a chunk carries between one byte and what fits a
    payload; a range is one [ChunkRange::new] accepts whose bounds add up within [u64]. *)
Definition wf_msg (m : ClientMsg) : Prop :=
  match m with
  | MFileChunk _ id content =>
      in_width 32 id /\ is_bytes content /\ 1 <= Z.of_nat (length content) <= PAYLOAD_SIZE - 5
  | MRetrieve chunk_id chunk_buffer range =>
      in_width 128 chunk_id /\ in_width 16 chunk_buffer
      /\ match range with
         | Some r => 0 <= range_start r < range_end r
                     /\ in_width 64 (range_start r + range_end r)
         | None => True
         end
  | MPut _ chunk_id size => in_width 128 chunk_id /\ in_width 64 size
  | MReserve desired file_id bucket_id _ =>
      in_width 64 desired /\ in_width 128 file_id /\ in_width 128 bucket_id
  | MReserveCancel chunk_id | MLockReq _ chunk_id | MDeleteChunk chunk_id
  | MCommit _ chunk_id | MQuery chunk_id => in_width 128 chunk_id
  | MRecvAck chunk_id => in_width 32 chunk_id
  end.

#[global] Instance wf_msg_dec m : Decision (wf_msg m).
Proof. destruct m as [| ? ? []| | | | | | | |]; unfold wf_msg, is_bytes; apply _. Defined.

(** The replies to a request, with the packet and what the waiting requester must get. *)
Inductive Reply : Type :=
| RReserveOk (chunk_id : Uuid) (chunk_buffer : u16)
| RReserveErr (available_space : u64)
| RLockOk (chunk_id : Uuid) (kind : LockKind)
| RLockErr (chunk_id : Uuid) (kind : LockKind) (err : ChunkErrorKind)
| RPutOk (chunk_buffer : u16)
| RPutErr (err : ChunkErrorKind)
| RQuery (size : u64) (exists_ : bool)
| RCommitOk
| RCommitErr (err : ChunkErrorKind).

Definition reply_packet (sid : u32) (r : Reply) : MDSFTPRawPacket :=
  match r with
  | RReserveOk chunk_id chunk_buffer => respond_reserve_ok sid chunk_id chunk_buffer
  | RReserveErr space => respond_reserve_err sid space
  | RLockOk chunk_id kind => respond_lock_ok sid chunk_id kind
  | RLockErr chunk_id kind err => respond_lock_err sid chunk_id kind err
  | RPutOk chunk_buffer => respond_put_ok sid chunk_buffer
  | RPutErr err => respond_put_err sid err
  | RQuery size exists_ => respond_query sid size exists_
  | RCommitOk => respond_commit_ok sid
  | RCommitErr err => respond_commit_err sid err
  end.

Definition reply_pending {H} (r : Reply) (c : Channel H) : option Sender :=
  match r with
  | RReserveOk _ _ | RReserveErr _ => reserve_sender c
  | RLockOk _ _ | RLockErr _ _ _ => lock_sender c
  | RPutOk _ | RPutErr _ => put_sender c
  | RQuery _ _ => query_sender c
  | RCommitOk | RCommitErr _ => commit_sender c
  end.

Definition reply_delivery (r : Reply) (tx : Sender) : Delivery :=
  match r with
  | RReserveOk chunk_id chunk_buffer =>
      ToReserve tx (Ok (mkReserveResult chunk_id chunk_buffer))
  | RReserveErr space => ToReserve tx (Err (ReserveError space))
  | RLockOk chunk_id kind => ToLock tx (Ok (mkLockAcquireResult kind chunk_id))
  | RLockErr _ _ NotAvailable => ToLock tx (Err RemoteError)
  | RLockErr _ _ NotFound => ToLock tx (Err NoSuchChunkId)
  | RPutOk chunk_buffer => ToPut tx (Ok (mkPutResult chunk_buffer))
  | RPutErr NotAvailable => ToPut tx (Err RemoteError)
  | RPutErr NotFound => ToPut tx (Err NoSuchChunkId)
  | RQuery size true => ToQuery tx (Ok (mkQueryResult size))
  | RQuery _ false => ToQuery tx (Err NoSuchChunkId)
  | RCommitOk => ToCommit tx (Ok mkCommitResult)
  | RCommitErr NotAvailable => ToCommit tx (Err RemoteError)
  | RCommitErr NotFound => ToCommit tx (Err NoSuchChunkId)
  end.

Definition wf_reply (r : Reply) : Prop :=
  match r with
  | RReserveOk chunk_id chunk_buffer => in_width 128 chunk_id /\ in_width 16 chunk_buffer
  | RReserveErr space => in_width 64 space
  | RLockOk chunk_id _ | RLockErr chunk_id _ _ => in_width 128 chunk_id
  | RPutOk chunk_buffer => in_width 16 chunk_buffer
  | RQuery size _ => in_width 64 size
  | RPutErr _ | RCommitOk | RCommitErr _ => True
  end.

(** ** Sending *)
(** The sender methods: [write_raw_packet] for all but chunks ([internal_sender_method!]). *)
Definition send_msg (now : Z) (sid : u32) (m : ClientMsg) (w : PacketWriter)
    : option (PacketWriter * MDSFTPResult unit) :=
  match m with
  | MFileChunk is_last id content => Some (send_chunk now sid is_last id content w)
  | m =>
      '(w, r) ← write_raw_packet now (client_packet sid m) w;
      Some (w, map_err (fun _ => ConnectionError) r)
  end.

Fixpoint send_msgs (now : Z) (ms : list (u32 * ClientMsg)) (w : PacketWriter)
    : option (PacketWriter * MDSFTPResult unit) :=
  match ms with
  | [] => Some (w, Ok tt)
  | (sid, m) :: ms =>
      '(w, r) ← send_msg now sid m w;
      match r with Ok _ => send_msgs now ms w | Err e => Some (w, Err e) end
  end.

Definition sample_msgs : list (u32 * ClientMsg) :=
  [(1, MReserve 4096 17 23 (mkReserveFlags false true true false));
   (1, MFileChunk true 0 [1; 2; 3]);
   (2, MRetrieve 99 16 (Some (mkChunkRange 10 20)));
   (1, MCommit CommitFlags_final 5)].

(** The channel after the reply to its pending request: the slot is free again. *)
Definition reply_clear {H} (r : Reply) (c : Channel H) : Channel H :=
  match r with
  | RReserveOk _ _ | RReserveErr _ => set_reserve_sender None c
  | RLockOk _ _ | RLockErr _ _ _ => set_lock_sender None c
  | RPutOk _ | RPutErr _ => set_put_sender None c
  | RQuery _ _ => set_query_sender None c
  | RCommitOk | RCommitErr _ => set_commit_sender None c
  end.

(** The receivers of every pending request exist, and a registered handler has its handle. *)
Definition channel_ready {H} (alive : Sender -> bool) (c : Channel H) : Prop :=
  (forall tx, lock_sender c = Some tx \/ reserve_sender c = Some tx \/ put_sender c = Some tx
     \/ query_sender c = Some tx \/ commit_sender c = Some tx -> alive tx = true)
  /\ (incoming_handler c <> None -> mdsftp_handler_channel c = true).

(** A handler that records its calls. *)
#[global] Instance log_handler : ChannelPacketHandler (list HandlerCall) := {
  handle_call := fun call h => (h ++ [call], Ok tt);
  handle_interrupt := fun h => (h, Ok tt)
}.

Definition sample_channel : Channel (list HandlerCall) :=
  set_reserve_sender (Some 4%nat) (set_incoming_handler 1%nat [] (Channel_new 7)).

(** ** Lemmas *)
(** A field of a payload decodes to the number whose bytes were written there. *)
Lemma get_be_field n x (p q l : list u8) (a b : nat) :
  0 <= x < 256 ^ Z.of_nat n -> length p = a -> b = (a + n)%nat ->
  l = p ++ be_encode n x ++ q -> get_be a b l = Some x.
Proof.
  intros Hx <- -> ->. unfold get_be, get_slice.
  rewrite decide_True by (rewrite !length_app, be_encode_length; lia).
  rewrite slice_app_exact by (rewrite ?be_encode_length; lia).
  simpl. by rewrite be_decode_encode.
Qed.

(** Finds the field by the bytes before and after it. *)
Ltac be_field n p q :=
  eapply (get_be_field n _ p q); [eassumption|reflexivity|reflexivity|
    rewrite ?app_nil_r; reflexivity].

Lemma decode_file_chunk sid is_last id content :
  in_width 32 id ->
  decode_call (mkRaw FileChunk sid (chunk_header is_last id ++ content))
  = Some (Ok (Some (HandleFileChunk content id is_last))).
Proof.
  intros Hid. unfold decode_call. cbn [packet_type payload].
  assert (E : get_be 1 5 (chunk_header is_last id ++ content) = Some id)
    by (be_field 4%nat [if is_last then 1 else 0] content).
  destruct is_last; rewrite E; done.
Qed.

Lemma decode_retrieve sid chunk_id chunk_buffer range :
  wf_msg (MRetrieve chunk_id chunk_buffer range) ->
  decode_call (retrieve_req sid chunk_id chunk_buffer range)
  = Some (Ok (Some (HandleRetrieve chunk_id chunk_buffer range))).
Proof.
  intros (Hc & Hb & Hr). unfold retrieve_req, decode_call. cbn [packet_type payload].
  assert (Hw : exists s e, default ChunkRange_default range = mkChunkRange s e
    /\ in_width 64 s /\ in_width 64 e /\ in_width 64 (s + e)
    /\ (if range is Some _ then s < e else s = 0 /\ e = 0)).
  { destruct range as [[s e]|]; [exists s, e|exists 0, 0]; unfold in_width in *; simpl in *;
      split_ands; done || lia. }
  destruct Hw as (s & e & Er & Hs & He & Hsum & Hcase). rewrite Er. cbn [range_start range_end].
  set (pl := uuid_bytes chunk_id ++ u16_be chunk_buffer ++ u64_be s ++ u64_be e).
  assert (E1 : get_be 0 16 pl = Some chunk_id)
    by (be_field 16%nat ([] : list u8) (u16_be chunk_buffer ++ u64_be s ++ u64_be e)).
  assert (E2 : get_be 16 18 pl = Some chunk_buffer)
    by (be_field 2%nat (uuid_bytes chunk_id) (u64_be s ++ u64_be e)).
  assert (E3 : get_be 18 26 pl = Some s)
    by (be_field 8%nat (uuid_bytes chunk_id ++ u16_be chunk_buffer) (u64_be e)).
  assert (E4 : get_be 26 34 pl = Some e)
    by (be_field 8%nat (uuid_bytes chunk_id ++ u16_be chunk_buffer ++ u64_be s) ([] : list u8)).
  rewrite E1, E2, E3, E4. cbn [mbind option_bind]. rewrite u64_add_small by done.
  unfold in_width in *. destruct range as [[s' e']|]; simpl in Er; simplify_eq.
  - rewrite decide_False by lia. unfold ChunkRange_new. by rewrite decide_False by lia.
  - by rewrite decide_True by lia.
Qed.

Lemma decode_put sid flags chunk_id size :
  in_width 128 chunk_id -> in_width 64 size ->
  decode_call (request_put sid flags chunk_id size)
  = Some (Ok (Some (HandlePut flags chunk_id size))).
Proof.
  intros Hc Hs. unfold request_put, decode_call. cbn [packet_type payload].
  set (pl := to_u8 flags :: uuid_bytes chunk_id ++ u64_be size).
  assert (E1 : get_be 1 17 pl = Some chunk_id)
    by (be_field 16%nat [to_u8 flags] (u64_be size)).
  assert (E2 : get_be 17 25 pl = Some size)
    by (be_field 8%nat (to_u8 flags :: uuid_bytes chunk_id) ([] : list u8)).
  rewrite E1, E2. cbn [pl lookup list_lookup mbind option_bind]. by rewrite of_to_u8.
Qed.

Lemma decode_reserve sid desired file_id bucket_id flags :
  in_width 64 desired -> in_width 128 file_id -> in_width 128 bucket_id ->
  decode_call (try_reserve_packet sid desired file_id bucket_id flags)
  = Some (Ok (Some (HandleReserve desired bucket_id file_id flags))).
Proof.
  intros Hd Hf Hb. unfold try_reserve_packet, decode_call. cbn [packet_type payload].
  set (pl := to_u8 flags :: u64_be desired ++ uuid_bytes file_id ++ uuid_bytes bucket_id).
  assert (E1 : get_be 1 9 pl = Some desired)
    by (be_field 8%nat [to_u8 flags] (uuid_bytes file_id ++ uuid_bytes bucket_id)).
  assert (E2 : get_be 9 25 pl = Some file_id)
    by (be_field 16%nat (to_u8 flags :: u64_be desired) (uuid_bytes bucket_id)).
  assert (E3 : get_be 25 41 pl = Some bucket_id)
    by (be_field 16%nat (to_u8 flags :: u64_be desired ++ uuid_bytes file_id) ([] : list u8)).
  rewrite E1, E2, E3. cbn [pl lookup list_lookup mbind option_bind]. by rewrite of_to_u8.
Qed.

(** The shape shared by the packets that carry one flag byte and a chunk id. *)
Lemma get_be_flagged (f : u8) chunk_id :
  in_width 128 chunk_id -> get_be 1 17 (f :: uuid_bytes chunk_id) = Some chunk_id.
Proof. intros Hc. be_field 16%nat [f] ([] : list u8). Qed.

Lemma get_be_uuid chunk_id : in_width 128 chunk_id -> get_be 0 16 (uuid_bytes chunk_id) = Some chunk_id.
Proof. intros Hc. be_field 16%nat ([] : list u8) ([] : list u8). Qed.

(** Every message decodes to the call it stands for, argument by argument. *)
Lemma decode_client_packet sid m :
  wf_msg m -> decode_call (client_packet sid m) = Some (Ok (Some (client_call m))).
Proof.
  destruct m; cbn [client_packet client_call].
  - intros (? & _ & _). by apply decode_file_chunk.
  - apply decode_retrieve.
  - intros (? & ?). by apply decode_put.
  - intros (? & ? & ?). by apply decode_reserve.
  - intros H. unfold decode_call. cbn [packet_type payload cancel_reserve].
    by rewrite get_be_uuid.
  - intros H. unfold decode_call. cbn [packet_type payload request_lock].
    rewrite get_be_flagged by done.
    cbn [lookup list_lookup mbind option_bind]. by rewrite of_to_u8.
  - intros H. unfold decode_call. cbn [packet_type payload respond_receive_ack].
    assert (E : get_be 0 4 (u32_be chunk_id) = Some chunk_id)
      by (be_field 4%nat ([] : list u8) ([] : list u8)).
    by rewrite E.
  - intros H. unfold decode_call. cbn [packet_type payload delete_chunk].
    by rewrite get_be_uuid.
  - intros H. unfold decode_call. cbn [packet_type payload commit].
    rewrite get_be_flagged by done.
    cbn [lookup list_lookup mbind option_bind]. by rewrite of_to_u8.
  - intros H. unfold decode_call. cbn [packet_type payload query_chunk].
    by rewrite get_be_uuid.
Qed.

(** A payload of fixed layout is a byte string. *)
Ltac payload_bytes :=
  repeat first
    [ apply be_encode_bytes | apply Forall_nil_2 | assumption
    | apply Forall_cons_2; [first [apply to_u8_byte | done]|]
    | apply Forall_app_2 ].

(** Its length is a number. *)
Ltac payload_length :=
  match goal with
  | |- context [length ?l] => let n := eval lazy in (length l) in change (length l) with n
  end; done.

Lemma wf_file_chunk sid is_last id content :
  in_width 32 sid -> wf_msg (MFileChunk is_last id content) ->
  wf_raw (client_packet sid (MFileChunk is_last id content)).
Proof.
  intros Hs (Hid & Hb & Hl). unfold wf_raw. cbn [client_packet packet_type raw_stream_id payload].
  rewrite length_app. change (length (chunk_header is_last id)) with 5%nat.
  unfold PAYLOAD_SIZE in *. split_ands; [done| |lia|lia].
  unfold is_bytes, chunk_header, u32_be. destruct is_last; payload_bytes.
Qed.

Lemma wf_client_packet sid m : in_width 32 sid -> wf_msg m -> wf_raw (client_packet sid m).
Proof.
  intros Hs Hm. destruct m; [by apply wf_file_chunk|..]; unfold wf_raw, is_bytes;
    (split_ands; [done| |payload_length|payload_length]);
    cbn [client_packet payload retrieve_req request_put try_reserve_packet cancel_reserve
         request_lock respond_receive_ack delete_chunk commit query_chunk];
    unfold uuid_bytes, u16_be, u32_be, u64_be; payload_bytes.
Qed.

Lemma send_msg_open now sid m w :
  in_width 32 sid -> wf_msg m -> writer_ready w ->
  exists w', send_msg now sid m w = Some (w', Ok tt) /\ writer_ready w'
    /\ ws_sent (w_stream w') = ws_sent (w_stream w) ++ raw_bytes (client_packet sid m).
Proof.
  intros Hs Hm [Ho Hb]. destruct (wf_client_packet sid m Hs Hm) as (_ & _ & Hl & _).
  assert (Hgen : exists w', write_raw_packet now (client_packet sid m) w = Some (w', Ok tt)
    /\ writer_ready w' /\ ws_sent (w_stream w') = ws_sent (w_stream w) ++ raw_bytes (client_packet sid m)).
  { destruct (write_raw_packet_open now _ w Hl Ho Hb) as (w' & E & S & O & B & _). by exists w'. }
  destruct m; try (destruct Hgen as (w' & E & R & S); exists w'; unfold send_msg; by rewrite E).
  cbn [client_packet payload] in Hl. rewrite length_app in Hl.
  destruct (write_chunk_open now sid (chunk_header is_last id) content w Hl Ho Hb)
    as (w' & E & S & O & B & _).
  exists w'. unfold send_msg, send_chunk. by rewrite E.
Qed.

Lemma send_msgs_open now ms w :
  Forall (fun sm => in_width 32 sm.1 /\ wf_msg sm.2) ms -> writer_ready w ->
  exists w', send_msgs now ms w = Some (w', Ok tt)
    /\ ws_sent (w_stream w')
       = ws_sent (w_stream w) ++ concat (map raw_bytes (map (fun sm => client_packet sm.1 sm.2) ms)).
Proof.
  intros Hms. revert w. induction Hms as [|[sid m] ms [Hs Hm] Hms IH]; intros w Hw.
  - exists w. by rewrite app_nil_r.
  - destruct (send_msg_open now sid m w) as (w1 & E1 & R1 & S1); [done..|].
    destruct (IH w1 R1) as (w2 & E2 & S2). exists w2. cbn [send_msgs map concat fst snd].
    rewrite E1. cbn [mbind option_bind]. split; [done|]. by rewrite S2, S1, <- app_assoc.
Qed.

(** Requests arrive as sent: any sequence of requests, chunks and notifications
    written by the sender methods of a peer, on any channels, is framed, read, validated
    and decoded by the other peer into exactly the handler calls meant, in order and with
    every argument (flags, ids, sizes, ranges, content) intact. *)
Lemma client_messages_delivered now ms w :
  Forall (fun sm => in_width 32 sm.1 /\ wf_msg sm.2) ms ->
  writer_ready w -> ws_sent (w_stream w) = [] ->
  exists w' ps, send_msgs now ms w = Some (w', Ok tt)
    /\ read_packets (length (ws_sent (w_stream w'))) (ws_sent (w_stream w'))
       = (ps, HeaderReadFailed)
    /\ map raw_stream_id ps = map fst ms
    /\ map decode_call ps = map (fun sm => Some (Ok (Some (client_call sm.2)))) ms.
Proof.
  intros Hms Hw He. destruct (send_msgs_open now ms w Hms Hw) as (w' & E & S).
  rewrite He in S. simpl in S. exists w', (map (fun sm => client_packet sm.1 sm.2) ms).
  split; [done|]. rewrite S. split_ands.
  - set (ps := map _ ms).
    rewrite <- (read_packets_raw_bytes ps (length ps + length (concat (map raw_bytes ps)))).
    + apply read_packets_fuel; lia.
    + apply Forall_fmap. eapply Forall_impl; [|exact Hms]. intros [sid m] []. by apply wf_client_packet.
    + lia.
  - rewrite map_map. apply map_ext. intros [sid m]. by destruct m.
  - rewrite map_map. clear -Hms. induction Hms as [|[sid m] ms [_ Hm] _ IH]; [done|].
    cbn [map fst snd]. by rewrite decode_client_packet, IH.
Qed.

Section replies.
  Context {H : Type} `{ChannelPacketHandler H}.

(** Replies only: what [handle_packet] does with each, pending or not. *)
Lemma handle_reply alive sid r (c : Channel H) :
  wf_reply r ->
  handle_packet alive (reply_packet sid r) c
  = match reply_pending r c with
    | Some tx => deliver alive tx (reply_delivery r tx) (reply_clear r c)
    | None => Some (reply_clear r c, [], Ok tt)
    end.
Proof.
  intros Hr. destruct r as [cid buf|space|cid kind|cid kind err|buf|err|size ex| |err];
    unfold handle_packet; cbn [reply_packet packet_type payload reply_pending reply_clear
      respond_reserve_ok respond_reserve_err respond_lock_ok respond_lock_err respond_put_ok
      respond_put_err respond_query respond_commit_ok respond_commit_err];
    simpl in Hr; (match goal with |- context [match ?s with Some _ => _ | None => _ end] =>
                    destruct s as [tx|]; [|done] end).
  - destruct Hr as [Hc Hb].
    assert (E1 : get_be 0 16 (uuid_bytes cid ++ u16_be buf) = Some cid)
      by (be_field 16%nat ([] : list u8) (u16_be buf)).
    assert (E2 : get_be 16 18 (uuid_bytes cid ++ u16_be buf) = Some buf)
      by (be_field 2%nat (uuid_bytes cid) ([] : list u8)).
    by rewrite E1, E2.
  - rewrite decide_True by done. by rewrite u64_be_roundtrip.
  - rewrite get_be_flagged by done. cbn [lookup list_lookup mbind option_bind].
    by rewrite of_to_u8.
  - by destruct kind, err.
  - assert (E : get_be 0 2 (u16_be buf) = Some buf)
      by (be_field 2%nat ([] : list u8) ([] : list u8)).
    by rewrite E.
  - by destruct err.
  - assert (E : get_be 1 9 (bool_u8 ex :: u64_be size) = Some size)
      by (be_field 8%nat [bool_u8 ex] ([] : list u8)).
    rewrite E. by destruct ex.
  - done.
  - by destruct err.
Qed.

Lemma wf_reply_packet sid r : in_width 32 sid -> wf_reply r -> wf_raw (reply_packet sid r).
Proof.
  intros Hs _. unfold wf_raw, is_bytes.
  destruct r as [| |cid []|cid [] []| |[]|? []| |[]];
    (split_ands; [done| |payload_length|payload_length]);
    cbn [reply_packet payload respond_reserve_ok respond_reserve_err respond_lock_ok
      respond_lock_err respond_put_ok respond_put_err respond_query respond_commit_ok
      respond_commit_err];
    unfold uuid_bytes, u16_be, u32_be, u64_be; payload_bytes.
Qed.

(** Replies complete the request they answer.  A reply written by a responder method
    is accepted by the reader, and the channel passes exactly the value replied (or the
    error kind, translated) to the waiting requester once, frees its slot, and touches
    nothing else; without a pending request the reply is dropped. *)
Theorem reply_completes_request alive sid r (c : Channel H) rest :
  in_width 32 sid -> wf_reply r ->
  (forall tx, reply_pending r c = Some tx -> alive tx = true) ->
  read_packet (raw_bytes (reply_packet sid r) ++ rest) = ReadPacket (reply_packet sid r) rest
  /\ handle_packet alive (reply_packet sid r) c
     = Some (reply_clear r c,
             match reply_pending r c with Some tx => [reply_delivery r tx] | None => [] end,
             Ok tt)
  /\ reply_pending r (reply_clear r c) = None.
Proof.
  intros Hs Hr Ha. split; [by apply read_packet_raw_bytes, wf_reply_packet|].
  rewrite handle_reply by done. split; [|by destruct r].
  destruct (reply_pending r c) as [tx|] eqn:E; [|done].
  unfold deliver. by rewrite (Ha tx).
Qed.

Lemma get_be_in_range a b (pl : list u8) :
  (b <= length pl)%nat -> exists x, get_be a b pl = Some x.
Proof. intros Hl. unfold get_be, get_slice. rewrite decide_True by done. eauto. Qed.

Lemma lookup_0_in_range (pl : list u8) : (0 < length pl)%nat -> exists x, pl !! 0%nat = Some x.
Proof. intros Hl. destruct pl; simpl in *; [lia|eauto]. Qed.

(** Every index a decoder uses is within the size pre-validation guarantees. *)
Lemma decode_call_total p : wf_raw p -> is_Some (decode_call p).
Proof.
  intros (_ & _ & _ & Hl). unfold decode_call. destruct (packet_type p); try by eexists.
  all: cbn in Hl.
  all: repeat match goal with
    | |- context [get_be ?a ?b ?l] =>
        destruct (get_be_in_range a b l) as [? ->]; [lia|]; cbn [mbind option_bind]
    | |- context [?l !! 0%nat] =>
        destruct (lookup_0_in_range l) as [? ->]; [lia|]; cbn [mbind option_bind]
    end.
  all: by eexists.
Qed.

(** A packet that passed framing and pre-validation never makes [handle_packet] panic: every
    slice it takes is in range, provided the requesters of pending requests are still
    waiting and a registered handler has its channel handle. *)
Lemma handle_packet_no_panic alive p (c : Channel H) :
  wf_raw p -> channel_ready alive c -> is_Some (handle_packet alive p c).
Proof.
  intros Hwf [Ha Hh]. pose proof Hwf as (_ & _ & _ & Hl).
  assert (Huser : is_Some (handle_user_packet p c)).
  { unfold handle_user_packet. destruct (incoming_handler c); [|by eexists].
    rewrite Hh by done. destruct (decode_call_total p Hwf) as [[[call|]|e] ->]; try by eexists.
    cbn [mbind option_bind]. destruct (handle_call call h). by eexists. }
  unfold handle_packet. destruct (packet_type p); try done; cbn in Hl;
    (match goal with |- context [match ?s with Some _ => _ | None => _ end] =>
       destruct s as [tx|] eqn:?; [|by eexists] end);
    assert (Htx : alive tx = true) by (apply Ha; tauto); unfold deliver; rewrite ?Htx.
  all: repeat match goal with
    | |- context [get_be ?a ?b ?l] =>
        destruct (get_be_in_range a b l) as [? ->]; [lia|]; cbn [mbind option_bind]
    | |- context [?l !! 0%nat] =>
        destruct (lookup_0_in_range l) as [? ->]; [lia|]; cbn [mbind option_bind]
    end.
  all: try case_decide; try lia; by eexists.
Qed.
End replies.

Lemma reply_completes_request_witness :
  handle_packet (fun _ => true) (respond_reserve_ok 7 55 10) sample_channel
  = Some (set_reserve_sender None sample_channel,
          [ToReserve 4 (Ok (mkReserveResult 55 10))], Ok tt).
Proof.
  destruct (reply_completes_request (fun _ => true) 7 (RReserveOk 55 10) sample_channel [])
    as (_ & E & _); [by apply (bool_decide_unpack _)| |done|exact E].
  split; by apply (bool_decide_unpack _).
Defined.

(** [send_chunk] accepts an empty content, but its payload is the five byte prefix alone,
    one byte short of the minimum pre-validation asks of a [FileChunk]. *)
Lemma empty_chunk_rejected now sid is_last id w rest :
  in_width 32 sid -> writer_ready w -> ws_sent (w_stream w) = [] ->
  exists w', send_chunk now sid is_last id [] w = (w', Ok tt)
    /\ read_packet (ws_sent (w_stream w') ++ rest) = PreValidateFailed.
Proof.
  intros Hs [Ho Hb] He.
  destruct (write_chunk_open now sid (chunk_header is_last id) [] w) as (w' & E & S & _);
    [done..|].
  exists w'. unfold send_chunk. rewrite E. split; [done|]. rewrite S, He, app_nil_l.
  unfold raw_bytes. cbn [packet_type raw_stream_id payload].
  change (length (chunk_header is_last id ++ [])) with 5%nat.
  change (Z.of_nat 5) with 5. unfold read_packet.
  match goal with |- context [read_exact HEADER_SIZE ?l] =>
    assert (Hx : read_exact HEADER_SIZE l = Some (packet_type_id FileChunk :: u32_be sid ++ u32_be 5,
      chunk_header is_last id ++ rest)) end.
  { rewrite app_nil_r, <- app_comm_cons, <- !app_assoc.
    by apply (read_exact_app 9 (packet_type_id FileChunk :: u32_be sid ++ u32_be 5)). }
  rewrite Hx.
  pose proof (read_header_bytes FileChunk sid 5 [] Hs ltac:(done)) as Hr.
  rewrite app_nil_r in Hr. change (take HEADER_SIZE ?l) with l in Hr. rewrite Hr. done.
Qed.
