(* ===== verification/MdsftpConnection.v ===== *)
(** * MDSFTP connections

    [protocol/src/mdsftp/connection.rs] and [net/packet_reader.rs]: many channels multiplexed
    over one stream.  The reader loop takes packets off the stream and dispatches them to the
    channel they name; channels are opened and closed by either side.

    Channels are objects shared by the map, by their owner and by the handlers; the model
    keeps them in a store [channels] and the map [conn_map] refers to them by identity, so
    that two channel objects can carry the same id.  The streams are lists of bytes, and the
    end of the list is the failure of [read_exact].  The calls made on the node's global
    handler are logged in [events]. *)
From Stdlib Require Import ZArith Lia List.
From stdpp Require Import base numbers list gmap relations.
From S2P Require Import Prelude Errors MdsftpData MdsftpWire MdsftpChannel.
Local Open Scope Z_scope.

Inductive GlobalEvent : Type :=
| ChannelIncoming (id : u32) (channel : nat)
| ChannelClosed (id : u32)
| ChannelErred (id : u32).

Record Connection (H : Type) : Type := mkConnection {
  conn_map : gmap u32 nat;
  channels : gmap nat (Channel H);
  next_channel : nat;
  running : bool;
  is_closing : bool;
  channel_count : u64;
  local_end : bool;
  last_read : Z;
  writer : PacketWriter;
  events : list GlobalEvent;
  deliveries : list Delivery
}.
Arguments mkConnection {H}.
Arguments conn_map {H}.
Arguments channels {H}.
Arguments next_channel {H}.
Arguments running {H}.
Arguments is_closing {H}.
Arguments channel_count {H}.
Arguments local_end {H}.
Arguments last_read {H}.
Arguments writer {H}.
Arguments events {H}.
Arguments deliveries {H}.

(** What the node does with a channel its peer opened ([PacketHandler::channel_incoming]). *)
Class PacketHandler (H : Type) := { channel_incoming : Channel H -> Channel H }.

Section connection.
  Context {H : Type} `{ChannelPacketHandler H} `{PacketHandler H}.
  Variable alive : Sender -> bool.
  Implicit Types s : Connection H.

(** ** Field updates *)
Definition set_map (m : gmap u32 nat) (count : u64) s : Connection H :=
  mkConnection m (channels s) (next_channel s) (running s) (is_closing s) count (local_end s)
    (last_read s) (writer s) (events s) (deliveries s).
Definition set_channels (chs : gmap nat (Channel H)) (ds : list Delivery) s : Connection H :=
  mkConnection (conn_map s) chs (next_channel s) (running s) (is_closing s) (channel_count s)
    (local_end s) (last_read s) (writer s) (events s) (deliveries s ++ ds).
Definition set_running (b : bool) s : Connection H :=
  mkConnection (conn_map s) (channels s) (next_channel s) b (is_closing s) (channel_count s)
    (local_end s) (last_read s) (writer s) (events s) (deliveries s).
Definition set_closing s : Connection H :=
  mkConnection (conn_map s) (channels s) (next_channel s) (running s) true (channel_count s)
    (local_end s) (last_read s) (writer s) (events s) (deliveries s).
Definition set_last_read (now : Z) s : Connection H :=
  mkConnection (conn_map s) (channels s) (next_channel s) (running s) (is_closing s)
    (channel_count s) (local_end s) now (writer s) (events s) (deliveries s).
Definition set_writer (w : PacketWriter) s : Connection H :=
  mkConnection (conn_map s) (channels s) (next_channel s) (running s) (is_closing s)
    (channel_count s) (local_end s) (last_read s) w (events s) (deliveries s).
Definition log_event (e : GlobalEvent) s : Connection H :=
  mkConnection (conn_map s) (channels s) (next_channel s) (running s) (is_closing s)
    (channel_count s) (local_end s) (last_read s) (writer s) (events s ++ [e]) (deliveries s).
Definition new_channel (id : u32) s : Connection H :=
  mkConnection (conn_map s) (<[next_channel s := Channel_new id]> (channels s))
    (S (next_channel s)) (running s) (is_closing s) (channel_count s) (local_end s)
    (last_read s) (writer s) (events s) (deliveries s).

(** [PacketReader::new], then [start] *)
Definition Connection_new (local : bool) (now : Z) : Connection H :=
  mkConnection ∅ ∅ 0 true false 0 local now (PacketWriter_new (mkWriteStream [] true) now) [] [].

(** ** The channel map *)
Definition interrupt_channel (o : nat) s : Connection H :=
  match channels s !! o with
  | Some c => let '(c', ds) := interrupt c in set_channels (<[o := c']> (channels s)) ds s
  | None => s
  end.

Definition close_map s : Connection H :=
  let s := fold_left (fun s o => interrupt_channel o s) (map snd (map_to_list (conn_map s))) s in
  set_running false (set_map ∅ 0 s).

Definition add_channel (id : u32) (channel : nat) s : Connection H :=
  match conn_map s !! id with
  | Some _ => s
  | None => set_map (<[id := channel]> (conn_map s)) (u64_add (channel_count s) 1) s
  end.

Definition remove_channel (id : u32) s : Connection H :=
  match conn_map s !! id with
  | Some removed =>
      let s := interrupt_channel removed (set_map (delete id (conn_map s)) (channel_count s) s) in
      set_map (conn_map s) (u64_sub (channel_count s) 1) s
  | None => s
  end.

(** ** Opening channels *)
Definition max_ids : nat := Z.to_nat 1000000.
Definition max_tries : nat := 5.

(** [draws]: what [gen_range(1..0x80000000)] returns, call after call. *)
Definition generate_id (draws : list u32) s : MDSFTPResult u32 :=
  if decide (max_ids <= size (conn_map s))%nat then Err MaxChannels
  else
    let remote_offset := if local_end s then 0 else 0x80000000 in
    let candidates := map (fun d => d + remote_offset) (take max_tries draws) in
    match filter (fun id => conn_map s !! id = None) candidates with
    | id :: _ => Ok id
    | [] => Err MaxChannels
    end.

(** A packet without payload. *)
Definition write_system (now : Z) (t : MDSFTPPacketType) (id : u32) s
    : Connection H * result unit unit :=
  match write_raw_packet now (mkRaw t id []) (writer s) with
  | Some (w, r) => (set_writer w s, r)
  | None => (s, Err tt)
  end.

Definition materialize_channel (now : Z) (id : u32) (alert : bool) s
    : Connection H * MDSFTPResult nat :=
  let o := next_channel s in
  let s := add_channel id o (new_channel id s) in
  if alert then
    match write_system now ChannelOpen id s with
    | (s, Ok _) => (s, Ok o)
    | (s, Err _) => (s, Err ConnectionError)
    end
  else (s, Ok o).

Definition create_channel (now : Z) (draws : list u32) s : Connection H * MDSFTPResult nat :=
  if negb (running s) then (s, Err ConnectionError)
  else if is_closing s then (s, Err Interrupted)
  else match generate_id draws s with
       | Ok id => materialize_channel now id true s
       | Err e => (s, Err e)
       end.

(** [Drop for MDSFTPChannel]: [cleanup] of the channel object. *)
Definition cleanup (now : Z) (o : nat) s : Connection H :=
  match channels s !! o with
  | Some c => fst (write_system now ChannelClose (ch_id c) (remove_channel (ch_id c) s))
  | None => s
  end.

(** ** Closing *)
Definition close (s : Connection H) : Connection H :=
  let s := close_map (set_closing s) in
  set_writer (mkWriter (mkWriteStream (ws_sent (w_stream (writer s))) false)
                (w_header_buf (writer s)) (w_last_write (writer s))) s.

Definition safe_to_close s : bool := bool_decide (channel_count s = 0).

(** [last_write] is read with [last_read]. *)
Definition last_access s : Z :=
  let last_write := last_read s in Z.max (last_read s) last_write.

(** ** The reader loop *)
Definition handle_global (now : Z) (p : MDSFTPRawPacket) s : Connection H :=
  let id := raw_stream_id p in
  match packet_type p with
  | ChannelOpen =>
      match materialize_channel now id false s with
      | (s, Ok o) =>
          log_event (ChannelIncoming id o)
            (set_channels (alter channel_incoming o (channels s)) [] s)
      | (s, Err _) => s
      end
  | ChannelClose =>
      match conn_map s !! id with
      | Some removed =>
          log_event (ChannelClosed id)
            (interrupt_channel removed (set_map (delete id (conn_map s)) (channel_count s) s))
      | None => s
      end
  | ChannelErr => log_event (ChannelErred id) s
  | _ => s
  end.

(** How an iteration of the loop ends. *)
Inductive Iteration : Type :=
| Continue (rest : list u8) (s : Connection H)
| Stopped (s : Connection H)
| Panicked (s : Connection H).

Definition dispatch (p : MDSFTPRawPacket) (rest : list u8) s : Iteration :=
  match conn_map s !! raw_stream_id p with
  | None => Continue rest s
  | Some o =>
      match channels s !! o with
      | None => Continue rest s
      | Some c =>
          match handle_packet alive p c with
          | None => Panicked s
          | Some (c', ds, r) =>
              let s := set_channels (<[o := c']> (channels s)) ds s in
              match r with
              | Err ConnectionError => Stopped (close_map s)
              | _ => Continue rest s
              end
          end
      end
  end.

Definition read_iteration (now : Z) (stream : list u8) s : Iteration :=
  if running s then
    match read_packet stream with
    | ReadPacket p rest =>
        let s := set_last_read now s in
        if is_system (packet_type p) then Continue rest (handle_global now p s)
        else dispatch p rest s
    | _ => Stopped (close_map s)
    end
  else Stopped s.

(** The loop, for at most [fuel] packets. *)
Fixpoint read_loop (fuel : nat) (now : Z) (stream : list u8) s : Iteration :=
  match fuel with
  | O => Continue stream s
  | S fuel =>
      match read_iteration now stream s with
      | Continue rest s => read_loop fuel now rest s
      | e => e
      end
  end.

Definition iteration_state (i : Iteration) : Connection H :=
  match i with Continue _ s | Stopped s | Panicked s => s end.

(** ** Executions

    The tasks of a node on one connection: the reader, the opening and dropping of channels,
    the requests on a channel, and the closing of the connection. *)
Inductive ConnOp : Type :=
| ConnRead (now : Z) (stream : list u8)
| ConnMaterialize (now : Z) (id : u32)
| ConnUse (o : nat) (f : Channel H -> Channel H)
| ConnDrop (now : Z) (o : nat)
| ConnClose.

Definition conn_exec (op : ConnOp) s : Connection H :=
  match op with
  | ConnRead now stream => iteration_state (read_iteration now stream s)
  | ConnMaterialize now id => fst (materialize_channel now id true s)
  | ConnUse o f => set_channels (alter f o (channels s)) [] s
  | ConnDrop now o => cleanup now o s
  | ConnClose => close s
  end.

Definition conn_step s s' : Prop := exists op, s' = conn_exec op s.

(** ** The channel count *)
(** The count exceeds the channels in the map by [k]. *)
Definition counted (k : Z) s : Prop :=
  0 <= k /\ channel_count s = wrap 64 (Z.of_nat (size (conn_map s)) + k).

(** What a step does to the map and its count: it may add a channel, or leave the count
    behind; only a stopped connection forgets the difference. *)
Definition count_step s s' : Prop :=
  (running s' = true -> running s = true)
  /\ forall k, counted k s -> exists k', counted k' s'
       /\ Z.of_nat (size (conn_map s')) + k' <= Z.of_nat (size (conn_map s)) + k + 1
       /\ (running s' = true -> k <= k').

Definition same_count s s' : Prop :=
  conn_map s' = conn_map s /\ channel_count s' = channel_count s /\ running s' = running s.

Lemma same_count_step s s' : same_count s s' -> count_step s s'.
Proof.
  intros (Em & Ec & Er). split; [by rewrite Er|]. intros k [Hk E].
  exists k. unfold counted. rewrite Em, Ec. split_ands; [done|done|lia|done].
Qed.

Lemma interrupt_channel_same o s : same_count s (interrupt_channel o s).
Proof.
  unfold interrupt_channel. destruct (channels s !! o) as [c|]; [|done].
  by destruct (interrupt c).
Qed.

Lemma interrupt_channels_same os s :
  same_count s (fold_left (fun s o => interrupt_channel o s) os s).
Proof.
  revert s. induction os as [|o os IH]; intros s; [done|]. simpl.
  destruct (IH (interrupt_channel o s)) as (Em & Ec & Er). unfold same_count.
  rewrite Em, Ec, Er. apply interrupt_channel_same.
Qed.

Lemma close_map_closed s :
  conn_map (close_map s) = ∅ /\ channel_count (close_map s) = 0 /\ running (close_map s) = false.
Proof. done. Qed.

Lemma closed_step s s' :
  conn_map s' = ∅ -> channel_count s' = 0 -> running s' = false -> count_step s s'.
Proof.
  intros Em Ec Er. split; [by rewrite Er|]. intros k [Hk _]. exists 0.
  unfold counted. rewrite Em, Ec, map_size_empty, Er. split_ands; [lia|done|lia|done].
Qed.

Lemma count_step_trans_same s1 s2 s3 : count_step s1 s2 -> same_count s2 s3 -> count_step s1 s3.
Proof.
  intros [Hr Hc] (Em & Ec & Er). split; [rewrite Er; exact Hr|]. intros k Hk.
  destruct (Hc k Hk) as (k' & Hk' & Hle & Hm). exists k'. unfold counted. rewrite Em, Ec, Er.
  split_ands; [apply Hk'|apply Hk'|done|done].
Qed.

Lemma same_count_trans_step s1 s2 s3 : same_count s1 s2 -> count_step s2 s3 -> count_step s1 s3.
Proof.
  intros (Em & Ec & Er) [Hr Hc]. split; [rewrite <- Er; exact Hr|]. intros k [Hk E].
  destruct (Hc k) as (k' & H'). { split; [done|]. by rewrite Em, Ec. }
  exists k'. by rewrite <- Em.
Qed.

Lemma add_channel_step id o s : count_step s (add_channel id o s).
Proof.
  unfold add_channel. destruct (conn_map s !! id) eqn:E; [by apply same_count_step|].
  split; [done|]. intros k [Hk Ec]. exists k. unfold counted. simpl.
  rewrite map_size_insert_None, Ec, u64_add_wrap by done.
  split_ands; [done|f_equal; lia|lia|done].
Qed.

(** Leaving the map without its count: the difference grows. *)
Lemma removed_step id o s :
  conn_map s !! id = Some o ->
  count_step s (set_map (delete id (conn_map s)) (channel_count s) s)
  /\ forall k, counted k s -> counted (k + 1) (set_map (delete id (conn_map s)) (channel_count s) s).
Proof.
  intros E. assert (Hc : forall k, counted k s ->
    counted (k + 1) (set_map (delete id (conn_map s)) (channel_count s) s)).
  { intros k [Hk Ec]. split; [lia|]. simpl. rewrite Ec. f_equal.
    rewrite map_size_delete_Some by done.
    assert (size (conn_map s) <> 0%nat) by (intros E0%map_size_empty_inv; by rewrite E0 in E).
    lia. }
  split; [|done]. split; [done|]. intros k Hk. exists (k + 1). split; [by apply Hc|]. simpl.
  rewrite map_size_delete_Some by done. split; [lia|lia].
Qed.

Lemma remove_channel_step id s : count_step s (remove_channel id s).
Proof.
  unfold remove_channel. destruct (conn_map s !! id) as [o|] eqn:E; [|by apply same_count_step].
  set (s1 := set_map _ _ s). destruct (interrupt_channel_same o s1) as (Em & Ec & Er).
  destruct (removed_step id o s E) as [_ Hc]. split; [simpl; by rewrite Er|].
  intros k Hk. pose proof (Hc k Hk) as [_ Ec1]. exists k. unfold counted. simpl.
  rewrite Em, Ec. fold s1 in Ec1. rewrite Ec1, u64_sub_wrap.
  split_ands; [apply Hk|f_equal; lia| |done].
  subst s1. simpl. rewrite map_size_delete_Some by done. lia.
Qed.

Lemma write_system_same now t id s : same_count s (fst (write_system now t id s)).
Proof. unfold write_system. by destruct (write_raw_packet _ _ _) as [[w r]|]. Qed.

Lemma materialize_channel_step now id alert s :
  count_step s (fst (materialize_channel now id alert s)).
Proof.
  unfold materialize_channel.
  assert (Ha : count_step s (add_channel id (next_channel s) (new_channel id s))).
  { eapply same_count_trans_step; [|apply add_channel_step]. done. }
  destruct alert; [|exact Ha]. set (s1 := add_channel _ _ _) in *.
  pose proof (write_system_same now ChannelOpen id s1) as Hw.
  destruct (write_system now ChannelOpen id s1) as [s2 [u|e]]; by eapply count_step_trans_same.
Qed.

Lemma handle_global_step now p s : count_step s (handle_global now p s).
Proof.
  unfold handle_global. destruct (packet_type p); try by apply same_count_step.
  - pose proof (materialize_channel_step now (raw_stream_id p) false s) as Hm.
    destruct (materialize_channel _ _ _ _) as [s1 [o|e]]; [|exact Hm].
    by eapply count_step_trans_same.
  - destruct (conn_map s !! raw_stream_id p) as [o|] eqn:E; [|by apply same_count_step].
    eapply count_step_trans_same; [exact (proj1 (removed_step _ o s E))|].
    apply (interrupt_channel_same o (set_map _ _ s)).
Qed.

Lemma dispatch_step p rest s : count_step s (iteration_state (dispatch p rest s)).
Proof.
  unfold dispatch. destruct (conn_map s !! raw_stream_id p) as [o|]; [|by apply same_count_step].
  destruct (channels s !! o) as [c|]; [|by apply same_count_step].
  destruct (handle_packet alive p c) as [[[c' ds] r]|]; [|by apply same_count_step].
  destruct r as [u|[]]; try by apply same_count_step. by apply closed_step.
Qed.

Lemma conn_step_count s s' : conn_step s s' -> count_step s s'.
Proof.
  intros [[now stream|now id|o f|now o|] ->]; cbn [conn_exec].
  - unfold read_iteration. destruct (running s); [|by apply same_count_step].
    destruct (read_packet stream) as [| | | |p rest]; try by apply closed_step.
    destruct (is_system (packet_type p));
      (eapply same_count_trans_step; [|first [apply handle_global_step|apply dispatch_step]]); done.
  - apply materialize_channel_step.
  - by apply same_count_step.
  - unfold cleanup. destruct (channels s !! o) as [c|]; [|by apply same_count_step].
    eapply count_step_trans_same; [apply remove_channel_step|apply write_system_same].
  - by apply closed_step.
Qed.

Lemma nsteps_count n s s' k :
  nsteps conn_step n s s' -> counted k s ->
  exists k', counted k' s'
    /\ Z.of_nat (size (conn_map s')) + k' <= Z.of_nat (size (conn_map s)) + k + Z.of_nat n
    /\ (running s' = true -> running s = true /\ k <= k').
Proof.
  intros Hn. revert k. induction Hn as [s|n s1 s2 s3 H12 _ IH]; intros k Hk.
  - exists k. split_ands; [done|lia|done].
  - destruct (conn_step_count s1 s2 H12) as [Hr Hc]. destruct (Hc k Hk) as (k2 & Hk2 & Hle & Hm).
    destruct (IH k2 Hk2) as (k3 & Hk3 & Hle3 & Hm3). exists k3.
    split_ands; [done|lia|]. intros R. destruct (Hm3 R) as [R2 ?].
    pose proof (Hr R2). pose proof (Hm R2). split; [done|lia].
Qed.

Lemma safe_to_close_empty local now n s :
  nsteps conn_step n (Connection_new local now) s -> Z.of_nat n < 2 ^ 64 ->
  safe_to_close s = true -> conn_map s = ∅.
Proof.
  intros Hn Hlt Hsafe%bool_decide_eq_true.
  destruct (nsteps_count n _ s 0 Hn ltac:(by split)) as (k & [Hk Ec] & Hle & _).
  simpl in Hle. rewrite map_size_empty in Hle.
  rewrite Ec, wrap_small in Hsafe by (unfold in_width; lia).
  apply map_size_empty_inv. lia.
Qed.

(** Closing only unused connections.  Whatever the two ends and the tasks of a node do
    on a connection, in any interleaving, the count never falls below the channels in use;
    in particular a connection that is reported safe to close has no channel. *)
Theorem safe_to_close_sound local now n s :
  nsteps conn_step n (Connection_new local now) s -> Z.of_nat n < 2 ^ 64 ->
  Z.of_nat (size (conn_map s)) <= channel_count s
  /\ (safe_to_close s = true -> conn_map s = ∅).
Proof.
  intros Hn Hlt. split; [|by eapply safe_to_close_empty].
  destruct (nsteps_count n _ s 0 Hn ltac:(by split)) as (k & [Hk Ec] & Hle & _).
  simpl in Hle. rewrite map_size_empty in Hle. rewrite Ec, wrap_small; [lia|unfold in_width; lia].
Qed.

(** A remote close pins the connection.  Once the peer has closed one of the channels,
    no further use of the connection makes it safe to close again, for as long as it runs:
    the close takes the channel out of the map but not out of the count. *)
Theorem remote_close_pins local now n m s id o rest now' s' :
  nsteps conn_step n (Connection_new local now) s ->
  running s = true -> conn_map s !! id = Some o -> in_width 32 id ->
  nsteps conn_step m
    (iteration_state (read_iteration now' (raw_bytes (mkRaw ChannelClose id []) ++ rest) s)) s' ->
  Z.of_nat n + Z.of_nat m + 1 < 2 ^ 64 -> running s' = true ->
  safe_to_close s' = false.
Proof.
  intros Hn Hr Ho Hid Hm Hlt Hr'. apply bool_decide_eq_false. intros Ec'.
  destruct (nsteps_count n _ s 0 Hn ltac:(by split)) as (k & Hk & Hle & _).
  simpl in Hle. rewrite map_size_empty in Hle.
  unfold read_iteration in Hm. rewrite Hr, read_packet_raw_bytes in Hm
    by (split; [exact Hid|split; [constructor|done]]).
  cbn [packet_type is_system iteration_state] in Hm. unfold handle_global in Hm.
  cbn [packet_type raw_stream_id] in Hm. simpl in Hm. rewrite Ho in Hm.
  set (s0 := set_last_read now' s) in *.
  destruct (removed_step id o s0 Ho) as [_ Hc]. specialize (Hc k Hk).
  set (s1 := set_map _ _ s0) in *. destruct (interrupt_channel_same o s1) as (Em & E & Er).
  set (s2 := log_event _ _) in *.
  assert (Hk2 : counted (k + 1) s2).
  { unfold counted. subst s2. simpl. rewrite Em, E. exact Hc. }
  destruct (nsteps_count m s2 s' (k + 1) Hm Hk2) as (k' & [Hk' Ek'] & Hle' & Hmono).
  destruct (Hmono Hr') as [_ ?]. rewrite Ec' in Ek'.
  assert (Z.of_nat (size (conn_map s2)) <= Z.of_nat (size (conn_map s))).
  { subst s2. simpl. rewrite Em. subst s1 s0. simpl. rewrite map_size_delete_Some by done. lia. }
  destruct Hk as [Hk0 _]. rewrite wrap_small in Ek' by (unfold in_width; lia). lia.
Qed.

(** ** The reader on arbitrary input *)
Definition all_ready s : Prop := map_Forall (fun _ c => channel_ready alive c) (channels s).

Lemma interrupt_ready (c : Channel H) : channel_ready alive c -> channel_ready alive (fst (interrupt c)).
Proof.
  intros [Ha Hh]. unfold interrupt. destruct (handler_sender c); [|done].
  destruct (incoming_handler c) eqn:E; [|by split; simpl; rewrite ?E].
  split; [exact Ha|]. intros _. simpl. apply Hh. by rewrite ?E.
Qed.

Lemma interrupt_channel_ready o s : all_ready s -> all_ready (interrupt_channel o s).
Proof.
  intros Hs. unfold interrupt_channel. destruct (channels s !! o) as [c|] eqn:E; [|done].
  pose proof (interrupt_ready c (Hs o c E)) as Hc. destruct (interrupt c) as [c' ds].
  by apply map_Forall_insert_2.
Qed.

(** [c'] has no pending request that [c] has not, and the same handler registration. *)
Definition narrows (c c' : Channel H) : Prop :=
  (forall tx, lock_sender c' = Some tx -> lock_sender c = Some tx)
  /\ (forall tx, reserve_sender c' = Some tx -> reserve_sender c = Some tx)
  /\ (forall tx, put_sender c' = Some tx -> put_sender c = Some tx)
  /\ (forall tx, query_sender c' = Some tx -> query_sender c = Some tx)
  /\ (forall tx, commit_sender c' = Some tx -> commit_sender c = Some tx)
  /\ mdsftp_handler_channel c' = mdsftp_handler_channel c
  /\ (incoming_handler c' <> None -> incoming_handler c <> None).

Lemma narrows_ready c c' : narrows c c' -> channel_ready alive c -> channel_ready alive c'.
Proof.
  intros (? & ? & ? & ? & ? & Ef & Hi) [Ha Hh]. split.
  - intros tx Htx. apply Ha. destruct Htx as [|[|[|[|]]]]; eauto 6.
  - rewrite Ef. intros Hn. by apply Hh, Hi.
Qed.

Lemma deliver_inv tx d (c c' : Channel H) ds r : deliver alive tx d c = Some (c', ds, r) -> c' = c.
Proof. unfold deliver. by destruct (alive tx); intros; simplify_eq. Qed.

Lemma handle_user_packet_narrows p (c : Channel H) c' ds r :
  handle_user_packet p c = Some (c', ds, r) -> narrows c c'.
Proof.
  unfold handle_user_packet. destruct (incoming_handler c) as [h|] eqn:Eh;
    [|intros; by simplify_eq].
  destruct (mdsftp_handler_channel c) eqn:Ec; [|done].
  destruct (decode_call p) as [[[call|]|e]|]; simpl; intros; simplify_eq; [|done|done].
  destruct (handle_call call h). simplify_eq. unfold narrows. by rewrite Eh, Ec.
Qed.

Lemma handle_packet_narrows p (c : Channel H) c' ds r :
  handle_packet alive p c = Some (c', ds, r) -> narrows c c'.
Proof.
  assert (Hd : forall tx d c1, narrows c c1 ->
    deliver alive tx d c1 = Some (c', ds, r) -> narrows c c').
  { intros tx d c1 Hn E. by apply deliver_inv in E as ->. }
  unfold handle_packet.
  destruct (packet_type p); try apply handle_user_packet_narrows;
    (match goal with |- context [match ?s with Some _ => _ | None => _ end] =>
       destruct s as [tx|] eqn:Es end); try (intros; by simplify_eq).
  all: repeat match goal with
    | |- (?x ≫= _) = _ -> _ => destruct x; cbn [mbind option_bind]; [|done]
    | |- (if ?b then _ else _) = _ -> _ => destruct b; [|try done]
    end; by apply Hd.
Qed.

Lemma handle_global_ready now p s :
  (forall c, channel_ready alive c -> channel_ready alive (channel_incoming c)) ->
  all_ready s -> all_ready (handle_global now p s) /\ running (handle_global now p s) = running s.
Proof.
  intros Hin Hs. unfold handle_global. destruct (packet_type p); try done.
  - assert (Hnew : map_Forall (fun _ c => channel_ready alive c)
      (<[next_channel s := Channel_new (raw_stream_id p)]> (channels s))).
    { apply map_Forall_insert_2; [|done]. split; [|done]. intros tx. simpl. intuition discriminate. }
    assert (Hal : forall m : gmap nat (Channel H), map_Forall (fun _ c => channel_ready alive c) m ->
      map_Forall (fun _ c => channel_ready alive c) (alter channel_incoming (next_channel s) m)).
    { intros m Hm o c. rewrite lookup_alter_Some.
      intros [(<- & c0 & E & ->)|[_ E]]; [apply Hin|]; by eapply Hm. }
    unfold materialize_channel, add_channel. simpl. destruct (conn_map s !! raw_stream_id p); simpl;
      (split; [by apply Hal|done]).
  - destruct (conn_map s !! raw_stream_id p) as [o|]; [|done]. set (s1 := set_map _ _ s).
    split; [by apply (interrupt_channel_ready o s1)|]. apply (interrupt_channel_same o s1).
Qed.

(** What the reader guarantees at the end of one iteration. *)
Definition iteration_ok (rest0 : list u8) (i : Iteration) : Prop :=
  match i with
  | Continue rest s' =>
      (length rest < length rest0)%nat /\ is_bytes rest /\ running s' = true /\ all_ready s'
  | Stopped s' => conn_map s' = ∅ /\ channel_count s' = 0 /\ running s' = false
  | Panicked _ => False
  end.

Lemma read_iteration_ok now stream s :
  (forall c, channel_ready alive c -> channel_ready alive (channel_incoming c)) ->
  is_bytes stream -> running s = true -> all_ready s ->
  iteration_ok stream (read_iteration now stream s).
Proof.
  intros Hin Hb Hr Hs. unfold read_iteration. rewrite Hr.
  destruct (read_packet stream) as [| | | |p rest] eqn:Ep; try done.
  apply read_packet_inv in Ep as [-> Hwf]; [|done].
  assert (Hrest : (length rest < length (raw_bytes p ++ rest))%nat /\ is_bytes rest).
  { rewrite length_app, raw_bytes_length. unfold HEADER_SIZE. split; [lia|].
    by apply Forall_app in Hb as [_ ?]. }
  destruct Hrest as [Hlt Hrest]. destruct (is_system (packet_type p)).
  - destruct (handle_global_ready now p (set_last_read now s) Hin Hs) as [Hs' Hr'].
    split; [done|]. split; [done|]. split; [by rewrite Hr'|done].
  - unfold dispatch. simpl. destruct (conn_map s !! raw_stream_id p) as [o|]; [|done].
    destruct (channels s !! o) as [c|] eqn:Ec; [|done].
    destruct (handle_packet_no_panic alive p c Hwf (Hs o c Ec)) as [[[c' ds] r] E]. rewrite E.
    pose proof (narrows_ready c c' (handle_packet_narrows p c c' ds r E) (Hs o c Ec)) as Hc'.
    assert (all_ready (set_channels (<[o := c']> (channels s)) ds (set_last_read now s)))
      by (by apply map_Forall_insert_2).
    by destruct r as [u|[]].
Qed.


(** A cancelled request kills the reader.  If the task that asked to put a chunk was
    dropped before the answer arrives, the answer makes the reader panic: the loop is gone
    while the connection still counts as running, with its channels in the map, so nothing
    sent to them will ever be read. *)
Theorem cancelled_request_kills_reader now id o c tx buffer rest fuel s :
  running s = true -> conn_map s !! id = Some o -> channels s !! o = Some c ->
  put_sender c = Some tx -> alive tx = false -> in_width 32 id -> in_width 16 buffer ->
  exists s', read_loop (S fuel) now (raw_bytes (respond_put_ok id buffer) ++ rest) s = Panicked s'
    /\ running s' = true /\ conn_map s' = conn_map s /\ channel_count s' = channel_count s.
Proof.
  intros Hr Hm Hc Hp Ha Hid Hbuf. cbn [read_loop]. unfold read_iteration.
  rewrite Hr, read_packet_raw_bytes by (by apply (wf_reply_packet id (RPutOk buffer))).
  cbn. unfold dispatch. cbn. rewrite Hm, Hc. unfold handle_packet, deliver. cbn.
  rewrite Hp, Ha. destruct (get_be 0 2 (u16_be buffer)); by eexists.
Qed.

(** ** Channel ids *)
(** The ids a node gives its channels.  A generated id is free on the connection, fits
    the stream id of a packet, is never zero, and lies in the half reserved to this end of
    the connection, so that the two ends never choose the same one; an id is found whenever
    the connection is below its channel limit and one of the five draws is free. *)
Theorem generate_id_spec draws s :
  Forall (fun d => 1 <= d < 0x80000000) draws ->
  (forall id, generate_id draws s = Ok id ->
     conn_map s !! id = None /\ in_width 32 id /\ 0 < id
     /\ (id < 0x80000000 <-> local_end s = true))
  /\ (Z.of_nat (size (conn_map s)) < 1000000 ->
      Exists (fun d => conn_map s !! (d + if local_end s then 0 else 0x80000000) = None)
        (take 5 draws) ->
      exists id, generate_id draws s = Ok id).
Proof.
  intros Hd. unfold generate_id. set (off := if local_end s then 0 else 0x80000000).
  destruct (filter _ _) as [|id ids] eqn:Ef.
  - split; [intros id; by case_decide|]. intros Hsz Hex. exfalso.
    apply Exists_exists in Hex as (d & Hin & Hfree).
    apply (not_elem_of_nil (d + off)). rewrite <- Ef. apply list_elem_of_filter.
    split; [done|].
    apply list_elem_of_fmap. by exists d.
  - assert (Hid : id ∈ filter (fun id => conn_map s !! id = None) (map (fun d => d + off) (take max_tries draws)))
      by (rewrite Ef; left).
    apply list_elem_of_filter in Hid as [Hfree (d & -> & Hin)%list_elem_of_fmap].
    assert (Hrange : 1 <= d < 0x80000000).
    { rewrite Forall_forall in Hd. apply Hd. eapply elem_of_take in Hin as (i & Hi & _).
      by eapply list_elem_of_lookup_2. }
    split.
    + intros id'. case_decide; [done|]. intros [= <-]. split; [done|].
      unfold in_width, off in *. destruct (local_end s); (split_ands; [lia..|]); split; intros; (done || lia).
    + intros Hsz _. exists (d + off). rewrite decide_False; [done|]. unfold max_ids. lia.
Qed.

(** ** Many channels on one connection *)
Definition messages_of (id : u32) (ms : list (u32 * ClientMsg)) : list ClientMsg :=
  map snd (filter (fun sm => sm.1 = id) ms).

Definition run_calls (ms : list ClientMsg) (h : H) : H :=
  fold_left (fun h m => fst (handle_call (client_call m) h)) ms h.

(** The map refers to distinct channel objects, whose handlers can answer. *)
Definition well_mapped s : Prop :=
  (forall i j o, conn_map s !! i = Some o -> conn_map s !! j = Some o -> i = j)
  /\ (forall i o, conn_map s !! i = Some o -> is_Some (channels s !! o))
  /\ (forall o c, channels s !! o = Some c -> incoming_handler c <> None ->
        mdsftp_handler_channel c = true).

Lemma handle_client_packet sid m (c : Channel H) :
  wf_msg m -> (incoming_handler c <> None -> mdsftp_handler_channel c = true) ->
  exists ds r, handle_packet alive (client_packet sid m) c
    = Some (set_handler ((fun h => fst (handle_call (client_call m) h)) <$> incoming_handler c) c, ds, r)
  /\ (r = Ok tt \/ exists h, r = snd (handle_call (client_call m) h)).
Proof.
  intros Hm Hh.
  assert (E : handle_packet alive (client_packet sid m) c = handle_user_packet (client_packet sid m) c)
    by (by destruct m).
  rewrite E. unfold handle_user_packet. destruct (incoming_handler c) as [h|] eqn:Ei.
  - rewrite Hh, decode_client_packet by done. cbn [mbind option_bind].
    destruct (handle_call (client_call m) h) as [h' r] eqn:Eh. exists [], r. simpl. rewrite Eh.
    split; [done|]. right. exists h. by rewrite Eh.
  - exists [], (Ok tt). split; [|by left]. destruct c; simpl in *; by subst.
Qed.

(** One message: its channel's handler is called, nothing else changes. *)
Lemma read_message now sid m rest s :
  (forall call h, snd (handle_call call h) <> Err ConnectionError) ->
  in_width 32 sid -> wf_msg m -> running s = true -> well_mapped s ->
  exists s', read_iteration now (raw_bytes (client_packet sid m) ++ rest) s = Continue rest s'
    /\ running s' = true /\ conn_map s' = conn_map s
    /\ forall o, channels s' !! o
         = if decide (conn_map s !! sid = Some o)
           then (fun c => set_handler ((fun h => fst (handle_call (client_call m) h))
                                         <$> incoming_handler c) c) <$> channels s !! o
           else channels s !! o.
Proof.
  intros Hok Hsid Hm Hr (_ & Hin & Hh). unfold read_iteration.
  rewrite Hr, read_packet_raw_bytes by (by apply wf_client_packet).
  assert (Hsys : is_system (packet_type (client_packet sid m)) = false) by (by destruct m).
  assert (Hid : raw_stream_id (client_packet sid m) = sid) by (by destruct m).
  rewrite Hsys. unfold dispatch. rewrite Hid. simpl.
  destruct (conn_map s !! sid) as [o|] eqn:Eo.
  - destruct (Hin sid o Eo) as [c Ec]. rewrite Ec.
    destruct (handle_client_packet sid m c Hm (Hh o c Ec)) as (ds & r & E & Hr'). rewrite E.
    exists (set_channels (<[o := set_handler ((fun h => fst (handle_call (client_call m) h))
      <$> incoming_handler c) c]> (channels s)) ds (set_last_read now s)). split.
    { destruct Hr' as [->|[h ->]]; [done|]. specialize (Hok (client_call m) h).
      by destruct (snd (handle_call (client_call m) h)) as [u|[]]. }
    split_ands; [done|done|]. intros o'. simpl. case_decide as Hd.
    + injection Hd as <-. by rewrite lookup_insert_eq, Ec.
    + rewrite lookup_insert_ne; [done|]. intros ->. by apply Hd.
  - eexists. split; [done|]. split_ands; [done|done|]. intros o. by rewrite decide_False.
Qed.

Lemma set_handler_id (c : Channel H) : set_handler (incoming_handler c) c = c.
Proof. by destruct c. Qed.

Lemma well_mapped_step (f : Channel H -> H -> H) (P : nat -> Prop) `{forall o, Decision (P o)} s s' :
  well_mapped s -> conn_map s' = conn_map s ->
  (forall o, channels s' !! o
     = if decide (P o) then (fun c => set_handler (f c <$> incoming_handler c) c) <$> channels s !! o
       else channels s !! o) ->
  well_mapped s'.
Proof.
  intros (Hinj & Hin & Hh) Em Ec. unfold well_mapped. rewrite Em. split_ands; [done| |].
  - intros i o Ho. rewrite Ec. case_decide; rewrite ?fmap_is_Some; by eapply Hin.
  - intros o c. rewrite Ec. case_decide; [|by apply Hh].
    intros (c0 & E & ->)%fmap_Some Hn. simpl in *. apply (Hh o c0 E). by destruct (incoming_handler c0).
Qed.

Lemma read_messages now ms s :
  (forall call h, snd (handle_call call h) <> Err ConnectionError) ->
  Forall (fun sm => in_width 32 sm.1 /\ wf_msg sm.2) ms -> running s = true -> well_mapped s ->
  exists s', read_loop (length ms) now
         (concat (map raw_bytes (map (fun sm => client_packet sm.1 sm.2) ms))) s = Continue [] s'
    /\ conn_map s' = conn_map s
    /\ forall id o c, conn_map s !! id = Some o -> channels s !! o = Some c ->
         channels s' !! o
         = Some (set_handler (run_calls (messages_of id ms) <$> incoming_handler c) c).
Proof.
  intros Hok Hms. revert s. induction Hms as [|[sid m] ms [Hsid Hm] _ IH]; intros s Hr Hs;
    cbn [length map concat read_loop fst snd].
  { exists s. split_ands; [done|done|]. intros id o c _ Hc. rewrite Hc. unfold messages_of. simpl.
    f_equal. symmetry. rewrite <- (set_handler_id c) at 3. f_equal. by destruct (incoming_handler c). }
  destruct (read_message now sid m (concat (map raw_bytes (map (fun sm => client_packet sm.1 sm.2) ms)))
    s Hok Hsid Hm Hr Hs) as (s1 & E1 & R1 & M1 & C1). rewrite E1.
  destruct (IH s1 R1) as (s2 & E2 & M2 & C2).
  { exact (well_mapped_step (fun _ h => fst (handle_call (client_call m) h))
      (fun o => conn_map s !! sid = Some o) s s1 Hs M1 C1). }
  exists s2. split; [done|]. split; [by rewrite M2, M1|]. intros id o c Ho Hc.
  pose proof (C1 o) as E. rewrite Hc in E. unfold messages_of. rewrite filter_cons. simpl.
  destruct (decide (sid = id)) as [->|Hne].
  - rewrite decide_True in E by done. rewrite M1 in C2. rewrite (C2 id o _ Ho E). simpl.
    f_equal. unfold set_handler. simpl. f_equal. by destruct (incoming_handler c).
  - rewrite decide_False in E by (intros E'; by apply Hne, (proj1 Hs sid id o)).
    rewrite M1 in C2. by rewrite (C2 id o c Ho E).
Qed.

End connection.

(** ** Witnesses *)
#[global] Instance log_packet_handler : PacketHandler (list HandlerCall) := {
  channel_incoming := set_incoming_handler 1%nat []
}.

Definition log_connection : Connection (list HandlerCall) := Connection_new true 0.

(** The peer has opened channels 1 and 2. *)
Definition two_channels : Connection (list HandlerCall) := Eval vm_compute in
  iteration_state (read_loop (fun _ => true) 2 0
    (raw_bytes (mkRaw ChannelOpen 1 []) ++ raw_bytes (mkRaw ChannelOpen 2 [])) log_connection).

Lemma safe_to_close_sound_witness :
  conn_map (conn_exec (fun _ => true) ConnClose log_connection) = ∅.
Proof.
  apply (safe_to_close_sound (fun _ => true) true 0 1); [|lia|by vm_compute].
  apply nsteps_once. by exists ConnClose.
Defined.

(** Channel 1 is opened and closed by the peer, then one is opened and dropped here. *)
Lemma remote_close_pins_witness :
  let s := fst (materialize_channel 0 1 true log_connection) in
  let s1 := iteration_state (read_iteration (fun _ => true) 5
    (raw_bytes (mkRaw ChannelClose 1 []) ++ []) s) in
  safe_to_close (fst (materialize_channel 6 3 true s1)) = false.
Proof.
  intros s s1.
  apply (remote_close_pins (fun _ => true) true 0 1 1 s 1 0%nat [] 5).
  - apply nsteps_once. by exists (ConnMaterialize 0 1).
  - by vm_compute.
  - by vm_compute.
  - by vm_compute.
  - apply nsteps_once. by exists (ConnMaterialize 6 3).
  - lia.
  - by vm_compute.
Defined.


(** The peer answers a put whose requester is gone. *)
Lemma cancelled_request_kills_reader_witness :
  exists s', read_loop (fun _ => false) 1 9 (raw_bytes (respond_put_ok 1 16) ++ [])
               (set_channels (alter (set_put_sender (Some 3%nat)) 0%nat (channels two_channels)) []
                  two_channels) = Panicked s'
    /\ running s' = true.
Proof.
  destruct (cancelled_request_kills_reader (fun _ => false) 9 1 0%nat
    (set_put_sender (Some 3%nat) (set_incoming_handler 1%nat [] (Channel_new 1))) 3%nat 16 [] 0
    (set_channels (alter (set_put_sender (Some 3%nat)) 0%nat (channels two_channels)) []
       two_channels)) as (s' & E & R & _); try by vm_compute.
  exists s'. split; [exact E|exact R].
Defined.

Lemma generate_id_spec_witness :
  generate_id [1; 2; 7] two_channels = Ok 7 /\ conn_map two_channels !! 7 = None.
Proof.
  destruct (generate_id_spec [1; 2; 7] two_channels) as [Hok _].
  { apply (bool_decide_unpack _). by vm_compute. }
  split; [by vm_compute|]. apply (Hok 7). by vm_compute.
Defined.

