(* ===== verification/MdsftpPool.v ===== *)
(** * The connection pool and the server

    [protocol/src/mdsftp/pool.rs] and [server.rs]: a node's connections to its peers.  The
    pool hands out channels on the least used connection to a node and opens one when there
    is none; a watcher closes the stale ones; the server adds the connections of peers that
    authenticate.

    Connections are shared objects, kept in [store] by their [local_id]; the pool's map
    holds, per node, the ids of its connections in order.  [MultiMap::iter] and the opening
    of a TLS stream are parameters. *)
From Stdlib Require Import ZArith Lia List.
From stdpp Require Import base numbers list gmap strings.
From S2P Require Import Prelude Errors MdsftpData MdsftpWire MdsftpChannel MdsftpConnection.
Local Open Scope Z_scope.

(** Nanoseconds, as the clock of the model. *)
Definition STALE_TIMEOUT : Z := 5 * 60 * 1000000000.

Record Pool (H : Type) : Type := mkPool {
  connection_map : gmap Uuid (list Uuid);
  store : gmap Uuid (Connection H);
  packet_handler : bool;
  shutting_down : bool;
  stale_conn_watcher : bool;
  node_addr_map : gmap Uuid string
}.
Arguments mkPool {H}.
Arguments connection_map {H}.
Arguments store {H}.
Arguments packet_handler {H}.
Arguments shutting_down {H}.
Arguments stale_conn_watcher {H}.
Arguments node_addr_map {H}.

(** [Iterator::min_by_key]: the first of the least elements. *)
Fixpoint min_by_key {A} (key : A -> Z) (x : A) (l : list A) : A :=
  match l with
  | [] => x
  | y :: l => min_by_key key (if decide (key y < key x) then y else x) l
  end.

Section pool.
  Context {H : Type} `{ChannelPacketHandler H} `{PacketHandler H}.
  (** [MultiMap::iter], and opening a TLS stream to an address and authenticating on it. *)
  Variable mm_iter : gmap Uuid (list Uuid) -> list (Uuid * Uuid).
  Variable create_conn : string -> MDSFTPResult unit.
  Implicit Types P : Pool H.

Definition Pool_new (addrs : gmap Uuid string) : Pool H := mkPool ∅ ∅ false false false addrs.

(** ** Field updates *)
Definition set_connections (m : gmap Uuid (list Uuid)) (st : gmap Uuid (Connection H)) P : Pool H :=
  mkPool m st (packet_handler P) (shutting_down P) (stale_conn_watcher P) (node_addr_map P).

Definition set_packet_handler P : Pool H :=
  mkPool (connection_map P) (store P) true (shutting_down P) (stale_conn_watcher P)
    (node_addr_map P).

Definition set_shutting_down P : Pool H :=
  mkPool (connection_map P) (store P) (packet_handler P) true (stale_conn_watcher P)
    (node_addr_map P).

(** [MultiMap::insert] *)
Definition mm_insert (k v : Uuid) (m : gmap Uuid (list Uuid)) : gmap Uuid (list Uuid) :=
  <[k := default [] (m !! k) ++ [v]]> m.

Definition count_of P (c : Uuid) : Z := from_option channel_count 0 (store P !! c).

(** ** Getting a channel *)
Definition create_connection (target : Uuid) P : MDSFTPResult unit :=
  if shutting_down P then Err ShuttingDown
  else match node_addr_map P !! target with
       | None => Err NoSuchNode
       | Some addr => create_conn addr
       end.

(** [local_id]: the id drawn for the connection, when one is created. *)
Definition get_connection (now : Z) (local_id node_id : Uuid) P : Pool H * MDSFTPResult Uuid :=
  match connection_map P !! node_id with
  | Some (c :: cs) => (P, Ok (min_by_key (count_of P) c cs))
  | _ =>
      if negb (packet_handler P) then (P, Err NoPacketHandler)
      else match create_connection node_id P with
           | Err e => (P, Err e)
           | Ok _ =>
               (set_connections (mm_insert node_id local_id (connection_map P))
                  (<[local_id := Connection_new true now]> (store P)) P, Ok local_id)
           end
  end.

(** The connection the channel is on, and the channel. *)
Definition channel (now : Z) (local_id : Uuid) (draws : list u32) (node_id : Uuid) P
    : Pool H * MDSFTPResult (Uuid * nat) :=
  match get_connection now local_id node_id P with
  | (P, Err e) => (P, Err e)
  | (P, Ok c) =>
      match store P !! c with
      | None => (P, Err ConnectionError)
      | Some conn =>
          let '(conn, r) := create_channel now draws conn in
          (set_connections (connection_map P) (<[c := conn]> (store P)) P,
           match r with Ok o => Ok (c, o) | Err e => Err e end)
      end
  end.

Definition add_connection (now : Z) (local_id id : Uuid) P : Pool H * MDSFTPResult unit :=
  if shutting_down P then (P, Err ShuttingDown)
  else if negb (packet_handler P) then (P, Err NoPacketHandler)
  else (set_connections (mm_insert id local_id (connection_map P))
          (<[local_id := Connection_new false now]> (store P)) P, Ok tt).

(** ** Closing connections *)
Definition close_all (cs : list Uuid) (st : gmap Uuid (Connection H)) : gmap Uuid (Connection H) :=
  fold_left (fun st c => alter close c st) cs st.

Definition is_stale (now : Z) P (c : Uuid) : bool :=
  match store P !! c with
  | Some conn => bool_decide (STALE_TIMEOUT < now - last_access conn) && safe_to_close conn
  | None => false
  end.

(** [map.remove], [retain], [insert_many] for one node of the marked connections. *)
Definition sweep_node (id : Uuid) (sweep : list Uuid) (m : gmap Uuid (list Uuid))
    : gmap Uuid (list Uuid) :=
  match m !! id with
  | Some vec =>
      match filter (fun c => c ∉ sweep) vec with
      | [] => delete id m
      | vec => <[id := vec]> (delete id m)
      end
  | None => m
  end.

(** One tick of the watcher. *)
Definition sweep_stale (now : Z) P : Pool H :=
  let marked := filter (fun e => is_stale now P e.2 = true) (mm_iter (connection_map P)) in
  let mark := fold_left (fun mark e => mm_insert e.1 e.2 mark) marked ∅ in
  set_connections
    (fold_left (fun m e => sweep_node e.1 e.2 m) (map_to_list mark) (connection_map P))
    (close_all (map snd marked) (store P)) P.

Definition pool_close P : Pool H :=
  let P := set_shutting_down P in
  set_connections ∅ (close_all (map snd (mm_iter (connection_map P))) (store P)) P.

Definition watch_stale P : Pool H :=
  mkPool (connection_map P) (store P) (packet_handler P) (shutting_down P) true (node_addr_map P).

(** ** The server's accept loop *)
(** What [accept] yields: a signal of [shutdown], a failure, or a stream with its bytes and
    the [local_id] its connection would get. *)
Inductive AcceptEvent : Type :=
| ShutdownSignal
| AcceptFailed
| TlsFailed
| Accepted (bytes : list u8) (local_id : Uuid).

(** [authenticate_incoming] of the node: [validate] is [validate_peer_token] of the
    controller's API on the 64 bytes read as text. *)
Definition authenticate_incoming (validate : list u8 -> Uuid -> result ProtocolError bool)
    (stream : list u8) (conn_id : Uuid) : result ProtocolError bool :=
  match read_exact 64 stream with
  | None => Err PAuthenticationFailed
  | Some (token, _) =>
      match validate token conn_id with
      | Ok valid => Ok valid
      | Err _ => Ok false
      end
  end.

Definition accept_one (authenticator : option (list u8 -> Uuid -> result ProtocolError bool))
    (now : Z) (e : AcceptEvent) P : Pool H * MDSFTPResult unit :=
  match e with
  | ShutdownSignal => (P, Err ShuttingDown)
  | AcceptFailed | TlsFailed => (P, Err ConnectionError)
  | Accepted bytes local_id =>
      match read_exact 16 bytes with
      | None => (P, Err ConnectionError)
      | Some (auth_header, stream) =>
          let microservice_id := be_decode auth_header in
          match authenticator with
          | None => add_connection now local_id microservice_id P
          | Some authenticate =>
              match authenticate stream microservice_id with
              | Err e => (P, Err (mdsftp_of_protocol e))
              | Ok false => (P, Err ConnectionAuthenticationError)
              | Ok true => add_connection now local_id microservice_id P
              end
          end
      end
  end.

Fixpoint accept_loop (authenticator : option (list u8 -> Uuid -> result ProtocolError bool))
    (now : Z) (es : list AcceptEvent) P : Pool H :=
  match es with
  | [] => P
  | e :: es =>
      match accept_one authenticator now e P with
      | (P, Err ShuttingDown) => P
      | (P, _) => accept_loop authenticator now es P
      end
  end.

(** What an attempt to create the first connection to a node may end in. *)
Definition creation_outcome (now : Z) (local_id node : Uuid) P (P' : Pool H) (r : MDSFTPResult Uuid)
    : Prop :=
  match r with
  | Ok d => d = local_id /\ connection_map P' = <[node := [local_id]]> (connection_map P)
      /\ store P' = <[local_id := Connection_new true now]> (store P)
      /\ packet_handler P = true /\ shutting_down P = false
      /\ exists addr, node_addr_map P !! node = Some addr /\ create_conn addr = Ok tt
  | Err e => P' = P /\
      (e = NoPacketHandler /\ packet_handler P = false
       \/ e = ShuttingDown /\ shutting_down P = true
       \/ e = NoSuchNode /\ node_addr_map P !! node = None
       \/ exists addr, node_addr_map P !! node = Some addr /\ create_conn addr = Err e)
  end.

(** ** Choosing a connection *)
Lemma min_by_key_spec {A} (key : A -> Z) x l :
  min_by_key key x l ∈ x :: l /\ forall y, y ∈ x :: l -> key (min_by_key key x l) <= key y.
Proof.
  revert x. induction l as [|y l IH]; intros x; simpl.
  - split; [left|]. intros y ->%list_elem_of_singleton. lia.
  - destruct (IH (if decide (key y < key x) then y else x)) as [Hin Hle]. split.
    + apply elem_of_cons in Hin as [->|Hin]; [|by right; right].
      case_decide; [right; left|left].
    + intros z Hz. pose proof (Hle _ (list_elem_of_here _ _)) as Hh.
      apply elem_of_cons in Hz as [->|[->|Hz]%elem_of_cons]; [| |by apply Hle; right];
        case_decide; lia.
Qed.

(** Which connection a channel is opened on.  A node with connections gets the one with
    the fewest channels, and the pool is unchanged; otherwise one is created, unless there
    is no handler yet, the pool is shutting down, the node is unknown or the connection
    fails, each reported as its error with the pool unchanged. *)
Theorem get_connection_spec now local_id node P :
  let '(P', r) := get_connection now local_id node P in
  match connection_map P !! node with
  | Some (c :: cs) =>
      P' = P /\ exists d, r = Ok d /\ d ∈ c :: cs
        /\ forall e, e ∈ c :: cs -> count_of P d <= count_of P e
  | _ => creation_outcome now local_id node P P' r
  end.
Proof.
  unfold get_connection.
  assert (Hnew : default [] (connection_map P !! node) = [] ->
    let '(P', r) := (if negb (packet_handler P) then (P, Err NoPacketHandler)
      else match create_connection node P with
           | Err e => (P, Err e)
           | Ok _ => (set_connections (mm_insert node local_id (connection_map P))
               (<[local_id := Connection_new true now]> (store P)) P, Ok local_id)
           end) in
    creation_outcome now local_id node P P' r).
  { intros Hd. destruct (packet_handler P) eqn:Eh; simpl; [|by auto].
    unfold create_connection. destruct (shutting_down P) eqn:Es; [by simpl; auto|].
    destruct (node_addr_map P !! node) as [addr|] eqn:Ea; [|by simpl; auto 6].
    destruct (create_conn addr) as [[]|e] eqn:Ec; [|simpl; by eauto 9].
    unfold mm_insert. simpl. rewrite Hd. by eauto 9. }
  destruct (connection_map P !! node) as [[|c cs]|]; [by apply Hnew| |by apply Hnew].
  split; [done|]. eexists. split; [done|]. apply min_by_key_spec.
Qed.

(** ** The watcher and the shutdown *)
(** The documentation of [MultiMap::iter]: every key once, with the first of its values. *)
Definition multimap_iter : Prop := forall m : gmap Uuid (list Uuid),
  NoDup (mm_iter m).*1 /\ forall k v, (k, v) ∈ mm_iter m <-> exists vs, m !! k = Some (v :: vs).

(** Every connection is listed once, and exists. *)
Record pool_wf P : Prop := {
  pw_nodup : forall id cs, connection_map P !! id = Some cs -> NoDup cs;
  pw_unique : forall i j cs ds c, connection_map P !! i = Some cs ->
    connection_map P !! j = Some ds -> c ∈ cs -> c ∈ ds -> i = j;
  pw_store : forall id cs c, connection_map P !! id = Some cs -> c ∈ cs -> is_Some (store P !! c)
}.

Definition remaining (sweep : list Uuid) (vec : option (list Uuid)) : option (list Uuid) :=
  vec ← vec; match filter (fun c => c ∉ sweep) vec with [] => None | vec => Some vec end.

Lemma sweep_node_lookup id sweep m j :
  sweep_node id sweep m !! j = if decide (j = id) then remaining sweep (m !! id) else m !! j.
Proof.
  unfold sweep_node, remaining. destruct (m !! id) as [vec|] eqn:E; simpl.
  - destruct (filter _ vec) as [|v vs]; case_decide as Hj; subst.
    + apply lookup_delete_eq.
    + by apply lookup_delete_ne.
    + apply lookup_insert_eq.
    + by rewrite lookup_insert_ne, lookup_delete_ne.
  - case_decide as Hj; [|done]. by subst.
Qed.

Lemma sweep_nodes_lookup l m j :
  NoDup l.*1 ->
  (forall sweep, (j, sweep) ∈ l ->
     fold_left (fun m e => sweep_node e.1 e.2 m) l m !! j = remaining sweep (m !! j))
  /\ (j ∉ l.*1 -> fold_left (fun m e => sweep_node e.1 e.2 m) l m !! j = m !! j).
Proof.
  revert m. induction l as [|[i sw] l IH]; intros m Hnd; simpl.
  { split; [by intros sweep ?%not_elem_of_nil|done]. }
  apply NoDup_cons in Hnd as [Hi Hnd]. destruct (IH (sweep_node i sw m) Hnd) as [Hin Hout]. split.
  - intros sweep [[= -> ->]|Hl]%elem_of_cons.
    + rewrite Hout by done. by rewrite sweep_node_lookup, decide_True.
    + rewrite (Hin sweep Hl), sweep_node_lookup, decide_False; [done|].
      intros ->. apply Hi. by apply (list_elem_of_fmap_2 fst _ (i, sweep)).
  - intros Hj. apply not_elem_of_cons in Hj as [Hne Hj].
    by rewrite Hout, sweep_node_lookup, decide_False.
Qed.

Lemma marks_lookup l (m : gmap Uuid (list Uuid)) j :
  NoDup l.*1 -> (forall k, k ∈ l.*1 -> m !! k = None) ->
  (forall v, (j, v) ∈ l -> fold_left (fun mark e => mm_insert e.1 e.2 mark) l m !! j = Some [v])
  /\ (j ∉ l.*1 -> fold_left (fun mark e => mm_insert e.1 e.2 mark) l m !! j = m !! j).
Proof.
  revert m. induction l as [|[i w] l IH]; intros m Hnd Hm; simpl.
  { split; [by intros v ?%not_elem_of_nil|done]. }
  apply NoDup_cons in Hnd as [Hi Hnd]. simpl in Hi.
  destruct (IH (mm_insert i w m) Hnd) as [Hin Hout].
  { intros k Hk. unfold mm_insert. rewrite lookup_insert_ne by (intros ->; done).
    apply Hm. by right. }
  split.
  - intros v [[= -> ->]|Hl]%elem_of_cons; [|by apply Hin].
    rewrite Hout by done. unfold mm_insert. rewrite lookup_insert_eq, Hm; [done|left].
  - intros [Hne Hj]%not_elem_of_cons. rewrite Hout by done. unfold mm_insert.
    by rewrite lookup_insert_ne.
Qed.

Lemma close_all_lookup cs st c :
  NoDup cs ->
  close_all cs st !! c = if decide (c ∈ cs) then close <$> st !! c else st !! c.
Proof.
  unfold close_all. revert st. induction cs as [|d cs IH]; intros st Hnd.
  - by rewrite decide_False by apply not_elem_of_nil.
  - cbn [fold_left]. apply NoDup_cons in Hnd as [Hd Hnd]. rewrite IH by done.
    destruct (decide (c = d)) as [->|Hne].
    + rewrite decide_False, decide_True by (done || left). by rewrite lookup_alter_eq.
    + rewrite lookup_alter_ne by done.
      destruct (decide (c ∈ cs)), (decide (c ∈ d :: cs)) as [Hc|Hc]; try done; exfalso.
      * apply Hc. by right.
      * by apply elem_of_cons in Hc as [?|?].
Qed.

Lemma iter_nodup_snd P :
  multimap_iter -> pool_wf P -> NoDup (mm_iter (connection_map P)).*2.
Proof.
  intros Hmm Hwf. destruct (Hmm (connection_map P)) as [Hnd Hin].
  apply NoDup_fmap_2_strong; [|by apply (NoDup_fmap_1 fst)].
  intros [i c] [j d] Hi Hj E. simpl in E. subst d.
  apply Hin in Hi as [cs Hi]. apply Hin in Hj as [ds Hj]. f_equal.
  eapply (pw_unique P Hwf i j _ _ c Hi Hj); left.
Qed.

(** The connections a tick of the watcher marks. *)
Definition marked (now : Z) P : list (Uuid * Uuid) :=
  filter (fun e => is_stale now P e.2 = true) (mm_iter (connection_map P)).

Lemma marked_nodup now P : multimap_iter -> NoDup (marked now P).*1.
Proof.
  intros Hmm. destruct (Hmm (connection_map P)) as [Hnd _].
  eapply sublist_NoDup; [exact Hnd|]. apply fmap_sublist, sublist_filter.
Qed.

Lemma marked_lookup now P id :
  multimap_iter -> NoDup (marked now P).*1 ->
  let mark := fold_left (fun mark e => mm_insert e.1 e.2 mark) (marked now P) ∅ in
  mark !! id = match connection_map P !! id with
               | Some (c :: _) => if is_stale now P c then Some [c] else None
               | _ => None
               end.
Proof.
  intros Hmm Hnd mark. destruct (Hmm (connection_map P)) as [_ Hin].
  destruct (marks_lookup (marked now P) ∅ id Hnd (fun k _ => lookup_empty k)) as [Hm Ho].
  assert (Hout : (forall v vs, connection_map P !! id = Some (v :: vs) -> is_stale now P v = false) ->
    mark !! id = None).
  { intros Hn. unfold mark. rewrite Ho; [apply lookup_empty|].
    intros ([k v] & -> & [Hs Hi]%list_elem_of_filter)%list_elem_of_fmap.
    apply Hin in Hi as [vs Hi]. simpl in *. by rewrite (Hn v vs Hi) in Hs. }
  destruct (connection_map P !! id) as [[|c cs]|] eqn:E; try (apply Hout; congruence).
  destruct (is_stale now P c) eqn:Es; [|apply Hout; congruence].
  apply Hm, list_elem_of_filter. split; [done|]. apply Hin. by exists cs.
Qed.

Lemma remaining_head c cs : NoDup (c :: cs) ->
  remaining [c] (Some (c :: cs)) = match cs with [] => None | _ => Some cs end.
Proof.
  intros [Hc _]%NoDup_cons. unfold remaining. simpl. rewrite filter_cons_False.
  - assert (E : filter (fun d => d ∉ [c]) cs = cs).
    { clear -Hc. induction cs as [|d cs IH]; [done|].
      apply not_elem_of_cons in Hc as [Hne Hc].
      rewrite filter_cons_True; [by rewrite IH|]. by intros ->%list_elem_of_singleton. }
    rewrite E. by destruct cs.
  - intros Hn. apply Hn. by left.
Qed.

Lemma sweep_map now P id :
  multimap_iter -> pool_wf P ->
  connection_map (sweep_stale now P) !! id
  = match connection_map P !! id with
    | Some (c :: cs) => if is_stale now P c then match cs with [] => None | _ => Some cs end
                        else Some (c :: cs)
    | vec => vec
    end.
Proof.
  intros Hmm Hwf. pose proof (marked_nodup now P Hmm) as Hnd.
  pose proof (marked_lookup now P id Hmm Hnd) as Hmark. unfold sweep_stale. simpl.
  fold (marked now P). set (mark := fold_left _ (marked now P) ∅) in *.
  destruct (sweep_nodes_lookup (map_to_list mark) (connection_map P) id (NoDup_fst_map_to_list mark))
    as [Hin Hout].
  assert (Hno : mark !! id = None -> connection_map P !! id
    = fold_left (fun m e => sweep_node e.1 e.2 m) (map_to_list mark) (connection_map P) !! id).
  { intros E. symmetry. apply Hout. intros ([k sw] & -> & Hk)%list_elem_of_fmap.
    apply elem_of_map_to_list in Hk. simpl in E. congruence. }
  destruct (connection_map P !! id) as [[|c cs]|] eqn:E; [by rewrite <- Hno| |by rewrite <- Hno].
  destruct (is_stale now P c); [|by rewrite <- Hno].
  rewrite (Hin [c]) by (by apply elem_of_map_to_list).
  apply remaining_head. by eapply pw_nodup.
Qed.

(** The watcher closes what is stale and unused, and nothing else.  After a tick, each
    node has the connections it had, less the first one if that was stale; and every
    connection the tick closed had no channel open and nothing read from it for the whole
    timeout, and is no longer handed out.  Only the first connection of a node is ever
    looked at. *)
Theorem sweep_stale_spec alive now P :
  multimap_iter -> pool_wf P ->
  (forall c conn, store P !! c = Some conn -> exists local t n,
     nsteps (conn_step alive) n (Connection_new local t) conn /\ Z.of_nat n < 2 ^ 64) ->
  let P' := sweep_stale now P in
  (forall id, connection_map P' !! id
     = match connection_map P !! id with
       | Some (c :: cs) => if is_stale now P c then match cs with [] => None | _ => Some cs end
                           else Some (c :: cs)
       | vec => vec
       end)
  /\ (forall c, store P' !! c <> store P !! c -> exists conn,
       store P !! c = Some conn /\ store P' !! c = Some (close conn)
       /\ conn_map conn = ∅ /\ STALE_TIMEOUT < now - last_read conn
       /\ forall id cs, connection_map P' !! id = Some cs -> c ∉ cs).
Proof.
  intros Hmm Hwf Hreach P'. split; [intros id; by apply sweep_map|]. intros c Hne.
  assert (Hsnd : NoDup (marked now P).*2).
  { eapply sublist_NoDup; [by apply iter_nodup_snd|]. apply fmap_sublist, sublist_filter. }
  assert (Es : store P' !! c
    = if decide (c ∈ (marked now P).*2) then close <$> store P !! c else store P !! c).
  { apply (close_all_lookup (marked now P).*2 (store P) c Hsnd). }
  rewrite Es in Hne |- *. case_decide as Hin; [|done].
  apply list_elem_of_fmap in Hin as ([id d] & E & [Hst Hi]%list_elem_of_filter). simpl in E. subst d.
  simpl in Hst. apply (proj2 (Hmm _)) in Hi as [cs Hi]. pose proof Hst as Hst'. unfold is_stale in Hst'.
  destruct (store P !! c) as [conn|] eqn:Ec; [|done]. exists conn.
  apply andb_true_iff in Hst' as [Ht%bool_decide_eq_true Hsafe].
  destruct (Hreach c conn Ec) as (local & t & n & Hn & Hlt).
  split_ands; [done|done|by eapply safe_to_close_empty| |].
  - unfold last_access in Ht. by rewrite Z.max_id in Ht.
  - intros id' cs' Hcs' Hc. unfold P' in Hcs'. rewrite sweep_map in Hcs' by done.
    destruct (decide (id' = id)) as [->|Hid].
    + rewrite Hi, Hst in Hcs'. pose proof (pw_nodup P Hwf id _ Hi) as [Hnc _]%NoDup_cons.
      by destruct cs; simplify_eq.
    + destruct (connection_map P !! id') as [ds|] eqn:Ed; [|done].
      apply Hid. symmetry. eapply (pw_unique P Hwf id id' _ ds c Hi Ed); [left|].
      destruct ds as [|d ds]; simplify_eq; [done|]. destruct (is_stale now P d); [|by simplify_eq].
      destruct ds; simplify_eq. by right.
Qed.

(** Shutting the pool down.  Afterwards no channel can be opened and no peer can connect;
    but of the connections to a node only the first is closed, the others are dropped from
    the map while they stay open. *)
Theorem pool_close_spec P :
  multimap_iter -> pool_wf P -> packet_handler P = true ->
  let P' := pool_close P in
  connection_map P' = ∅
  /\ (forall now local_id draws node, channel now local_id draws node P' = (P', Err ShuttingDown))
  /\ (forall now local_id node, add_connection now local_id node P' = (P', Err ShuttingDown))
  /\ (forall id c cs, connection_map P !! id = Some (c :: cs) ->
       store P' !! c = close <$> store P !! c
       /\ forall d, d ∈ cs -> store P' !! d = store P !! d).
Proof.
  intros Hmm Hwf Hh P'. split; [done|]. split; [|split; [done|]].
  - intros. unfold channel, get_connection. simpl. rewrite Hh. done.
  - intros id c cs Hi.
    assert (Es : forall d, store P' !! d = if decide (d ∈ (mm_iter (connection_map P)).*2)
      then close <$> store P !! d else store P !! d).
    { intros d. apply (close_all_lookup _ (store P) d). exact (iter_nodup_snd P Hmm Hwf). }
    split.
    + rewrite Es, decide_True; [done|]. apply (list_elem_of_fmap_2 snd _ (id, c)).
      apply (proj2 (Hmm _)). by exists cs.
    + intros d Hd. rewrite Es, decide_False; [done|].
      intros ([j e] & E & Hj)%list_elem_of_fmap. simpl in E. subst e.
      apply (proj2 (Hmm _)) in Hj as [ds Hj].
      assert (j = id) as -> by (eapply (pw_unique P Hwf j id _ _ d Hj Hi); [left|by right]).
      pose proof (pw_nodup P Hwf id _ Hi) as [Hnc _]%NoDup_cons. simplify_eq. done.
Qed.

(** A dead connection is preferred.  A connection whose reader has stopped keeps its place
    in the pool with its count reset to zero.  As long as every other connection to the node
    is in use, it is the one chosen, and every attempt to open a channel to the node fails,
    without a new connection being made, although working ones exist. *)
Theorem dead_connection_preferred now local_id draws node cs d conn P :
  connection_map P !! node = Some cs -> d ∈ cs -> store P !! d = Some conn ->
  running conn = false -> channel_count conn = 0 ->
  (forall e, e ∈ cs -> e <> d -> 0 < count_of P e) ->
  exists P', channel now local_id draws node P = (P', Err ConnectionError)
    /\ connection_map P' = connection_map P /\ store P' = store P.
Proof.
  intros Hm Hd Hs Hr Hc Hother. unfold channel, get_connection.
  rewrite Hm. destruct cs as [|c cs]; [by apply not_elem_of_nil in Hd|].
  destruct (min_by_key_spec (count_of P) c cs) as [Hin Hle].
  assert (E : min_by_key (count_of P) c cs = d).
  { destruct (decide (min_by_key (count_of P) c cs = d)) as [|Hne]; [done|exfalso].
    pose proof (Hother _ Hin Hne). specialize (Hle d Hd).
    assert (count_of P d = 0) by (unfold count_of; rewrite Hs; done). lia. }
  rewrite E, Hs. unfold create_channel. rewrite Hr. simpl. eexists. split; [done|].
  split; [done|]. simpl. by apply insert_id.
Qed.

(** An event that carries the connection [c] of a peer authenticated as [id]. *)
Definition authenticated (validate : list u8 -> Uuid -> result ProtocolError bool)
    (id c : Uuid) (e : AcceptEvent) : Prop :=
  exists header token rest,
    e = Accepted (header ++ token ++ rest) c /\ length header = 16%nat /\ length token = 64%nat
    /\ id = be_decode header /\ validate token id = Ok true.

Lemma add_connection_map now local_id id P P' r :
  add_connection now local_id id P = (P', r) ->
  connection_map P' = connection_map P
  \/ connection_map P' = mm_insert id local_id (connection_map P).
Proof.
  unfold add_connection. intros E. repeat case_match; simplify_eq; simpl; auto.
Qed.

Lemma accept_one_map validate now e P P' r :
  accept_one (Some (authenticate_incoming validate)) now e P = (P', r) ->
  connection_map P' = connection_map P
  \/ exists id c, authenticated validate id c e
       /\ connection_map P' = mm_insert id c (connection_map P).
Proof.
  unfold accept_one, authenticate_incoming. destruct e as [| | |bytes c]; intros E; simplify_eq; auto.
  destruct (read_exact 16 bytes) as [[header stream]|] eqn:Eh; [|simplify_eq; by left].
  destruct (read_exact 64 stream) as [[token rest]|] eqn:Et; [|simplify_eq; by left].
  apply read_exact_Some in Eh as [-> Hh], Et as [-> Ht].
  destruct (validate token (be_decode header)) as [[]|e] eqn:Ev; [|simplify_eq; by left..].
  apply add_connection_map in E as [E|E]; [by left|right].
  exists (be_decode header), c. split; [|done]. by exists header, token, rest.
Qed.

Lemma mm_insert_elem k v (m : gmap Uuid (list Uuid)) id cs c :
  mm_insert k v m !! id = Some cs -> c ∈ cs ->
  (id = k /\ c = v) \/ exists cs0, m !! id = Some cs0 /\ c ∈ cs0.
Proof.
  unfold mm_insert. rewrite lookup_insert_Some. intros [[<- <-]|[_ E]] Hc; [|right; by exists cs].
  apply elem_of_app in Hc as [Hc|Hc]; [|left; by apply list_elem_of_singleton in Hc].
  destruct (m !! k) as [cs0|] eqn:E; simpl in Hc; [right; by exists cs0|by apply not_elem_of_nil in Hc].
Qed.

(** Only authenticated peers enter the pool.  Every connection the accept loop of a node
    adds was accepted before any shutdown signal, and is listed under the sixteen byte id its
    peer announced, for which the peer then presented a sixty-four byte token the controller
    confirmed. *)
Theorem accept_loop_authenticated validate now es P id cs c :
  connection_map (accept_loop (Some (authenticate_incoming validate)) now es P) !! id = Some cs ->
  c ∈ cs ->
  (exists cs0, connection_map P !! id = Some cs0 /\ c ∈ cs0)
  \/ exists pre e post, es = (pre ++ e :: post) /\ (ShutdownSignal ∉ pre)
       /\ authenticated validate id c e.
Proof.
  revert P. induction es as [|e es IH]; intros P Hid Hc; cbn [accept_loop] in Hid; [left; by exists cs|].
  destruct (accept_one _ now e P) as [P1 r] eqn:E.
  assert (Hone : forall cs1, connection_map P1 !! id = Some cs1 -> c ∈ cs1 ->
    (exists cs0, connection_map P !! id = Some cs0 /\ c ∈ cs0)
    \/ exists pre e' post, e :: es = (pre ++ e' :: post) /\ (ShutdownSignal ∉ pre)
         /\ authenticated validate id c e').
  { intros cs1 Hm1 Hc1. destruct (accept_one_map validate now e P P1 r E) as [Em|(i & d & Ha & Em)];
      rewrite Em in Hm1; [left; by exists cs1|].
    destruct (mm_insert_elem i d _ id cs1 c Hm1 Hc1) as [[-> ->]|Hold]; [right|by left].
    exists [], e, es. split_ands; [done|apply not_elem_of_nil|done]. }
  assert (Hrec : connection_map (accept_loop (Some (authenticate_incoming validate)) now es P1) !! id
    = Some cs -> e <> ShutdownSignal -> (exists cs0, connection_map P !! id = Some cs0 /\ c ∈ cs0)
    \/ exists pre e' post, e :: es = (pre ++ e' :: post) /\ (ShutdownSignal ∉ pre)
         /\ authenticated validate id c e').
  { intros Hl He. destruct (IH P1 Hl Hc) as [(cs1 & Hm1 & Hc1)|(pre & e' & post & -> & Hn & Ha)];
      [by eapply Hone|right].
    exists (e :: pre), e', post. split_ands; [done| |done]. by apply not_elem_of_cons. }
  destruct (decide (r = Err ShuttingDown)) as [->|Hr]; [by eapply Hone|].
  apply Hrec; [by destruct r as [u|[]]|]. intros ->. simpl in E. by simplify_eq.
Qed.
End pool.

(** ** Witnesses *)
Definition first_iter (m : gmap Uuid (list Uuid)) : list (Uuid * Uuid) :=
  omap (fun e => match e.2 with v :: _ => Some (e.1, v) | [] => None end) (map_to_list m).

Lemma first_iter_documented : multimap_iter first_iter.
Proof.
  intros m. split.
  - unfold first_iter. assert (Hnd : NoDup (map_to_list m).*1) by apply NoDup_fst_map_to_list.
    induction (map_to_list m) as [|[k [|v vs]] l IH]; simpl in *; [constructor| |].
    + apply NoDup_cons in Hnd as [_ Hnd]. by apply IH.
    + apply NoDup_cons in Hnd as [Hk Hnd]. apply NoDup_cons. split; [|by apply IH].
      intros ([j w] & -> & (e & He & Ee)%list_elem_of_omap)%list_elem_of_fmap. apply Hk.
      simpl in *.
      destruct e as [i [|x xs]]; simplify_eq/=. apply list_elem_of_fmap.
      eexists. split; [|exact He]. done.
  - intros k v. unfold first_iter. rewrite list_elem_of_omap. split.
    + intros ([i [|x xs]] & Hi & E); simplify_eq/=. exists xs. by apply elem_of_map_to_list.
    + intros [vs E]. exists (k, v :: vs). split; [by apply elem_of_map_to_list|done].
Qed.

(** Node 7 with a first connection, 70, in use and another, 71, unused. *)
Definition used_connection : Connection (list HandlerCall) :=
  fst (materialize_channel 0 1 true (Connection_new true 0)).

Definition two_connections : Pool (list HandlerCall) :=
  mkPool (<[7 := [70; 71]]> ∅) (<[70 := used_connection]> (<[71 := Connection_new true 0]> ∅))
    true false false ∅.

Lemma two_connections_wf : pool_wf two_connections.
Proof.
  split; cbn [two_connections connection_map store].
  - intros id cs [[_ <-]|[_ E]]%lookup_insert_Some; [|discriminate].
    apply (bool_decide_unpack _). by vm_compute.
  - intros i j cs ds c [[<- _]|[_ E]]%lookup_insert_Some; [|discriminate].
    intros [[<- _]|[_ E]]%lookup_insert_Some; [done|discriminate].
  - intros id cs c [[_ <-]|[_ E]]%lookup_insert_Some; [|discriminate].
    intros [->|[->|?%not_elem_of_nil]%elem_of_cons]%elem_of_cons; [| |done]; by eexists.
Qed.

Definition connect_fails (addr : string) : MDSFTPResult unit := Err ConnectionError.

Lemma get_connection_spec_witness :
  get_connection connect_fails 5 72 7 two_connections = (two_connections, Ok 71)
  /\ count_of two_connections 71 <= count_of two_connections 70.
Proof.
  pose proof (get_connection_spec connect_fails 5 72 7 two_connections) as Hg.
  assert (E : get_connection connect_fails 5 72 7 two_connections = (two_connections, Ok 71))
    by (by vm_compute).
  rewrite E in Hg. cbn in Hg. destruct Hg as (_ & d & [= <-] & _ & Hle).
  split; [exact E|]. apply Hle. left.
Defined.

Lemma sweep_stale_spec_witness :
  connection_map (sweep_stale first_iter (2 * STALE_TIMEOUT) two_connections) !! 7 = Some [70; 71].
Proof.
  destruct (sweep_stale_spec first_iter (fun _ => true) (2 * STALE_TIMEOUT) two_connections)
    as [Hmap _].
  - exact first_iter_documented.
  - exact two_connections_wf.
  - cbn [two_connections connection_map store].
    intros c conn [[_ <-]|[_ [[_ <-]|[_ E]]%lookup_insert_Some]]%lookup_insert_Some; [| |discriminate].
    + exists true, 0, 1%nat. split; [|lia]. apply nsteps_once. by exists (ConnMaterialize 0 1).
    + exists true, 0, 0%nat. split; [constructor|lia].
  - rewrite (Hmap 7). by vm_compute.
Defined.

Lemma pool_close_spec_witness :
  store (pool_close first_iter two_connections) !! 71 = store two_connections !! 71.
Proof.
  destruct (pool_close_spec first_iter connect_fails two_connections) as (_ & _ & _ & Hcl).
  - exact first_iter_documented.
  - exact two_connections_wf.
  - done.
  - destruct (Hcl 7 70 [71]) as [_ Hrest]; [done|]. apply Hrest. left.
Defined.

(** The second connection of node 7 has died. *)
Definition one_dead : Pool (list HandlerCall) :=
  set_connections (connection_map two_connections)
    (alter close_map 71 (store two_connections)) two_connections.

Lemma dead_connection_preferred_witness :
  exists P', channel connect_fails 9 73 [4; 5; 6] 7 one_dead = (P', Err ConnectionError)
    /\ connection_map P' = connection_map one_dead /\ store P' = store one_dead.
Proof.
  apply (dead_connection_preferred connect_fails 9 73 [4; 5; 6] 7 [70; 71] 71
           (close_map (Connection_new true 0))).
  - done.
  - right; left.
  - by vm_compute.
  - done.
  - done.
  - intros e [->|[->|?%not_elem_of_nil]%elem_of_cons]%elem_of_cons Hne; [by vm_compute|done|done].
Defined.

Definition token_ok (token : list u8) (id : Uuid) : result ProtocolError bool :=
  Ok (bool_decide (token = repeat 7 64)).

Definition arrivals : list AcceptEvent :=
  [AcceptFailed; Accepted (repeat 0 15 ++ [9] ++ repeat 7 64) 80;
   Accepted (repeat 0 15 ++ [8] ++ repeat 6 64) 81; ShutdownSignal].

Lemma accept_loop_authenticated_witness :
  connection_map (accept_loop (Some (authenticate_incoming token_ok)) 5 arrivals two_connections) !! 9
    = Some [80]
  /\ exists pre e post, arrivals = (pre ++ e :: post) /\ (ShutdownSignal ∉ pre)
       /\ authenticated token_ok 9 80 e.
Proof.
  assert (E : connection_map (accept_loop (Some (authenticate_incoming token_ok)) 5 arrivals
    two_connections) !! 9 = Some [80]) by (by vm_compute).
  split; [exact E|].
  destruct (accept_loop_authenticated token_ok 5 arrivals two_connections 9 [80] 80 E)
    as [(cs0 & E0 & _)|Hnew]; [left|discriminate|exact Hnew].
Defined.
