(* ===== verification/MetaStore.v ===== *)
(** * Extended fragment metadata store

    [node/src/io/fragment_metadata_store.rs] and [embedded_fragment_metadata_store.rs].
    The trait is a class of operations; [MetaStoreLaws] is what the fragment ledger relies
    on; the embedded store implements it over a key-value database ([sled]) and a binary
    codec ([bincode]), both parameters. *)
From Stdlib Require Import ZArith Lia List.
From stdpp Require Import base numbers list gmap.
From S2P Require Import Prelude Errors.
Local Open Scope Z_scope.

(** [bucket_id] and [file_id] are stored as the little-endian reading of a [Uuid]. *)
Record ExtFragmentMeta : Type := mkExtFragmentMeta { bucket_id_le : Z; file_id_le : Z }.

#[global] Instance ExtFragmentMeta_eq_dec : EqDecision ExtFragmentMeta.
Proof. solve_decision. Defined.

(** [Uuid::to_u128_le] and [Uuid::from_u128_le]: the value with its bytes reversed. *)
Definition to_u128_le (id : Uuid) : Z := be_decode (reverse (uuid_bytes id)).
Definition from_u128_le (v : Z) : Uuid := be_decode (reverse (be_encode 16 v)).

Definition meta_bucket_id (m : ExtFragmentMeta) : Uuid := from_u128_le (bucket_id_le m).
Definition meta_file_id (m : ExtFragmentMeta) : Uuid := from_u128_le (file_id_le m).

Definition wf_meta (m : ExtFragmentMeta) : Prop :=
  in_width 128 (bucket_id_le m) /\ in_width 128 (file_id_le m).

(** [trait ExtFragmentMetaStore] *)
Class ExtFragmentMetaStore (M : Type) := {
  meta_insert : Uuid -> ExtFragmentMeta -> M -> M * MeowithIoResult unit;
  meta_get : Uuid -> M -> MeowithIoResult ExtFragmentMeta;
  meta_remove : Uuid -> M -> M * MeowithIoResult unit
}.

Class MetaStoreLaws (M : Type) `{ExtFragmentMetaStore M} : Prop := {
  meta_insert_ok : forall id m s, in_width 128 id -> snd (meta_insert id m s) = Ok tt;
  meta_get_insert_eq : forall id m s, in_width 128 id -> wf_meta m ->
    meta_get id (fst (meta_insert id m s)) = Ok m;
  meta_get_insert_ne : forall id id' m s, in_width 128 id -> in_width 128 id' -> id <> id' ->
    meta_get id' (fst (meta_insert id m s)) = meta_get id' s;
  meta_get_remove_eq : forall id s, in_width 128 id ->
    meta_get id (fst (meta_remove id s)) = Err IoNotFound;
  meta_get_remove_ne : forall id id' s, in_width 128 id -> in_width 128 id' -> id <> id' ->
    meta_get id' (fst (meta_remove id s)) = meta_get id' s
}.

(** ** The embedded store *)
Section embedded.
  (** [bincode::encode_to_vec] and [bincode::decode_from_slice] at the default
      configuration; decoding fails with an error on corrupted bytes. *)
  Variable encode_to_vec : ExtFragmentMeta -> list u8.
  Variable decode_from_slice : list u8 -> option ExtFragmentMeta.
  Hypothesis bincode_roundtrip : forall m, wf_meta m ->
    decode_from_slice (encode_to_vec m) = Some m.

(** A [sled] database as the map of its default tree. *)
Record EmbeddedFragmentMetaStore : Type := mkEmbedded { db : gmap (list u8) (list u8) }.

Definition embedded_insert (chunk_id : Uuid) (meta : ExtFragmentMeta)
    (s : EmbeddedFragmentMetaStore) : EmbeddedFragmentMetaStore * MeowithIoResult unit :=
  (mkEmbedded (<[uuid_bytes chunk_id := encode_to_vec meta]> (db s)), Ok tt).

Definition embedded_get (chunk_id : Uuid) (s : EmbeddedFragmentMetaStore)
    : MeowithIoResult ExtFragmentMeta :=
  result_bind (ok_or (db s !! uuid_bytes chunk_id) IoNotFound)
    (fun bytes => ok_or (decode_from_slice bytes) IoInternal).

Definition embedded_remove (chunk_id : Uuid) (s : EmbeddedFragmentMetaStore)
    : EmbeddedFragmentMetaStore * MeowithIoResult unit :=
  (mkEmbedded (delete (uuid_bytes chunk_id) (db s)), Ok tt).

#[local] Instance embedded_store : ExtFragmentMetaStore EmbeddedFragmentMetaStore := {
  meta_insert := embedded_insert;
  meta_get := embedded_get;
  meta_remove := embedded_remove
}.

Lemma uuid_bytes_inj id id' :
  in_width 128 id -> in_width 128 id' -> uuid_bytes id = uuid_bytes id' -> id = id'.
Proof.
  intros H H' E. rewrite <- (uuid_bytes_roundtrip id H), <- (uuid_bytes_roundtrip id' H').
  by rewrite E.
Qed.

(** The embedded store refines the metadata-store interface.  Under the round trip of
    the codec, inserting, reading and removing entries of a key-value database keyed by the
    bytes of the id behave as a map from chunk ids to metadata. *)
Theorem embedded_store_laws : MetaStoreLaws EmbeddedFragmentMetaStore.
Proof.
  split; intros; simpl; unfold embedded_get; simpl; try done.
  - rewrite lookup_insert_eq. simpl. by rewrite bincode_roundtrip by done.
  - rewrite lookup_insert_ne; [done|]. intros E. by apply uuid_bytes_inj in E.
  - by rewrite lookup_delete_eq.
  - rewrite lookup_delete_ne; [done|]. intros E. by apply uuid_bytes_inj in E.
Qed.
End embedded.

(** A concrete codec: the sixteen bytes of each field. *)
Definition fixed_encode (m : ExtFragmentMeta) : list u8 :=
  be_encode 16 (bucket_id_le m) ++ be_encode 16 (file_id_le m).
Definition fixed_decode (bs : list u8) : option ExtFragmentMeta :=
  Some (mkExtFragmentMeta (be_decode (take 16 bs)) (be_decode (drop 16 bs))).

Lemma embedded_store_laws_witness :
  @MetaStoreLaws EmbeddedFragmentMetaStore (embedded_store fixed_encode fixed_decode).
Proof.
  apply embedded_store_laws. intros [b f] [Hb Hf]. unfold fixed_decode, fixed_encode.
  cbn [bucket_id_le file_id_le] in *.
  change (take 16 (be_encode 16 b ++ be_encode 16 f)) with (be_encode 16 b).
  change (drop 16 (be_encode 16 b ++ be_encode 16 f)) with (be_encode 16 f).
  by rewrite !be_decode_encode.
Defined.

(** ** A map as a store *)
#[global] Instance map_store : ExtFragmentMetaStore (gmap Uuid ExtFragmentMeta) := {
  meta_insert := fun id m s => (<[id := m]> s, Ok tt);
  meta_get := fun id s => ok_or (s !! id) IoNotFound;
  meta_remove := fun id s => (delete id s, Ok tt)
}.

#[global] Instance map_store_laws : MetaStoreLaws (gmap Uuid ExtFragmentMeta).
Proof.
  split; intros; simpl; try done.
  - by rewrite lookup_insert_eq.
  - by rewrite lookup_insert_ne.
  - by rewrite lookup_delete_eq.
  - by rewrite lookup_delete_ne.
Qed.

(** The ids survive the little-endian representation of the store. *)
Lemma from_to_u128_le id : in_width 128 id -> from_u128_le (to_u128_le id) = id.
Proof.
  intros Hid. unfold from_u128_le, to_u128_le.
  assert (Hl : length (reverse (uuid_bytes id)) = 16%nat)
    by (rewrite length_reverse; apply be_encode_length).
  rewrite <- Hl at 1. rewrite be_encode_decode.
  - rewrite reverse_involutive. by apply uuid_bytes_roundtrip.
  - apply Forall_reverse, be_encode_bytes.
Qed.

Lemma to_u128_le_range id : in_width 128 (to_u128_le id).
Proof.
  unfold to_u128_le.
  assert (Hb : is_bytes (reverse (uuid_bytes id))) by apply Forall_reverse, be_encode_bytes.
  pose proof (be_decode_range _ Hb) as Hr.
  rewrite length_reverse in Hr. change (length (uuid_bytes id)) with 16%nat in Hr.
  exact Hr.
Qed.
