(* ===== verification/FragmentLedger.v ===== *)
(** * The fragment ledger

    [node/src/io/fragment_ledger.rs]: the node's record of the fragments on its disk, of
    the space reserved for running uploads and of the fragments still to be committed.

    The data directory is part of the state: a fragment's file lives under its id, or under
    its id with the [.uncommited] extension.  Removing, renaming or measuring a file fails
    when it does not exist.  Instants are nanoseconds; the id drawn by [Uuid::new_v4] is an
    argument.  Each operation holds the locks of the maps it changes until its last change
    to them, so an operation is one step. *)
From Stdlib Require Import ZArith Lia List.
From stdpp Require Import base numbers list gmap.
From S2P Require Import Prelude Errors MetaStore.
Local Open Scope Z_scope.

Definition SECOND : Z := 1000000000.
Definition DURABLE_UPLOAD_SESSION_VALIDITY_TIME_SECS : Z := 3600.

Record Reservation : Type := mkReservation {
  file_space : u64;
  completed : u64;
  res_durable : bool;
  last_update : Z
}.

Record FragmentMeta : Type := mkFragmentMeta {
  meta_content_size : u64;
  meta_physical_size : u64
}.

Record CommitInfo : Type := mkCommitInfo { access : Z }.

(** A file of the data directory: its bytes and the space its blocks take. *)
Record FragFile : Type := mkFragFile { content : list u8; size_on_disk : u64 }.

Definition file_len (f : FragFile) : u64 := Z.of_nat (length (content f)).

Record Ledger (M : Type) : Type := mkLedger {
  chunk_set : gmap Uuid FragmentMeta;
  reservation_map : gmap Uuid Reservation;
  uncommited_map : gmap Uuid CommitInfo;
  ext_metadata_store : option M;
  max_physical_size : u64;
  disk_physical_size : u64;
  disk_content_size : u64;
  disk_reserved_size : u64;
  paused : bool;
  files : gmap (Uuid * bool) FragFile
}.
Arguments mkLedger {M}.
Arguments chunk_set {M}.
Arguments reservation_map {M}.
Arguments uncommited_map {M}.
Arguments ext_metadata_store {M}.
Arguments max_physical_size {M}.
Arguments disk_physical_size {M}.
Arguments disk_content_size {M}.
Arguments disk_reserved_size {M}.
Arguments paused {M}.
Arguments files {M}.

(** [get_path]: where a fragment's file is, [true] for the uncommited one. *)
Definition get_path (chunk_id : Uuid) (uncommited : bool) : Uuid * bool :=
  (chunk_id, uncommited).

(** ** Field updates *)
Section updates.
  Context {M : Type}.
  Implicit Types L : Ledger M.

Definition set_chunk_set (f : gmap Uuid FragmentMeta -> gmap Uuid FragmentMeta) L : Ledger M :=
  mkLedger (f (chunk_set L)) (reservation_map L) (uncommited_map L) (ext_metadata_store L)
    (max_physical_size L) (disk_physical_size L) (disk_content_size L) (disk_reserved_size L)
    (paused L) (files L).
Definition set_reservation_map (f : gmap Uuid Reservation -> gmap Uuid Reservation) L : Ledger M :=
  mkLedger (chunk_set L) (f (reservation_map L)) (uncommited_map L) (ext_metadata_store L)
    (max_physical_size L) (disk_physical_size L) (disk_content_size L) (disk_reserved_size L)
    (paused L) (files L).
Definition set_uncommited_map (f : gmap Uuid CommitInfo -> gmap Uuid CommitInfo) L : Ledger M :=
  mkLedger (chunk_set L) (reservation_map L) (f (uncommited_map L)) (ext_metadata_store L)
    (max_physical_size L) (disk_physical_size L) (disk_content_size L) (disk_reserved_size L)
    (paused L) (files L).
Definition set_ext_metadata_store (f : option M -> option M) L : Ledger M :=
  mkLedger (chunk_set L) (reservation_map L) (uncommited_map L) (f (ext_metadata_store L))
    (max_physical_size L) (disk_physical_size L) (disk_content_size L) (disk_reserved_size L)
    (paused L) (files L).
(** [fetch_add] and [fetch_sub] of an [AtomicU64] wrap around. *)
Definition set_disk_physical_size (f : u64 -> u64) L : Ledger M :=
  mkLedger (chunk_set L) (reservation_map L) (uncommited_map L) (ext_metadata_store L)
    (max_physical_size L) (f (disk_physical_size L)) (disk_content_size L) (disk_reserved_size L)
    (paused L) (files L).
Definition set_disk_content_size (f : u64 -> u64) L : Ledger M :=
  mkLedger (chunk_set L) (reservation_map L) (uncommited_map L) (ext_metadata_store L)
    (max_physical_size L) (disk_physical_size L) (f (disk_content_size L)) (disk_reserved_size L)
    (paused L) (files L).
Definition set_disk_reserved_size (f : u64 -> u64) L : Ledger M :=
  mkLedger (chunk_set L) (reservation_map L) (uncommited_map L) (ext_metadata_store L)
    (max_physical_size L) (disk_physical_size L) (disk_content_size L) (f (disk_reserved_size L))
    (paused L) (files L).
Definition set_paused (b : bool) L : Ledger M :=
  mkLedger (chunk_set L) (reservation_map L) (uncommited_map L) (ext_metadata_store L)
    (max_physical_size L) (disk_physical_size L) (disk_content_size L) (disk_reserved_size L)
    b (files L).
Definition set_files (f : gmap (Uuid * bool) FragFile -> gmap (Uuid * bool) FragFile) L : Ledger M :=
  mkLedger (chunk_set L) (reservation_map L) (uncommited_map L) (ext_metadata_store L)
    (max_physical_size L) (disk_physical_size L) (disk_content_size L) (disk_reserved_size L)
    (paused L) (f (files L)).

(** [tokio::fs::remove_file] *)
Definition remove_file (path : Uuid * bool) L : Ledger M * bool :=
  match files L !! path with
  | Some _ => (set_files (delete path) L, true)
  | None => (L, false)
  end.
End updates.

(** ** Operations *)
Section ledger.
  Context {M : Type} `{ExtFragmentMetaStore M}.
  Implicit Types L : Ledger M.

(** [FragmentLedger::new], over the files found in the data directory. *)
Definition FragmentLedger_new (max_space : u64) (store : M)
    (dir : gmap (Uuid * bool) FragFile) : Ledger M :=
  mkLedger ∅ ∅ ∅ (Some store) max_space 0 0 0 false dir.

Definition pause L : Ledger M := set_paused true L.
Definition resume L : Ledger M := set_paused false L.

(** Pauses and drops the metadata store. *)
Definition shutdown L : Ledger M := set_ext_metadata_store (fun _ => None) (set_paused true L).

(** [ext_metadata_store.as_ref().map(|x| x.remove(id))] *)
Definition ext_remove (id : Uuid) L : Ledger M :=
  set_ext_metadata_store (fun s => (fun m => fst (meta_remove id m)) <$> s) L.

Definition get_available_space L : u64 :=
  let reserved := disk_reserved_size L in
  let used := u64_add (disk_physical_size L) reserved in
  saturating_sub (max_physical_size L) used.

(** [(max_space, used_space, reserved, commited, uncommitted, paused)] *)
Definition get_storage_info L : u64 * u64 * Z * Z * Z * bool :=
  (max_physical_size L,
   u64_sub (max_physical_size L) (get_available_space L),
   Z.of_nat (size (reservation_map L)),
   Z.of_nat (size (chunk_set L)),
   Z.of_nat (size (uncommited_map L)),
   paused L).

Definition stat_chunk (chunk_id : Uuid) L : MeowithIoResult u64 :=
  let uncommited := bool_decide (is_Some (uncommited_map L !! chunk_id)) in
  match files L !! get_path chunk_id uncommited with
  | Some f => Ok (file_len f)
  | None => Err IoInternal
  end.

Definition fragment_exists (chunk_id : Uuid) L : bool :=
  bool_decide (is_Some (chunk_set L !! chunk_id)).

Definition extended_fragment_meta (chunk_id : Uuid) L : option ExtFragmentMeta :=
  m ← ext_metadata_store L;
  match meta_get chunk_id m with Ok x => Some x | Err _ => None end.

Definition existing_fragment_meta (chunk_id : Uuid) L : option FragmentMeta :=
  chunk_set L !! chunk_id.

Definition existing_or_reserved_fragment_meta (chunk_id : Uuid) L : option FragmentMeta :=
  match reservation_map L !! chunk_id with
  | Some reserved => Some (mkFragmentMeta (completed reserved) 0)
  | None => existing_fragment_meta chunk_id L
  end.

(** Opening a fragment for reading: its committed file. *)
Definition fragment_read_stream (chunk_id : Uuid) L : MeowithIoResult (list u8) :=
  match files L !! get_path chunk_id false with
  | Some f => Ok (content f)
  | None => Err IoInternal
  end.

(** [create(true).write(true).truncate(true)] on the uncommited path. *)
Definition fragment_write_stream (chunk_id : Uuid) L : Ledger M :=
  set_files (<[get_path chunk_id true := mkFragFile [] 0]>) L.

(** [create(true).write(true).append(true)] on the uncommited path. *)
Definition fragment_append_stream (chunk_id : Uuid) L : Ledger M :=
  match files L !! get_path chunk_id true with
  | Some _ => L
  | None => set_files (<[get_path chunk_id true := mkFragFile [] 0]>) L
  end.

Definition cancel_reservation (id : Uuid) L : Ledger M * MeowithIoResult unit :=
  match reservation_map L !! id with
  | Some reservation =>
      let L1 := set_reservation_map (delete id) L in
      let uncommited := bool_decide (is_Some (uncommited_map L !! id)) in
      let L2 := set_uncommited_map (delete id) L1 in
      let path := get_path id uncommited in
      let L3 := ext_remove id L2 in
      let L4 := set_disk_reserved_size (fun x => u64_sub x (file_space reservation)) L3 in
      match remove_file path L4 with
      | (L5, true) => (L5, Ok tt)
      | (L5, false) => (L5, Err IoInternal)
      end
  | None => (L, Ok tt)
  end.

Definition try_reserve (now : Z) (new_v4 : Uuid) (size : u64)
    (associated_bucket_id associated_file_id : Uuid) (durable : bool) L
    : Ledger M * MeowithIoResult Uuid :=
  if paused L then (L, Err Paused)
  else if decide (get_available_space L < size) then (L, Err InsufficientDiskSpace)
  else
    let id := new_v4 in
    match ext_metadata_store L with
    | None => (L, Err IoInternal)
    | Some store =>
        let meta := mkExtFragmentMeta (to_u128_le associated_bucket_id)
                                      (to_u128_le associated_file_id) in
        let '(store', r) := meta_insert id meta store in
        let L1 := set_ext_metadata_store (fun _ => Some store') L in
        match r with
        | Err e => (L1, Err e)
        | Ok _ =>
            let reservation := mkReservation size 0 durable now in
            let L2 := set_reservation_map (<[id := reservation]>) L1 in
            let L3 := set_disk_reserved_size (fun x => u64_add x size) L2 in
            let L4 := set_uncommited_map (<[id := mkCommitInfo now]>) L3 in
            (L4, Ok id)
        end
    end.

Definition refresh_reservation (now : Z) (id : Uuid) L : Ledger M * MeowithIoResult Reservation :=
  match reservation_map L !! id with
  | None => (L, Err IoNotFound)
  | Some r =>
      let r' := mkReservation (file_space r) (completed r) (res_durable r) now in
      (set_reservation_map (<[id := r']>) L, Ok r')
  end.

Definition resume_reservation (now : Z) (id : Uuid) L : Ledger M * MeowithIoResult Reservation :=
  refresh_reservation now id L.

Definition pause_reservation (now : Z) (id : Uuid) L : Ledger M * MeowithIoResult unit :=
  let '(L', r) := refresh_reservation now id L in
  (L', result_bind r (fun _ => Ok tt)).

Definition release_reservation (now : Z) (id : Uuid) (size_actual : u64) L
    : Ledger M * MeowithIoResult unit :=
  match reservation_map L !! id with
  | None => (L, Err IoNotFound)
  | Some reservation =>
      let transfer_completed := bool_decide (size_actual = file_space reservation) in
      let expected := file_space reservation in
      let is_uncommited := bool_decide (is_Some (uncommited_map L !! id)) in
      let path := get_path id is_uncommited in
      if transfer_completed then
        match files L !! path with
        | None => (L, Err IoInternal)
        | Some f =>
            let physical_size := size_on_disk f in
            let L1 := set_disk_physical_size (fun x => u64_add x physical_size) L in
            let L2 := set_disk_content_size (fun x => u64_add x size_actual) L1 in
            let L3 := set_reservation_map (delete id) L2 in
            let L4 := set_disk_reserved_size (fun x => u64_sub x size_actual) L3 in
            let L5 := set_chunk_set (<[id := mkFragmentMeta size_actual physical_size]>) L4 in
            (L5, Ok tt)
        end
      else if res_durable reservation then
        let r' := mkReservation (file_space reservation) size_actual true now in
        (set_reservation_map (<[id := r']>) L, Ok tt)
      else
        let L1 := set_reservation_map (delete id) L in
        let L2 := set_uncommited_map (delete id) L1 in
        let L3 := set_disk_reserved_size (fun x => u64_sub x expected) L2 in
        match remove_file path L3 with
        | (L4, true) => (L4, Ok tt)
        | (L4, false) => (L4, Err IoInternal)
        end
  end.

Definition commit_chunk (id : Uuid) L : Ledger M * MeowithIoResult unit :=
  let L1 := set_uncommited_map (delete id) L in
  match uncommited_map L !! id with
  | Some _ =>
      match files L !! get_path id true with
      | Some f =>
          (set_files (fun fs => <[get_path id false := f]> (delete (get_path id true) fs)) L1,
           Ok tt)
      | None => (L1, Err IoInternal)
      end
  | None => (L1, Ok tt)
  end.

Definition commit_alive (now : Z) (chunk_id : Uuid) L : Ledger M * MeowithIoResult unit :=
  let '(L1, reservation) := refresh_reservation now chunk_id L in
  match uncommited_map L1 !! chunk_id with
  | Some _ => (set_uncommited_map (<[chunk_id := mkCommitInfo now]>) L1, Ok tt)
  | None => (L1, if is_ok reservation then Ok tt else Err IoNotFound)
  end.

(** [InternalLedger::validate_max_space]: whether it warns, given the free disk space. *)
Definition validate_max_space (disk_free : u64) L : bool :=
  let app_free := u64_sub (max_physical_size L) (disk_physical_size L) in
  bool_decide (disk_free < app_free).

Definition delete_chunk (chunk_id : Uuid) L : Ledger M * MeowithIoResult unit :=
  let L1 := ext_remove chunk_id L in
  let uncommited := bool_decide (is_Some (uncommited_map L !! chunk_id)) in
  let L2 := set_uncommited_map (delete chunk_id) L1 in
  match remove_file (get_path chunk_id uncommited) L2 with
  | (L3, false) => (L3, Err IoNotFound)
  | (L3, true) =>
      match chunk_set L3 !! chunk_id with
      | Some chunk =>
          let L4 := set_chunk_set (delete chunk_id) L3 in
          let L5 := set_disk_content_size (fun x => u64_sub x (meta_content_size chunk)) L4 in
          (set_disk_physical_size (fun x => u64_sub x (meta_physical_size chunk)) L5, Ok tt)
      | None =>
          match reservation_map L3 !! chunk_id with
          | Some broken =>
              let L4 := set_reservation_map (delete chunk_id) L3 in
              (set_disk_reserved_size (fun x => u64_sub x (file_space broken)) L4, Ok tt)
          | None => (L3, Ok tt)
          end
      end
  end.

Definition stale (now since : Z) : bool :=
  bool_decide (DURABLE_UPLOAD_SESSION_VALIDITY_TIME_SECS * SECOND < now - since).

(** One swept id of [clean_broken_chunks]; [None] for the panic of [unwrap]. *)
Definition sweep_broken (sweep : Uuid) L : option (Ledger M * MeowithIoResult unit) :=
  let uncommited := bool_decide (is_Some (uncommited_map L !! sweep)) in
  let L1 := set_uncommited_map (delete sweep) L in
  reservation ← reservation_map L1 !! sweep;
  let L2 := set_reservation_map (delete sweep) L1 in
  let L3 := ext_remove sweep L2 in
  Some (match remove_file (get_path sweep uncommited) L3 with
        | (L4, false) => (L4, Err IoInternal)
        | (L4, true) =>
            (set_disk_reserved_size (fun x => u64_sub x (file_space reservation)) L4, Ok tt)
        end).

Fixpoint sweep_all_broken (mark : list Uuid) L : option (Ledger M * MeowithIoResult unit) :=
  match mark with
  | [] => Some (L, Ok tt)
  | id :: mark =>
      '(L', r) ← sweep_broken id L;
      match r with Ok _ => sweep_all_broken mark L' | Err e => Some (L', Err e) end
  end.

Definition broken_ids (now : Z) L : list Uuid :=
  map fst (filter (fun e => stale now (last_update e.2) = true)
             (map_to_list (reservation_map L))).

Definition clean_broken_chunks (now : Z) L : option (Ledger M * MeowithIoResult unit) :=
  sweep_all_broken (broken_ids now L) L.

Fixpoint delete_all (mark : list Uuid) L : Ledger M * MeowithIoResult unit :=
  match mark with
  | [] => (L, Ok tt)
  | id :: mark =>
      match delete_chunk id L with
      | (L', Ok _) => delete_all mark L'
      | (L', Err e) => (L', Err e)
      end
  end.

Definition uncommitted_ids (now : Z) L : list Uuid :=
  map fst (filter (fun e => stale now (access e.2) = true)
             (map_to_list (uncommited_map L))).

Definition clean_uncommitted (now : Z) L : Ledger M * MeowithIoResult unit :=
  delete_all (uncommitted_ids now L) L.

(** One tick of the housekeeper; results are ignored. *)
Definition housekeeper_tick (now : Z) L : option (Ledger M) :=
  '(L1, _) ← clean_broken_chunks now L;
  Some (fst (clean_uncommitted now L1)).

(** One directory entry of [scan_fragments]: the uncommited are removed, the committed are
    accounted and those without extended metadata are collected.  [None] is the panic on a
    dropped or failing metadata store. *)
Definition scan_entry (entry : (Uuid * bool) * FragFile) (acc : Ledger M * gset Uuid)
    : option (Ledger M * gset Uuid) :=
  let '(L, missing) := acc in
  let '((id, uncommited), f) := entry in
  if (uncommited : bool) then Some (fst (remove_file (id, true) L), missing)
  else
    store ← ext_metadata_store L;
    let L1 := set_disk_content_size (fun x => u64_add x (file_len f)) L in
    let L2 := set_disk_physical_size (fun x => u64_add x (size_on_disk f)) L1 in
    let L3 := set_chunk_set (<[id := mkFragmentMeta (file_len f) (size_on_disk f)]>) L2 in
    match meta_get id store with
    | Ok _ => Some (L3, missing)
    | Err IoNotFound => Some (L3, {[id]} ∪ missing)
    | Err _ => None
    end.

Fixpoint scan_entries (entries : list ((Uuid * bool) * FragFile)) (acc : Ledger M * gset Uuid)
    : option (Ledger M * gset Uuid) :=
  match entries with
  | [] => Some acc
  | e :: entries => acc' ← scan_entry e acc; scan_entries entries acc'
  end.

Definition scan_fragments L : option (Ledger M * gset Uuid) :=
  scan_entries (map_to_list (files L)) (L, ∅).

(** [scan_missing_fragment_metadata]: the database's files as [(file, bucket, chunk ids)].
    Of each file at most one missing fragment is resolved. *)
Definition resolve_missing (acc : Ledger M * gset Uuid) (file : Uuid * Uuid * list Uuid)
    : Ledger M * gset Uuid :=
  let '(L, missing) := acc in
  let '(file_id, bucket_id, chunk_ids) := file in
  match find (fun c => bool_decide (c ∈ missing)) chunk_ids with
  | Some chunk_id =>
      let meta := mkExtFragmentMeta (to_u128_le bucket_id) (to_u128_le file_id) in
      (set_ext_metadata_store (fun s => (fun m => fst (meta_insert chunk_id meta m)) <$> s) L,
       missing ∖ {[chunk_id]})
  | None => (L, missing)
  end.

Definition scan_missing_fragment_metadata (db : list (Uuid * Uuid * list Uuid))
    (missing : gset Uuid) L : Ledger M * MeowithIoResult unit :=
  let '(L1, orphans) := fold_left resolve_missing db (L, missing) in
  delete_all (elements orphans) L1.

(** [initialize], in an existing data directory; the database is optional. *)
Definition initialize (db : option (list (Uuid * Uuid * list Uuid))) L
    : option (Ledger M * MeowithIoResult unit) :=
  '(L1, missing) ← scan_fragments L;
  Some (if decide (missing = ∅) then (L1, Ok tt)
        else match db with
             | Some db => scan_missing_fragment_metadata db missing L1
             | None => (L1, Ok tt)
             end).

(** ** Invariant *)
(** The counters are the totals of the maps they summarise (as the wrapping atomics hold
    them), no fragment is both reserved and stored, and every stored fragment has its file
    where the ledger will look for it. *)
Record ledger_inv L : Prop := {
  inv_reserved : disk_reserved_size L = wrap 64 (map_sum file_space (reservation_map L));
  inv_physical : disk_physical_size L = wrap 64 (map_sum meta_physical_size (chunk_set L));
  inv_content : disk_content_size L = wrap 64 (map_sum meta_content_size (chunk_set L));
  inv_disjoint : forall id r, reservation_map L !! id = Some r -> chunk_set L !! id = None;
  inv_file : forall id m, chunk_set L !! id = Some m ->
    is_Some (files L !! get_path id (bool_decide (is_Some (uncommited_map L !! id))))
}.

(** The two states hold the same about every fragment but [id]. *)
Definition same_but (id : Uuid) L L' : Prop := forall k, k <> id ->
  chunk_set L' !! k = chunk_set L !! k
  /\ reservation_map L' !! k = reservation_map L !! k
  /\ uncommited_map L' !! k = uncommited_map L !! k
  /\ forall b, files L' !! (k, b) = files L !! (k, b).

(** ** The operations as steps *)
Inductive LedgerOp : Type :=
| OpPause | OpResume | OpShutdown
| OpReserve (now : Z) (new_v4 : Uuid) (size : u64) (bucket file : Uuid) (durable : bool)
| OpCancel (id : Uuid)
| OpRefresh (now : Z) (id : Uuid)
| OpRelease (now : Z) (id : Uuid) (size_actual : u64)
| OpCommit (id : Uuid)
| OpAlive (now : Z) (id : Uuid)
| OpDelete (id : Uuid)
| OpOpenWrite (id : Uuid)
| OpOpenAppend (id : Uuid)
| OpWrite (id : Uuid) (f : FragFile)
| OpCleanBroken (now : Z)
| OpCleanUncommitted (now : Z).

(** Writing to an open stream leaves some new state of the uncommited file. *)
Definition write_file (id : Uuid) (f : FragFile) L : Ledger M :=
  set_files (<[get_path id true := f]>) L.

Definition exec (op : LedgerOp) L : option (Ledger M) :=
  match op with
  | OpPause => Some (pause L)
  | OpResume => Some (resume L)
  | OpShutdown => Some (shutdown L)
  | OpReserve now id size b f d => Some (fst (try_reserve now id size b f d L))
  | OpCancel id => Some (fst (cancel_reservation id L))
  | OpRefresh now id => Some (fst (refresh_reservation now id L))
  | OpRelease now id n => Some (fst (release_reservation now id n L))
  | OpCommit id => Some (fst (commit_chunk id L))
  | OpAlive now id => Some (fst (commit_alive now id L))
  | OpDelete id => Some (fst (delete_chunk id L))
  | OpOpenWrite id => Some (fragment_write_stream id L)
  | OpOpenAppend id => Some (fragment_append_stream id L)
  | OpWrite id f => Some (write_file id f L)
  | OpCleanBroken now => fst <$> clean_broken_chunks now L
  | OpCleanUncommitted now => Some (fst (clean_uncommitted now L))
  end.

(** Where the file of a reserved or stored fragment is expected. *)
Definition expected_path (id : Uuid) L : Uuid * bool :=
  get_path id (bool_decide (is_Some (uncommited_map L !! id))).

(** When an operation keeps the accounting exact: new ids are new ([Uuid::new_v4]), and the
    reservations swept as broken have a file. *)
Definition op_guard (op : LedgerOp) L : Prop :=
  match op with
  | OpReserve _ id _ _ _ _ => reservation_map L !! id = None /\ chunk_set L !! id = None
  | OpCleanBroken now =>
      forall id, id ∈ broken_ids now L -> is_Some (files L !! expected_path id L)
  | _ => True
  end.

Inductive ledger_step : Ledger M -> Ledger M -> Prop :=
| do_op op L L' : op_guard op L -> exec op L = Some L' -> ledger_step L L'.

(** ** Abstract view: what each fragment id holds *)
Inductive Slot : Type :=
| SReserved (space : u64)
| SStored (content_size physical_size : u64).

Definition slot_of L (id : Uuid) : option Slot :=
  match reservation_map L !! id with
  | Some r => Some (SReserved (file_space r))
  | None => (fun m => SStored (meta_content_size m) (meta_physical_size m)) <$> chunk_set L !! id
  end.

(** The space accounted for, exactly. *)
Definition reserved_total L : Z := map_sum file_space (reservation_map L).
Definition physical_total L : Z := map_sum meta_physical_size (chunk_set L).

(** The abstract transitions of one fragment: space is reserved only when it is free, a
    reservation becomes a fragment of exactly the reserved size or disappears, a fragment
    disappears. *)
Inductive slot_step (available : Z) : option Slot -> option Slot -> Prop :=
| slot_same s : slot_step available s s
| slot_reserve n : n <= available -> slot_step available None (Some (SReserved n))
| slot_store n p : slot_step available (Some (SReserved n)) (Some (SStored n p))
| slot_release n : slot_step available (Some (SReserved n)) None
| slot_delete c p : slot_step available (Some (SStored c p)) None.

(** Totals that the 64-bit counters hold without wrapping. *)
Definition exact_totals L : Prop :=
  0 <= physical_total L /\ 0 <= reserved_total L
  /\ physical_total L + reserved_total L < 2 ^ 64.

(** A ledger that has only stored fragments, none of them uncommited. *)
Definition fresh_ledger L : Prop := reservation_map L = ∅ /\ uncommited_map L = ∅.

(** What scanning the directory entries [m] does to a ledger. *)
Record scan_result (store : M) (m : gmap (Uuid * bool) FragFile) L (missing : gset Uuid)
    L' (missing' : gset Uuid) : Prop := {
  sr_fresh : fresh_ledger L';
  sr_inv : ledger_inv L';
  sr_store : ext_metadata_store L' = Some store;
  sr_chunks : forall id : Uuid, chunk_set L' !! id
    = match m !! (id, false) with
      | Some f => Some (mkFragmentMeta (file_len f) (size_on_disk f))
      | None => chunk_set L !! id
      end;
  sr_files : forall p : Uuid * bool, files L' !! p
    = if p.2 then match m !! p with Some _ => None | None => files L !! p end
      else files L !! p;
  sr_missing : forall id : Uuid, id ∈ missing' <-> id ∈ missing
    \/ (is_Some (m !! (id, false)) /\ meta_get id store = Err IoNotFound)
}.
End ledger.
