(* ===== verification/LedgerCorrect.v ===== *)
(** * Correctness of the fragment ledger

    Every operation keeps the accounting invariant of [FragmentLedger], so it holds in
    every reachable state; reservations never promise space that is not there; an operation
    moves each fragment along the abstract transitions only; and what each operation does
    on its success and failure branches. *)
From Stdlib Require Import ZArith Lia List.
From stdpp Require Import base numbers list gmap relations.
From S2P Require Import Prelude Errors MetaStore FragmentLedger.
Local Open Scope Z_scope.

Section correct.
  Context {M : Type} `{ExtFragmentMetaStore M}.
  Implicit Types L : Ledger M.

(** A change confined to one fragment that is not stored afterwards keeps every stored
    fragment's file. *)
Lemma inv_file_same_but id L L' :
  ledger_inv L -> same_but id L L' -> chunk_set L' !! id = None ->
  forall k m, chunk_set L' !! k = Some m ->
    is_Some (files L' !! get_path k (bool_decide (is_Some (uncommited_map L' !! k)))).
Proof.
  intros HI Hsame Hid k m Hk. destruct (decide (k = id)) as [->|Hne]; [congruence|].
  destruct (Hsame k Hne) as (Hc & _ & Hu & Hf). unfold get_path. rewrite Hf, Hu.
  rewrite Hc in Hk. by apply (inv_file L HI k m).
Qed.

Lemma inv_disjoint_same_but id L L' :
  ledger_inv L -> same_but id L L' ->
  (forall r, reservation_map L' !! id = Some r -> chunk_set L' !! id = None) ->
  forall k r, reservation_map L' !! k = Some r -> chunk_set L' !! k = None.
Proof.
  intros HI Hsame Hid k r Hk. destruct (decide (k = id)) as [->|Hne]; [eauto|].
  destruct (Hsame k Hne) as (Hc & Hr & _ & _). rewrite Hc. rewrite Hr in Hk.
  by apply (inv_disjoint L HI k r).
Qed.

(** Closes [same_but] goals about updates at one key. *)
Ltac same_but_tac :=
  let k := fresh "k" in let Hk := fresh "Hk" in
  intros k Hk; simpl; unfold get_path; split_ands; intros;
  repeat first [ rewrite lookup_insert_ne by congruence
               | rewrite lookup_delete_ne by congruence ]; reflexivity.

Lemma cancel_same_but id L : same_but id L (fst (cancel_reservation id L)).
Proof.
  unfold cancel_reservation, remove_file. destruct (reservation_map L !! id); [|done].
  simpl. destruct (files L !! _); same_but_tac.
Qed.

Lemma cancel_inv id L : ledger_inv L -> ledger_inv (fst (cancel_reservation id L)).
Proof.
  intros HI. pose proof (cancel_same_but id L) as Hsame. revert Hsame.
  unfold cancel_reservation, remove_file.
  destruct (reservation_map L !! id) as [r|] eqn:Hr; [|done].
  pose proof (inv_disjoint L HI id r Hr) as Hc. simpl.
  assert (Hres : u64_sub (disk_reserved_size L) (file_space r)
    = wrap 64 (map_sum file_space (delete id (reservation_map L)))).
  { rewrite (inv_reserved L HI), u64_sub_wrap. by rewrite (map_sum_delete _ _ id r). }
  destruct (files L !! _) eqn:Hf; intros Hsame; (split;
    [exact Hres|apply HI|apply HI
    |apply (inv_disjoint_same_but id L _ HI Hsame); done
    |apply (inv_file_same_but id L _ HI Hsame); done]).
Qed.

Lemma try_reserve_same_but now id n b f d L :
  same_but id L (fst (try_reserve now id n b f d L)).
Proof.
  unfold try_reserve. destruct (paused L); [done|]. case_decide; [done|].
  destruct (ext_metadata_store L) as [s|]; [|done].
  destruct (meta_insert _ _ s) as [s' [u|e]]; same_but_tac.
Qed.

Lemma try_reserve_inv now id n b f d L :
  reservation_map L !! id = None -> chunk_set L !! id = None ->
  ledger_inv L -> ledger_inv (fst (try_reserve now id n b f d L)).
Proof.
  intros Hr Hc HI. pose proof (try_reserve_same_but now id n b f d L) as Hsame. revert Hsame.
  unfold try_reserve. destruct (paused L); [done|]. case_decide; [done|].
  destruct (ext_metadata_store L) as [s|]; [|done].
  destruct (meta_insert _ _ s) as [s' [u|e]]; intros Hsame; [|by destruct HI; split].
  split; [|apply HI|apply HI|by apply (inv_disjoint_same_but id L _ HI Hsame)
          |by apply (inv_file_same_but id L _ HI Hsame)].
  simpl. by rewrite (inv_reserved L HI), u64_add_wrap, map_sum_insert, Z.add_comm.
Qed.

(** Rewriting a reservation without touching its size changes no total. *)
Lemma update_reservation_inv id r r' L :
  reservation_map L !! id = Some r -> file_space r' = file_space r ->
  ledger_inv L -> ledger_inv (set_reservation_map (<[id := r']>) L).
Proof.
  intros Hr Hs HI. split; simpl; [|apply HI|apply HI| |apply HI].
  - rewrite (map_sum_update _ _ id r r' Hr), (inv_reserved L HI), Hs. f_equal. lia.
  - intros k r0 Hk. destruct (decide (k = id)) as [->|Hne].
    + by apply (inv_disjoint L HI id r).
    + rewrite lookup_insert_ne in Hk by congruence. by apply (inv_disjoint L HI k r0).
Qed.

Lemma refresh_inv now id L : ledger_inv L -> ledger_inv (fst (refresh_reservation now id L)).
Proof.
  intros HI. unfold refresh_reservation. destruct (reservation_map L !! id) eqn:Hr; [|done].
  by eapply update_reservation_inv.
Qed.

(** The completed transfer: the reservation becomes a stored fragment. *)
Lemma release_complete_inv id r f L :
  ledger_inv L -> reservation_map L !! id = Some r ->
  files L !! expected_path id L = Some f ->
  ledger_inv
    (set_chunk_set (<[id := mkFragmentMeta (file_space r) (size_on_disk f)]>)
      (set_disk_reserved_size (fun x => u64_sub x (file_space r))
        (set_reservation_map (delete id)
          (set_disk_content_size (fun x => u64_add x (file_space r))
            (set_disk_physical_size (fun x => u64_add x (size_on_disk f)) L))))).
Proof.
  intros HI Hr Hf. pose proof (inv_disjoint L HI id r Hr) as Hc. split; simpl.
  - by rewrite (inv_reserved L HI), u64_sub_wrap, (map_sum_delete _ _ id r).
  - by rewrite (inv_physical L HI), u64_add_wrap, map_sum_insert, Z.add_comm.
  - by rewrite (inv_content L HI), u64_add_wrap, map_sum_insert, Z.add_comm.
  - intros k r' [Hne Hk]%lookup_delete_Some. rewrite lookup_insert_ne by done.
    by apply (inv_disjoint L HI k r').
  - intros k m Hk. destruct (decide (k = id)) as [->|Hne]; [by exists f|].
    rewrite lookup_insert_ne in Hk by congruence. by apply (inv_file L HI k m).
Qed.

(** The failed transfer that is not durable: reservation and file are dropped. *)
Lemma release_drop_inv id r L path :
  ledger_inv L -> reservation_map L !! id = Some r -> fst path = id ->
  ledger_inv (fst (remove_file path
    (set_disk_reserved_size (fun x => u64_sub x (file_space r))
      (set_uncommited_map (delete id) (set_reservation_map (delete id) L))))).
Proof.
  intros HI Hr Hp. pose proof (inv_disjoint L HI id r Hr) as Hc. destruct path as [? b].
  simpl in Hp. subst. unfold remove_file. simpl.
  assert (Hres : u64_sub (disk_reserved_size L) (file_space r)
    = wrap 64 (map_sum file_space (delete id (reservation_map L)))).
  { by rewrite (inv_reserved L HI), u64_sub_wrap, (map_sum_delete _ _ id r). }
  match goal with |- ledger_inv (fst ?x) => assert (Hsame : same_but id L (fst x)) end.
  { destruct (files L !! (id, b)); same_but_tac. }
  revert Hsame. destruct (files L !! (id, b)); intros Hsame;
    (split; [exact Hres|apply HI|apply HI
      |apply (inv_disjoint_same_but id L _ HI Hsame); done
      |apply (inv_file_same_but id L _ HI Hsame); done]).
Qed.

Lemma release_inv now id n L : ledger_inv L -> ledger_inv (fst (release_reservation now id n L)).
Proof.
  intros HI. unfold release_reservation.
  destruct (reservation_map L !! id) as [r|] eqn:Hr; [|done].
  destruct (bool_decide_reflect (n = file_space r)) as [->|Hn].
  - destruct (files L !! _) as [f|] eqn:Hf; [|done]. by apply release_complete_inv.
  - destruct (res_durable r) eqn:Hd; [by eapply update_reservation_inv|].
    pose proof (release_drop_inv id r L
      (get_path id (bool_decide (is_Some (uncommited_map L !! id)))) HI Hr eq_refl) as HI'.
    revert HI'. by destruct (remove_file _ _) as [L' []].
Qed.

Lemma commit_chunk_inv id L : ledger_inv L -> ledger_inv (fst (commit_chunk id L)).
Proof.
  intros HI. unfold commit_chunk. destruct (uncommited_map L !! id) as [u|] eqn:Hu.
  - assert (Hin : forall m, chunk_set L !! id = Some m -> is_Some (files L !! (id, true))).
    { intros m Hm. pose proof (inv_file L HI id m Hm) as Hf. by rewrite Hu in Hf. }
    destruct (files L !! get_path id true) as [f|] eqn:Hf; (split; try apply HI); simpl;
      intros k m Hk; (destruct (decide (k = id)) as [->|Hne];
        [rewrite lookup_delete_eq|rewrite (lookup_delete_ne _ _ k) by congruence]).
    + simpl. unfold get_path. rewrite lookup_insert_eq. by eexists.
    + unfold get_path. rewrite lookup_insert_ne, lookup_delete_ne by congruence.
      by apply (inv_file L HI k m).
    + destruct (Hin m Hk) as [f Hf']. unfold get_path in Hf. congruence.
    + by apply (inv_file L HI k m).
  - split; try apply HI. simpl. rewrite delete_id by done. apply HI.
Qed.

Lemma commit_alive_inv now id L : ledger_inv L -> ledger_inv (fst (commit_alive now id L)).
Proof.
  intros HI. unfold commit_alive. pose proof (refresh_inv now id L HI) as HI1.
  destruct (refresh_reservation now id L) as [L1 r]. simpl in HI1.
  destruct (uncommited_map L1 !! id) as [u|] eqn:Hu; [|done].
  split; try apply HI1. simpl. intros k m Hk. pose proof (inv_file L1 HI1 k m Hk) as Hf.
  destruct (decide (k = id)) as [->|Hne].
  - rewrite lookup_insert_eq. by rewrite Hu in Hf.
  - by rewrite lookup_insert_ne by congruence.
Qed.

(** A new state of an uncommited file hides no other file. *)
Lemma write_file_inv id f L : ledger_inv L -> ledger_inv (write_file id f L).
Proof.
  intros HI. split; try apply HI. simpl. intros k m Hk.
  pose proof (inv_file L HI k m Hk) as Hf. unfold get_path in *.
  destruct (decide ((id, true) = (k, bool_decide (is_Some (uncommited_map L !! k))))) as [<-|Hne].
  - rewrite lookup_insert_eq. by eexists.
  - by rewrite lookup_insert_ne.
Qed.

Lemma fragment_append_stream_inv id L : ledger_inv L -> ledger_inv (fragment_append_stream id L).
Proof.
  intros HI. unfold fragment_append_stream. destruct (files L !! _); [done|].
  by apply (write_file_inv id (mkFragFile [] 0)).
Qed.

(** What is left once the file and the commit record of [id] are gone: each of the three
    ways [delete_chunk] goes on restores the invariant. *)
Lemma delete_chunk_inv id L : ledger_inv L -> ledger_inv (fst (delete_chunk id L)).
Proof.
  intros HI. unfold delete_chunk, remove_file. simpl.
  destruct (files L !! _) as [f|] eqn:Hf; simpl.
  - set (L3 := set_files _ _).
    assert (Hsame : same_but id L L3) by (unfold L3; same_but_tac).
    destruct (chunk_set L !! id) as [c|] eqn:Hc; simpl.
    + match goal with |- ledger_inv ?x => assert (Hs' : same_but id L x) by same_but_tac end.
      split; simpl; [apply HI| | | |].
      * by rewrite (inv_physical L HI), u64_sub_wrap, (map_sum_delete _ _ id c).
      * by rewrite (inv_content L HI), u64_sub_wrap, (map_sum_delete _ _ id c).
      * apply (inv_disjoint_same_but id L _ HI Hs'). intros r _. apply lookup_delete_eq.
      * apply (inv_file_same_but id L _ HI Hs'). apply lookup_delete_eq.
    + destruct (reservation_map L !! id) as [r|] eqn:Hr; simpl.
      * match goal with |- ledger_inv ?x => assert (Hs' : same_but id L x) by same_but_tac end.
        split; simpl; [|apply HI|apply HI|by apply (inv_disjoint_same_but id L _ HI Hs')
          |by apply (inv_file_same_but id L _ HI Hs')].
        by rewrite (inv_reserved L HI), u64_sub_wrap, (map_sum_delete _ _ id r).
      * split; simpl; try apply HI. by apply (inv_file_same_but id L _ HI Hsame).
  - match goal with |- ledger_inv ?x => assert (Hs' : same_but id L x) by same_but_tac end.
    split; simpl; try apply HI. apply (inv_file_same_but id L _ HI Hs'). simpl.
    destruct (chunk_set L !! id) as [m|] eqn:Hc; [|done].
    destruct (inv_file L HI id m Hc) as [f' Hf']. congruence.
Qed.

Lemma delete_all_inv ids L : ledger_inv L -> ledger_inv (fst (delete_all ids L)).
Proof.
  revert L. induction ids as [|id ids IH]; intros L HI; simpl; [done|].
  pose proof (delete_chunk_inv id L HI) as HI'.
  destruct (delete_chunk id L) as [L' [u|e]]; [by apply IH|done].
Qed.

Lemma sweep_broken_spec id L r :
  ledger_inv L -> reservation_map L !! id = Some r -> is_Some (files L !! expected_path id L) ->
  exists L', sweep_broken id L = Some (L', Ok tt) /\ ledger_inv L' /\ same_but id L L'
    /\ reservation_map L' !! id = None /\ chunk_set L' = chunk_set L.
Proof.
  intros HI Hr [f Hf]. unfold sweep_broken, remove_file. simpl. rewrite Hr.
  cbn [mbind option_bind]. unfold expected_path in Hf. rewrite Hf. eexists. split; [done|].
  pose proof (inv_disjoint L HI id r Hr) as Hc.
  match goal with |- ledger_inv ?x /\ _ => assert (Hs' : same_but id L x) by same_but_tac end.
  split_ands; [|done|apply lookup_delete_eq|done].
  split; [|apply HI|apply HI
    |apply (inv_disjoint_same_but id L _ HI Hs'); done
    |by apply (inv_file_same_but id L _ HI Hs')].
  simpl. by rewrite (inv_reserved L HI), u64_sub_wrap, (map_sum_delete _ _ id r).
Qed.

Lemma sweep_all_broken_spec mark L :
  ledger_inv L -> NoDup mark ->
  (forall id, id ∈ mark -> is_Some (reservation_map L !! id)
                          /\ is_Some (files L !! expected_path id L)) ->
  exists L', sweep_all_broken mark L = Some (L', Ok tt) /\ ledger_inv L'
    /\ (forall id, id ∈ mark -> reservation_map L' !! id = None)
    /\ (forall id, id ∉ mark -> reservation_map L' !! id = reservation_map L !! id)
    /\ chunk_set L' = chunk_set L.
Proof.
  revert L. induction mark as [|id mark IH]; intros L HI Hnd Hm.
  - exists L. split_ands; [done|done|by intros ? ?%elem_of_nil|done|done].
  - apply NoDup_cons in Hnd as [Hni Hnd].
    destruct (Hm id) as [[r Hr] Hf]; [by left|].
    destruct (sweep_broken_spec id L r HI Hr Hf) as (L1 & E1 & HI1 & Hs1 & Hd1 & Hc1).
    destruct (IH L1 HI1 Hnd) as (L2 & E2 & HI2 & Hin & Hout & Hc2).
    { intros k Hk. assert (k <> id) as Hne by congruence.
      destruct (Hs1 k Hne) as (_ & Hr' & Hu' & Hf'). unfold expected_path, get_path.
      rewrite Hr', Hu', Hf'. apply Hm. by right. }
    exists L2. simpl. rewrite E1. cbn [mbind option_bind]. split_ands; [done|done| | |congruence].
    + intros k [->|Hk]%elem_of_cons; [|by apply Hin]. by rewrite Hout.
    + intros k [Hne Hk]%not_elem_of_cons. rewrite Hout by done. by apply Hs1.
Qed.

Lemma broken_ids_spec now L id :
  id ∈ broken_ids now L
  <-> exists r, reservation_map L !! id = Some r /\ stale now (last_update r) = true.
Proof.
  unfold broken_ids. rewrite list_elem_of_fmap. split.
  - intros ([k r] & -> & [Hst Hin]%list_elem_of_filter). exists r. split; [|done].
    by apply elem_of_map_to_list.
  - intros (r & Hr & Hst). exists (id, r). split; [done|]. apply list_elem_of_filter.
    split; [done|]. by apply elem_of_map_to_list.
Qed.

Lemma broken_ids_NoDup now L : NoDup (broken_ids now L).
Proof.
  unfold broken_ids. apply (NoDup_fmap_fst _). 
  - intros k r1 r2 [_ H1]%list_elem_of_filter [_ H2]%list_elem_of_filter.
    apply elem_of_map_to_list in H1, H2. congruence.
  - apply NoDup_filter, NoDup_map_to_list.
Qed.

(** ** Boot scan *)
Lemma scan_uncommited_entry id f L missing :
  fresh_ledger L -> ledger_inv L ->
  exists L', scan_entry ((id, true), f) (L, missing) = Some (L', missing)
    /\ fresh_ledger L' /\ ledger_inv L' /\ chunk_set L' = chunk_set L
    /\ ext_metadata_store L' = ext_metadata_store L
    /\ files L' = delete (id, true) (files L).
Proof.
  intros [Hr Hu] HI. unfold scan_entry, remove_file.
  destruct (files L !! (id, true)) eqn:Hf; eexists; (split; [done|]); simpl;
    (split_ands; try done); [|by rewrite delete_id].
  split; try apply HI. simpl. rewrite Hu. intros k m Hk.
  pose proof (inv_file L HI k m Hk) as Hfile. rewrite Hu, lookup_empty in Hfile.
  rewrite lookup_empty. unfold get_path in *. simpl in *.
  by rewrite lookup_delete_ne by congruence.
Qed.

Lemma scan_committed_entry id f L missing store :
  fresh_ledger L -> ledger_inv L -> ext_metadata_store L = Some store ->
  (forall e, meta_get id store = Err e -> e = IoNotFound) ->
  chunk_set L !! id = None -> files L !! (id, false) = Some f ->
  exists L' missing', scan_entry ((id, false), f) (L, missing) = Some (L', missing')
    /\ fresh_ledger L' /\ ledger_inv L'
    /\ chunk_set L' = <[id := mkFragmentMeta (file_len f) (size_on_disk f)]> (chunk_set L)
    /\ ext_metadata_store L' = Some store /\ files L' = files L
    /\ missing' = (if is_ok (meta_get id store) then missing else {[id]} ∪ missing).
Proof.
  intros [Hr Hu] HI Hstore Hget Hc Hf. unfold scan_entry. rewrite Hstore. cbn [mbind option_bind].
  match goal with |- context [set_chunk_set ?g ?l] => set (L' := set_chunk_set g l) end.
  assert (HL' : fresh_ledger L' /\ ledger_inv L'
    /\ chunk_set L' = <[id := mkFragmentMeta (file_len f) (size_on_disk f)]> (chunk_set L)
    /\ ext_metadata_store L' = Some store /\ files L' = files L).
  { split_ands; try done. split; simpl; [apply HI| | | |].
    - by rewrite (inv_physical L HI), u64_add_wrap, map_sum_insert, Z.add_comm.
    - by rewrite (inv_content L HI), u64_add_wrap, map_sum_insert, Z.add_comm.
    - intros k r. by rewrite Hr, lookup_empty.
    - intros k m Hk. rewrite Hu, lookup_empty. simpl. unfold get_path.
      destruct (decide (k = id)) as [->|Hne]; [by eexists|].
      rewrite lookup_insert_ne in Hk by congruence.
      pose proof (inv_file L HI k m Hk) as Hfile. by rewrite Hu, lookup_empty in Hfile. }
  destruct HL' as (? & ? & ? & ? & ?).
  destruct (meta_get id store) as [x|e] eqn:Hg; [by exists L', missing|].
  rewrite (Hget e eq_refl). by exists L', ({[id]} ∪ missing).
Qed.

Lemma scan_result_empty store L missing :
  fresh_ledger L -> ledger_inv L -> ext_metadata_store L = Some store ->
  scan_result store ∅ L missing L missing.
Proof.
  intros Hfr HI Hs. split; try done.
  - intros p. rewrite lookup_empty. by destruct (p.2).
  - intros k. rewrite lookup_empty. split; [by left|]. by intros [?|[[? [=]] _]].
Qed.

Lemma scan_result_uncommited store id f m L missing L1 L2 missing2 :
  chunk_set L1 = chunk_set L -> files L1 = delete (id, true) (files L) ->
  scan_result store m L1 missing L2 missing2 ->
  scan_result store (<[(id, true) := f]> m) L missing L2 missing2.
Proof.
  intros Hc1 Hf1 [Hfr2 HI2 Hs2 Hc2 Hf2 Hm2]. split; try done.
  - intros k. by rewrite Hc2, Hc1, lookup_insert_ne by done.
  - intros [k []]; rewrite Hf2, Hf1; simpl; [|by rewrite lookup_delete_ne by congruence].
    destruct (decide (k = id)) as [->|Hne].
    + rewrite lookup_insert_eq, lookup_delete_eq. by destruct (m !! _).
    + by rewrite lookup_insert_ne, lookup_delete_ne by congruence.
  - intros k. by rewrite Hm2, lookup_insert_ne by done.
Qed.

Lemma scan_result_committed store id f m L missing L1 missing1 L2 missing2 :
  m !! (id, false) = None ->
  (forall e, meta_get id store = Err e -> e = IoNotFound) ->
  chunk_set L1 = <[id := mkFragmentMeta (file_len f) (size_on_disk f)]> (chunk_set L) ->
  files L1 = files L ->
  missing1 = (if is_ok (meta_get id store) then missing else {[id]} ∪ missing) ->
  scan_result store m L1 missing1 L2 missing2 ->
  scan_result store (<[(id, false) := f]> m) L missing L2 missing2.
Proof.
  intros Hm Hget Hc1 Hf1 Hm1 [Hfr2 HI2 Hs2 Hc2 Hf2 Hm2]. split; try done.
  - intros k. rewrite Hc2, Hc1. destruct (decide (k = id)) as [->|Hne].
    + by rewrite Hm, !lookup_insert_eq.
    + by rewrite !lookup_insert_ne by congruence.
  - intros [k []]; rewrite Hf2, Hf1; simpl; [|done]. by rewrite lookup_insert_ne by congruence.
  - intros k. rewrite Hm2, Hm1. destruct (decide (k = id)) as [->|Hne].
    + rewrite lookup_insert_eq, Hm. destruct (meta_get id store) as [x|e] eqn:Hg; simpl.
      * split; [|intros [?|[_ [=]]]; by left]. intros [?|[[? [=]] _]]; by left.
      * rewrite (Hget e eq_refl). split; [|set_solver]. intros _. right. by split; [eexists|].
    + rewrite lookup_insert_ne by congruence. destruct (is_ok _); [done|]. set_solver.
Qed.

(** The scan of a list of entries of the directory, from any state the scan can be in. *)
Lemma scan_entries_spec es L missing store :
  fresh_ledger L -> ledger_inv L -> ext_metadata_store L = Some store ->
  (forall id e, meta_get id store = Err e -> e = IoNotFound) ->
  NoDup (map fst es) ->
  (forall p f, (p, f) ∈ es -> files L !! p = Some f) ->
  (forall id f, ((id, false), f) ∈ es -> chunk_set L !! id = None) ->
  exists L' missing', scan_entries es (L, missing) = Some (L', missing')
    /\ scan_result store (list_to_map es) L missing L' missing'.
Proof.
  intros Hfr HI Hstore Hget. revert L missing Hfr HI Hstore.
  induction es as [|[[id b] f] es IH]; intros L missing Hfr HI Hstore Hnd Hin Hc.
  { exists L, missing. split; [done|by apply scan_result_empty]. }
  simpl in Hnd. apply NoDup_cons in Hnd as [Hni Hnd].
  assert (Hf : files L !! (id, b) = Some f) by (apply Hin; left).
  assert (Hnotin : forall f', ((id, b), f') ∉ es).
  { intros f' Hf'. apply Hni. apply (list_elem_of_fmap_2 fst es _ Hf'). }
  destruct b.
  - destruct (scan_uncommited_entry id f L missing Hfr HI)
      as (L1 & E1 & Hfr1 & HI1 & Hc1 & Hs1 & Hf1).
    destruct (IH L1 missing) as (L2 & miss2 & E2 & R2); [done|done|congruence|done| | |].
    { intros p f' Hp. rewrite Hf1, lookup_delete_ne; [by apply Hin; right|].
      intros <-. by apply (Hnotin f'). }
    { intros k f' Hk. rewrite Hc1. eapply Hc. right. exact Hk. }
    exists L2, miss2. cbn [scan_entries]. rewrite E1. split; [done|].
    by eapply scan_result_uncommited.
  - destruct (scan_committed_entry id f L missing store Hfr HI Hstore (Hget id))
      as (L1 & miss1 & E1 & Hfr1 & HI1 & Hc1 & Hs1 & Hf1 & Hm1); [by apply (Hc id f); left|done|].
    destruct (IH L1 miss1) as (L2 & miss2 & E2 & R2); [done|done|done|done| | |].
    { intros p f' Hp. rewrite Hf1. by apply Hin; right. }
    { intros k f' Hk. rewrite Hc1, lookup_insert_ne; [by apply (Hc k f'); right|].
      intros <-. by apply (Hnotin f'). }
    exists L2, miss2. cbn [scan_entries]. rewrite E1. split; [done|].
    eapply scan_result_committed; eauto. by apply not_elem_of_list_to_map_1.
Qed.

(** ** Slots *)
Lemma slot_same_but id L L' k : same_but id L L' -> k <> id -> slot_of L' k = slot_of L k.
Proof. intros Hs Hk. destruct (Hs k Hk) as (Hc & Hr & _). unfold slot_of. by rewrite Hc, Hr. Qed.

Lemma refresh_slot now id L k : slot_of (fst (refresh_reservation now id L)) k = slot_of L k.
Proof.
  unfold refresh_reservation, slot_of. destruct (reservation_map L !! id) as [r|] eqn:Hr; [|done].
  simpl. destruct (decide (k = id)) as [->|Hne].
  - by rewrite lookup_insert_eq, Hr.
  - by rewrite lookup_insert_ne by congruence.
Qed.

Lemma release_same_but now id n L : same_but id L (fst (release_reservation now id n L)).
Proof.
  unfold release_reservation, remove_file. destruct (reservation_map L !! id) as [r|]; [|done].
  destruct (bool_decide _); [destruct (files L !! _); [same_but_tac|done]|].
  destruct (res_durable r); [same_but_tac|]. simpl. destruct (files L !! _); same_but_tac.
Qed.

Lemma delete_same_but id L : same_but id L (fst (delete_chunk id L)).
Proof.
  unfold delete_chunk, remove_file. simpl. destruct (files L !! _); simpl; [|same_but_tac].
  destruct (chunk_set L !! id); simpl; [same_but_tac|].
  destruct (reservation_map L !! id); simpl; same_but_tac.
Qed.

Lemma try_reserve_slot now id n b f d L :
  reservation_map L !! id = None -> chunk_set L !! id = None ->
  slot_step (get_available_space L) (slot_of L id) (slot_of (fst (try_reserve now id n b f d L)) id).
Proof.
  intros Hr Hc. unfold try_reserve. destruct (paused L); [constructor|].
  set (a := get_available_space L). clearbody a. case_decide; [constructor|].
  destruct (ext_metadata_store L) as [s|]; [|constructor].
  destruct (meta_insert _ _ s) as [s' [u|e]]; [|constructor].
  unfold slot_of at 1. rewrite Hr, Hc. unfold slot_of. simpl. rewrite lookup_insert_eq.
  constructor. simpl. lia.
Qed.

Lemma cancel_slot a id L :
  ledger_inv L -> slot_step a (slot_of L id) (slot_of (fst (cancel_reservation id L)) id).
Proof.
  intros HI. unfold cancel_reservation, remove_file.
  destruct (reservation_map L !! id) as [r|] eqn:Hr; [|constructor].
  pose proof (inv_disjoint L HI id r Hr) as Hc. unfold slot_of. simpl.
  destruct (files L !! _); simpl; rewrite Hr, lookup_delete_eq, Hc; constructor.
Qed.

Lemma release_slot a now id n L :
  ledger_inv L -> slot_step a (slot_of L id) (slot_of (fst (release_reservation now id n L)) id).
Proof.
  intros HI. unfold release_reservation, remove_file.
  destruct (reservation_map L !! id) as [r|] eqn:Hr; [|constructor].
  pose proof (inv_disjoint L HI id r Hr) as Hc. unfold slot_of.
  destruct (bool_decide_reflect (n = file_space r)) as [->|Hn].
  - destruct (files L !! _); simpl; rewrite Hr; [|constructor].
    rewrite lookup_delete_eq, lookup_insert_eq. constructor.
  - destruct (res_durable r); simpl; [rewrite Hr, lookup_insert_eq; constructor|].
    destruct (files L !! _); simpl; rewrite Hr, lookup_delete_eq, Hc; constructor.
Qed.

Lemma delete_slot a id L k :
  ledger_inv L ->
  (slot_of (fst (delete_chunk id L)) k = slot_of L k \/ slot_of (fst (delete_chunk id L)) k = None)
  /\ slot_step a (slot_of L k) (slot_of (fst (delete_chunk id L)) k).
Proof.
  intros HI. destruct (decide (k = id)) as [->|Hne].
  2: { rewrite (slot_same_but id L _ k (delete_same_but id L) Hne). split; [by left|constructor]. }
  unfold delete_chunk, remove_file, slot_of. simpl.
  destruct (files L !! _); simpl; [|split; [by left|constructor]].
  destruct (chunk_set L !! id) as [c|] eqn:Hc; simpl.
  - destruct (reservation_map L !! id) as [r|] eqn:Hr.
    { pose proof (inv_disjoint L HI id r Hr). congruence. }
    rewrite lookup_delete_eq. split; [by right|constructor].
  - destruct (reservation_map L !! id) as [r|] eqn:Hr; simpl.
    + rewrite lookup_delete_eq, Hc. split; [by right|constructor].
    + rewrite Hr, Hc. split; [by left|constructor].
Qed.

(** A slot that only ever stays or empties takes one abstract step in total. *)
Lemma slot_step_shrink a s s' : s' = s \/ s' = None -> slot_step a s s'.
Proof. intros [->| ->]; [constructor|]. destruct s as [[]|]; constructor. Qed.

Lemma delete_all_slot ids L k :
  ledger_inv L ->
  slot_of (fst (delete_all ids L)) k = slot_of L k \/ slot_of (fst (delete_all ids L)) k = None.
Proof.
  revert L. induction ids as [|id ids IH]; intros L HI; simpl; [by left|].
  pose proof (delete_chunk_inv id L HI) as HI'. destruct (delete_slot 0 id L k HI) as [Hd _].
  destruct (delete_chunk id L) as [L' [u|e]]; simpl in *; [|done].
  destruct (IH L' HI') as [->|?]; [done|by right].
Qed.

(** Under the guard of the sweep: exactly the stale reservations go. *)
Lemma clean_broken_spec now L :
  ledger_inv L -> op_guard (OpCleanBroken now) L ->
  exists L', clean_broken_chunks now L = Some (L', Ok tt) /\ ledger_inv L'
    /\ reservation_map L'
       = filter (fun e => stale now (last_update e.2) = false) (reservation_map L)
    /\ chunk_set L' = chunk_set L.
Proof.
  intros HI Hg.
  destruct (sweep_all_broken_spec (broken_ids now L) L HI (broken_ids_NoDup now L))
    as (L' & E & HI' & Hin & Hout & Hc).
  { intros id Hid. split; [|by apply Hg]. apply broken_ids_spec in Hid as (r & Hr & _).
    by exists r. }
  exists L'. split_ands; [done|done| |done]. apply map_eq. intros id.
  destruct (decide (id ∈ broken_ids now L)) as [Hid|Hid].
  - rewrite Hin by done. symmetry. apply map_lookup_filter_None. right.
    apply broken_ids_spec in Hid as (r & Hr & Hst). intros r' Hr'. simpl.
    rewrite Hr in Hr'. simplify_eq. by rewrite Hst.
  - rewrite Hout by done. destruct (reservation_map L !! id) as [r|] eqn:Hr; symmetry.
    + apply map_lookup_filter_Some. split; [done|]. simpl.
      destruct (stale now (last_update r)) eqn:Hst; [|done].
      exfalso. apply Hid, broken_ids_spec. eauto.
    + apply map_lookup_filter_None. by left.
Qed.

Lemma clean_broken_slot now L L' r k :
  ledger_inv L -> op_guard (OpCleanBroken now) L -> clean_broken_chunks now L = Some (L', r) ->
  slot_of L' k = slot_of L k \/ slot_of L' k = None.
Proof.
  intros HI Hg E. destruct (clean_broken_spec now L HI Hg) as (L1 & E1 & _ & Hr & Hc).
  rewrite E in E1. simplify_eq. unfold slot_of. rewrite Hr, Hc, map_lookup_filter.
  destruct (reservation_map L !! k) as [res|] eqn:Hk; simpl; [|by left].
  case_guard; simpl; [by left|]. right. by rewrite (inv_disjoint L HI k res Hk).
Qed.

(** ** Every operation *)
Lemma exec_inv op L L' :
  ledger_inv L -> op_guard op L -> exec op L = Some L' -> ledger_inv L'.
Proof.
  intros HI Hg. destruct op; simpl in Hg |- *; intros E; simplify_eq.
  - by destruct HI.
  - by destruct HI.
  - by destruct HI.
  - by apply try_reserve_inv; try apply Hg.
  - by apply cancel_inv.
  - by apply refresh_inv.
  - by apply release_inv.
  - by apply commit_chunk_inv.
  - by apply commit_alive_inv.
  - by apply delete_chunk_inv.
  - by apply write_file_inv.
  - by apply fragment_append_stream_inv.
  - by apply write_file_inv.
  - destruct (clean_broken_spec now L HI Hg) as (L1 & E1 & HI1 & _). rewrite E1 in E.
    by simplify_eq/=.
  - by apply delete_all_inv.
Qed.

Lemma commit_slot id L k : slot_of (fst (commit_chunk id L)) k = slot_of L k.
Proof.
  unfold commit_chunk. destruct (uncommited_map L !! id); [|done].
  by destruct (files L !! _).
Qed.

Lemma alive_slot now id L k : slot_of (fst (commit_alive now id L)) k = slot_of L k.
Proof.
  unfold commit_alive. pose proof (refresh_slot now id L k) as Hs.
  destruct (refresh_reservation now id L) as [L1 r]. simpl in Hs.
  by destruct (uncommited_map L1 !! id).
Qed.

Lemma step_at a id L L' k :
  same_but id L L' -> slot_step a (slot_of L id) (slot_of L' id) ->
  slot_step a (slot_of L k) (slot_of L' k).
Proof.
  intros Hs Hid. destruct (decide (k = id)) as [->|Hne]; [done|].
  rewrite (slot_same_but id L L' k Hs Hne). constructor.
Qed.

Lemma exec_slot op L L' k :
  ledger_inv L -> op_guard op L -> exec op L = Some L' ->
  slot_step (get_available_space L) (slot_of L k) (slot_of L' k).
Proof.
  intros HI Hg. destruct op; simpl in Hg |- *; intros E; simplify_eq; try constructor.
  - eapply step_at; [apply try_reserve_same_but|by apply try_reserve_slot; apply Hg].
  - eapply step_at; [apply cancel_same_but|by apply cancel_slot].
  - rewrite refresh_slot. constructor.
  - eapply step_at; [apply release_same_but|by apply release_slot].
  - rewrite commit_slot. constructor.
  - rewrite alive_slot. constructor.
  - by apply delete_slot.
  - unfold fragment_append_stream. destruct (files L !! _); constructor.
  - destruct (clean_broken_chunks now L) as [[L1 r]|] eqn:E1; simplify_eq/=.
    apply slot_step_shrink. by eapply clean_broken_slot.
  - apply slot_step_shrink. by apply delete_all_slot.
Qed.

(** ** Main theorems *)
Lemma new_inv max_space (store : M) dir : ledger_inv (FragmentLedger_new max_space store dir).
Proof. split; simpl; rewrite ?map_sum_empty; try done. Qed.

Lemma boot_scan_result max_space (store : M) dir :
  (forall id e, meta_get id store = Err e -> e = IoNotFound) ->
  exists L missing, scan_fragments (FragmentLedger_new max_space store dir) = Some (L, missing)
    /\ scan_result store dir (FragmentLedger_new max_space store dir) ∅ L missing.
Proof.
  intros Hget. unfold scan_fragments.
  destruct (scan_entries_spec (map_to_list dir) (FragmentLedger_new max_space store dir) ∅ store)
    as (L & missing & E & R); [done|apply new_inv|done|done|apply NoDup_fst_map_to_list| |done|].
  - intros p f Hin. by apply elem_of_map_to_list.
  - rewrite list_to_map_to_list in R. by exists L, missing.
Qed.

(** The boot scan.  Scanning a data directory into a new ledger succeeds, removes
    exactly the uncommited files, records exactly the committed ones with their sizes,
    reports exactly the stored fragments without extended metadata, and leaves the
    counters equal to the totals. *)
Theorem boot_scan max_space (store : M) dir :
  (forall id e, meta_get id store = Err e -> e = IoNotFound) ->
  exists L missing, scan_fragments (FragmentLedger_new max_space store dir) = Some (L, missing)
    /\ ledger_inv L
    /\ (forall id, chunk_set L !! id
          = (fun f => mkFragmentMeta (file_len f) (size_on_disk f)) <$> dir !! (id, false))
    /\ (forall id, files L !! (id, true) = None)
    /\ (forall id, files L !! (id, false) = dir !! (id, false))
    /\ (forall id, id ∈ missing
          <-> is_Some (chunk_set L !! id) /\ meta_get id store = Err IoNotFound).
Proof.
  intros Hget. destruct (boot_scan_result max_space store dir Hget) as (L & missing & E & R).
  destruct R as [_ HI _ Hc Hf Hm]. exists L, missing. split_ands; [done|done|done| | |].
  - intros id. rewrite Hf. simpl. by destruct (dir !! (id, true)).
  - intros id. by rewrite Hf.
  - intros id. rewrite Hm, Hc. simpl. rewrite lookup_empty.
    destruct (dir !! (id, false)); split.
    + intros [?%elem_of_empty|[_ ?]]; [done|]. by split; [eexists|].
    + intros [_ ?]. right. by split; [eexists|].
    + by intros [?%elem_of_empty|[[? [=]] _]].
    + by intros [[? [=]] _].
Qed.



Lemma available_exact L :
  ledger_inv L -> exact_totals L ->
  get_available_space L
  = Z.max 0 (max_physical_size L - (physical_total L + reserved_total L)).
Proof.
  intros HI (Hp & Hr & Hs). unfold get_available_space, saturating_sub.
  rewrite (inv_reserved L HI), (inv_physical L HI).
  fold (physical_total L). fold (reserved_total L).
  rewrite !wrap_small by (unfold in_width; lia).
  rewrite u64_add_small by (unfold in_width; lia). done.
Qed.

(** Reservations never promise space the node does not have.  While the totals fit in
    64 bits, a reservation succeeds exactly when the size fits in what the configured
    maximum leaves beside stored and reserved space.  It then raises the reserved total by
    the size, keeps stored plus reserved space within the maximum, lowers the available
    space by the size, and makes the bucket and file of the fragment readable from the
    metadata store; otherwise nothing changes. *)
Theorem try_reserve_spec `{!MetaStoreLaws M} now id n b f d L :
  ledger_inv L -> exact_totals L -> reservation_map L !! id = None ->
  in_width 128 id -> in_width 64 n -> in_width 64 (max_physical_size L) ->
  paused L = false -> is_Some (ext_metadata_store L) ->
  let available := Z.max 0 (max_physical_size L - (physical_total L + reserved_total L)) in
  (available < n -> try_reserve now id n b f d L = (L, Err InsufficientDiskSpace))
  /\ (n <= available -> exists L', try_reserve now id n b f d L = (L', Ok id)
      /\ reserved_total L' = reserved_total L + n /\ physical_total L' = physical_total L
      /\ (0 < n -> physical_total L' + reserved_total L' <= max_physical_size L')
      /\ get_available_space L' = available - n
      /\ extended_fragment_meta id L'
         = Some (mkExtFragmentMeta (to_u128_le b) (to_u128_le f))).
Proof.
  intros HI Hex Hr Hid Hn Hmax Hp [s Hs] available.
  pose proof (available_exact L HI Hex) as Hav. fold available in Hav.
  unfold try_reserve. rewrite Hp, Hav.
  split; [intros Hlt; by rewrite decide_True by done|].
  intros Hle. rewrite decide_False by lia. rewrite Hs.
  set (meta := mkExtFragmentMeta _ _).
  assert (Hmeta : wf_meta meta) by (split; apply to_u128_le_range).
  pose proof (meta_insert_ok id meta s Hid) as Hok.
  pose proof (meta_get_insert_eq id meta s Hid Hmeta) as Hget.
  destruct (meta_insert id meta s) as [s' r]. simpl in Hok, Hget. subst r.
  eexists. split; [done|].
  destruct Hex as (H0p & H0r & Hsum). unfold in_width in *.
  assert (Hres : map_sum file_space (<[id := mkReservation n 0 d now]> (reservation_map L))
    = reserved_total L + n) by (rewrite map_sum_insert by done; simpl; unfold reserved_total; lia).
  unfold reserved_total at 1 3, physical_total at 1 3. simpl. rewrite Hres.
  change (map_sum meta_physical_size (chunk_set L)) with (physical_total L).
  unfold available in *. split_ands; [done|done|lia| |].
  - unfold get_available_space, saturating_sub. simpl.
    rewrite (inv_reserved L HI), u64_add_wrap, (inv_physical L HI).
    fold (reserved_total L) (physical_total L).
    rewrite !wrap_small by (unfold in_width; lia). rewrite u64_add_small by (unfold in_width; lia).
    lia.
  - unfold extended_fragment_meta. simpl. by rewrite Hget.
Qed.

(** Releasing a reservation, branch by branch.  Without a reservation it fails and
    changes nothing.  Released with the full size and a file on disk, the reserved space
    turns into stored space of that size; without a file it fails and changes nothing.
    Released short, a durable reservation is kept with its progress and a new deadline,
    and any other is dropped with its file, giving the reserved space back. *)
Theorem release_reservation_branches now id n L :
  ledger_inv L ->
  match reservation_map L !! id, files L !! expected_path id L with
  | None, _ => release_reservation now id n L = (L, Err IoNotFound)
  | Some r, file =>
      if decide (n = file_space r) then
        match file with
        | None => release_reservation now id n L = (L, Err IoInternal)
        | Some f => exists L', release_reservation now id n L = (L', Ok tt)
            /\ slot_of L' id = Some (SStored n (size_on_disk f))
            /\ reserved_total L' = reserved_total L - n
            /\ physical_total L' = physical_total L + size_on_disk f
            /\ files L' = files L
        end
      else if res_durable r then
        release_reservation now id n L
        = (set_reservation_map (<[id := mkReservation (file_space r) n true now]>) L, Ok tt)
      else exists L', release_reservation now id n L
              = (L', if file is Some _ then Ok tt else Err IoInternal)
          /\ slot_of L' id = None /\ files L' !! expected_path id L = None
          /\ reserved_total L' = reserved_total L - file_space r
          /\ physical_total L' = physical_total L
          /\ extended_fragment_meta id L' = extended_fragment_meta id L
  end.
Proof.
  intros HI. unfold release_reservation, remove_file.
  destruct (reservation_map L !! id) as [r|] eqn:Hr; [|done].
  pose proof (inv_disjoint L HI id r Hr) as Hc. fold (expected_path id L).
  destruct (bool_decide_reflect (n = file_space r)) as [->|Hn].
  - rewrite decide_True by done. destruct (files L !! expected_path id L) as [f|]; [|done].
    eexists. split; [done|]. unfold slot_of, reserved_total, physical_total. simpl.
    rewrite lookup_delete_eq, lookup_insert_eq, (map_sum_delete _ _ id r) by done.
    rewrite map_sum_insert by done. simpl. split_ands; try done; lia.
  - rewrite decide_False by done. destruct (res_durable r); [done|]. simpl.
    destruct (files L !! expected_path id L) as [f|] eqn:Hf; eexists; (split; [done|]);
      unfold slot_of, reserved_total, physical_total; simpl;
      rewrite lookup_delete_eq, Hc, (map_sum_delete _ _ id r) by done;
      rewrite ?lookup_delete_eq; done.
Qed.

(** The broken sweep.  When the stale reservations have their files, sweeping succeeds,
    drops exactly the reservations not refreshed within the session validity, touches no
    stored fragment and returns exactly their space to the counter. *)
Theorem clean_broken_reclaims now L :
  ledger_inv L -> op_guard (OpCleanBroken now) L ->
  exists L', clean_broken_chunks now L = Some (L', Ok tt)
    /\ reservation_map L'
       = filter (fun e => stale now (last_update e.2) = false) (reservation_map L)
    /\ chunk_set L' = chunk_set L
    /\ disk_reserved_size L' = wrap 64 (reserved_total L').
Proof.
  intros HI Hg. destruct (clean_broken_spec now L HI Hg) as (L' & E & HI' & Hr & Hc).
  exists L'. split_ands; try done. apply (inv_reserved L' HI').
Qed.

(** A reservation that was never written to leaks its space.  When the first stale
    reservation of a sweep has no file, the sweep forgets the reservation, fails before it
    gives the space back, and leaves the other stale reservations for later: the counter
    stays above the total of the remaining reservations by the forgotten amount. *)
Theorem clean_broken_leaks now id rest r L :
  ledger_inv L -> exact_totals L -> broken_ids now L = id :: rest ->
  reservation_map L !! id = Some r -> 0 < file_space r ->
  files L !! expected_path id L = None ->
  exists L', clean_broken_chunks now L = Some (L', Err IoInternal)
    /\ reservation_map L' = delete id (reservation_map L)
    /\ disk_reserved_size L' = reserved_total L' + file_space r.
Proof.
  intros HI (Hp & Hr0 & Hs) Hb Hr Hpos Hf. unfold clean_broken_chunks. rewrite Hb. simpl.
  unfold sweep_broken, remove_file. simpl. rewrite Hr. cbn [mbind option_bind].
  unfold expected_path in Hf. rewrite Hf. eexists. split; [done|]. split; [done|].
  simpl. rewrite (inv_reserved L HI). unfold reserved_total. simpl.
  rewrite (map_sum_delete _ _ id r) by done.
  rewrite wrap_small by (unfold in_width, reserved_total in *; lia). lia.
Qed.

(** Cancelling undoes reserving, and reports an error.  Cancelling a reservation before
    any data was written restores maps, counter and files and removes the metadata, but
    the answer is an internal error since there is no file to remove. *)
Theorem reserve_cancel_roundtrip `{!MetaStoreLaws M} now id n b f d L L1 :
  ledger_inv L -> in_width 128 id -> reservation_map L !! id = None ->
  uncommited_map L !! id = None -> files L !! (id, true) = None ->
  in_width 64 (disk_reserved_size L) ->
  try_reserve now id n b f d L = (L1, Ok id) ->
  exists L2, cancel_reservation id L1 = (L2, Err IoInternal)
    /\ chunk_set L2 = chunk_set L /\ reservation_map L2 = reservation_map L
    /\ uncommited_map L2 = uncommited_map L /\ files L2 = files L
    /\ disk_reserved_size L2 = disk_reserved_size L
    /\ disk_physical_size L2 = disk_physical_size L
    /\ extended_fragment_meta id L2 = None.
Proof.
  intros HI Hid Hr Hu Hf Hw. unfold try_reserve. destruct (paused L); [done|].
  case_decide; [done|]. destruct (ext_metadata_store L) as [s|] eqn:Hs; [|done].
  destruct (meta_insert _ _ s) as [s' [u|e]]; [|done]. intros [= <-].
  unfold cancel_reservation, remove_file. simpl. rewrite !lookup_insert_eq. simpl.
  unfold get_path. rewrite Hf. eexists. split; [done|]. simpl.
  rewrite !delete_insert_id by done. rewrite u64_sub_add by done.
  split_ands; try done. unfold extended_fragment_meta. simpl.
  by rewrite meta_get_remove_eq.
Qed.

(** Recovery of lost metadata keeps one fragment per file.  When two stored fragments of
    one file have lost their metadata, the recovery scan restores the metadata of the first
    and deletes the second, entry and file, although the database knows both. *)
Theorem recovery_deletes_second_fragment file bucket c1 c2 m1 m2 L :
  ledger_inv L -> c1 <> c2 ->
  chunk_set L !! c1 = Some m1 -> chunk_set L !! c2 = Some m2 ->
  exists L', scan_missing_fragment_metadata [(file, bucket, [c1; c2])] {[c1; c2]} L = (L', Ok tt)
    /\ chunk_set L' !! c1 = Some m1
    /\ chunk_set L' !! c2 = None /\ files L' !! expected_path c2 L = None.
Proof.
  intros HI Hne H1 H2. unfold scan_missing_fragment_metadata. simpl.
  rewrite bool_decide_true by set_solver.
  replace (({[c1; c2]} : gset Uuid) ∖ {[c1]}) with ({[c2]} : gset Uuid) by set_solver.
  rewrite elements_singleton. simpl. unfold delete_chunk, remove_file. simpl.
  destruct (inv_file L HI c2 m2 H2) as [f Hf]. rewrite Hf. simpl. rewrite H2. simpl.
  eexists. split; [done|]. simpl. unfold expected_path.
  by rewrite !lookup_delete_eq, lookup_delete_ne by done.
Qed.
End correct.

(** ** Witnesses *)
Definition sample_dir : gmap (Uuid * bool) FragFile :=
  {[ (1, false) := mkFragFile [10; 20; 30] 4096; (2, true) := mkFragFile [5] 4096;
     (3, false) := mkFragFile [7; 7] 4096 ]}.

Definition sample_ledger : Ledger (gmap Uuid ExtFragmentMeta) :=
  FragmentLedger_new 100000 ∅ sample_dir.

Definition booted : Ledger (gmap Uuid ExtFragmentMeta) :=
  default sample_ledger (fst <$> scan_fragments sample_ledger).

Definition reserved9 : Ledger (gmap Uuid ExtFragmentMeta) :=
  fst (try_reserve 0 9 500 77 88 true booted).

Lemma map_get_not_found (id : Uuid) e :
  meta_get id (∅ : gmap Uuid ExtFragmentMeta) = Err e -> e = IoNotFound.
Proof. simpl. rewrite lookup_empty. simpl. congruence. Qed.

Lemma booted_inv : ledger_inv booted.
Proof.
  destruct (boot_scan_result 100000 ∅ sample_dir map_get_not_found) as (L & m & E & R).
  unfold booted, sample_ledger. rewrite E. simpl. apply (sr_inv _ _ _ _ _ _ R).
Qed.

Lemma reserved9_inv : ledger_inv reserved9.
Proof. apply try_reserve_inv; [reflexivity|reflexivity|apply booted_inv]. Qed.

Lemma boot_scan_witness :
  exists L missing, scan_fragments sample_ledger = Some (L, missing)
    /\ chunk_set L !! 1 = Some (mkFragmentMeta 3 4096) /\ files L !! (2, true) = None.
Proof.
  destruct (boot_scan 100000 ∅ sample_dir map_get_not_found)
    as (L & missing & E & _ & Hc & Hf & _).
  exists L, missing. split; [exact E|]. split; [rewrite Hc; reflexivity|apply Hf].
Defined.



Lemma try_reserve_spec_witness :
  exists L', try_reserve 0 9 500 77 88 true booted = (L', Ok 9)
    /\ reserved_total L' = 500 /\ get_available_space L' = 100000 - 8192 - 500.
Proof.
  destruct (try_reserve_spec 0 9 500 77 88 true booted) as [_ Hok];
    [apply booted_inv|split_ands; done|reflexivity|split; done|split; done|split; done
    |reflexivity|by eexists|].
  destruct Hok as (L' & E & Hr & _ & _ & Ha & _); [by vm_compute|].
  exists L'. split; [exact E|]. rewrite Hr, Ha. split; reflexivity.
Defined.

Lemma release_reservation_branches_witness :
  release_reservation 5 9 200 reserved9
  = (set_reservation_map (<[9 := mkReservation 500 200 true 5]>) reserved9, Ok tt).
Proof. exact (release_reservation_branches 5 9 200 reserved9 reserved9_inv). Defined.

Definition written9 : Ledger (gmap Uuid ExtFragmentMeta) := fragment_write_stream 9 reserved9.

Lemma clean_broken_reclaims_witness :
  exists L', clean_broken_chunks (3601 * SECOND) written9 = Some (L', Ok tt)
    /\ disk_reserved_size L' = wrap 64 (reserved_total L').
Proof.
  destruct (clean_broken_reclaims (3601 * SECOND) written9) as (L' & E & _ & _ & Hr);
    [apply write_file_inv, reserved9_inv| |].
  - intros id. change (broken_ids (3601 * SECOND) written9) with [9].
    intros ->%list_elem_of_singleton. by eexists.
  - exists L'. split; [exact E|exact Hr].
Defined.

Lemma clean_broken_leaks_witness :
  exists L', clean_broken_chunks (3601 * SECOND) reserved9 = Some (L', Err IoInternal)
    /\ disk_reserved_size L' = reserved_total L' + 500.
Proof.
  destruct (clean_broken_leaks (3601 * SECOND) 9 [] (mkReservation 500 0 true 0) reserved9)
    as (L' & E & _ & Hr); [apply reserved9_inv|split_ands; by vm_compute|reflexivity..|].
  exists L'. split; [exact E|exact Hr].
Defined.

Lemma reserve_cancel_roundtrip_witness :
  exists L2, cancel_reservation 9 reserved9 = (L2, Err IoInternal)
    /\ disk_reserved_size L2 = 0.
Proof.
  destruct (reserve_cancel_roundtrip 0 9 500 77 88 true booted reserved9)
    as (L2 & E & _ & _ & _ & _ & Hr & _);
    [apply booted_inv|split; done|reflexivity|reflexivity|reflexivity|split; done|reflexivity|].
  exists L2. split; [exact E|exact Hr].
Defined.

Lemma recovery_deletes_second_fragment_witness :
  exists L', scan_missing_fragment_metadata [(40, 50, [1; 3])] {[1; 3]} booted = (L', Ok tt)
    /\ chunk_set L' !! 3 = None.
Proof.
  destruct (recovery_deletes_second_fragment 40 50 1 3 (mkFragmentMeta 3 4096)
    (mkFragmentMeta 2 4096) booted) as (L' & E & _ & H3 & _);
    [apply booted_inv|done|reflexivity|reflexivity|].
  exists L'. split; [exact E|exact H3].
Defined.
