(* ===== verification/LedgerLocks.v ===== *)
(** * Lock order of the fragment ledger

    The operations of [node/src/io/fragment_ledger.rs] run concurrently and take the
    [RwLock]s around the ledger's maps one after the other.  Here each operation is the
    sequence of its acquisitions and releases, a guard being released where its binding,
    or the statement of its temporary, ends.  A pool of such tasks steps by letting one
    task perform its next instruction; an acquisition waits for conflicting guards of
    other tasks. *)
From Stdlib Require Import ZArith Lia List.
From stdpp Require Import base numbers list relations.
From S2P Require Import Prelude.

Inductive Lock : Type := ReservationMap | UncommitedMap | ExtStore | ChunkSet.
Inductive Mode : Type := Shared | Exclusive.
Inductive Instr : Type :=
| Acquire (l : Lock) (m : Mode)
| Release (l : Lock).

#[global] Instance Lock_eq_dec : EqDecision Lock.
Proof. solve_decision. Defined.
#[global] Instance Mode_eq_dec : EqDecision Mode.
Proof. solve_decision. Defined.

(** ** The operations *)
Definition locks_try_reserve : list Instr :=
  [Acquire ReservationMap Exclusive; Acquire ExtStore Shared; Release ExtStore;
   Acquire UncommitedMap Exclusive; Release UncommitedMap; Release ReservationMap].

Definition locks_cancel_reservation : list Instr :=
  [Acquire ReservationMap Exclusive; Acquire UncommitedMap Exclusive;
   Acquire ExtStore Shared; Release ExtStore; Release UncommitedMap; Release ReservationMap].

Definition locks_refresh_reservation : list Instr :=
  [Acquire ReservationMap Exclusive; Release ReservationMap].

(** The completed branch drops the reservations before it takes the chunk set. *)
Definition locks_release_complete : list Instr :=
  [Acquire ReservationMap Exclusive; Acquire UncommitedMap Exclusive; Release ReservationMap;
   Acquire ChunkSet Exclusive; Release ChunkSet; Release UncommitedMap].

Definition locks_release_partial : list Instr :=
  [Acquire ReservationMap Exclusive; Acquire UncommitedMap Exclusive;
   Release UncommitedMap; Release ReservationMap].

Definition locks_commit_chunk : list Instr :=
  [Acquire UncommitedMap Exclusive; Release UncommitedMap].

Definition locks_commit_alive : list Instr :=
  locks_refresh_reservation ++ [Acquire UncommitedMap Exclusive; Release UncommitedMap].

Definition locks_clean_broken : list Instr :=
  [Acquire ReservationMap Exclusive; Acquire UncommitedMap Exclusive;
   Acquire ExtStore Shared; Release ExtStore; Release UncommitedMap; Release ReservationMap].

Definition locks_scan_fragments : list Instr :=
  [Acquire ChunkSet Exclusive; Acquire ExtStore Shared; Release ExtStore; Release ChunkSet].

Definition locks_fragment_exists : list Instr := [Acquire ChunkSet Shared; Release ChunkSet].

Definition locks_existing_or_reserved : list Instr :=
  [Acquire ReservationMap Shared; Release ReservationMap] ++ locks_fragment_exists.

Definition locks_stat_chunk : list Instr :=
  [Acquire UncommitedMap Shared; Release UncommitedMap].

(** [delete_chunk] of a stored fragment. *)
Definition locks_delete_stored : list Instr :=
  [Acquire UncommitedMap Exclusive; Acquire ExtStore Shared; Release ExtStore;
   Acquire ChunkSet Exclusive; Release ChunkSet; Release UncommitedMap].

(** [delete_chunk] of a fragment that is not stored: the guards of the first [if let] last
    through its [else]. *)
Definition locks_delete_reserved : list Instr :=
  [Acquire UncommitedMap Exclusive; Acquire ExtStore Shared; Release ExtStore;
   Acquire ChunkSet Exclusive; Acquire ReservationMap Exclusive;
   Release ReservationMap; Release ChunkSet; Release UncommitedMap].

(** [get_storage_info]: the guards are temporaries of one expression. *)
Definition locks_get_storage_info : list Instr :=
  [Acquire ReservationMap Shared; Acquire ChunkSet Shared; Acquire UncommitedMap Shared;
   Release UncommitedMap; Release ChunkSet; Release ReservationMap].

(** ** Execution *)
Record Task : Type := mkTask { held : list (Lock * Mode); todo : list Instr }.

Definition start (p : list Instr) : Task := mkTask [] p.

Definition conflict (m m' : Mode) : bool :=
  match m, m' with Shared, Shared => false | _, _ => true end.

(** Whether no task of the list holds a guard that excludes the acquisition. *)
Definition free (l : Lock) (m : Mode) (ts : list Task) : bool :=
  forallb (fun t => forallb (fun h => negb (bool_decide (h.1 = l) && conflict m h.2)) (held t)) ts.

Definition drop_lock (l : Lock) (hs : list (Lock * Mode)) : list (Lock * Mode) :=
  filter (fun h => h.1 <> l) hs.

Definition task_step (others : list Task) (t : Task) : option Task :=
  match todo t with
  | [] => None
  | Acquire l m :: p =>
      if free l m (t :: others) then Some (mkTask ((l, m) :: held t) p) else None
  | Release l :: p => Some (mkTask (drop_lock l (held t)) p)
  end.

(** Task [i] of the pool performs its next instruction. *)
Definition pool_step_at (i : nat) (ts : list Task) : option (list Task) :=
  t ← ts !! i;
  t' ← task_step (delete i ts) t;
  Some (<[i := t']> ts).

Definition pool_step (ts ts' : list Task) : Prop := exists i, pool_step_at i ts = Some ts'.

Definition all_done (ts : list Task) : Prop := Forall (fun t => todo t = []) ts.

Definition deadlocked (ts : list Task) : Prop :=
  ~ all_done ts /\ forall ts', ~ pool_step ts ts'.

(** Runs the tasks in the order of a schedule. *)
Fixpoint run (sched : list nat) (ts : list Task) : option (list Task) :=
  match sched with
  | [] => Some ts
  | i :: sched => ts' ← pool_step_at i ts; run sched ts'
  end.

(** ** The order *)
Definition rank (l : Lock) : nat :=
  match l with ReservationMap => 0 | UncommitedMap => 1 | ChunkSet => 2 | ExtStore => 3 end.

(** Each acquisition ranks above every guard held, releases are of guards held, and
    nothing is held at the end. *)
Fixpoint ordered (hs : list (Lock * Mode)) (p : list Instr) : bool :=
  match p with
  | [] => bool_decide (hs = [])
  | Acquire l m :: p =>
      forallb (fun h => Nat.ltb (rank h.1) (rank l)) hs && ordered ((l, m) :: hs) p
  | Release l :: p => existsb (fun h => bool_decide (h.1 = l)) hs && ordered (drop_lock l hs) p
  end.

(** The operations that respect the order.  [try_reserve] takes the uncommited map after
    the metadata store, but holds no guard of the store then. *)
Definition ordered_operations : list (list Instr) :=
  [locks_try_reserve; locks_cancel_reservation; locks_refresh_reservation;
   locks_release_complete; locks_release_partial; locks_commit_chunk; locks_commit_alive;
   locks_clean_broken; locks_scan_fragments; locks_fragment_exists;
   locks_existing_or_reserved; locks_stat_chunk; locks_delete_stored].

(** ** Lemmas *)
Lemma free_true l m ts :
  free l m ts = true
  <-> Forall (fun t => Forall (fun h => ~ (h.1 = l /\ conflict m h.2 = true)) (held t)) ts.
Proof.
  unfold free. rewrite forallb_forall, Forall_forall. setoid_rewrite <- list_elem_of_In.
  apply forall_proper. intros t. split; intros Hall Ht; specialize (Hall Ht).
  - rewrite forallb_forall in Hall. apply Forall_forall. intros h Hh [Hl Hc].
    apply list_elem_of_In in Hh. specialize (Hall h Hh). rewrite Hl, Hc, bool_decide_true in Hall; done.
  - apply forallb_forall. intros h Hh%list_elem_of_In.
    rewrite Forall_forall in Hall. specialize (Hall h Hh).
    destruct (bool_decide_reflect (h.1 = l)), (conflict m h.2) eqn:?; simpl; try done.
    exfalso. by apply Hall.
Qed.

(** A refused acquisition has a task that holds the lock. *)
Lemma free_false l m ts :
  free l m ts = false -> exists t m', t ∈ ts /\ (l, m') ∈ held t.
Proof.
  intros Hf. destruct (decide (Exists (fun t => Exists (fun h => h.1 = l) (held t)) ts)) as [Hex|Hno].
  - apply Exists_exists in Hex as (t & Ht & [[l' m'] [Hh Hl]]%Exists_exists).
    simpl in Hl. subst. eauto.
  - assert (free l m ts = true); [|congruence].
    apply free_true. apply not_Exists_Forall in Hno; [|apply _].
    eapply Forall_impl; [exact Hno|]. intros t Ht%not_Exists_Forall; [|apply _].
    eapply Forall_impl; [exact Ht|]. simpl. naive_solver.
Qed.

Lemma ordered_acquire hs l m p h :
  ordered hs (Acquire l m :: p) = true -> h ∈ hs -> (rank h.1 < rank l)%nat.
Proof.
  simpl. intros [Hr _]%andb_true_iff Hh. rewrite forallb_forall in Hr.
  apply Nat.ltb_lt, Hr. by apply list_elem_of_In.
Qed.

Lemma task_step_ordered others t t' :
  ordered (held t) (todo t) = true -> task_step others t = Some t' ->
  ordered (held t') (todo t') = true.
Proof.
  unfold task_step. destruct (todo t) as [|[l m|l] p]; [done| |].
  - intros [_ Ho]%andb_true_iff. destruct (free _ _ _); [|done]. by intros [= <-].
  - intros [_ Ho]%andb_true_iff. by intros [= <-].
Qed.

Lemma pool_step_ordered ts ts' :
  Forall (fun t => ordered (held t) (todo t) = true) ts -> pool_step ts ts' ->
  Forall (fun t => ordered (held t) (todo t) = true) ts'.
Proof.
  intros Ho [i Hi]. unfold pool_step_at in Hi.
  destruct (ts !! i) as [t|] eqn:Ht; [|done]. simpl in Hi.
  destruct (task_step (delete i ts) t) as [t'|] eqn:Et; [|done]. simplify_eq/=.
  apply Forall_insert; [done|]. eapply task_step_ordered; [|exact Et].
  by eapply (Forall_lookup_1 _ ts i t) in Ho.
Qed.

Lemma pool_can_step ts i t t' :
  ts !! i = Some t -> task_step (delete i ts) t = Some t' -> exists ts', pool_step ts ts'.
Proof. intros Ht Et. exists (<[i := t']> ts), i. unfold pool_step_at. by rewrite Ht; simpl; rewrite Et. Qed.

(** From a waiting task, follow who holds the lock it waits for: the ranks rise, so the
    chain ends in a task that can go on. *)
Lemma waiting_task_progress ts n i t l m p :
  Forall (fun t => ordered (held t) (todo t) = true) ts ->
  ts !! i = Some t -> todo t = Acquire l m :: p -> (4 - rank l <= n)%nat ->
  exists ts', pool_step ts ts'.
Proof.
  intros Ho. revert i t l m p. induction n as [|n IH]; intros i t l m p Ht Hp Hn.
  { exfalso. destruct l; simpl in Hn; lia. }
  destruct (free l m (t :: delete i ts)) eqn:Hfree.
  { eapply (pool_can_step ts i t); [done|]. unfold task_step. by rewrite Hp, Hfree. }
  destruct (free_false l m _ Hfree) as (t' & m' & Hin & Hh).
  apply elem_of_cons in Hin as [->|Hin].
  { pose proof (Forall_lookup_1 _ ts i t Ho Ht) as Hot. simpl in Hot. rewrite Hp in Hot.
    pose proof (ordered_acquire _ _ _ _ _ Hot Hh). simpl in *. lia. }
  assert (exists j, ts !! j = Some t') as [j Hj].
  { apply list_elem_of_lookup. eapply elem_of_submseteq; [exact Hin|].
    apply sublist_submseteq, sublist_delete. }
  pose proof (Forall_lookup_1 _ ts j t' Ho Hj) as Hot. simpl in Hot.
  destruct (todo t') as [|[l' m''|l'] p'] eqn:Hp'.
  - simpl in Hot. apply bool_decide_eq_true in Hot. rewrite Hot in Hh.
    by apply elem_of_nil in Hh.
  - pose proof (ordered_acquire _ _ _ _ _ Hot Hh) as Hlt. simpl in Hlt.
    eapply (IH j t' l' m'' p'); [done|done|lia].
  - eapply (pool_can_step ts j t'); [done|]. unfold task_step. by rewrite Hp'.
Qed.

Lemma ordered_pool_progress ts :
  Forall (fun t => ordered (held t) (todo t) = true) ts -> ~ all_done ts ->
  exists ts', pool_step ts ts'.
Proof.
  intros Ho Hnd. apply not_Forall_Exists in Hnd; [|apply _].
  apply Exists_exists in Hnd as (t & Hin & Ht). apply list_elem_of_lookup in Hin as [i Hi].
  destruct (todo t) as [|[l m|l] p] eqn:Hp; [done| |].
  - by eapply (waiting_task_progress ts 4 i t l m p Ho Hi Hp); lia.
  - eapply (pool_can_step ts i t); [done|]. unfold task_step. by rewrite Hp.
Qed.

Lemma ordered_operations_ordered p : p ∈ ordered_operations -> ordered [] p = true.
Proof.
  assert (H : Forall (fun p => ordered [] p = true) ordered_operations)
    by (repeat constructor).
  intros Hp. by eapply Forall_forall in H.
Qed.

(** C29: the ordered operations cannot deadlock.  Any number of concurrent reservations,
    cancellations, refreshes, releases, commits, keep-alives, sweeps of broken chunks,
    look-ups and deletions of stored fragments never reach a state in which some task is
    unfinished and none can go on. *)
Theorem ordered_operations_deadlock_free progs ts :
  Forall (fun p => p ∈ ordered_operations) progs ->
  rtc pool_step (map start progs) ts -> ~ deadlocked ts.
Proof.
  intros Hp Hsteps [Hnd Hstuck].
  assert (Ho : Forall (fun t => ordered (held t) (todo t) = true) (map start progs)).
  { apply Forall_fmap. eapply Forall_impl; [exact Hp|].
    intros p. apply ordered_operations_ordered. }
  assert (Hts : Forall (fun t => ordered (held t) (todo t) = true) ts).
  { induction Hsteps as [|ts1 ts2 ts3 Hs _ IH]; [done|].
    apply IH; [done|done|]. by eapply pool_step_ordered. }
  destruct (ordered_pool_progress ts Hts Hnd) as [ts' Hs]. by apply (Hstuck ts').
Qed.

Lemma ordered_operations_deadlock_free_witness :
  ~ deadlocked (map start [locks_try_reserve; locks_release_complete]).
Proof.
  apply (ordered_operations_deadlock_free [locks_try_reserve; locks_release_complete]).
  - repeat constructor.
  - reflexivity.
Defined.

Lemma run_rtc sched ts ts' : run sched ts = Some ts' -> rtc pool_step ts ts'.
Proof.
  revert ts. induction sched as [|i sched IH]; intros ts; simpl; [by intros [= <-]|].
  destruct (pool_step_at i ts) as [ts1|] eqn:E; [|done]. intros Hr.
  eapply rtc_l; [by exists i|by apply IH].
Qed.

(** Two tasks, each waiting for a lock the other holds. *)
Lemma two_tasks_deadlocked t1 t2 :
  todo t1 <> [] -> pool_step_at 0 [t1; t2] = None -> pool_step_at 1 [t1; t2] = None ->
  deadlocked [t1; t2].
Proof.
  intros H1 H01 H02. split; [by intros [? _]%Forall_cons|].
  intros ts' [[|[|i]] Hi]; [congruence|congruence|done].
Qed.

(** Deleting a fragment that is only reserved can deadlock the ledger.  [delete_chunk]
    keeps the uncommited map while it takes the reservations, [try_reserve] takes them the
    other way around: some interleaving of the two leaves both waiting forever, and so
    does deleting against releasing a completed upload. *)
Theorem delete_reserve_deadlock :
  (exists ts, rtc pool_step (map start [locks_try_reserve; locks_delete_reserved]) ts
              /\ deadlocked ts)
  /\ (exists ts, rtc pool_step (map start [locks_release_complete; locks_delete_reserved]) ts
                 /\ deadlocked ts).
Proof.
  split.
  - eexists. split; [apply (run_rtc [0; 1; 0; 0; 1; 1; 1]); reflexivity|].
    by apply two_tasks_deadlocked.
  - eexists. split; [apply (run_rtc [0; 1; 1; 1; 1]); reflexivity|].
    by apply two_tasks_deadlocked.
Qed.

(** Reporting storage can deadlock with a finishing upload.  [get_storage_info] reads
    the chunk set and then the uncommited map within one expression, keeping the guards,
    while the completed branch of [release_reservation] holds the uncommited map and waits
    for the chunk set. *)
Theorem storage_info_deadlock :
  exists ts, rtc pool_step (map start [locks_release_complete; locks_get_storage_info]) ts
             /\ deadlocked ts.
Proof.
  eexists. split; [apply (run_rtc [0; 0; 0; 1; 1]); reflexivity|].
  by apply two_tasks_deadlocked.
Qed.
