(* ===== verification/LockTable.v ===== *)
(** * The file lock table

    [node/src/locking]: a table of reader-writer locks keyed by chunk id.  A lock is a
    semaphore of [max_readers] permits; a reader takes one, a writer all.  Entries are
    created on demand and removed by a task that is spawned when a guard is dropped and
    runs some time later.  A guard refers to its lock weakly, so once the entry is gone the
    drop of the guard only returns its permits. *)
From Stdlib Require Import ZArith Lia List.
From stdpp Require Import base numbers list gmap relations.
From S2P Require Import Prelude.
Local Open Scope Z_scope.

Definition MAX_READERS : Z := 256.

Inductive FileLockError : Type := LockTaken.

Inductive GuardKind : Type := ReadGuard | WriteGuard.

#[global] Instance GuardKind_eq_dec : EqDecision GuardKind.
Proof. solve_decision. Defined.

Section table.
  Context {K : Type} `{Countable K}.

(** A lock: its key and the permits left in its semaphore. *)
Record Locker : Type := mkLocker { lk_key : K; available_permits : Z }.

Record Guard : Type := mkGuard { g_locker : nat; g_kind : GuardKind }.

(** The table and the locks it refers to by identity, the guards alive, the spawned
    removals that have not run, and the next identity. *)
Record LockTable : Type := mkLockTable {
  lock_table : gmap K nat;
  lockers : gmap nat Locker;
  guards : gmap nat Guard;
  removals : list K;
  next_id : nat;
  max_readers : Z
}.

Definition LockTable_new (max : Z) : LockTable := mkLockTable ∅ ∅ ∅ [] 0 max.

(** The permits a guard takes: one, or all of them. *)
Definition permits (max : Z) (k : GuardKind) : Z :=
  match k with ReadGuard => 1 | WriteGuard => max end.

(** [FileReadGuard::new] and [FileWriteGuard::new] with [is_attempt], on lock [l]. *)
Definition guard_new (kind : GuardKind) (l : nat) (lk : Locker) (s : LockTable)
    : LockTable * result FileLockError nat :=
  let need := permits (max_readers s) kind in
  if decide (need <= available_permits lk) then
    (mkLockTable (lock_table s)
       (<[l := mkLocker (lk_key lk) (available_permits lk - need)]> (lockers s))
       (<[next_id s := mkGuard l kind]> (guards s)) (removals s) (S (next_id s)) (max_readers s),
     Ok (next_id s))
  else (s, Err LockTaken).

(** [FileLock::new], inserted in the table (the source inserts after taking the guard, under
    the table's mutex). *)
Definition insert_lock (key : K) (s : LockTable) : LockTable :=
  mkLockTable (<[key := next_id s]> (lock_table s))
    (<[next_id s := mkLocker key (max_readers s)]> (lockers s))
    (guards s) (removals s) (S (next_id s)) (max_readers s).

(** [try_read] and [try_write]; [read] and [write] are their successful case, taken when
    the permits are there. *)
Definition try_lock (kind : GuardKind) (key : K) (s : LockTable)
    : LockTable * result FileLockError nat :=
  match lock_table s !! key with
  | Some l =>
      match lockers s !! l with
      | Some lk => guard_new kind l lk s
      | None => (s, Err LockTaken)
      end
  | None =>
      let l := next_id s in
      guard_new kind l (mkLocker key (max_readers s)) (insert_lock key s)
  end.

Definition try_read := try_lock ReadGuard.
Definition try_write := try_lock WriteGuard.

(** Whether the lock is still referenced by the table ([Weak::upgrade]). *)
Definition upgrade (l : nat) (s : LockTable) : option Locker :=
  match lockers s !! l with
  | Some lk => if decide (lock_table s !! lk_key lk = Some l) then Some lk else None
  | None => None
  end.

(** [Locker::release_read] and [release_write]: the removal task, if one is spawned. *)
Definition spawn_removal (kind : GuardKind) (max : Z) (lk : Locker) : list K :=
  match kind with
  | ReadGuard => if decide (available_permits lk + 1 = max) then [lk_key lk] else []
  | WriteGuard => [lk_key lk]
  end.

(** Drop of a guard: the release of its lock, then the drop of its permit. *)
Definition drop_guard (gid : nat) (s : LockTable) : LockTable :=
  match guards s !! gid with
  | None => s
  | Some g =>
      let spawned :=
        match upgrade (g_locker g) s with
        | Some lk => spawn_removal (g_kind g) (max_readers s) lk
        | None => []
        end in
      let lockers' :=
        alter (fun lk => mkLocker (lk_key lk)
                 (available_permits lk + permits (max_readers s) (g_kind g)))
          (g_locker g) (lockers s) in
      mkLockTable (lock_table s) lockers' (delete gid (guards s)) (removals s ++ spawned)
        (next_id s) (max_readers s)
  end.

(** A spawned removal runs. *)
Definition run_removal (i : nat) (s : LockTable) : LockTable :=
  match removals s !! i with
  | Some k => mkLockTable (delete k (lock_table s)) (lockers s) (guards s)
                (delete i (removals s)) (next_id s) (max_readers s)
  | None => s
  end.

(** ** Executions *)
Inductive LockOp : Type :=
| OpLock (kind : GuardKind) (key : K)
| OpDrop (gid : nat)
| OpRemoval (i : nat).

Definition lock_exec (op : LockOp) (s : LockTable) : LockTable :=
  match op with
  | OpLock kind key => fst (try_lock kind key s)
  | OpDrop gid => drop_guard gid s
  | OpRemoval i => run_removal i s
  end.

Definition lock_step (s s' : LockTable) : Prop := exists op, s' = lock_exec op s.

(** The permits a guard holds on lock [l]. *)
Definition guard_cost (max : Z) (l : nat) (g : Guard) : Z :=
  if decide (g_locker g = l) then permits max (g_kind g) else 0.

(** The permits guards hold on a lock. *)
Definition permits_held (s : LockTable) (l : nat) : Z :=
  map_sum (guard_cost (max_readers s) l) (guards s).

(** Permits are conserved per lock, identities are used once, and a table entry is a lock of
    its key. *)
Record lock_inv (s : LockTable) : Prop := {
  li_permits : forall l lk, lockers s !! l = Some lk ->
    0 <= available_permits lk /\ available_permits lk + permits_held s l = max_readers s;
  li_guards : forall g gd, guards s !! g = Some gd ->
    is_Some (lockers s !! g_locker gd) /\ (g < next_id s)%nat;
  li_lockers : forall l lk, lockers s !! l = Some lk -> (l < next_id s)%nat;
  li_table : forall k l, lock_table s !! k = Some l ->
    exists lk, lockers s !! l = Some lk /\ lk_key lk = k;
  li_max : 1 <= max_readers s
}.

(** The key a guard locks. *)
Definition guard_key (s : LockTable) (g : nat) : option K :=
  gd ← guards s !! g; lk ← lockers s !! g_locker gd; Some (lk_key lk).

(** A removal that finds the entry unused: no guard on the lock the table has for the key. *)
Definition op_disciplined (op : LockOp) (s : LockTable) : Prop :=
  match op with
  | OpRemoval i => forall k l g gd, removals s !! i = Some k -> lock_table s !! k = Some l ->
      guards s !! g = Some gd -> g_locker gd <> l
  | _ => True
  end.

Definition disciplined_step (s s' : LockTable) : Prop :=
  exists op, op_disciplined op s /\ s' = lock_exec op s.
End table.

Arguments LockTable K {_ _}.
Arguments Locker K : clear implicits.
Arguments LockOp K : clear implicits.

(** ** Lemmas *)
Section proofs.
  Context {K : Type} `{Countable K}.
  Implicit Types s : LockTable K.

Lemma permits_pos max k : 1 <= max -> 1 <= permits max k.
Proof. destruct k; simpl; lia. Qed.

Lemma guard_cost_nonneg max l g : 1 <= max -> 0 <= guard_cost max l g.
Proof.
  intros Hm. unfold guard_cost. pose proof (permits_pos max (g_kind g) Hm). case_decide; lia.
Qed.

(** No guard refers to an unknown lock. *)
Lemma held_unknown s l : lock_inv s -> lockers s !! l = None -> permits_held s l = 0.
Proof.
  intros HI Hl. unfold permits_held.
  assert (Hg : forall g gd, guards s !! g = Some gd -> g_locker gd <> l).
  { intros g gd Hg <-. destruct (li_guards s HI g gd Hg) as [[? ?] _]. congruence. }
  revert Hg. generalize (guards s). intros m. induction m as [|k x m Hk IH] using map_ind; intros Hg.
  - apply map_sum_empty.
  - rewrite map_sum_insert by done. unfold guard_cost at 1.
    rewrite decide_False by (apply (Hg k); by rewrite lookup_insert_eq). rewrite IH; [done|]. intros g gd Hgd. apply (Hg g). rewrite lookup_insert_ne; [done|congruence].
Qed.

Lemma next_guard_fresh s : lock_inv s -> guards s !! next_id s = None.
Proof.
  intros HI. destruct (guards s !! next_id s) as [g|] eqn:Hg; [|done].
  destruct (li_guards s HI _ g Hg). lia.
Qed.

Lemma next_locker_fresh s : lock_inv s -> lockers s !! next_id s = None.
Proof.
  intros HI. destruct (lockers s !! next_id s) as [lk|] eqn:Hl; [|done].
  pose proof (li_lockers s HI _ lk Hl). lia.
Qed.

Lemma guard_new_inv kind l lk s :
  lock_inv s -> lockers s !! l = Some lk -> lock_inv (fst (guard_new kind l lk s)).
Proof.
  intros HI Hl. unfold guard_new. case_decide as Hn; [|done]. simpl.
  destruct (li_permits s HI l lk Hl) as [Hp Hsum].
  split; simpl.
  - intros l' lk' Hl'. unfold permits_held. simpl.
    rewrite map_sum_insert by (by apply next_guard_fresh). unfold guard_cost at 1. simpl.
    fold (permits_held s l').
    destruct (decide (l = l')) as [<-|Hne].
    + rewrite lookup_insert_eq in Hl'. simplify_eq/=. lia.
    + rewrite lookup_insert_ne in Hl' by done. destruct (li_permits s HI l' lk' Hl'). lia.
  - intros g gd Hg. destruct (decide (g = next_id s)) as [->|Hne].
    + rewrite lookup_insert_eq in Hg. simplify_eq/=. rewrite lookup_insert_eq. split; [by eexists|lia].
    + rewrite lookup_insert_ne in Hg by congruence. destruct (li_guards s HI g gd Hg) as [Hk Hlt].
      split; [|lia]. rewrite lookup_insert_is_Some. destruct (decide (l = g_locker gd)); [by left|by right].
  - intros l' lk' Hl'. destruct (decide (l = l')) as [<-|Hne].
    + pose proof (li_lockers s HI l lk Hl). lia.
    + rewrite lookup_insert_ne in Hl' by done. pose proof (li_lockers s HI l' lk' Hl'). lia.
  - intros k l' Hk. destruct (li_table s HI k l' Hk) as (lk' & Hl' & Hkey).
    destruct (decide (l = l')) as [<-|Hne].
    + rewrite Hl in Hl'. simplify_eq. rewrite lookup_insert_eq. by eexists.
    + rewrite lookup_insert_ne by done. eauto.
  - apply HI.
Qed.

Lemma insert_lock_inv key s : lock_inv s -> lock_inv (insert_lock key s).
Proof.
  intros HI. pose proof (next_locker_fresh s HI) as Hf. split; simpl.
  - intros l lk Hl. change (permits_held (insert_lock key s) l) with (permits_held s l).
    destruct (decide (next_id s = l)) as [<-|Hne].
    + rewrite lookup_insert_eq in Hl. simplify_eq/=. rewrite held_unknown by done.
      pose proof (li_max s HI). lia.
    + rewrite lookup_insert_ne in Hl by done. by apply (li_permits s HI).
  - intros g gd Hg. destruct (li_guards s HI g gd Hg) as [[lk Hk] Hlt]. split; [|lia].
    rewrite lookup_insert_ne by congruence. by eexists.
  - intros l lk Hl. destruct (decide (next_id s = l)) as [<-|Hne]; [lia|].
    rewrite lookup_insert_ne in Hl by done. pose proof (li_lockers s HI l lk Hl). lia.
  - intros k l Hk. destruct (decide (key = k)) as [<-|Hne].
    + rewrite lookup_insert_eq in Hk. simplify_eq. rewrite lookup_insert_eq. by eexists.
    + rewrite lookup_insert_ne in Hk by done. destruct (li_table s HI k l Hk) as (lk & Hl & Hkey).
      rewrite lookup_insert_ne by congruence. eauto.
  - apply HI.
Qed.

Lemma try_lock_inv kind key s : lock_inv s -> lock_inv (fst (try_lock kind key s)).
Proof.
  intros HI. unfold try_lock. destruct (lock_table s !! key) as [l|] eqn:Ht.
  - destruct (lockers s !! l) as [lk|] eqn:Hl; [|done]. by apply guard_new_inv.
  - apply guard_new_inv; [by apply insert_lock_inv|]. simpl. by rewrite lookup_insert_eq.
Qed.

Lemma drop_guard_inv gid s : lock_inv s -> lock_inv (drop_guard gid s).
Proof.
  intros HI. unfold drop_guard. destruct (guards s !! gid) as [g|] eqn:Hg; [|done].
  pose proof (permits_pos (max_readers s) (g_kind g) (li_max s HI)) as Hpos.
  split; simpl.
  - intros l lk Hl. unfold permits_held. simpl. rewrite (map_sum_delete _ _ gid g Hg).
    unfold guard_cost at 2. fold (permits_held s l). destruct (decide (g_locker g = l)) as [<-|Hne].
    + rewrite lookup_alter_eq in Hl. apply fmap_Some in Hl as (lk0 & Hl & ->). simpl.
      destruct (li_permits s HI _ lk0 Hl). lia.
    + rewrite lookup_alter_ne in Hl by done. destruct (li_permits s HI l lk Hl). lia.
  - intros g' gd [Hne Hg']%lookup_delete_Some. destruct (li_guards s HI g' gd Hg') as [Hk Hlt].
    by rewrite lookup_alter_is_Some.
  - intros l lk Hl. apply mk_is_Some in Hl. apply lookup_alter_is_Some in Hl as [lk0 Hl0].
    by apply (li_lockers s HI l lk0).
  - intros k l Hk. destruct (li_table s HI k l Hk) as (lk & Hl & Hkey).
    destruct (decide (g_locker g = l)) as [<-|Hne].
    + rewrite lookup_alter_eq, Hl. by eexists.
    + rewrite lookup_alter_ne by done. eauto.
  - apply HI.
Qed.

Lemma run_removal_inv i s : lock_inv s -> lock_inv (run_removal i s).
Proof.
  intros HI. unfold run_removal. destruct (removals s !! i); [|done].
  split; simpl; try apply HI. intros k' l [_ Hk]%lookup_delete_Some. by apply (li_table s HI).
Qed.

Lemma lock_exec_inv op s : lock_inv s -> lock_inv (lock_exec op s).
Proof.
  intros HI. destruct op; simpl; [by apply try_lock_inv|by apply drop_guard_inv|by apply run_removal_inv].
Qed.

Lemma new_lock_inv max : 1 <= max -> lock_inv (LockTable_new (K := K) max).
Proof. intros Hm. by split. Qed.

(** Two guards on one lock hold permits that add up within the semaphore. *)
Lemma guards_permits s g1 g2 gd1 gd2 :
  lock_inv s -> g1 <> g2 -> guards s !! g1 = Some gd1 -> guards s !! g2 = Some gd2 ->
  g_locker gd1 = g_locker gd2 ->
  permits (max_readers s) (g_kind gd1) + permits (max_readers s) (g_kind gd2) <= max_readers s.
Proof.
  intros HI Hne H1 H2 Hl. destruct (li_guards s HI g1 gd1 H1) as [[lk Hlk] _].
  destruct (li_permits s HI _ lk Hlk) as [Hp Hsum].
  set (f := guard_cost (max_readers s) (g_locker gd1)).
  assert (Hf : forall g, 0 <= f g) by (intros g; by apply guard_cost_nonneg, li_max).
  assert (E1 : f gd1 = permits (max_readers s) (g_kind gd1))
    by (unfold f, guard_cost; by rewrite decide_True).
  assert (E2 : f gd2 = permits (max_readers s) (g_kind gd2))
    by (unfold f, guard_cost; by rewrite decide_True).
  pose proof (map_sum_delete f (guards s) g1 gd1 H1) as Hd.
  assert (H2' : delete g1 (guards s) !! g2 = Some gd2) by (by rewrite lookup_delete_ne).
  pose proof (map_sum_lookup_le f _ g2 gd2 (fun _ x _ => Hf x) H2') as Hle.
  unfold permits_held in Hsum. fold f in Hsum. lia.
Qed.

Lemma readers_bound s l :
  1 <= max_readers s ->
  Z.of_nat (size (filter (fun g => g_locker g.2 = l) (guards s))) <= permits_held s l.
Proof.
  intros Hm. unfold permits_held. generalize (guards s). intros m.
  induction m as [|k x m Hk IH] using map_ind; [by rewrite map_filter_empty, map_sum_empty|].
  rewrite map_sum_insert by done. unfold guard_cost at 1.
  pose proof (permits_pos (max_readers s) (g_kind x) Hm).
  destruct (decide (g_locker x = l)) as [Hl|Hl].
  - rewrite map_filter_insert_True by done. rewrite map_size_insert_None; [lia|].
    apply map_lookup_filter_None. by left.
  - rewrite map_filter_insert_not' by (done || by rewrite Hk). lia.
Qed.

Lemma reachable_lock_inv max s :
  1 <= max -> rtc lock_step (LockTable_new (K := K) max) s ->
  lock_inv s /\ max_readers s = max.
Proof.
  intros Hm Hsteps.
  assert (Hgen : forall s0, lock_inv s0 -> rtc lock_step s0 s ->
    lock_inv s /\ max_readers s = max_readers s0).
  { clear. intros s0 HI Hsteps. induction Hsteps as [|s1 s2 s3 [op ->] _ IH]; [done|].
    destruct (IH (lock_exec_inv op s1 HI)) as [HI3 ->]. split; [done|].
    destruct op; simpl; unfold try_lock, guard_new, drop_guard, run_removal;
      repeat (case_match; simpl; try done). }
  apply (Hgen (LockTable_new max)); [by apply new_lock_inv|done].
Qed.

(** C18: a lock excludes.  In every reachable state, a write guard is the only guard on its
    lock, and at most [max_readers] guards share one, whatever the order of acquisitions,
    drops and table clean-ups. *)
Theorem locker_exclusion max s :
  1 <= max -> rtc lock_step (LockTable_new (K := K) max) s ->
  (forall g1 g2 gd1 gd2, guards s !! g1 = Some gd1 -> guards s !! g2 = Some gd2 ->
     g_locker gd1 = g_locker gd2 -> g_kind gd1 = WriteGuard -> g1 = g2)
  /\ (forall l lk, lockers s !! l = Some lk ->
        Z.of_nat (size (filter (fun g => g_locker g.2 = l) (guards s))) <= max).
Proof.
  intros Hm Hsteps. destruct (reachable_lock_inv max s Hm Hsteps) as [HI Hmax].
  split.
  - intros g1 g2 gd1 gd2 H1 H2 Hl Hk. destruct (decide (g1 = g2)) as [|Hne]; [done|exfalso].
    pose proof (guards_permits s g1 g2 gd1 gd2 HI Hne H1 H2 Hl) as Hle. rewrite Hk in Hle.
    pose proof (permits_pos (max_readers s) (g_kind gd2) (li_max s HI)). simpl in Hle. lia.
  - intros l lk Hl. pose proof (readers_bound s l (li_max s HI)).
    destruct (li_permits s HI l lk Hl). lia.
Qed.

(** While removals only meet unused entries, a guard's lock is the table's lock. *)
Definition guards_in_table s : Prop := forall g gd lk,
  guards s !! g = Some gd -> lockers s !! g_locker gd = Some lk ->
  lock_table s !! lk_key lk = Some (g_locker gd).

Lemma guard_new_in_table kind l lk s :
  lock_inv s -> guards_in_table s -> lockers s !! l = Some lk ->
  lock_table s !! lk_key lk = Some l -> guards_in_table (fst (guard_new kind l lk s)).
Proof.
  intros HI Hg Hl Ht. unfold guard_new. case_decide; [|done]. intros g gd lk'. simpl.
  destruct (decide (g = next_id s)) as [->|Hne].
  - rewrite lookup_insert_eq. intros [= <-]. simpl. rewrite lookup_insert_eq. by intros [= <-].
  - rewrite lookup_insert_ne by congruence. intros Hgd.
    destruct (decide (l = g_locker gd)) as [->|Hnl].
    + rewrite lookup_insert_eq. by intros [= <-].
    + rewrite lookup_insert_ne by done. by apply (Hg g).
Qed.

Lemma disciplined_in_table op s :
  lock_inv s -> guards_in_table s -> op_disciplined op s -> guards_in_table (lock_exec op s).
Proof.
  intros HI Hg Hd. destruct op as [kind key|gid|i]; simpl in Hd |- *.
  - unfold try_lock. destruct (lock_table s !! key) as [l|] eqn:Ht.
    + destruct (li_table s HI key l Ht) as (lk & Hl & Hk). rewrite Hl.
      apply guard_new_in_table; [done|done|done|by rewrite Hk].
    + apply guard_new_in_table; simpl; [by apply insert_lock_inv| |by rewrite lookup_insert_eq..].
      intros g gd lk Hgd. simpl. destruct (li_guards s HI g gd Hgd) as [[lk0 Hl0] _].
      rewrite lookup_insert_ne by (pose proof (next_locker_fresh s HI); congruence).
      intros Hl. pose proof (Hg g gd lk Hgd Hl) as Htab.
      rewrite lookup_insert_ne; [done|]. intros ->. congruence.
  - unfold drop_guard. destruct (guards s !! gid) as [g0|]; [|done].
    intros g gd lk. simpl. intros [_ Hgd]%lookup_delete_Some.
    destruct (decide (g_locker g0 = g_locker gd)) as [E|Hne].
    + rewrite E, lookup_alter_eq. intros (lk0 & Hl0 & ->)%fmap_Some. simpl. by apply (Hg g).
    + rewrite lookup_alter_ne by done. by apply (Hg g).
  - unfold run_removal. destruct (removals s !! i) as [k|] eqn:Hr; [|done].
    intros g gd lk Hgd Hl. simpl in *. pose proof (Hg g gd lk Hgd Hl) as Htab.
    rewrite lookup_delete_ne; [done|]. intros ->. by apply (Hd _ _ g gd eq_refl Htab Hgd).
Qed.

(** Keys exclude while clean-up is timely.  As long as every removal task finds the
    entry it removes unused, a write guard for a key is the only guard for that key. *)
Theorem key_exclusion_disciplined max s g1 g2 k :
  1 <= max -> rtc disciplined_step (LockTable_new (K := K) max) s ->
  guard_key s g1 = Some k -> guard_key s g2 = Some k ->
  (exists gd, guards s !! g1 = Some gd /\ g_kind gd = WriteGuard) -> g1 = g2.
Proof.
  intros Hm Hsteps Hk1 Hk2 (gd & Hgd & Hkind).
  assert (Hinv : lock_inv s /\ guards_in_table s).
  { assert (H0 : lock_inv (LockTable_new (K := K) max)
      /\ guards_in_table (LockTable_new (K := K) max)) by (split; [by apply new_lock_inv|done]).
    revert H0. clear -Hsteps. induction Hsteps as [|s1 s2 s3 (op & Hd & ->) _ IH]; [done|].
    intros [HI Hg]. apply IH. split; [by apply lock_exec_inv|by apply disciplined_in_table]. }
  destruct Hinv as [HI Htab]. unfold guard_key in Hk1, Hk2. rewrite Hgd in Hk1. simpl in Hk1.
  destruct (lockers s !! g_locker gd) as [lk1|] eqn:Hl1; simplify_eq/=.
  destruct (guards s !! g2) as [gd2|] eqn:Hg2; simplify_eq/=.
  destruct (lockers s !! g_locker gd2) as [lk2|] eqn:Hl2; simplify_eq/=.
  pose proof (Htab g1 gd lk1 Hgd Hl1) as T1. pose proof (Htab g2 gd2 lk2 Hg2 Hl2) as T2.
  destruct (decide (g1 = g2)) as [|Hne]; [done|exfalso].
  assert (Hsame : g_locker gd = g_locker gd2) by congruence.
  pose proof (guards_permits s g1 g2 gd gd2 HI Hne Hgd Hg2 Hsame) as Hle. rewrite Hkind in Hle.
  pose proof (permits_pos (max_readers s) (g_kind gd2) (li_max s HI)). simpl in Hle. lia.
Qed.
End proofs.

Definition late_removal : list (LockOp Z) :=
  [OpLock ReadGuard 5; OpDrop 1; OpLock ReadGuard 5; OpRemoval 0; OpLock WriteGuard 5].

Lemma exec_all_rtc (ops : list (LockOp Z)) s :
  rtc lock_step s (fold_left (fun s op => lock_exec op s) ops s).
Proof.
  revert s. induction ops as [|op ops IH]; intros s; simpl; [done|].
  eapply rtc_l; [by exists op|apply IH].
Qed.

(** A late clean-up breaks exclusion.  A reader drops the last guard of a key, another
    reader takes the lock before the spawned removal runs, the removal then takes the entry
    away under it, and a writer gets a new lock: a read and a write guard for one chunk are
    alive together. *)
Theorem key_exclusion_fails :
  exists s g1 g2, rtc lock_step (LockTable_new MAX_READERS) s /\ g1 <> g2
    /\ guard_key s g1 = Some 5 /\ guard_key s g2 = Some 5
    /\ g_kind <$> guards s !! g1 = Some ReadGuard
    /\ g_kind <$> guards s !! g2 = Some WriteGuard.
Proof.
  eexists _, 2%nat, 4%nat. split; [apply (exec_all_rtc late_removal)|].
  split; [done|]. split_ands; reflexivity.
Qed.

Lemma locker_exclusion_witness :
  Z.of_nat (size (filter (fun g => g_locker g.2 = 0%nat)
    (guards (fst (try_read 5 (LockTable_new MAX_READERS)))))) <= MAX_READERS.
Proof.
  destruct (locker_exclusion MAX_READERS (fst (try_read 5 (LockTable_new MAX_READERS))))
    as [_ Hb]; [done|apply rtc_once; by exists (OpLock ReadGuard 5)|].
  apply (Hb 0%nat (mkLocker 5 255)). reflexivity.
Defined.

Lemma key_exclusion_disciplined_witness :
  guard_key (fst (try_write 5 (LockTable_new MAX_READERS))) 1 = Some 5 /\ 1%nat = 1%nat.
Proof.
  split; [reflexivity|].
  apply (key_exclusion_disciplined MAX_READERS (fst (try_write 5 (LockTable_new MAX_READERS))) 1 1 5);
    [done|apply rtc_once; by exists (OpLock WriteGuard 5)|reflexivity|reflexivity|].
  exists (mkGuard 0 WriteGuard). split; reflexivity.
Defined.
