(* ===== verification/TransferManager.v ===== *)
(** * Chunked upload with acknowledgements

    [node/src/file_transfer/transfer_manager.rs]: [mdsftp_upload] cuts the bytes of a stream
    into chunks, sends them, and keeps the chunks in flight within a window by waiting for
    acknowledgements.  The model is a state passing function over the bytes left to read,
    the acknowledgements that will be received and the trace of what happened, in order. *)
From Stdlib Require Import ZArith Lia List.
From stdpp Require Import base numbers list.
From S2P Require Import Prelude Errors MdsftpData MdsftpWire MdsftpChannel.
Local Open Scope Z_scope.

Record SizeParams : Type := mkSizeParams { sp_size : u64; sp_range : option ChunkRange }.

Definition SizeParams_size (p : SizeParams) : u64 :=
  match sp_range p with Some r => ChunkRange_size r | None => sp_size p end.

Definition SizeParams_offset (p : SizeParams) : u64 :=
  default 0 (range_start <$> sp_range p).

Inductive UploadEvent : Type :=
| Sent (is_last : bool) (id : u32) (content : list u8)
| Acked (id : u32)
| Flushed.

(** The stream left to read, the acknowledgements to come (the receiver ends after them),
    [recv], the transfer tracker and the trace. *)
Record Upload : Type := mkUpload {
  up_src : list u8;
  up_acks : list u32;
  up_recv : u32;
  up_tracker : u64;
  up_trace : list UploadEvent
}.

(** [read_exact] of [n] bytes; a short stream is an I/O error, which becomes [SSLError]. *)
Definition up_read (n : nat) (s : Upload) : MDSFTPResult (list u8 * Upload) :=
  if decide (n <= length (up_src s))%nat then
    Ok (take n (up_src s),
        mkUpload (drop n (up_src s)) (up_acks s) (up_recv s) (up_tracker s) (up_trace s))
  else Err SSLError.

(** [respond_chunk] on an open channel, then the tracker. *)
Definition up_send (is_last : bool) (id : u32) (content : list u8) (tracked : u64) (s : Upload)
    : Upload :=
  mkUpload (up_src s) (up_acks s) (up_recv s) (u64_add (up_tracker s) tracked)
    (up_trace s ++ [Sent is_last id content]).

Definition up_log (e : UploadEvent) (s : Upload) : Upload :=
  mkUpload (up_src s) (up_acks s) (up_recv s) (up_tracker s) (up_trace s ++ [e]).

(** [while cond(recv) { recv = receiver.recv().await.ok_or(Interrupted)? + 1 }] *)
Fixpoint wait_acks (cond : u32 -> bool) (acks : list u32) (s : Upload)
    : Upload * MDSFTPResult unit :=
  if cond (up_recv s) then
    match acks with
    | [] => (s, Err Interrupted)
    | a :: acks =>
        wait_acks cond acks
          (mkUpload (up_src s) acks (wrap 32 (a + 1)) (up_tracker s) (up_trace s ++ [Acked a]))
    end
  else (s, Ok tt).

Definition up_wait (cond : u32 -> bool) (s : Upload) : Upload * MDSFTPResult unit :=
  wait_acks cond (up_acks s) s.

Section transfer.
  Variable fragment_size last : u64.
  Variable fragments : u32.
  Variable chunk_buffer : u16.

(** The loop over [0..fragments]: [n] iterations from [id] on. *)
Fixpoint send_fragments (n : nat) (id : u32) (s : Upload) : Upload * MDSFTPResult unit :=
  match n with
  | O => (s, Ok tt)
  | S n =>
      match up_read (Z.to_nat fragment_size) s with
      | Err e => (s, Err e)
      | Ok (content, s) =>
          let is_last := bool_decide (wrap 32 (id + 1) = fragments /\ last = 0) in
          let s := up_send is_last id content fragment_size s in
          match up_wait (fun recv => bool_decide (wrap 32 (recv + chunk_buffer) <= id)) s with
          | (s, Err e) => (s, Err e)
          | (s, Ok _) => send_fragments n (id + 1) s
          end
      end
  end.

(** The chunk with the remainder, or the only one of an empty upload. *)
Definition send_last : bool := bool_decide (last <> 0 \/ fragments = 0).

Definition send_last_chunk (s : Upload) : Upload * MDSFTPResult unit :=
  if send_last then
    match up_read (Z.to_nat last) s with
    | Err e => (s, Err e)
    | Ok (content, s) => (up_send true fragments content last s, Ok tt)
    end
  else (s, Ok tt).

(** [transfer_fragments!] *)
Definition transfer_fragments (s : Upload) : Upload * MDSFTPResult unit :=
  match send_fragments (Z.to_nat fragments) 0 s with
  | (s, Err e) => (s, Err e)
  | (s, Ok _) =>
      match send_last_chunk s with
      | (s, Err e) => (s, Err e)
      | (s, Ok _) =>
          let sent := wrap 32 (fragments + (if send_last then 1 else 0)) in
          up_wait (fun recv => bool_decide (recv <> sent)) (up_log Flushed s)
      end
  end.
End transfer.

(** The source: a plain stream, read from where it is, or a file that can seek. *)
Inductive ReadStream : Type :=
| PlainStream (bytes : list u8)
| SeekableStream (bytes : list u8).

(** What the source yields once positioned: only a seekable one skips the offset. *)
Definition read_from (read : ReadStream) (offset : u64) : list u8 :=
  match read with
  | PlainStream bytes => bytes
  | SeekableStream bytes => if decide (0 < offset) then drop (Z.to_nat offset) bytes else bytes
  end.

Definition mdsftp_upload (read : ReadStream) (size_params : SizeParams) (acks : list u32)
    (chunk_buffer : u16) (fragment_size : u32) : Upload * MDSFTPResult unit :=
  let size := SizeParams_size size_params in
  let offset := SizeParams_offset size_params in
  let fragments := size / fragment_size in
  let s := mkUpload (read_from read offset) acks 0 0 [] in
  if decide (2 ^ 32 - 2 < fragments) then (s, Err Interrupted)
  else transfer_fragments fragment_size (size mod fragment_size) fragments chunk_buffer s.

(** ** Specification *)
(** The chunks of a trace, and the content they carry. *)
Definition sent_chunks (tr : list UploadEvent) : list (bool * u32 * list u8) :=
  omap (fun e => match e with Sent l i c => Some (l, i, c) | _ => None end) tr.

Definition sent_content (tr : list UploadEvent) : list u8 :=
  concat (map snd (sent_chunks tr)).

Definition acked_ids (tr : list UploadEvent) : list u32 :=
  omap (fun e => match e with Acked a => Some a | _ => None end) tr.

(** How many chunks an upload of [size] bytes takes. *)
Definition chunk_count (fragment_size size : Z) : Z :=
  size / fragment_size
  + (if decide (size mod fragment_size <> 0 \/ size / fragment_size = 0) then 1 else 0).

(** The chunks in flight after a prefix of the trace. *)
Definition in_flight (tr : list UploadEvent) : Z :=
  Z.of_nat (length (sent_chunks tr)) - Z.of_nat (length (acked_ids tr)).

(** Every acknowledgement answers a chunk sent before it. *)
Definition causal (tr : list UploadEvent) : Prop :=
  forall pre a post, tr = pre ++ Acked a :: post ->
    exists l c, (l, a, c) ∈ sent_chunks pre.

(** ** Lemmas *)
Lemma concat_pieces {A} (f k : nat) (l : list A) :
  concat (map (fun i => take f (drop (i * f) l)) (seq 0 k)) = take (k * f) l.
Proof.
  induction k as [|k IH]; [done|].
  rewrite seq_S, map_app, concat_app, IH. simpl. rewrite app_nil_r.
  replace (f + k * f)%nat with (k * f + f)%nat by lia.
  by rewrite <- take_take_drop.
Qed.

Lemma sent_chunks_app tr1 tr2 : sent_chunks (tr1 ++ tr2) = sent_chunks tr1 ++ sent_chunks tr2.
Proof. apply omap_app. Qed.

Lemma acked_ids_app tr1 tr2 : acked_ids (tr1 ++ tr2) = acked_ids tr1 ++ acked_ids tr2.
Proof. apply omap_app. Qed.

Section upload_proofs.
  (** The bytes from the read position on, of which the first [size] are to be sent. *)
  Variable bytes : list u8.
  Variable fsn size total : nat.
  Variable window : Z.

(** The chunk with index [i]. *)
Definition spec_chunk (i : nat) : bool * u32 * list u8 :=
  (bool_decide (S i = total), Z.of_nat i, take fsn (drop (i * fsn) (take size bytes))).

(** After [n] chunks of which [r] are acknowledged, at tracker value [t]. *)
Record up_inv (n r : nat) (s : Upload) : Prop := {
  ui_recv : up_recv s = Z.of_nat r;
  ui_acks : up_acks s = map Z.of_nat (seq r (total - r));
  ui_le : (r <= n <= total)%nat;
  ui_src : up_src s = drop (length (sent_content (up_trace s))) bytes;
  ui_sent : sent_chunks (up_trace s) = map spec_chunk (seq 0 n);
  ui_acked : acked_ids (up_trace s) = map Z.of_nat (seq 0 r);
  ui_window : forall pre, pre `prefix_of` up_trace s -> in_flight pre <= window + 1;
  ui_causal : causal (up_trace s);
  ui_tracker : up_tracker s = Z.of_nat (length (sent_content (up_trace s)))
}.

Lemma in_flight_inv n r s : up_inv n r s -> in_flight (up_trace s) = Z.of_nat n - Z.of_nat r.
Proof.
  intros HI. unfold in_flight. rewrite (ui_sent n r s HI), (ui_acked n r s HI).
  by rewrite !length_map, !length_seq.
Qed.

(** A prefix of a trace with one more event is a prefix of the trace or all of it. *)
Lemma prefix_snoc {A} (pre l : list A) x :
  pre `prefix_of` l ++ [x] -> pre `prefix_of` l \/ pre = l ++ [x].
Proof.
  intros [k Hk]. induction k as [|y k' _] using rev_ind.
  - right. by rewrite app_nil_r in Hk.
  - left. exists k'. rewrite app_assoc in Hk. by apply app_inj_tail in Hk as [-> _].
Qed.

Lemma causal_snoc tr x :
  causal tr -> (forall a, x = Acked a -> exists l c, (l, a, c) ∈ sent_chunks tr) ->
  causal (tr ++ [x]).
Proof.
  intros Hc Hx pre a post E. induction post as [|y post _] using rev_ind.
  - apply app_inj_tail in E as [<- ->]. by apply Hx.
  - rewrite app_comm_cons, app_assoc in E. apply app_inj_tail in E as [-> _]. by eapply Hc.
Qed.

(** An acknowledgement of the next chunk in flight. *)
Lemma up_ack_inv n r s :
  (r < n)%nat -> Z.of_nat total < 2 ^ 32 -> up_inv n r s ->
  exists acks, up_acks s = Z.of_nat r :: acks
    /\ up_inv n (S r) (mkUpload (up_src s) acks (wrap 32 (Z.of_nat r + 1)) (up_tracker s)
         (up_trace s ++ [Acked (Z.of_nat r)])).
Proof.
  intros Hr Ht HI. destruct (ui_le n r s HI) as [_ Hn].
  assert (E : seq r (total - r) = r :: seq (S r) (total - S r)).
  { by replace (total - r)%nat with (S (total - S r)) by lia. }
  exists (map Z.of_nat (seq (S r) (total - S r))).
  split; [by rewrite (ui_acks n r s HI), E|].
  assert (Hsent : sent_chunks (up_trace s ++ [Acked (Z.of_nat r)]) = sent_chunks (up_trace s))
    by (rewrite sent_chunks_app; apply app_nil_r).
  assert (Hcont : sent_content (up_trace s ++ [Acked (Z.of_nat r)]) = sent_content (up_trace s))
    by (unfold sent_content; by rewrite Hsent).
  split; simpl; rewrite ?Hcont; try apply HI; try done.
  - rewrite wrap_small by (unfold in_width; lia). lia.
  - rewrite Hsent. apply HI.
  - change (Z.of_nat 0 :: map Z.of_nat (seq 1 r)) with (map Z.of_nat (seq 0 (S r))).
    by rewrite acked_ids_app, (ui_acked n r s HI), seq_S, map_app.
  - intros pre [Hp| ->]%prefix_snoc; [by apply (ui_window n r s HI)|].
    unfold in_flight. rewrite Hsent, acked_ids_app. simpl. rewrite length_app. simpl.
    pose proof (in_flight_inv n r s HI) as Hf. unfold in_flight in Hf.
    pose proof (ui_window n r s HI (up_trace s) ltac:(done)) as Hw. unfold in_flight in Hw. lia.
  - apply causal_snoc; [apply HI|]. intros a [= <-].
    rewrite (ui_sent n r s HI). eexists _, _. apply list_elem_of_fmap.
    exists r. split; [reflexivity|]. apply elem_of_seq. lia.
Qed.

Lemma up_flush_inv n r s : up_inv n r s -> up_inv n r (up_log Flushed s).
Proof.
  intros HI.
  assert (Hs : sent_chunks (up_trace s ++ [Flushed]) = sent_chunks (up_trace s))
    by (rewrite sent_chunks_app; apply app_nil_r).
  assert (Ha : acked_ids (up_trace s ++ [Flushed]) = acked_ids (up_trace s))
    by (rewrite acked_ids_app; apply app_nil_r).
  assert (Hc : sent_content (up_trace s ++ [Flushed]) = sent_content (up_trace s))
    by (unfold sent_content; by rewrite Hs).
  split; simpl; rewrite ?Hs, ?Ha, ?Hc; try apply HI.
  - intros pre [Hp| ->]%prefix_snoc; [by apply (ui_window n r s HI)|].
    unfold in_flight. rewrite Hs, Ha. by apply (ui_window n r s HI).
  - apply causal_snoc; [apply HI|done].
Qed.

(** Waiting ends as soon as the condition does, at the latest when everything sent is
    acknowledged. *)
Lemma up_wait_spec cond n r s :
  Z.of_nat total < 2 ^ 32 -> up_inv n r s -> cond (Z.of_nat n) = false ->
  exists r' s', up_wait cond s = (s', Ok tt) /\ up_inv n r' s' /\ cond (Z.of_nat r') = false.
Proof.
  intros Ht HI Hn. remember (n - r)%nat as d eqn:Hd. revert r s HI Hd.
  induction d as [|d IH]; intros r s HI Hd; unfold up_wait.
  - assert (r = n) as -> by (destruct (ui_le n r s HI); lia).
    exists n, s. split; [|done]. destruct (up_acks s); simpl; by rewrite (ui_recv n n s HI), Hn.
  - destruct (cond (Z.of_nat r)) eqn:Hc.
    + destruct (up_ack_inv n r s) as (acks & E & HI'); [lia|done|done|].
      destruct (IH (S r) _ HI') as (r' & s' & Hw & HI'' & Hc'); [lia|].
      exists r', s'. split; [|done]. rewrite E. simpl. by rewrite (ui_recv n r s HI), Hc.
    + exists r, s. split; [|done]. destruct (up_acks s); simpl; by rewrite (ui_recv n r s HI), Hc.
Qed.

(** Sending the next chunk of [len] bytes. *)
Lemma up_send_inv n r s len flag :
  up_inv n r s -> (n < total)%nat -> Z.of_nat n - Z.of_nat r <= window ->
  length (sent_content (up_trace s)) = (n * fsn)%nat ->
  (n * fsn + len <= size)%nat -> (size <= length bytes)%nat -> Z.of_nat size < 2 ^ 64 ->
  take len (drop (n * fsn) bytes) = take fsn (drop (n * fsn) (take size bytes)) ->
  flag = bool_decide (S n = total) ->
  exists s1, up_read len s = Ok (take len (drop (n * fsn) bytes), s1)
    /\ up_inv (S n) r (up_send flag (Z.of_nat n) (take len (drop (n * fsn) bytes)) (Z.of_nat len) s1)
    /\ length (sent_content (up_trace
         (up_send flag (Z.of_nat n) (take len (drop (n * fsn) bytes)) (Z.of_nat len) s1)))
       = (n * fsn + len)%nat.
Proof.
  intros HI Hn Hw Hlen Hfit Hsize H64 Hpiece ->. pose proof (ui_src n r s HI) as Hsrc.
  rewrite Hlen in Hsrc. unfold up_read. rewrite Hsrc, length_drop, decide_True by lia.
  eexists. split; [done|]. simpl. set (c := take len (drop (n * fsn) bytes)).
  assert (Hc : length c = len) by (unfold c; rewrite length_take, length_drop; lia).
  set (e := Sent _ _ c).
  assert (Hsent : sent_chunks (up_trace s ++ [e]) = map spec_chunk (seq 0 (S n))).
  { rewrite sent_chunks_app, (ui_sent n r s HI), seq_S, map_app. simpl. unfold spec_chunk at 3.
    by rewrite <- Hpiece. }
  assert (Hcont : length (sent_content (up_trace s ++ [e])) = (n * fsn + len)%nat).
  { unfold sent_content. rewrite sent_chunks_app, map_app, concat_app, length_app.
    fold (sent_content (up_trace s)). rewrite Hlen. simpl. rewrite app_nil_r. lia. }
  assert (Hacked : acked_ids (up_trace s ++ [e]) = acked_ids (up_trace s))
    by (rewrite acked_ids_app; apply app_nil_r).
  split; [|done]. split; simpl; fold e; rewrite ?Hcont, ?Hacked; try apply HI; try done.
  - destruct (ui_le n r s HI). lia.
  - by rewrite drop_drop.
  - intros pre [Hp| ->]%prefix_snoc; [by apply (ui_window n r s HI)|].
    pose proof (in_flight_inv n r s HI) as Hf. unfold in_flight in *. rewrite Hacked, Hsent.
    rewrite length_map, length_seq. rewrite (ui_sent n r s HI), length_map, length_seq in Hf. lia.
  - apply causal_snoc; [apply HI|done].
  - rewrite (ui_tracker n r s HI), Hlen, u64_add_small by (unfold in_width; lia). lia.
Qed.

Lemma full_piece k :
  (S k * fsn <= size)%nat ->
  take fsn (drop (k * fsn) bytes) = take fsn (drop (k * fsn) (take size bytes)).
Proof.
  intros Hk. rewrite skipn_firstn_comm, take_take. f_equal. simpl in Hk. lia.
Qed.

Lemma rest_piece k :
  (k * fsn <= size)%nat -> (size - k * fsn <= fsn)%nat ->
  take (size - k * fsn) (drop (k * fsn) bytes) = take fsn (drop (k * fsn) (take size bytes)).
Proof. intros Hk Hl. rewrite skipn_firstn_comm, take_take. f_equal. lia. Qed.

  Variable fragments : nat.
  Variable last : Z.
  Hypothesis window_nonneg : 0 <= window.
  Hypothesis window_fits : Z.of_nat total + window < 2 ^ 32.
  Hypothesis fragments_fit : (fragments * fsn <= size)%nat.
  Hypothesis size_fits : (size <= length bytes)%nat.
  Hypothesis size_64 : Z.of_nat size < 2 ^ 64.
  Hypothesis last_eq : last = Z.of_nat (size - fragments * fsn).
  Hypothesis last_small : (size - fragments * fsn < fsn)%nat.
  Hypothesis total_eq :
    total = (fragments + if decide (last <> 0%Z \/ fragments = 0%nat) then 1 else 0)%nat.

Lemma total_cases :
  ((last <> 0 \/ fragments = 0%nat) /\ total = S fragments)
  \/ (~ (last <> 0 \/ fragments = 0%nat) /\ total = fragments).
Proof. rewrite total_eq. case_decide; [left|right]; split; done || lia. Qed.

(** The window condition of the loop at chunk [k]. *)
Lemma window_cond k r :
  (r <= S k)%nat -> (S k <= total)%nat ->
  bool_decide (wrap 32 (Z.of_nat r + window) <= Z.of_nat k) = false
  <-> Z.of_nat (S k) - Z.of_nat r <= window.
Proof.
  intros Hr Hk. rewrite wrap_small by (unfold in_width; lia).
  rewrite bool_decide_eq_false. lia.
Qed.

Lemma send_fragments_spec m k r s :
  (k + m = fragments)%nat -> up_inv k r s -> Z.of_nat k - Z.of_nat r <= window ->
  length (sent_content (up_trace s)) = (k * fsn)%nat ->
  exists r' s', send_fragments (Z.of_nat fsn) last (Z.of_nat fragments) window m (Z.of_nat k) s
                = (s', Ok tt)
    /\ up_inv fragments r' s' /\ Z.of_nat fragments - Z.of_nat r' <= window
    /\ length (sent_content (up_trace s')) = (fragments * fsn)%nat.
Proof.
  revert k r s. induction m as [|m IH]; intros k r s Hkm HI Hw Hlen.
  { assert (k = fragments) as -> by lia. by exists r, s. }
  assert (Hkt : (S k <= total)%nat) by (rewrite total_eq; lia).
  assert (Hfit : (S k * fsn <= size)%nat) by nia.
  destruct (up_send_inv k r s fsn (bool_decide (S k = total)) HI) as (s1 & E1 & HI1 & Hlen1);
    [lia|done|done|simpl in Hfit; lia|done|done|by apply full_piece|done|].
  destruct (up_wait_spec (fun recv => bool_decide (wrap 32 (recv + window) <= Z.of_nat k))
    (S k) r _ ltac:(lia) HI1) as (r' & s2 & E2 & HI2 & Hc).
  { apply window_cond; lia. }
  apply window_cond in Hc; [|destruct (ui_le (S k) r' s2 HI2); lia|lia].
  assert (Hlen2 : length (sent_content (up_trace s2)) = (S k * fsn)%nat).
  { assert (Hsc : sent_content (up_trace s2) = sent_content (up_trace
      (up_send (bool_decide (S k = total)) (Z.of_nat k) (take fsn (drop (k * fsn) bytes))
         (Z.of_nat fsn) s1)))
      by (unfold sent_content; by rewrite (ui_sent _ _ _ HI2), (ui_sent _ _ _ HI1)).
    rewrite Hsc, Hlen1. simpl. lia. }
  destruct (IH (S k) r' s2) as (r3 & s3 & E3 & Hrest); [lia|done|done|done|].
  exists r3, s3. split; [|done]. cbn [send_fragments]. rewrite Nat2Z.id, E1.
  replace (bool_decide (wrap 32 (Z.of_nat k + 1) = Z.of_nat fragments /\ last = 0))
    with (bool_decide (S k = total)).
  - rewrite E2. by replace (Z.of_nat k + 1) with (Z.of_nat (S k)) by lia.
  - apply bool_decide_ext. rewrite wrap_small by (unfold in_width; lia).
    destruct total_cases as [[Hd ->]|[Hd ->]]; lia.
Qed.

Lemma transfer_fragments_spec acks :
  acks = map Z.of_nat (seq 0 total) ->
  exists s, transfer_fragments (Z.of_nat fsn) last (Z.of_nat fragments) window
              (mkUpload bytes acks 0 0 []) = (s, Ok tt)
    /\ up_inv total total s.
Proof.
  intros ->.
  assert (HI0 : up_inv 0 0 (mkUpload bytes (map Z.of_nat (seq 0 total)) 0 0 [])).
  { split; try done; simpl.
    - by rewrite Nat.sub_0_r.
    - lia.
    - intros pre ->%prefix_nil_inv. unfold in_flight. simpl. lia.
    - by intros [|? pre] a post. }
  destruct (send_fragments_spec fragments 0 0 _ eq_refl HI0) as (r1 & s1 & E1 & HI1 & Hw1 & Hl1);
    [lia|done|].
  change (Z.of_nat 0) with 0 in E1. unfold transfer_fragments. rewrite Nat2Z.id, E1.
  assert (Hsl : send_last last (Z.of_nat fragments) = bool_decide (last <> 0 \/ fragments = 0%nat))
    by (apply bool_decide_ext; lia).
  assert (Hstep : exists s2, send_last_chunk last (Z.of_nat fragments) s1 = (s2, Ok tt)
    /\ up_inv total r1 s2).
  { unfold send_last_chunk. rewrite Hsl. destruct total_cases as [[Hd Ht]|[Hd Ht]].
    - rewrite bool_decide_true by done.
      destruct (up_send_inv fragments r1 s1 (size - fragments * fsn) true HI1)
        as (s2 & E2 & HI2 & _); [lia|done|done|lia|done|done|apply rest_piece; lia
        |by rewrite bool_decide_true by lia|].
      rewrite last_eq, Nat2Z.id, E2, Ht. eexists. split; [done|exact HI2].
    - rewrite bool_decide_false by done. exists s1. split; [done|].
      by rewrite Ht. }
  destruct Hstep as (s2 & -> & HI2). pose proof (up_flush_inv total r1 s2 HI2) as HI3.
  assert (Hsent : wrap 32 (Z.of_nat fragments
    + (if send_last last (Z.of_nat fragments) then 1 else 0)) = Z.of_nat total).
  { rewrite Hsl. destruct total_cases as [[Hd Ht]|[Hd Ht]];
      [rewrite bool_decide_true by done|rewrite bool_decide_false by done];
      rewrite wrap_small by (unfold in_width; lia); lia. }
  rewrite Hsent.
  destruct (up_wait_spec (fun recv => bool_decide (recv <> Z.of_nat total)) total r1 _
    ltac:(lia) HI3) as (r4 & s4 & E4 & HI4 & Hc4); [by apply bool_decide_eq_false; intros []|].
  exists s4. split; [done|]. apply bool_decide_eq_false in Hc4.
  by replace r4 with total in HI4 by (apply Nat2Z.inj; symmetry; by apply dec_stable).
Qed.
End upload_proofs.

(** The acknowledgements of a receiver that answers every chunk once, in order. *)
Lemma upload_inv read params B fs :
  0 < fs < 2 ^ 32 -> 0 <= B -> in_width 64 (SizeParams_size params) ->
  SizeParams_size params <= Z.of_nat (length (read_from read (SizeParams_offset params))) ->
  chunk_count fs (SizeParams_size params) + B < 2 ^ 32 - 1 ->
  exists s, mdsftp_upload read params
      (map Z.of_nat (seq 0 (Z.to_nat (chunk_count fs (SizeParams_size params))))) B fs = (s, Ok tt)
    /\ up_inv (read_from read (SizeParams_offset params)) (Z.to_nat fs)
         (Z.to_nat (SizeParams_size params)) (Z.to_nat (chunk_count fs (SizeParams_size params)))
         B (Z.to_nat (chunk_count fs (SizeParams_size params)))
         (Z.to_nat (chunk_count fs (SizeParams_size params))) s.
Proof.
  set (size := SizeParams_size params). set (bytes := read_from _ _).
  intros Hfs HB [Hs0 Hs64] Hlen Hcount. unfold mdsftp_upload. fold size bytes.
  pose proof (Z.div_pos size fs ltac:(lia) ltac:(lia)) as Hq.
  pose proof (Z.mod_pos_bound size fs ltac:(lia)) as Hm.
  pose proof (Z_div_mod_eq_full size fs) as Hdm.
  unfold chunk_count in *.
  assert (Hc01 : 0 <= (if decide (size mod fs <> 0 \/ size / fs = 0) then 1 else 0)) by (case_decide; lia).
  rewrite decide_False by lia.
  destruct (transfer_fragments_spec bytes (Z.to_nat fs) (Z.to_nat size)
    (Z.to_nat (size / fs + (if decide (size mod fs <> 0 \/ size / fs = 0) then 1 else 0))) B
    (Z.to_nat (size / fs)) (size mod fs)) with
    (acks := map Z.of_nat (seq 0 (Z.to_nat (size / fs
      + (if decide (size mod fs <> 0 \/ size / fs = 0) then 1 else 0)))))
    as (s & E & HI); try done; try lia.
  - rewrite Z2Nat.inj_add by lia. f_equal. case_decide as H1; case_decide as H2; lia.
  - exists s. split; [|done]. by rewrite !Z2Nat.id in E by lia.
Qed.

(** What a finished upload of [total] chunks has done. *)
Record upload_done (read : ReadStream) (params : SizeParams) (fs : Z) (total : nat)
    (s : Upload) : Prop := {
  ud_content : sent_content (up_trace s)
    = take (Z.to_nat (SizeParams_size params)) (read_from read (SizeParams_offset params));
  ud_count : length (sent_chunks (up_trace s)) = total;
  ud_chunks : forall i l id c, sent_chunks (up_trace s) !! i = Some (l, id, c) ->
    id = Z.of_nat i /\ (l = true <-> S i = total) /\ Z.of_nat (length c) <= fs;
  ud_acked : acked_ids (up_trace s) = map Z.of_nat (seq 0 total);
  ud_tracker : up_tracker s = SizeParams_size params
}.

Lemma upload_done_holds read params B fs :
  0 < fs < 2 ^ 32 -> 0 <= B -> in_width 64 (SizeParams_size params) ->
  SizeParams_size params <= Z.of_nat (length (read_from read (SizeParams_offset params))) ->
  chunk_count fs (SizeParams_size params) + B < 2 ^ 32 - 1 ->
  let total := Z.to_nat (chunk_count fs (SizeParams_size params)) in
  exists s, mdsftp_upload read params (map Z.of_nat (seq 0 total)) B fs = (s, Ok tt)
    /\ upload_done read params fs total s.
Proof.
  intros Hfs HB Hs Hlen Hcount total.
  destruct (upload_inv read params B fs Hfs HB Hs Hlen Hcount) as (s & E & HI).
  fold total in E, HI. exists s. set (bytes := read_from _ _) in *.
  set (size := Z.to_nat (SizeParams_size params)) in *.
  assert (Hcont : sent_content (up_trace s) = take size bytes).
  { unfold sent_content. rewrite (ui_sent _ _ _ _ _ _ _ _ HI), map_map. unfold spec_chunk. simpl.
    rewrite concat_pieces, take_take. f_equal. apply Nat.min_r.
    unfold total, size, chunk_count. pose proof (Z_div_mod_eq_full (SizeParams_size params) fs).
    pose proof (Z.mod_pos_bound (SizeParams_size params) fs ltac:(lia)).
    pose proof (Z.div_pos (SizeParams_size params) fs ltac:(unfold in_width in *; lia) ltac:(lia)).
    unfold in_width in Hs. apply Nat2Z.inj_le. case_decide; rewrite Nat2Z.inj_mul, !Z2Nat.id by lia; nia. }
  split; [done|]. split; [done| | |apply HI|].
  - by rewrite (ui_sent _ _ _ _ _ _ _ _ HI), length_map, length_seq.
  - intros i l id c. rewrite (ui_sent _ _ _ _ _ _ _ _ HI), list_lookup_fmap.
    intros (j & Hj & Ej)%fmap_Some. apply lookup_seq in Hj as [-> _].
    unfold spec_chunk in Ej. simplify_eq/=.
    split_ands; [done|apply bool_decide_eq_true|]. rewrite length_take. lia.
  - rewrite (ui_tracker _ _ _ _ _ _ _ _ HI), Hcont, length_take. unfold size, in_width in *. lia.
Qed.

(** An upload transfers exactly the requested bytes, in flow control, and terminates.
    Against a receiver that acknowledges every chunk in order, an upload of a range of a
    file (or of a plain stream) finishes without error.  The contents of the chunks, put
    together, are the requested bytes; chunk ids count from zero; exactly the final chunk
    is flagged last; no chunk exceeds the fragment size; every chunk is acknowledged; the
    tracker ends at the size.  At no point are more than [chunk_buffer + 1] chunks
    unacknowledged, and only acknowledgements of chunks sent before are consumed, so the
    upload never waits for its peer while its peer waits for it. *)
Theorem upload_complete read params B fs :
  0 < fs < 2 ^ 32 -> 0 <= B -> in_width 64 (SizeParams_size params) ->
  SizeParams_size params <= Z.of_nat (length (read_from read (SizeParams_offset params))) ->
  chunk_count fs (SizeParams_size params) + B < 2 ^ 32 - 1 ->
  let total := Z.to_nat (chunk_count fs (SizeParams_size params)) in
  exists s, mdsftp_upload read params (map Z.of_nat (seq 0 total)) B fs = (s, Ok tt)
    /\ upload_done read params fs total s
    /\ (forall pre, pre `prefix_of` up_trace s -> in_flight pre <= B + 1)
    /\ causal (up_trace s).
Proof.
  intros Hfs HB Hs Hlen Hcount total.
  destruct (upload_done_holds read params B fs Hfs HB Hs Hlen Hcount) as (s & E & D).
  destruct (upload_inv read params B fs Hfs HB Hs Hlen Hcount) as (s' & E' & HI).
  fold total in E, E'. rewrite E in E'. simplify_eq.
  exists s'. split_ands; [done|done|apply HI|apply HI].
Qed.

(** No acknowledgement received so far, nor to come, completes an upload of [T] chunks. *)
Definition not_acked (T : Z) (s : Upload) : Prop :=
  up_recv s <> T /\ Forall (fun a => wrap 32 (a + 1) <> T) (up_acks s).

Lemma wait_acks_not_acked T cond acks s s' r :
  up_recv s <> T -> Forall (fun a => wrap 32 (a + 1) <> T) acks -> acks = up_acks s ->
  wait_acks cond acks s = (s', r) -> not_acked T s'.
Proof.
  revert s. induction acks as [|a acks IH]; intros s Hr Ha Es; simpl;
    (destruct (cond (up_recv s)); [|intros [= <- _]; split; [done|by rewrite <- Es]]).
  - intros [= <- _]. split; [done|]. by rewrite <- Es.
  - apply Forall_cons in Ha as [Ha Has]. apply IH; simpl; done.
Qed.

Lemma up_wait_not_acked T cond s s' r :
  not_acked T s -> up_wait cond s = (s', r) -> not_acked T s'.
Proof. intros [Hr Ha]. by apply wait_acks_not_acked. Qed.

Lemma up_read_not_acked T n s c s' : not_acked T s -> up_read n s = Ok (c, s') -> not_acked T s'.
Proof. intros Hs. unfold up_read. case_decide; [|done]. by intros [= _ <-]. Qed.

Lemma send_fragments_not_acked T fs last F B n id s s' r :
  not_acked T s -> send_fragments fs last F B n id s = (s', r) -> not_acked T s'.
Proof.
  revert id s. induction n as [|n IH]; intros id s Hs; simpl; [by intros [= <- _]|].
  destruct (up_read _ s) as [[c s1]|e] eqn:E1; [|by intros [= <- _]].
  assert (H1 : not_acked T (up_send (bool_decide (wrap 32 (id + 1) = F /\ last = 0)) id c fs s1))
    by exact (up_read_not_acked T _ s c s1 Hs E1).
  destruct (up_wait _ _) as [s2 [u|e]] eqn:E2; pose proof (up_wait_not_acked T _ _ _ _ H1 E2) as H2.
  - by apply IH.
  - by intros [= <- _].
Qed.

Lemma send_last_not_acked T last F s s' r :
  not_acked T s -> send_last_chunk last F s = (s', r) -> not_acked T s'.
Proof.
  intros Hs. unfold send_last_chunk. destruct (send_last last F); [|by intros [= <- _]].
  destruct (up_read _ s) as [[c s1]|e] eqn:E1; [|by intros [= <- _]]. intros [= <- _].
  exact (up_read_not_acked T _ s c s1 Hs E1).
Qed.

(** A wait that succeeds ended with its condition false. *)
Lemma up_wait_ok cond s s' : up_wait cond s = (s', Ok tt) -> cond (up_recv s') = false.
Proof.
  unfold up_wait. generalize (up_acks s). intros acks. revert s.
  induction acks as [|a acks IH]; intros s; simpl; destruct (cond (up_recv s)) eqn:Hc; try done.
  - by intros [= <-].
  - apply IH.
  - by intros [= <-].
Qed.

Lemma chunk_count_sent fs size :
  0 < fs -> 0 <= size -> size / fs <= 2 ^ 32 - 2 ->
  wrap 32 (size / fs + (if send_last (size mod fs) (size / fs) then 1 else 0))
  = chunk_count fs size /\ 0 < chunk_count fs size.
Proof.
  intros Hfs Hs Hq. pose proof (Z.div_pos size fs ltac:(lia) ltac:(lia)).
  unfold chunk_count, send_last.
  destruct (decide (size mod fs <> 0 \/ size / fs = 0)) as [Hd|Hd];
    [rewrite bool_decide_true by done|rewrite bool_decide_false by done];
    (split; [apply wrap_small; unfold in_width|]); lia.
Qed.

(** No false success.  When none of the acknowledgements received is for the final
    chunk, the upload reports an error, whatever else it received. *)
Theorem upload_unacknowledged read params acks B fs :
  0 < fs -> in_width 64 (SizeParams_size params) ->
  Forall (fun a => wrap 32 (a + 1) <> chunk_count fs (SizeParams_size params)) acks ->
  exists e, snd (mdsftp_upload read params acks B fs) = Err e.
Proof.
  intros Hfs [Hs0 Hs64] Ha. unfold mdsftp_upload. set (size := SizeParams_size params) in *.
  case_decide as Hbig; [by eexists|].
  destruct (chunk_count_sent fs size) as [HT Hpos]; [lia|lia|lia|].
  set (T := chunk_count fs size) in *. set (s0 := mkUpload _ _ _ _ _).
  assert (H0 : not_acked T s0) by (split; [simpl; lia|done]).
  unfold transfer_fragments. rewrite HT.
  destruct (send_fragments _ _ _ _ _ _ s0) as [s1 [u|e]] eqn:E1; [|by eexists].
  pose proof (send_fragments_not_acked T _ _ _ _ _ _ _ _ _ H0 E1) as H1.
  destruct (send_last_chunk _ _ s1) as [s2 [u'|e]] eqn:E2; [|by eexists].
  pose proof (send_last_not_acked T _ _ _ _ _ H1 E2) as H2.
  destruct (up_wait _ (up_log Flushed s2)) as [s3 [[]|e]] eqn:E3; [exfalso|by eexists].
  destruct (up_wait_not_acked T _ (up_log Flushed s2) _ _ H2 E3) as [H3 _].
  apply up_wait_ok, bool_decide_eq_false in E3. by apply E3.
Qed.

(** Uploading nothing poisons the connection.  An upload of size zero sends one chunk
    without content, flagged last; sent over a channel, its packet fails the peer's
    pre-validation, which closes the peer's connection with all its channels. *)
Theorem empty_upload_rejected read range acks B fs now sid w :
  0 < fs -> SizeParams_size (mkSizeParams 0 range) = 0 ->
  in_width 32 sid -> writer_ready w -> ws_sent (w_stream w) = [] ->
  exists s w', fst (mdsftp_upload read (mkSizeParams 0 range) acks B fs) = s
    /\ sent_chunks (up_trace s) = [(true, 0, [])]
    /\ send_chunk now sid true 0 [] w = (w', Ok tt)
    /\ read_packet (ws_sent (w_stream w') ++ []) = PreValidateFailed.
Proof.
  intros Hfs Hsize Hsid Hw He.
  destruct (empty_chunk_rejected now sid true 0 w [] Hsid Hw He) as (w' & Ew & Er).
  eexists _, w'. split; [done|]. split; [|done]. unfold mdsftp_upload. rewrite Hsize.
  rewrite Z.div_0_l, Z.mod_0_l by lia. rewrite decide_False by lia.
  generalize (read_from read (SizeParams_offset (mkSizeParams 0 range))). intros bytes.
  unfold transfer_fragments, up_wait. simpl.
  assert (Hgen : forall acks s cond, sent_chunks (up_trace s) = [(true, 0, [])] ->
    sent_chunks (up_trace (fst (wait_acks cond acks s))) = [(true, 0, [])]).
  { clear. intros acks. induction acks as [|a acks IH]; intros s cond Hs; simpl;
      destruct (cond (up_recv s)); try done.
    apply IH. simpl. rewrite sent_chunks_app, Hs. done. }
  apply Hgen. done.
Qed.

(** ** Witnesses *)
Definition sample_file : list u8 := [0; 1; 2; 3; 4; 5; 6; 7; 8; 9; 10; 11].
Definition sample_params : SizeParams := mkSizeParams 12 (Some (mkChunkRange 2 9)).

Lemma upload_complete_witness :
  exists s, mdsftp_upload (SeekableStream sample_file) sample_params [0; 1; 2] 1 3 = (s, Ok tt)
    /\ sent_content (up_trace s) = [2; 3; 4; 5; 6; 7; 8].
Proof.
  destruct (upload_complete (SeekableStream sample_file) sample_params 1 3)
    as (s & E & D & _); [lia|lia|by vm_compute|by vm_compute|by vm_compute|].
  exists s. split; [exact E|exact (ud_content _ _ _ _ _ D)].
Defined.

Lemma upload_unacknowledged_witness :
  exists e, snd (mdsftp_upload (SeekableStream sample_file) sample_params [0; 1] 1 3) = Err e.
Proof.
  apply upload_unacknowledged; [lia|by vm_compute|].
  repeat constructor; by vm_compute.
Defined.

Lemma empty_upload_rejected_witness :
  exists s w', fst (mdsftp_upload (PlainStream []) (mkSizeParams 0 None) [0] 16 65535) = s
    /\ sent_chunks (up_trace s) = [(true, 0, [])]
    /\ send_chunk 0 7 true 0 [] (PacketWriter_new (mkWriteStream [] true) 0) = (w', Ok tt)
    /\ read_packet (ws_sent (w_stream w') ++ []) = PreValidateFailed.
Proof.
  apply empty_upload_rejected; [lia|reflexivity|by apply (bool_decide_unpack _)|done|done].
Defined.
