(* ===== verification/ChannelHandler.v ===== *)
(** * The node's channel handler

    [node/src/file_transfer/channel_handler.rs]: how a storage node answers the requests of
    a channel, over the fragment ledger and the file lock table.  The handler is the
    instance of the [ChannelPacketHandler] interface of [MdsftpChannel].

    The state of a handler includes the node-wide ledger and lock table it shares with the
    other handlers; what it sends, closes or starts is appended to [h_out].  Writes to the
    data directory succeed; a write to a file that was removed meanwhile is lost.  The
    clock is read from the state and ids come from [new_v4]. *)
From Stdlib Require Import ZArith Lia List.
From stdpp Require Import base numbers list gmap.
From S2P Require Import Prelude Errors MdsftpData MdsftpWire MdsftpChannel MetaStore.
From S2P Require Import FragmentLedger LockTable TransferManager.
Local Open Scope Z_scope.

Definition BUFFER_SIZE : u16 := 10.

Record ReservationDetails : Type := mkDetails {
  rd_id : Uuid;
  rd_size : u64;
  rd_durable : bool
}.

(** Where received chunks go: the uncommited file of a fragment, or a client's stream. *)
Inductive ReceiveStream : Type :=
| ToFragment (id : Uuid)
| ToClient (written : list u8).

Inductive Output : Type :=
| Send (p : MDSFTPRawPacket)
| CloseChannel (r : MDSFTPResult unit)
| StartUpload (read : option ReadStream) (params : SizeParams) (chunk_buffer : u16)
    (fragment_size : u32)
| ForwardAck (id : u32)
| ClientStreamDone (written : list u8) (shut_down : bool)
| CancelUpload.

Record Handler (M : Type) : Type := mkHandler {
  h_ledger : Ledger M;
  h_locks : LockTable Uuid;
  h_now : Z;
  h_ids : nat;
  h_sid : u32;
  h_out : list Output;
  read_guard : option nat;
  write_guard : option nat;
  recv_ack_sender : bool;
  h_chunk_buffer : u16;
  h_fragment_size : u32;
  reservation_details : option ReservationDetails;
  auto_close : bool;
  receive_file_stream : option ReceiveStream;
  upload_file_stream : option (list u8);
  upload_local_file_stream : option (list u8);
  upload_cancel : bool;
  data_transferred : u64
}.
Arguments mkHandler {M}.
Arguments h_ledger {M}.
Arguments h_locks {M}.
Arguments h_now {M}.
Arguments h_ids {M}.
Arguments h_sid {M}.
Arguments h_out {M}.
Arguments read_guard {M}.
Arguments write_guard {M}.
Arguments recv_ack_sender {M}.
Arguments h_chunk_buffer {M}.
Arguments h_fragment_size {M}.
Arguments reservation_details {M}.
Arguments auto_close {M}.
Arguments receive_file_stream {M}.
Arguments upload_file_stream {M}.
Arguments upload_local_file_stream {M}.
Arguments upload_cancel {M}.
Arguments data_transferred {M}.

Section handler.
  Context {M : Type} `{ExtFragmentMetaStore M}.
  (** The ids drawn by [Uuid::new_v4], and the blocks a file of some content takes. *)
  Variable new_v4 : nat -> Uuid.
  Variable blocks : list u8 -> u64.
  Implicit Types h : Handler M.

Definition Handler_new (ledger : Ledger M) (locks : LockTable Uuid) (now : Z) (ids : nat)
    (sid : u32) (chunk_buffer : u16) (fragment_size : u32) : Handler M :=
  mkHandler ledger locks now ids sid [] None None false chunk_buffer fragment_size None true
    None None None false 0.

(** ** Field updates *)
Definition with_ledger (L : Ledger M) h : Handler M :=
  mkHandler L (h_locks h) (h_now h) (h_ids h) (h_sid h) (h_out h) (read_guard h) (write_guard h)
    (recv_ack_sender h) (h_chunk_buffer h) (h_fragment_size h) (reservation_details h)
    (auto_close h) (receive_file_stream h) (upload_file_stream h) (upload_local_file_stream h)
    (upload_cancel h) (data_transferred h).
Definition out (os : list Output) h : Handler M :=
  mkHandler (h_ledger h) (h_locks h) (h_now h) (h_ids h) (h_sid h) (h_out h ++ os) (read_guard h)
    (write_guard h) (recv_ack_sender h) (h_chunk_buffer h) (h_fragment_size h)
    (reservation_details h) (auto_close h) (receive_file_stream h) (upload_file_stream h)
    (upload_local_file_stream h) (upload_cancel h) (data_transferred h).
Definition with_details (d : option ReservationDetails) h : Handler M :=
  mkHandler (h_ledger h) (h_locks h) (h_now h) (h_ids h) (h_sid h) (h_out h) (read_guard h)
    (write_guard h) (recv_ack_sender h) (h_chunk_buffer h) (h_fragment_size h) d (auto_close h)
    (receive_file_stream h) (upload_file_stream h) (upload_local_file_stream h)
    (upload_cancel h) (data_transferred h).
Definition with_receive (r : option ReceiveStream) h : Handler M :=
  mkHandler (h_ledger h) (h_locks h) (h_now h) (h_ids h) (h_sid h) (h_out h) (read_guard h)
    (write_guard h) (recv_ack_sender h) (h_chunk_buffer h) (h_fragment_size h)
    (reservation_details h) (auto_close h) r (upload_file_stream h) (upload_local_file_stream h)
    (upload_cancel h) (data_transferred h).
Definition with_transferred (n : u64) h : Handler M :=
  mkHandler (h_ledger h) (h_locks h) (h_now h) (h_ids h) (h_sid h) (h_out h) (read_guard h)
    (write_guard h) (recv_ack_sender h) (h_chunk_buffer h) (h_fragment_size h)
    (reservation_details h) (auto_close h) (receive_file_stream h) (upload_file_stream h)
    (upload_local_file_stream h) (upload_cancel h) n.
(** The streams an upload reads from. *)
Definition with_upload (client local : option (list u8)) h : Handler M :=
  mkHandler (h_ledger h) (h_locks h) (h_now h) (h_ids h) (h_sid h) (h_out h) (read_guard h)
    (write_guard h) (recv_ack_sender h) (h_chunk_buffer h) (h_fragment_size h)
    (reservation_details h) (auto_close h) (receive_file_stream h) client local
    (upload_cancel h) (data_transferred h).
Definition with_locks (t : LockTable Uuid) (rg wg : option nat) h : Handler M :=
  mkHandler (h_ledger h) t (h_now h) (h_ids h) (h_sid h) (h_out h) rg wg (recv_ack_sender h)
    (h_chunk_buffer h) (h_fragment_size h) (reservation_details h) (auto_close h)
    (receive_file_stream h) (upload_file_stream h) (upload_local_file_stream h)
    (upload_cancel h) (data_transferred h).
Definition with_ids (n : nat) h : Handler M :=
  mkHandler (h_ledger h) (h_locks h) (h_now h) n (h_sid h) (h_out h) (read_guard h)
    (write_guard h) (recv_ack_sender h) (h_chunk_buffer h) (h_fragment_size h)
    (reservation_details h) (auto_close h) (receive_file_stream h) (upload_file_stream h)
    (upload_local_file_stream h) (upload_cancel h) (data_transferred h).
(** The acknowledgement channel and the cancellation token of a running upload. *)
Definition with_upload_control h : Handler M :=
  mkHandler (h_ledger h) (h_locks h) (h_now h) (h_ids h) (h_sid h) (h_out h) (read_guard h)
    (write_guard h) true (h_chunk_buffer h) (h_fragment_size h)
    (reservation_details h) (auto_close h) (receive_file_stream h) (upload_file_stream h)
    (upload_local_file_stream h) true (data_transferred h).

Definition drop_old (g : option nat) (t : LockTable Uuid) : LockTable Uuid :=
  match g with Some gid => drop_guard gid t | None => t end.

(** Storing a new guard drops the one it replaces. *)
Definition take_write_guard (id : Uuid) h : Handler M * bool :=
  match try_write id (h_locks h) with
  | (t, Ok g) => (with_locks (drop_old (write_guard h) t) (read_guard h) (Some g) h, true)
  | (t, Err _) => (with_locks t (read_guard h) (write_guard h) h, false)
  end.

Definition take_read_guard (id : Uuid) h : Handler M * bool :=
  match try_read id (h_locks h) with
  | (t, Ok g) => (with_locks (drop_old (read_guard h) t) (Some g) (write_guard h) h, true)
  | (t, Err _) => (with_locks t (read_guard h) (write_guard h) h, false)
  end.

Definition start_receiving (id : Uuid) (append : bool) h : Handler M * MDSFTPResult unit :=
  match take_write_guard id h with
  | (h, false) => (h, Err ReservationError)
  | (h, true) =>
      let L := if append then fragment_append_stream id (h_ledger h)
               else fragment_write_stream id (h_ledger h) in
      (with_receive (Some (ToFragment id)) (with_ledger L h), Ok tt)
  end.

(** Spawns [mdsftp_upload] on the client's stream if there is one, else on the fragment;
    without either the channel is closed. *)
Definition start_uploading (size : u64) (chunk_buffer : u16) (range : option ChunkRange) h
    : Handler M :=
  let read := match upload_file_stream h, upload_local_file_stream h with
              | Some bytes, _ => Some (PlainStream bytes)
              | None, Some bytes => Some (SeekableStream bytes)
              | None, None => None
              end in
  out [match read with
       | Some _ => StartUpload read (mkSizeParams size range) chunk_buffer (h_fragment_size h)
       | None => CloseChannel (Err Internal)
       end] (with_upload_control h).

(** [write_all] to the receive stream. *)
Definition write_stream (chunk : list u8) (s : ReceiveStream) h : Handler M :=
  match s with
  | ToFragment id =>
      match files (h_ledger h) !! get_path id true with
      | Some f =>
          let c := content f ++ chunk in
          with_ledger (write_file id (mkFragFile c (blocks c)) (h_ledger h)) h
      | None => h
      end
  | ToClient written => with_receive (Some (ToClient (written ++ chunk))) h
  end.

(** The end of the receive stream: shut down, or only flushed when it must stay open. *)
Definition finish_stream (shut_down : bool) (s : ReceiveStream) h : Handler M :=
  match s with
  | ToFragment _ => h
  | ToClient written => out [ClientStreamDone written shut_down] h
  end.

Definition handle_file_chunk (chunk : list u8) (id : u32) (is_last : bool) h
    : Handler M * MDSFTPResult unit :=
  match receive_file_stream h with
  | None => (h, Err ConnectionError)
  | Some stream =>
      let h1 := write_stream chunk stream h in
      let h2 := with_transferred
        (u64_add (data_transferred h1) (Z.of_nat (length chunk))) h1 in
      if is_last then
        let h3 := match receive_file_stream h2 with
                  | Some s => finish_stream (auto_close h2) s h2
                  | None => h2
                  end in
        let h4 := with_receive None h3 in
        let '(h5, released) :=
          match reservation_details h4 with
          | Some details =>
              let '(L, r) := release_reservation (h_now h4) (rd_id details) (rd_size details)
                               (h_ledger h4) in
              (with_ledger L h4, is_ok r)
          | None => (h4, true)
          end in
        if (released : bool) then
          (out [Send (respond_receive_ack (h_sid h5) id); CloseChannel (Ok tt)] h5, Ok tt)
        else (h5, Err ReservationError)
      else (out [Send (respond_receive_ack (h_sid h2) id)] h2, Ok tt)
  end.

Definition handle_retrieve (id : Uuid) (chunk_buffer : u16) (range : option ChunkRange) h
    : Handler M * MDSFTPResult unit :=
  match existing_fragment_meta id (h_ledger h) with
  | None => (h, Err NoSuchChunkId)
  | Some meta =>
      let size := meta_content_size meta in
      match take_read_guard id h with
      | (h, false) => (h, Err ReservationError)
      | (h, true) =>
          match fragment_read_stream id (h_ledger h) with
          | Err _ => (h, Err RemoteError)
          | Ok bytes =>
              let h := with_upload (upload_file_stream h) (Some bytes) h in
              (start_uploading size chunk_buffer range h, Ok tt)
          end
      end
  end.

Definition put_rejected (kind : ChunkErrorKind) h : Handler M :=
  out [Send (respond_put_err (h_sid h) kind); CloseChannel (Ok tt)] h.

Definition handle_put (flags : PutFlags) (chunk_id : Uuid) (content_size : u64) h
    : Handler M * MDSFTPResult unit :=
  let '(L, r) := resume_reservation (h_now h) chunk_id (h_ledger h) in
  let h := with_ledger L h in
  match r with
  | Ok reservation =>
      if decide (content_size = u64_sub (file_space reservation) (completed reservation)) then
        let h := with_details (Some (mkDetails chunk_id (file_space reservation)
                                               (res_durable reservation))) h in
        match start_receiving chunk_id (append flags) h with
        | (h, Ok _) => (out [Send (respond_put_ok (h_sid h) (h_chunk_buffer h))] h, Ok tt)
        | (h, Err e) => (h, Err e)
        end
      else (put_rejected NotAvailable h, Ok tt)
  | Err IoNotFound => (put_rejected NotFound h, Ok tt)
  | Err _ => (put_rejected NotAvailable h, Ok tt)
  end.

Definition handle_reserve (desired_size : u64) (associated_bucket_id associated_file_id : Uuid)
    (flags : ReserveFlags) h : Handler M * MDSFTPResult unit :=
  let '(L, r) := try_reserve (h_now h) (new_v4 (h_ids h)) desired_size associated_bucket_id
                   associated_file_id (durable flags) (h_ledger h) in
  let h := with_ids (S (h_ids h)) (with_ledger L h) in
  match r with
  | Ok id =>
      let h := with_details (Some (mkDetails id desired_size (durable flags))) h in
      let '(h, started) := if auto_start flags then start_receiving id false h else (h, Ok tt) in
      match started with
      | Err e => (h, Err e)
      | Ok _ =>
          let h := out [Send (respond_reserve_ok (h_sid h) id (h_chunk_buffer h))] h in
          if temp flags then
            let '(L, r) := pause_reservation (h_now h) id (h_ledger h) in
            let h := with_ledger L h in
            (out [CloseChannel (if is_ok r then Ok tt else Err Internal)] h, Ok tt)
          else (h, Ok tt)
      end
  | Err _ =>
      (out [Send (respond_reserve_err (h_sid h) (get_available_space (h_ledger h)));
            CloseChannel (Ok tt)] h, Ok tt)
  end.

Definition handle_lock_req (chunk_id : Uuid) (kind : LockKind) h : Handler M * MDSFTPResult unit :=
  if fragment_exists chunk_id (h_ledger h) then
    let '(h, taken) := match kind with
                       | LockRead => take_read_guard chunk_id h
                       | LockWrite => take_write_guard chunk_id h
                       end in
    ((if (taken : bool) then h
      else out [Send (respond_lock_err (h_sid h) chunk_id kind NotAvailable)] h), Ok tt)
  else
    (out [Send (respond_lock_err (h_sid h) chunk_id kind NotFound); CloseChannel (Ok tt)] h, Ok tt).

Definition handle_receive_ack (chunk_id : u32) h : Handler M * MDSFTPResult unit :=
  if recv_ack_sender h then (out [ForwardAck chunk_id] h, Ok tt) else (h, Err ConnectionError).

Definition handle_reserve_cancel (chunk_id : Uuid) h : Handler M * MDSFTPResult unit :=
  let '(L, _) := cancel_reservation chunk_id (h_ledger h) in
  (out [CloseChannel (Ok tt)] (with_ledger L h), Ok tt).

Definition handle_delete_chunk (chunk_id : Uuid) h : Handler M * MDSFTPResult unit :=
  let '(L, _) := delete_chunk chunk_id (h_ledger h) in
  (out [CloseChannel (Ok tt)] (with_ledger L h), Ok tt).

Definition handle_commit (chunk_id : Uuid) (flags : CommitFlags) h
    : Handler M * MDSFTPResult unit :=
  let L :=
    if final flags then fst (commit_chunk chunk_id (h_ledger h))
    else if keep_alive flags then fst (commit_alive (h_now h) chunk_id (h_ledger h))
    else if reject flags then fst (delete_chunk chunk_id (h_ledger h))
    else h_ledger h in
  (out [Send (respond_commit_ok (h_sid h)); CloseChannel (Ok tt)] (with_ledger L h), Ok tt).

Definition handle_query (chunk_id : Uuid) h : Handler M * MDSFTPResult unit :=
  let p := match existing_or_reserved_fragment_meta chunk_id (h_ledger h) with
           | Some data => respond_query (h_sid h) (meta_content_size data) true
           | None => respond_query (h_sid h) 0 false
           end in
  (out [Send p; CloseChannel (Ok tt)] h, Ok tt).

Definition handle_interrupted h : Handler M * MDSFTPResult unit :=
  let h := if upload_cancel h then out [CancelUpload] h else h in
  let h := match receive_file_stream h with
           | None => h
           | Some s => with_receive None (finish_stream true s h)
           end in
  let h := with_upload None (upload_local_file_stream h) h in
  match reservation_details h with
  | Some details =>
      let '(L, r) := release_reservation (h_now h) (rd_id details) (data_transferred h)
                       (h_ledger h) in
      (with_ledger L h, if is_ok r then Ok tt else Err ReservationError)
  | None => (h, Ok tt)
  end.

(** [delegate_upload] and [delegate_download] *)
Definition delegate_upload (source : list u8) (size : u64) (chunk_buffer : u16) h : Handler M :=
  start_uploading size chunk_buffer None
    (with_upload (Some source) (upload_local_file_stream h) h).

Definition delegate_download (auto_close : bool) h : Handler M :=
  mkHandler (h_ledger h) (h_locks h) (h_now h) (h_ids h) (h_sid h) (h_out h) (read_guard h)
    (write_guard h) (recv_ack_sender h) (h_chunk_buffer h) (h_fragment_size h)
    (reservation_details h) auto_close (Some (ToClient [])) (upload_file_stream h)
    (upload_local_file_stream h) (upload_cancel h) (data_transferred h).

#[global] Instance node_handler : ChannelPacketHandler (Handler M) := {
  handle_call := fun call h =>
    match call with
    | HandleFileChunk chunk id is_last => handle_file_chunk chunk id is_last h
    | HandleRetrieve id chunk_buffer range => handle_retrieve id chunk_buffer range h
    | HandlePut flags chunk_id size => handle_put flags chunk_id size h
    | HandleReserve desired bucket file flags => handle_reserve desired bucket file flags h
    | HandleReserveCancel chunk_id => handle_reserve_cancel chunk_id h
    | HandleLockReq chunk_id kind => handle_lock_req chunk_id kind h
    | HandleReceiveAck chunk_id => handle_receive_ack chunk_id h
    | HandleDeleteChunk chunk_id => handle_delete_chunk chunk_id h
    | HandleCommit chunk_id flags => handle_commit chunk_id flags h
    | HandleQuery chunk_id => handle_query chunk_id h
    end;
  handle_interrupt := handle_interrupted
}.

(** The packets of an output, in order. *)
Definition packets (os : list Output) : list MDSFTPRawPacket :=
  omap (fun o => match o with Send p => Some p | _ => None end) os.

(** A receiver's side of an upload: the chunks one after the other, until an error. *)
Fixpoint receive_chunks (cs : list (bool * u32 * list u8)) h : Handler M * MDSFTPResult unit :=
  match cs with
  | [] => (h, Ok tt)
  | (is_last, id, c) :: cs =>
      match handle_file_chunk c id is_last h with
      | (h, Ok _) => receive_chunks cs h
      | (h, Err e) => (h, Err e)
      end
  end.
End handler.
