(* ===== verification/HandlerCorrect.v ===== *)
(** * Correctness of the channel handler

    No request of a peer breaks the ledger's accounting; a whole transfer between two nodes
    stores exactly the bytes asked for; and what the handler does in the cases where the
    answer of the code is surprising (an early last chunk, a second interruption of a
    resumed upload, a granted lock). *)
From Stdlib Require Import ZArith Lia List.
From stdpp Require Import base numbers list gmap.
From S2P Require Import Prelude Errors MdsftpData MdsftpWire MdsftpChannel MetaStore.
From S2P Require Import FragmentLedger LedgerCorrect LockTable TransferManager ChannelHandler.
Local Open Scope Z_scope.

Section correct.
  Context {M : Type} `{ExtFragmentMetaStore M}.
  Variable new_v4 : nat -> Uuid.
  Variable blocks : list u8 -> u64.
  Implicit Types h : Handler M.

(** ** The ledger under the handler *)
Lemma take_write_guard_ledger id h : h_ledger (fst (take_write_guard id h)) = h_ledger h.
Proof. unfold take_write_guard. by destruct (try_write id (h_locks h)) as [t []]. Qed.

Lemma take_read_guard_ledger id h : h_ledger (fst (take_read_guard id h)) = h_ledger h.
Proof. unfold take_read_guard. by destruct (try_read id (h_locks h)) as [t []]. Qed.

Lemma start_receiving_inv id app h :
  ledger_inv (h_ledger h) -> ledger_inv (h_ledger (fst (start_receiving id app h))).
Proof.
  intros HI. unfold start_receiving. pose proof (take_write_guard_ledger id h) as E.
  destruct (take_write_guard id h) as [h1 []]; simpl in *; rewrite E; [|done].
  destruct app; [by apply fragment_append_stream_inv|by apply (write_file_inv id (mkFragFile [] 0))].
Qed.

Lemma write_stream_inv chunk s h :
  ledger_inv (h_ledger h) -> ledger_inv (h_ledger (write_stream blocks chunk s h)).
Proof.
  intros HI. unfold write_stream. destruct s; [|done]. destruct (files _ !! _); [|done].
  by apply write_file_inv.
Qed.

Lemma finish_stream_ledger b s h : h_ledger (finish_stream b s h) = h_ledger h.
Proof. by destruct s. Qed.

Lemma handle_file_chunk_inv chunk id is_last h :
  ledger_inv (h_ledger h) -> ledger_inv (h_ledger (fst (handle_file_chunk blocks chunk id is_last h))).
Proof.
  intros HI. unfold handle_file_chunk. destruct (receive_file_stream h) as [s|]; [|done].
  pose proof (write_stream_inv chunk s h HI) as HI1.
  destruct is_last; [|done]. set (h2 := with_transferred _ _).
  set (h4 := with_receive None _).
  assert (HI4 : ledger_inv (h_ledger h4)).
  { unfold h4. simpl. destruct (receive_file_stream (write_stream blocks chunk s h)); [|done].
    by rewrite finish_stream_ledger. }
  destruct (reservation_details h4) as [d|]; [|done].
  pose proof (release_inv (h_now h4) (rd_id d) (rd_size d) (h_ledger h4) HI4) as HI5.
  destruct (release_reservation _ _ _ _) as [L [u|e]]; done.
Qed.

Lemma handle_put_inv flags id n h :
  ledger_inv (h_ledger h) -> ledger_inv (h_ledger (fst (handle_put flags id n h))).
Proof.
  intros HI. unfold handle_put, resume_reservation.
  pose proof (refresh_inv (h_now h) id (h_ledger h) HI) as HI1.
  destruct (refresh_reservation _ _ _) as [L [r|[]]]; simpl in HI1; try done.
  case_decide; [|done].
  match goal with |- context [start_receiving id (append flags) ?g] =>
    pose proof (start_receiving_inv id (append flags) g HI1) as HI2;
    destruct (start_receiving id (append flags) g) as [h2 []]; done end.
Qed.

Lemma handle_reserve_inv n b f flags h :
  reservation_map (h_ledger h) !! new_v4 (h_ids h) = None ->
  chunk_set (h_ledger h) !! new_v4 (h_ids h) = None ->
  ledger_inv (h_ledger h) -> ledger_inv (h_ledger (fst (handle_reserve new_v4 n b f flags h))).
Proof.
  intros Hr Hc HI. unfold handle_reserve.
  pose proof (try_reserve_inv (h_now h) _ n b f (durable flags) (h_ledger h) Hr Hc HI) as HI1.
  destruct (try_reserve _ _ _ _ _ _ _) as [L [id|e]]; simpl in HI1; [|done].
  set (h1 := with_details _ _).
  assert (HI2 : ledger_inv (h_ledger (fst (if auto_start flags then start_receiving id false h1
    else (h1, Ok tt))))) by (destruct (auto_start flags); [by apply start_receiving_inv|done]).
  destruct (if auto_start flags then _ else _) as [h2 [u|e]]; [|done]. simpl in HI2.
  destruct (temp flags); [|done]. unfold pause_reservation. simpl.
  pose proof (refresh_inv (h_now h2) id (h_ledger h2) HI2) as HI3.
  by destruct (refresh_reservation _ _ _) as [L' [r|e]].
Qed.

Lemma handle_commit_inv id flags h :
  ledger_inv (h_ledger h) -> ledger_inv (h_ledger (fst (handle_commit id flags h))).
Proof.
  intros HI. unfold handle_commit. simpl. destruct (final flags); [by apply commit_chunk_inv|].
  destruct (keep_alive flags); [by apply commit_alive_inv|].
  destruct (reject flags); [by apply delete_chunk_inv|done].
Qed.

Lemma handle_interrupted_inv h :
  ledger_inv (h_ledger h) -> ledger_inv (h_ledger (fst (handle_interrupted h))).
Proof.
  intros HI. unfold handle_interrupted.
  set (h1 := if upload_cancel h then _ else _).
  assert (HI1 : ledger_inv (h_ledger h1)) by (unfold h1; by destruct (upload_cancel h)).
  set (h2 := match receive_file_stream h1 with Some _ => _ | None => _ end).
  assert (HI2 : ledger_inv (h_ledger h2)).
  { unfold h2. destruct (receive_file_stream h1); [|done]. simpl. by rewrite finish_stream_ledger. }
  simpl. destruct (reservation_details h2) as [d|]; [|done].
  pose proof (release_inv (h_now h2) (rd_id d) (data_transferred h2) (h_ledger h2) HI2) as HI3.
  by destruct (release_reservation _ _ _ _) as [L [u|e]].
Qed.

(** C19: no request of a peer breaks the accounting.  Whatever call a peer makes on a channel
    of the node, with whatever arguments and in whatever state of the handler, and whenever
    the channel is interrupted, the ledger's counters keep agreeing with its maps and its
    fragments with their files, as long as new chunk ids are new. *)
Theorem handler_keeps_accounting call h :
  ledger_inv (h_ledger h) ->
  reservation_map (h_ledger h) !! new_v4 (h_ids h) = None ->
  chunk_set (h_ledger h) !! new_v4 (h_ids h) = None ->
  ledger_inv (h_ledger (fst (@handle_call _ (node_handler new_v4 blocks) call h)))
  /\ ledger_inv (h_ledger (fst (@handle_interrupt _ (node_handler new_v4 blocks) h))).
Proof.
  intros HI Hr Hc. split; [|by apply handle_interrupted_inv].
  destruct call as [chunk id is_last|id cb range|flags id n|n b f flags|id|id kind|id|id|id flags|id];
    cbn [handle_call node_handler].
  - by apply handle_file_chunk_inv.
  - unfold handle_retrieve. destruct (existing_fragment_meta id (h_ledger h)); [|done].
    pose proof (take_read_guard_ledger id h) as E.
    destruct (take_read_guard id h) as [h1 []]; simpl in E; [|by simpl; rewrite E].
    by destruct (fragment_read_stream id (h_ledger h1)); simpl; rewrite E.
  - by apply handle_put_inv.
  - by apply handle_reserve_inv.
  - unfold handle_reserve_cancel. pose proof (cancel_inv id (h_ledger h) HI) as HI1.
    by destruct (cancel_reservation id (h_ledger h)).
  - unfold handle_lock_req. destruct (fragment_exists id (h_ledger h)); [|done].
    destruct kind; [pose proof (take_read_guard_ledger id h) as E; destruct (take_read_guard id h) as [h1 []]
      |pose proof (take_write_guard_ledger id h) as E; destruct (take_write_guard id h) as [h1 []]];
      simpl in *; by rewrite E.
  - unfold handle_receive_ack. by destruct (recv_ack_sender h).
  - unfold handle_delete_chunk. pose proof (delete_chunk_inv id (h_ledger h) HI) as HI1.
    by destruct (FragmentLedger.delete_chunk id (h_ledger h)).
  - by apply handle_commit_inv.
  - done.
Qed.

(** ** A transfer, end to end *)
(** What a put finds on disk: the fragment's uncommited file when it appends. *)
Definition old_content (flags : PutFlags) (fid : Uuid) (L : Ledger M) : list u8 :=
  if append flags then from_option content [] (files L !! (fid, true)) else [].

(** The handler is receiving fragment [fid]: [pre] is on disk so far. *)
Record receiving (fid : Uuid) (r : Reservation) (pre : list u8) h : Prop := {
  rc_stream : receive_file_stream h = Some (ToFragment fid);
  rc_file : exists f, files (h_ledger h) !! (fid, true) = Some f /\ content f = pre;
  rc_details : exists d, reservation_details h = Some d /\ rd_id d = fid /\ rd_size d = file_space r;
  rc_reserved : reservation_map (h_ledger h) !! fid = Some r;
  rc_uncommited : is_Some (uncommited_map (h_ledger h) !! fid)
}.

Lemma packets_app os1 os2 : packets (os1 ++ os2) = packets os1 ++ packets os2.
Proof. apply omap_app. Qed.

(** A chunk that is not the last is appended and acknowledged. *)
Lemma receive_chunk_step fid r pre c id h :
  receiving fid r pre h ->
  exists h', handle_file_chunk blocks c id false h = (h', Ok tt)
    /\ receiving fid r (pre ++ c) h' /\ h_sid h' = h_sid h
    /\ packets (h_out h') = packets (h_out h) ++ [respond_receive_ack (h_sid h) id].
Proof.
  intros [Hs (f & Hf & Hc) (d & Hd & Hid & Hsz) Hr Hu].
  unfold handle_file_chunk, write_stream, get_path. rewrite Hs, Hf. eexists. split; [done|].
  split; [|split; [done|simpl; by rewrite packets_app]].
  split; simpl; [done| |by exists d|done|done].
  exists (mkFragFile (content f ++ c) (blocks (content f ++ c))).
  split; [apply lookup_insert_eq|by rewrite <- Hc].
Qed.

(** The last chunk completes the fragment. *)
Lemma receive_last_step fid r pre c id h :
  receiving fid r pre h ->
  exists h', handle_file_chunk blocks c id true h = (h', Ok tt)
    /\ chunk_set (h_ledger h') !! fid = Some (mkFragmentMeta (file_space r) (blocks (pre ++ c)))
    /\ reservation_map (h_ledger h') !! fid = None
    /\ files (h_ledger h') !! (fid, true) = Some (mkFragFile (pre ++ c) (blocks (pre ++ c)))
    /\ packets (h_out h') = packets (h_out h) ++ [respond_receive_ack (h_sid h) id].
Proof.
  intros [Hs (f & Hf & Hc) (d & Hd & Hid & Hsz) Hr Hu].
  unfold handle_file_chunk, write_stream, get_path. rewrite Hs, Hf. simpl. rewrite Hs. simpl.
  rewrite Hd. unfold release_reservation. simpl. rewrite Hid, Hr, Hsz.
  rewrite bool_decide_true, bool_decide_true by done. unfold get_path.
  rewrite lookup_insert_eq. eexists. split; [done|]. simpl. unfold get_path.
  rewrite lookup_insert_eq, lookup_delete_eq, lookup_insert_eq, <- Hc.
  split_ands; try done. by rewrite packets_app.
Qed.

Lemma receive_chunks_spec fid r cs id c pre h :
  Forall (fun x => x.1.1 = false) cs -> receiving fid r pre h ->
  exists h', receive_chunks blocks (cs ++ [(true, id, c)]) h = (h', Ok tt)
    /\ chunk_set (h_ledger h') !! fid
       = Some (mkFragmentMeta (file_space r) (blocks (pre ++ concat (map snd cs) ++ c)))
    /\ reservation_map (h_ledger h') !! fid = None
    /\ files (h_ledger h') !! (fid, true)
       = Some (mkFragFile (pre ++ concat (map snd cs) ++ c) (blocks (pre ++ concat (map snd cs) ++ c)))
    /\ packets (h_out h')
       = packets (h_out h) ++ map (respond_receive_ack (h_sid h)) (map (fun x => x.1.2) cs ++ [id]).
Proof.
  intros Hcs. revert pre h. induction Hcs as [|[[l i] c0] cs Hl _ IH]; intros pre h Hrc.
  - destruct (receive_last_step fid r pre c id h Hrc) as (h' & E & H1 & H2 & H3 & H4).
    exists h'. simpl. rewrite E. done.
  - simpl in Hl. subst l. destruct (receive_chunk_step fid r pre c0 i h Hrc) as (h1 & E1 & R1 & S1 & P1).
    destruct (IH (pre ++ c0) h1 R1) as (h2 & E2 & H1 & H2 & H3 & H4).
    exists h2. simpl. rewrite E1. rewrite <- !app_assoc in *. split_ands; [done|done|done|done|].
    rewrite H4, P1, S1. simpl. by rewrite <- app_assoc.
Qed.

(** The chunks of a finished upload: all but the last are unflagged. *)
Lemma upload_done_split read params fs total s :
  (0 < total)%nat -> upload_done read params fs total s ->
  exists cs id c, sent_chunks (up_trace s) = cs ++ [(true, id, c)]
    /\ Forall (fun x => x.1.1 = false) cs
    /\ map (fun x => x.1.2) cs ++ [id] = map Z.of_nat (seq 0 total).
Proof.
  intros Hpos D. pose proof (ud_count _ _ _ _ _ D) as Hlen.
  destruct (list_eq_nil_dec (sent_chunks (up_trace s))) as [E|E]; [rewrite E in Hlen; simpl in Hlen; lia|].
  destruct (exists_last E) as (cs & [[l id] c] & Ec). rewrite Ec in Hlen.
  rewrite length_app in Hlen. simpl in Hlen.
  assert (Hl : (cs ++ [(l, id, c)]) !! length cs = Some (l, id, c))
    by (by rewrite lookup_app_r, Nat.sub_diag by lia).
  rewrite <- Ec in Hl. destruct (ud_chunks _ _ _ _ _ D _ _ _ _ Hl) as (Hid & Hflag & _).
  assert (l = true) as -> by (apply Hflag; lia).
  exists cs, id, c. split; [done|]. split.
  - apply Forall_lookup. intros i [[l' id'] c'] Hi. simpl.
    assert (Hi' : sent_chunks (up_trace s) !! i = Some (l', id', c')) by (rewrite Ec; by apply lookup_app_l_Some).
    destruct (ud_chunks _ _ _ _ _ D _ _ _ _ Hi') as (_ & Hf & _).
    destruct l'; [|done]. apply lookup_lt_Some in Hi. pose proof (proj1 Hf eq_refl). lia.
  - assert (Hids : map (fun x => x.1.2) (sent_chunks (up_trace s)) = map Z.of_nat (seq 0 total)).
    { apply list_eq. intros i. rewrite !list_lookup_fmap.
      destruct (sent_chunks (up_trace s) !! i) as [[[l' id'] c']|] eqn:Hi; simpl.
      - destruct (ud_chunks _ _ _ _ _ D _ _ _ _ Hi) as (-> & _). apply lookup_lt_Some in Hi.
        rewrite lookup_seq_lt; [done|]. rewrite Ec, length_app in Hi. simpl in Hi. lia.
      - apply lookup_ge_None in Hi. rewrite lookup_seq_ge; [done|].
        rewrite Ec, length_app in Hi. simpl in Hi. lia. }
    rewrite <- Hids, Ec, map_app. done.
Qed.

(** A put whose size is what is left of the reservation starts the reception. *)
Lemma put_starts flags fid r n t g h :
  reservation_map (h_ledger h) !! fid = Some r -> n = u64_sub (file_space r) (completed r) ->
  is_Some (uncommited_map (h_ledger h) !! fid) -> try_write fid (h_locks h) = (t, Ok g) ->
  let r' := mkReservation (file_space r) (completed r) (res_durable r) (h_now h) in
  exists h1, handle_put flags fid n h = (h1, Ok tt)
    /\ receiving fid r' (old_content flags fid (h_ledger h)) h1 /\ h_sid h1 = h_sid h
    /\ data_transferred h1 = data_transferred h
    /\ packets (h_out h1) = packets (h_out h) ++ [respond_put_ok (h_sid h) (h_chunk_buffer h)].
Proof.
  intros Hr Hn Hu Hl r'. unfold handle_put, resume_reservation, refresh_reservation. rewrite Hr. simpl.
  rewrite decide_True by done. unfold start_receiving, take_write_guard. simpl. rewrite Hl. simpl.
  eexists. split; [done|]. split; [|split_ands; [done|done|simpl; by rewrite packets_app]].
  split; simpl; [done| |by eexists| |];
    destruct (append flags) eqn:Ea; unfold fragment_append_stream, old_content, get_path; rewrite ?Ea; simpl;
    try (destruct (files (h_ledger h) !! (fid, true)) as [f|] eqn:Ef; simpl);
    try done; try apply lookup_insert_eq; eexists;
    first [by split; [apply lookup_insert_eq|]|done].
Qed.

(** C2: a transfer between two nodes, end to end.  A receiver holding a reservation with the
    fragment's lock free accepts a put of what is left of it; the sender, fed one
    acknowledgement per chunk, finishes its upload; the receiver accepts every chunk the
    sender sent and answers with exactly the acknowledgements the sender consumed; and the
    fragment is then stored: the bytes it already had followed by exactly the requested
    bytes, accounted with the reserved size and the blocks they take. *)
Theorem transfer_end_to_end source flags fid r n t g fs h :
  reservation_map (h_ledger h) !! fid = Some r -> is_Some (uncommited_map (h_ledger h) !! fid) ->
  try_write fid (h_locks h) = (t, Ok g) ->
  n = u64_sub (file_space r) (completed r) -> 0 < n < 2 ^ 64 -> n <= Z.of_nat (length source) ->
  0 < fs < 2 ^ 32 -> 0 <= h_chunk_buffer h -> chunk_count fs n + h_chunk_buffer h < 2 ^ 32 - 1 ->
  let acks := map Z.of_nat (seq 0 (Z.to_nat (chunk_count fs n))) in
  let stored := old_content flags fid (h_ledger h) ++ take (Z.to_nat n) source in
  exists h1 s h2,
    handle_put flags fid n h = (h1, Ok tt)
    /\ mdsftp_upload (PlainStream source) (mkSizeParams n None) acks (h_chunk_buffer h) fs = (s, Ok tt)
    /\ receive_chunks blocks (sent_chunks (up_trace s)) h1 = (h2, Ok tt)
    /\ packets (h_out h2) = packets (h_out h) ++ respond_put_ok (h_sid h) (h_chunk_buffer h)
         :: map (respond_receive_ack (h_sid h)) acks
    /\ files (h_ledger h2) !! (fid, true) = Some (mkFragFile stored (blocks stored))
    /\ chunk_set (h_ledger h2) !! fid = Some (mkFragmentMeta (file_space r) (blocks stored))
    /\ reservation_map (h_ledger h2) !! fid = None.
Proof.
  intros Hr Hu Hl Hn Hpos Hlen Hfs HB Hcount acks stored.
  destruct (put_starts flags fid r n t g h Hr Hn Hu Hl) as (h1 & E1 & R1 & S1 & _ & P1).
  destruct (upload_done_holds (PlainStream source) (mkSizeParams n None) (h_chunk_buffer h) fs
    Hfs HB ltac:(unfold in_width, SizeParams_size; cbn [sp_range sp_size]; lia) Hlen Hcount) as (s & E2 & D).
  assert (Hc : (0 < Z.to_nat (chunk_count fs n))%nat).
  { unfold chunk_count. pose proof (Z.div_pos n fs ltac:(lia) ltac:(lia)). case_decide; lia. }
  destruct (upload_done_split _ _ _ _ _ Hc D) as (cs & id & c & Ec & Hcs & Hids).
  pose proof (ud_content _ _ _ _ _ D) as Hcont. unfold sent_content in Hcont.
  rewrite Ec, map_app, concat_app in Hcont. simpl in Hcont. rewrite app_nil_r in Hcont.
  destruct (receive_chunks_spec fid _ cs id c _ h1 Hcs R1) as (h2 & E3 & H1 & H2 & H3 & H4).
  rewrite Hcont in H1, H3. exists h1, s, h2. rewrite Ec.
  split_ands; [done|exact E2|done| |exact H3|exact H1|exact H2].
  rewrite H4, P1, S1, Hids, <- app_assoc. done.
Qed.

(** An interruption of a durable reception records the bytes of this channel as progress. *)
Lemma interrupt_progress fid r pre d h :
  receiving fid r pre h -> reservation_details h = Some d -> res_durable r = true ->
  data_transferred h <> file_space r ->
  let L' := h_ledger (fst (handle_interrupted h)) in
  reservation_map L' !! fid
    = Some (mkReservation (file_space r) (data_transferred h) true (h_now h))
  /\ uncommited_map L' = uncommited_map (h_ledger h) /\ files L' = files (h_ledger h).
Proof.
  intros [Hs _ (d' & Hd & Hid & _) Hr Hu] Hd' Hdur Hne. simplify_eq.
  unfold handle_interrupted.
  assert (Hout : exists os, (if upload_cancel h then out [CancelUpload] h else h) = out os h).
  { destruct (upload_cancel h); [by eexists|]. exists []. destruct h; unfold out; simpl.
    by rewrite app_nil_r. }
  destruct Hout as [os ->]. simpl. rewrite Hs. simpl. rewrite Hd. unfold release_reservation. simpl.
  rewrite Hr, bool_decide_false, Hdur by done. simpl. by rewrite lookup_insert_eq.
Qed.

(** A resumed upload that is interrupted again is stored too long.  The progress an
    interruption records is what this channel received, not what the fragment holds: after
    an upload resumed at [completed r] bytes is interrupted, the put the node then accepts
    is short by too little, and the completed fragment holds [completed r] bytes more than
    its reservation and its metadata say. *)
Theorem resumed_interrupt_overlong fid r pre d flags cs id c t g h h2 :
  receiving fid r pre h -> reservation_details h = Some d -> res_durable r = true ->
  0 <= data_transferred h < file_space r -> file_space r < 2 ^ 64 ->
  Z.of_nat (length pre) = completed r + data_transferred h ->
  h_ledger h2 = h_ledger (fst (handle_interrupted h)) ->
  try_write fid (h_locks h2) = (t, Ok g) -> append flags = true ->
  Forall (fun x => x.1.1 = false) cs ->
  Z.of_nat (length (concat (map snd cs) ++ c)) = file_space r - data_transferred h ->
  exists h3 h4 f,
    handle_put flags fid (file_space r - data_transferred h) h2 = (h3, Ok tt)
    /\ receive_chunks blocks (cs ++ [(true, id, c)]) h3 = (h4, Ok tt)
    /\ files (h_ledger h4) !! (fid, true) = Some f
    /\ Z.of_nat (length (content f)) = file_space r + completed r
    /\ meta_content_size <$> chunk_set (h_ledger h4) !! fid = Some (file_space r).
Proof.
  intros R Hd Hdur Ht Hw Hpre EL Hl Ha Hcs Hlen. pose proof (rc_file _ _ _ _ R) as (f & Hf & Hc).
  destruct (interrupt_progress fid r pre d h R Hd Hdur ltac:(lia)) as (Hr & Hu & Hfs).
  rewrite <- EL in Hr, Hu, Hfs.
  destruct (put_starts flags fid _ (file_space r - data_transferred h) t g h2 Hr) as (h3 & E3 & R3 & _);
    [|rewrite Hu; apply R|done|].
  { cbn [file_space completed]. unfold u64_sub. rewrite wrap_small; [done|unfold in_width; lia]. }
  assert (Hold : old_content flags fid (h_ledger h2) = pre).
  { unfold old_content. by rewrite Ha, Hfs, Hf. }
  destruct (receive_chunks_spec fid _ cs id c _ h3 Hcs R3) as (h4 & E4 & Hcm & _ & Hfile & _).
  eexists h3, h4, _. split_ands; [done|done|exact Hfile| |by rewrite Hcm].
  cbn [content]. rewrite Hold, length_app, Nat2Z.inj_add. lia.
Qed.

(** The last chunk completes a reservation however little was received. *)
Lemma early_last_accepted fid r pre c id h :
  receiving fid r pre h -> Z.of_nat (length (pre ++ c)) < file_space r ->
  exists h' m f, handle_file_chunk blocks c id true h = (h', Ok tt)
    /\ existing_fragment_meta fid (h_ledger h') = Some m
    /\ files (h_ledger h') !! (fid, true) = Some f
    /\ Z.of_nat (length (content f)) < meta_content_size m.
Proof.
  intros R Hlt. destruct (receive_last_step fid r pre c id h R) as (h' & E & Hm & _ & Hf & _).
  by eexists h', _, _.
Qed.

(** A granted lock is held but not answered: neither a packet nor a close is sent. *)
Lemma granted_lock_unanswered id t g h :
  fragment_exists id (h_ledger h) = true -> try_write id (h_locks h) = (t, Ok g) ->
  exists h', handle_lock_req id LockWrite h = (h', Ok tt)
    /\ write_guard h' = Some g /\ h_out h' = h_out h.
Proof.
  intros Hf Hl. unfold handle_lock_req, take_write_guard. rewrite Hf, Hl. by eexists.
Qed.
End correct.

(** ** Witnesses *)
Definition node_ids (n : nat) : Uuid := 100 + Z.of_nat n.
Definition disk_blocks (bytes : list u8) : u64 := 4096.

(** A channel of a node holding the durable reservation of 500 bytes for fragment 9. *)
Definition node9 : Handler (gmap Uuid ExtFragmentMeta) :=
  Handler_new reserved9 (LockTable_new 10) 1 0 7 10 300.

Definition piece (n : nat) : list u8 := repeat 7 n.
Definition append_flags : PutFlags := mkPutFlags true.

(** Interrupted after 100 bytes, then resumed on a new channel, which received 100 more. *)
Definition resumed9 : Handler (gmap Uuid ExtFragmentMeta) := Eval vm_compute in
  let h1 := fst (handle_put (mkPutFlags false) 9 500 node9) in
  let h2 := fst (handle_file_chunk disk_blocks (piece 100) 0 false h1) in
  let h3 := fst (handle_interrupted h2) in
  let h4 := Handler_new (h_ledger h3) (LockTable_new 10) 2 0 8 10 300 in
  let h5 := fst (handle_put append_flags 9 400 h4) in
  fst (handle_file_chunk disk_blocks (piece 100) 0 false h5).

Lemma handler_keeps_accounting_witness :
  ledger_inv (h_ledger (fst (@handle_call _ (node_handler node_ids disk_blocks)
    (HandlePut append_flags 9 500) node9)))
  /\ ledger_inv (h_ledger (fst (@handle_interrupt _ (node_handler node_ids disk_blocks) node9))).
Proof.
  apply (handler_keeps_accounting node_ids disk_blocks (HandlePut append_flags 9 500) node9).
  - exact reserved9_inv.
  - by vm_compute.
  - by vm_compute.
Defined.

Lemma transfer_end_to_end_witness :
  exists h1 s h2,
    handle_put append_flags 9 500 node9 = (h1, Ok tt)
    /\ mdsftp_upload (PlainStream (piece 600)) (mkSizeParams 500 None) [0; 1] 10 300 = (s, Ok tt)
    /\ receive_chunks disk_blocks (sent_chunks (up_trace s)) h1 = (h2, Ok tt)
    /\ files (h_ledger h2) !! (9, true) = Some (mkFragFile (piece 500) 4096).
Proof.
  destruct (transfer_end_to_end disk_blocks (piece 600) append_flags 9 (mkReservation 500 0 true 0)
    500 (fst (try_write 9 (LockTable_new 10))) 1%nat 300 node9)
    as (h1 & s & h2 & E1 & E2 & E3 & _ & E4 & _);
    [by vm_compute|by vm_compute; eexists|by vm_compute|by vm_compute|lia|by vm_compute|lia|
     by vm_compute|by vm_compute|].
  exists h1, s, h2. split; [exact E1|]. split; [exact E2|]. split; [exact E3|].
  rewrite E4. by vm_compute.
Defined.

Lemma resumed_interrupt_overlong_witness :
  exists h3 h4 f,
    handle_put append_flags 9 400
      (Handler_new (h_ledger (fst (handle_interrupted resumed9))) (LockTable_new 10) 3 0 9 10 300)
    = (h3, Ok tt)
    /\ receive_chunks disk_blocks [(false, 0, piece 300); (true, 1, piece 100)] h3 = (h4, Ok tt)
    /\ files (h_ledger h4) !! (9, true) = Some f /\ Z.of_nat (length (content f)) = 600.
Proof.
  destruct (resumed_interrupt_overlong disk_blocks 9 (mkReservation 500 100 true 2) (piece 200)
    (mkDetails 9 500 true) append_flags [(false, 0, piece 300)] 1 (piece 100)
    (fst (try_write 9 (LockTable_new 10))) 1%nat resumed9
    (Handler_new (h_ledger (fst (handle_interrupted resumed9))) (LockTable_new 10) 3 0 9 10 300))
    as (h3 & h4 & f & E1 & E2 & E3 & E4 & _).
  - split.
    + by vm_compute.
    + exists (mkFragFile (piece 200) 4096). split; by vm_compute.
    + exists (mkDetails 9 500 true). split; [by vm_compute|split; exact eq_refl].
    + by vm_compute.
    + vm_compute. by eexists.
  - by vm_compute.
  - exact eq_refl.
  - vm_compute. split; congruence.
  - by vm_compute.
  - by vm_compute.
  - exact eq_refl.
  - by vm_compute.
  - exact eq_refl.
  - by repeat constructor.
  - by vm_compute.
  - assert (Ek : data_transferred resumed9 = 100) by (by vm_compute). rewrite Ek in E1.
    exists h3, h4, f. split; [exact E1|]. split; [exact E2|]. split; [exact E3|exact E4].
Defined.
