(* ===== verification/Placement.v ===== *)
(** * Placing a file on the nodes

    [node/src/public/service/reservation_service.rs]: how a node splits an upload over the
    storage of the cluster and reserves the parts, and how it gives them back when one of
    the reservations fails.

    The cluster is the map of the nodes' ledgers and lock tables; a remote reservation is the
    answer of the channel handler of that node, read back by the channel's own packet
    handling.  The entries of a [HashMap] are a list in the order it iterates over them. *)
From Stdlib Require Import ZArith Lia List.
From stdpp Require Import base numbers list gmap.
From S2P Require Import Prelude Errors MdsftpData MdsftpWire MdsftpChannel MetaStore.
From S2P Require Import FragmentLedger LockTable TransferManager ChannelHandler.
Local Open Scope Z_scope.

Inductive ReservationMode : Type := PreferSelfThenMostFree | PreferMostFree.

Record ReservedFragment : Type := mkReserved {
  rf_remote : bool;
  rf_node_id : Uuid;
  rf_chunk_id : Uuid;
  rf_size : u64;
  rf_chunk_buffer : u16
}.

(** ** Choosing the nodes *)
(** The stable [sort_by] of the nodes, most free space first. *)
Fixpoint insert_most_free (x : Uuid * u64) (l : list (Uuid * u64)) : list (Uuid * u64) :=
  match l with
  | [] => [x]
  | y :: l => if decide (y.2 <= x.2) then x :: y :: l else y :: insert_most_free x l
  end.

Definition sort_most_free (l : list (Uuid * u64)) : list (Uuid * u64) :=
  fold_right insert_most_free [] l.

Fixpoint push_targets (nodes : list (Uuid * u64)) (target_list : list (Uuid * u64)) (size : u64)
    : list (Uuid * u64) * u64 :=
  match nodes with
  | [] => (target_list, size)
  | (uuid, node_size) :: nodes =>
      if decide (size = 0) then (target_list, size)
      else if decide (uuid ∈ target_list.*1) then push_targets nodes target_list size
      else if decide (node_size <= size) then
        push_targets nodes (target_list ++ [(uuid, node_size)]) (size - node_size)
      else push_targets nodes (target_list ++ [(uuid, size)]) 0
  end.

Definition push_most_used (node_map target_list : list (Uuid * u64)) (size : u64)
    : list (Uuid * u64) * u64 :=
  push_targets (sort_most_free node_map) target_list size.

Definition resolve_targets (self : Uuid) (self_free : u64) (node_map : list (Uuid * u64))
    (size : u64) (mode : ReservationMode) : list (Uuid * u64) * u64 :=
  match mode with
  | PreferSelfThenMostFree =>
      if decide (size <= self_free) then ([(self, size)], 0)
      else push_most_used node_map [(self, self_free)] (size - self_free)
  | PreferMostFree => push_most_used node_map [] size
  end.

(** ** Reserving on the cluster *)
Record StorageNode (M : Type) : Type := mkNode { sn_ledger : Ledger M; sn_locks : LockTable Uuid }.
Arguments mkNode {M}.
Arguments sn_ledger {M}.
Arguments sn_locks {M}.

Record NodeState (M : Type) : Type := mkState {
  self_id : Uuid;
  cluster : gmap Uuid (StorageNode M);
  node_storage_map : list (Uuid * u64);
  drawn : nat
}.
Arguments mkState {M}.
Arguments self_id {M}.
Arguments cluster {M}.
Arguments node_storage_map {M}.
Arguments drawn {M}.

(** [HashMap::insert] *)
Fixpoint storage_insert (k : Uuid) (v : u64) (l : list (Uuid * u64)) : list (Uuid * u64) :=
  match l with
  | [] => [(k, v)]
  | (k', v') :: l => if decide (k' = k) then (k, v) :: l else (k', v') :: storage_insert k v l
  end.

Section placement.
  Context {M : Type} `{ExtFragmentMetaStore M}.
  Variable new_v4 : nat -> Uuid.
  Variables (now : Z) (channel_id : u32) (fragment_size : u32).
  Implicit Types st : NodeState M.

Definition set_node (id : Uuid) (n : StorageNode M) (ids : nat) st : NodeState M :=
  mkState (self_id st) (<[id := n]> (cluster st)) (node_storage_map st) ids.

Definition set_storage (m : list (Uuid * u64)) st : NodeState M :=
  mkState (self_id st) (cluster st) m (drawn st).

(** What a channel awaiting the answer to a reservation gets from the first packet. *)
Definition await_reserve (ps : list MDSFTPRawPacket) : MDSFTPResult ReserveResult :=
  match ps with
  | p :: _ =>
      match handle_packet (fun _ => true) p
              (set_reserve_sender (Some 0%nat) (Channel_new (H := list HandlerCall) channel_id)) with
      | Some (_, [ToReserve _ r], _) => r
      | _ => Err Interrupted
      end
  | [] => Err Interrupted
  end.

(** [MDSFTPChannel::try_reserve] to the handler of another node. *)
Definition remote_reserve (node_id : Uuid) (size : u64) (bucket file : Uuid)
    (flags : ReserveFlags) st : NodeState M * MDSFTPResult ReserveResult :=
  match cluster st !! node_id with
  | None => (st, Err NoSuchNode)
  | Some n =>
      let h := Handler_new (sn_ledger n) (sn_locks n) now (drawn st) channel_id BUFFER_SIZE
                 fragment_size in
      let '(h, _) := handle_reserve new_v4 size bucket file flags h in
      (set_node node_id (mkNode (h_ledger h) (h_locks h)) (h_ids h) st,
       await_reserve (packets (h_out h)))
  end.

Definition try_reserve_chunk (node_id : Uuid) (size : u64) (bucket file : Uuid)
    (flags : ReserveFlags) st : NodeState M * MDSFTPResult ReservedFragment :=
  if decide (node_id = self_id st) then
    match cluster st !! node_id with
    | None => (st, Err Internal)
    | Some n =>
        let '(L, r) := try_reserve now (new_v4 (drawn st)) size bucket file (durable flags)
                         (sn_ledger n) in
        let st := set_node node_id (mkNode L (sn_locks n)) (S (drawn st)) st in
        match r with
        | Ok id => (st, Ok (mkReserved false node_id id size 0))
        | Err InsufficientDiskSpace => (st, Err ReservationError)
        | Err _ => (st, Err Internal)
        end
    end
  else
    match remote_reserve node_id size bucket file flags st with
    | (st, Ok res) => (st, Ok (mkReserved true node_id (rr_chunk_id res) size (rr_chunk_buffer res)))
    | (st, Err (ReserveError free_space)) =>
        (set_storage (storage_insert node_id free_space (node_storage_map st)) st, Err ReservationError)
    | (st, Err e) => (st, Err e)
    end.

(** The loop over the targets: the fragments acquired, and whether all were. *)
Fixpoint reserve_all (targets : list (Uuid * u64)) (bucket file : Uuid) (flags : ReserveFlags) st
    : NodeState M * list ReservedFragment * bool :=
  match targets with
  | [] => (st, [], true)
  | (node, size) :: targets =>
      match try_reserve_chunk node size bucket file flags st with
      | (st, Err _) => (st, [], false)
      | (st, Ok f) =>
          let '(st, fs, ok) := reserve_all targets bucket file flags st in (st, f :: fs, ok)
      end
  end.

(** Cancelling, on the node itself or by the handler of another. *)
Definition cancel_fragment (f : ReservedFragment) st : NodeState M :=
  match cluster st !! rf_node_id f with
  | None => st
  | Some n =>
      set_node (rf_node_id f)
        (mkNode (fst (cancel_reservation (rf_chunk_id f) (sn_ledger n))) (sn_locks n)) (drawn st) st
  end.

Definition available st : u64 :=
  from_option (fun n => get_available_space (sn_ledger n)) 0 (cluster st !! self_id st).

(** [refresh]: the outcome of [safe_refresh_peer_data], with the new entries if there was one. *)
Definition reserve_chunks (size : u64) (flags : ReserveFlags) (bucket file : Uuid)
    (mode : ReservationMode) (refresh : NodeClientResponse (option (list (Uuid * u64)))) st
    : NodeState M * NodeClientResponse (list ReservedFragment) :=
  let resolve st := resolve_targets (self_id st) (available st) (node_storage_map st) size mode in
  let reserve targets st :=
    match reserve_all targets bucket file flags st with
    | (st, fragments, true) => (st, Ok fragments)
    | (st, fragments, false) =>
        (fold_left (fun st f => cancel_fragment f st) fragments st, Err NcInsufficientStorage)
    end in
  let '(targets, rem) := resolve st in
  if decide (0 < rem) then
    match refresh with
    | Err e => (st, Err e)
    | Ok None => (st, Err NcInsufficientStorage)
    | Ok (Some peers) =>
        let st := set_storage (fold_left (fun m p => storage_insert p.1 p.2 m) peers
                                (node_storage_map st)) st in
        let '(targets, rem) := resolve st in
        if decide (0 < rem) then (st, Err NcInsufficientStorage) else reserve targets st
    end
  else reserve targets st.
End placement.

(** ** The fragments of a file *)
Record FileChunk : Type := mkFileChunk {
  server_id : Uuid;
  chunk_id : Uuid;
  chunk_size : Z;
  chunk_order : Z
}.

(** [as i64], and the [i8] counter [0_i8..], which wraps unless overflow checks are on. *)
Definition as_i64 (x : u64) : Z := (x + 2 ^ 63) mod 2 ^ 64 - 2 ^ 63.
Definition i8_counter (i : nat) : Z := (Z.of_nat i + 128) mod 256 - 128.

Definition reserve_info_to_file_chunks (fragments : list ReservedFragment) : list FileChunk :=
  imap (fun i f => mkFileChunk (rf_node_id f) (rf_chunk_id f) (as_i64 (rf_size f)) (i8_counter i))
    fragments.

(** ** Choosing the nodes: correctness *)
Definition total (l : list (Uuid * u64)) : Z := list_sum (map snd l).

Lemma insert_most_free_perm x l : insert_most_free x l ≡ₚ x :: l.
Proof.
  induction l as [|y l IH]; simpl; [done|]. case_decide; [done|]. rewrite IH. apply Permutation_swap.
Qed.

Lemma sort_most_free_perm l : sort_most_free l ≡ₚ l.
Proof. induction l as [|x l IH]; simpl; [done|]. by rewrite insert_most_free_perm, IH. Qed.

Lemma total_app l1 l2 : total (l1 ++ l2) = total l1 + total l2.
Proof. unfold total. by rewrite map_app, list_sum_app. Qed.

Lemma total_cons x l : total (x :: l) = x.2 + total l.
Proof. done. Qed.

#[global] Instance total_perm : Proper ((≡ₚ) ==> (=)) total.
Proof. intros l1 l2 E. unfold total. induction E; simpl; lia. Qed.

(** A node that is not listed does not change which listed nodes are new. *)
Lemma filter_other (u : Uuid) (n : u64) (ts nodes : list (Uuid * u64)) :
  u ∉ nodes.*1 ->
  filter (fun x => x.1 ∉ (ts ++ [(u, n)]).*1) nodes = filter (fun x => x.1 ∉ ts.*1) nodes.
Proof.
  induction nodes as [|[v m] nodes IH]; intros Hu; [done|]. simpl in Hu.
  apply not_elem_of_cons in Hu as [Hne Hu]. rewrite !filter_cons, IH by done.
  assert (Hiff : v ∈ (ts ++ [(u, n)]).*1 <-> v ∈ ts.*1).
  { rewrite fmap_app, elem_of_app. simpl. rewrite list_elem_of_singleton. split; [|by left].
    intros [?| ->]; done. }
  cbn [fst]. destruct (decide (v ∈ ts.*1)) as [Hv|Hv].
  - rewrite !decide_False; [done|tauto|tauto].
  - rewrite !decide_True; [done|tauto|tauto].
Qed.

(** What the loop over the nodes does, from targets [ts] with [size] left to place. *)
Record placed (nodes ts : list (Uuid * u64)) (size : Z) (ts' : list (Uuid * u64)) (rem : Z)
    : Prop := {
  pl_sum : total ts' + rem = total ts + size;
  pl_rem : 0 <= rem <= size;
  pl_nodup : NoDup ts'.*1;
  pl_ext : exists more, ts' = ts ++ more
    /\ Forall (fun t => exists free, (t.1, free) ∈ nodes /\ 0 <= t.2 <= free) more;
  pl_full : 0 < rem -> rem = size - total (filter (fun x => x.1 ∉ ts.*1) nodes)
}.

Lemma push_targets_placed nodes ts size :
  NoDup nodes.*1 -> Forall (fun x => 0 <= x.2) nodes -> NoDup ts.*1 -> 0 <= size ->
  let '(ts', rem) := push_targets nodes ts size in placed nodes ts size ts' rem.
Proof.
  intros Hnd Hpos. revert ts size. induction Hpos as [|[u n] nodes Hn _ IH]; intros ts size Hts Hs; simpl.
  { split; [lia|lia|done| |]; [exists []; by rewrite app_nil_r|].
    intros _. rewrite filter_nil. change (total []) with 0. lia. }
  apply NoDup_cons in Hnd as [Hu Hnd]. simpl in Hn, Hu.
  case_decide as H0.
  { subst. split; [lia|lia|done| |lia]. exists []. by rewrite app_nil_r. }
  case_decide as Hin.
  { specialize (IH Hnd ts size Hts Hs). destruct (push_targets nodes ts size) as [ts' rem].
    destruct IH as [A B C (more & -> & D) E]. split; [done|done|done| |].
    - exists more. split; [done|]. eapply Forall_impl; [exact D|]. intros t (free & Hf & ?).
      exists free. split; [by right|done].
    - intros Hr. rewrite (E Hr), filter_cons_False; [done|]. simpl. tauto. }
  assert (Hnew : forall k, NoDup (ts ++ [(u, k)]).*1).
  { intros k. rewrite fmap_app. simpl. apply NoDup_app. split; [done|]. split.
    - intros x Hx ->%list_elem_of_singleton. done.
    - apply NoDup_singleton. }
  assert (Hstep : forall k, 0 <= k <= n -> k <= size ->
    (k = n \/ size - k = 0) ->
    let '(ts', rem) := push_targets nodes (ts ++ [(u, k)]) (size - k) in
    placed ((u, n) :: nodes) ts size ts' rem).
  { intros k Hk Hks Hor. specialize (IH Hnd (ts ++ [(u, k)]) (size - k) (Hnew k) ltac:(lia)).
    destruct (push_targets nodes (ts ++ [(u, k)]) (size - k)) as [ts' rem].
    destruct IH as [A B C (more & -> & D) E]. rewrite !total_app, total_cons in A.
    change (total []) with 0 in A. cbn [snd] in A.
    split; [rewrite !total_app, total_cons; change (total []) with 0; cbn [snd]; lia|lia|done| |].
    - exists ((u, k) :: more). rewrite <- app_assoc. split; [done|]. constructor.
      + exists n. split; [left|done].
      + eapply Forall_impl; [exact D|]. intros t (free & Hf & ?). exists free. split; [by right|done].
    - intros Hr. rewrite filter_cons_True, total_cons by done. cbn [snd].
      assert (k = n) as -> by (destruct Hor; [done|lia]). rewrite (E Hr).
      rewrite (filter_other u n ts nodes Hu). lia. }
  case_decide as Hle.
  - apply Hstep; [lia|lia|by left].
  - specialize (Hstep size ltac:(lia) ltac:(lia) ltac:(right; lia)). by rewrite Z.sub_diag in Hstep.
Qed.

Lemma push_targets_length nodes ts size :
  (length (fst (push_targets nodes ts size)) <= length ts + length nodes)%nat.
Proof.
  revert ts size. induction nodes as [|[u n] nodes IH]; intros ts size; simpl; [lia|].
  repeat case_decide; simpl; [lia|..]; (etrans; [apply IH|]); rewrite ?length_app; simpl; lia.
Qed.

Lemma resolve_targets_length self self_free node_map size mode :
  (length (fst (resolve_targets self self_free node_map size mode)) <= S (length node_map))%nat.
Proof.
  unfold resolve_targets, push_most_used. rewrite <- (sort_most_free_perm node_map) at 2.
  destruct mode; [case_decide; [simpl; lia|]|]; (etrans; [apply push_targets_length|]); simpl; lia.
Qed.

(** What the mode lets the node use: its own free space and what it knows of its peers. *)
Definition capacity (self : Uuid) (self_free : Z) (node_map : list (Uuid * u64))
    (mode : ReservationMode) : Z :=
  match mode with
  | PreferSelfThenMostFree => self_free + total (filter (fun x => x.1 ∉ [self]) node_map)
  | PreferMostFree => total node_map
  end.

(** A part of a file fits the node it goes to. *)
Definition fits (self : Uuid) (self_free : Z) (node_map : list (Uuid * u64))
    (mode : ReservationMode) (t : Uuid * u64) : Prop :=
  (mode = PreferSelfThenMostFree /\ t.1 = self /\ 0 <= t.2 <= self_free)
  \/ exists free, (t.1, free) ∈ node_map /\ 0 <= t.2 <= free.

Lemma resolve_targets_spec self self_free node_map size mode :
  NoDup node_map.*1 -> Forall (fun x => 0 <= x.2) node_map -> 0 <= self_free -> 0 <= size ->
  let '(targets, rem) := resolve_targets self self_free node_map size mode in
  total targets + rem = size /\ 0 <= rem /\ NoDup targets.*1
  /\ Forall (fits self self_free node_map mode) targets
  /\ (0 < rem -> rem = size - capacity self self_free node_map mode).
Proof.
  intros Hnd Hpos Hself Hsize.
  assert (Hsnd : NoDup (sort_most_free node_map).*1) by (by rewrite sort_most_free_perm).
  assert (Hspos : Forall (fun x => 0 <= x.2) (sort_most_free node_map)) by (by rewrite sort_most_free_perm).
  assert (Hmore : forall more,
    Forall (fun t => exists free, (t.1, free) ∈ sort_most_free node_map /\ 0 <= t.2 <= free) more ->
    Forall (fits self self_free node_map mode) more).
  { intros more Hm. eapply Forall_impl; [exact Hm|]. intros t (free & Hin & Hle). right.
    exists free. by rewrite sort_most_free_perm in Hin. }
  unfold resolve_targets. destruct mode.
  - case_decide as Hle.
    { change (total [(self, size)]) with (size + 0).
      split_ands; [lia|lia|apply NoDup_singleton| |lia].
      constructor; [|constructor]. left. split_ands; simpl; (done || lia). }
    pose proof (push_targets_placed _ [(self, self_free)] (size - self_free) Hsnd Hspos
      (NoDup_singleton self) ltac:(lia)) as Hp. unfold push_most_used.
    destruct (push_targets _ _ _) as [ts rem]. destruct Hp as [A B C (more & -> & D) E].
    change (total [(self, self_free)]) with (self_free + 0) in A.
    split_ands; [lia|lia|done| |].
    + apply Forall_app. split; [|by apply Hmore]. constructor; [|constructor]. left. split_ands; simpl; (done || lia).
    + intros Hr. rewrite (E Hr). unfold capacity. rewrite sort_most_free_perm. simpl. lia.
  - pose proof (push_targets_placed _ [] size Hsnd Hspos (NoDup_nil_2) Hsize) as Hp. unfold push_most_used.
    destruct (push_targets _ _ _) as [ts rem]. destruct Hp as [A B C (more & -> & D) E].
    change (total []) with 0 in A. split_ands; [lia|lia|done|by apply Hmore|].
    intros Hr. rewrite (E Hr). unfold capacity. rewrite sort_most_free_perm.
    f_equal. f_equal. clear. induction node_map as [|x l IH]; [done|].
    rewrite filter_cons_True by apply not_elem_of_nil. by f_equal.
Qed.

(** The split of an upload is exact.  The parts and what could not be placed add up to the
    size; every part goes to a different node and fits the free space known for it; and
    something is left over only if all the space known is too little, by exactly that much. *)
Theorem placement_exact self self_free node_map size mode :
  NoDup node_map.*1 -> Forall (fun x => 0 <= x.2) node_map -> 0 <= self_free -> 0 <= size ->
  let '(targets, rem) := resolve_targets self self_free node_map size mode in
  total targets + rem = size /\ 0 <= rem /\ NoDup targets.*1
  /\ Forall (fits self self_free node_map mode) targets
  /\ (0 < rem -> rem = size - capacity self self_free node_map mode).
Proof. apply resolve_targets_spec. Qed.

(** ** All or nothing *)
Section all_or_nothing.
  Context {M : Type} `{ExtFragmentMetaStore M}.
  Variable new_v4 : nat -> Uuid.
  Variables (now : Z) (channel_id : u32) (fragment_size : u32).
  (** The ids drawn up to [limit] are distinct uuids. *)
  Variable limit : nat.
  Hypothesis new_v4_inj : forall i j,
    (i < limit)%nat -> (j < limit)%nat -> new_v4 i = new_v4 j -> i = j.
  Hypothesis new_v4_width : forall i, (i < limit)%nat -> in_width 128 (new_v4 i).
  Implicit Types L : Ledger M.
  Implicit Types st : NodeState M.

(** The same fragments, reservations and space. *)
Definition same_space L L' : Prop :=
  chunk_set L' = chunk_set L /\ reservation_map L' = reservation_map L
  /\ uncommited_map L' = uncommited_map L /\ disk_reserved_size L' = disk_reserved_size L
  /\ disk_physical_size L' = disk_physical_size L /\ disk_content_size L' = disk_content_size L.

(** [L'] is [L] with [n] bytes reserved under [id]. *)
Definition holds (id : Uuid) (n : u64) L L' : Prop :=
  exists r c, file_space r = n
  /\ reservation_map L' = <[id := r]> (reservation_map L)
  /\ uncommited_map L' = <[id := c]> (uncommited_map L)
  /\ chunk_set L' = chunk_set L /\ disk_reserved_size L' = u64_add (disk_reserved_size L) n
  /\ disk_physical_size L' = disk_physical_size L /\ disk_content_size L' = disk_content_size L.

Lemma try_reserve_cases t id n b f d L :
  match try_reserve t id n b f d L with
  | (L', Ok id') => id' = id /\ holds id n L L'
  | (L', Err _) => same_space L L'
  end.
Proof.
  unfold try_reserve. destruct (paused L); [done|]. case_decide; [done|].
  destruct (ext_metadata_store L) as [s|]; [|done].
  destruct (meta_insert _ _ s) as [s' [u|e]]; [|done]. split; [done|].
  by exists (mkReservation n 0 d t), (mkCommitInfo t).
Qed.

Lemma cancel_holds id n L L' :
  holds id n L L' -> reservation_map L !! id = None -> uncommited_map L !! id = None ->
  in_width 64 (disk_reserved_size L) -> same_space L (fst (cancel_reservation id L')).
Proof.
  intros (r & c & Hn & Er & Eu & Ec & Ed & Ep & Et) Hr Hu Hw. unfold cancel_reservation.
  rewrite Er, lookup_insert_eq. unfold remove_file.
  set (L4 := set_disk_reserved_size _ _). assert (Hs : same_space L L4).
  { unfold same_space, L4, ext_remove. simpl.
    rewrite Er, Eu, Ec, Ed, Ep, Et, Hn, !delete_insert_id, u64_sub_add by done. done. }
  by destruct (files L4 !! _).
Qed.

(** The id is in no map of the node. *)
Definition unused (id : Uuid) (n : StorageNode M) : Prop :=
  reservation_map (sn_ledger n) !! id = None /\ uncommited_map (sn_ledger n) !! id = None
  /\ lock_table (sn_locks n) !! id = None.

Lemma try_write_free id (t : LockTable Uuid) :
  lock_table t !! id = None ->
  exists t' g, try_write id t = (t', Ok g)
    /\ forall k, k <> id -> lock_table t' !! k = lock_table t !! k.
Proof.
  intros Hl. unfold try_write, try_lock. rewrite Hl. unfold guard_new. simpl.
  rewrite decide_True by lia. eexists _, _. split; [done|]. intros k Hk. simpl.
  by apply lookup_insert_ne.
Qed.

Lemma await_reserve_ok id buf rest :
  in_width 128 id -> in_width 16 buf ->
  await_reserve channel_id (respond_reserve_ok channel_id id buf :: rest)
  = Ok (mkReserveResult id buf).
Proof.
  intros Hid Hbuf. unfold await_reserve.
  pose proof (handle_reply (H := list HandlerCall) (fun _ => true) channel_id (RReserveOk id buf)
    (set_reserve_sender (Some 0%nat) (Channel_new channel_id)) ltac:(by split)) as E.
  simpl in E. by rewrite E.
Qed.

Lemma holds_pause t id n L L' :
  holds id n L L' -> exists L2, pause_reservation t id L' = (L2, Ok tt) /\ holds id n L L2.
Proof.
  intros (r & c & Hn & Er & Hrest). unfold pause_reservation, refresh_reservation.
  rewrite Er, lookup_insert_eq. eexists. split; [done|].
  exists (mkReservation (file_space r) (completed r) (res_durable r) t), c.
  split; [done|]. split; [|done]. simpl. by rewrite Er, insert_insert_eq.
Qed.

(** What [handle_reserve] leaves on a node that never saw the id it draws. *)
Lemma remote_reserve_node size b f flags ids n :
  (ids < limit)%nat -> unused (new_v4 ids) n ->
  let h := Handler_new (sn_ledger n) (sn_locks n) now ids channel_id BUFFER_SIZE fragment_size in
  let h' := fst (handle_reserve new_v4 size b f flags h) in
  h_ids h' = S ids
  /\ (forall k, k <> new_v4 ids -> lock_table (h_locks h') !! k = lock_table (sn_locks n) !! k)
  /\ match await_reserve channel_id (packets (h_out h')) with
     | Ok res => rr_chunk_id res = new_v4 ids
         /\ holds (new_v4 ids) size (sn_ledger n) (h_ledger h')
     | Err _ => same_space (sn_ledger n) (h_ledger h')
     end.
Proof.
  intros Hlim (Hr & Hu & Hl) h h'. subst h h'. unfold handle_reserve. simpl.
  pose proof (try_reserve_cases now (new_v4 ids) size b f (durable flags) (sn_ledger n)) as Hc.
  destruct (try_reserve _ _ _ _ _ _ _) as [L [id|e]]; [|done].
  destruct Hc as [-> Hh].
  destruct (try_write_free (new_v4 ids) (sn_locks n) Hl) as (t & g & Ew & Ht).
  set (L1 := if auto_start flags then fragment_write_stream (new_v4 ids) L else L).
  assert (Hh1 : holds (new_v4 ids) size (sn_ledger n) L1) by (unfold L1; by destruct (auto_start flags)).
  destruct (holds_pause now (new_v4 ids) size (sn_ledger n) L1 Hh1) as (L2 & E2 & Hh2).
  pose proof (await_reserve_ok (new_v4 ids) BUFFER_SIZE [] (new_v4_width ids Hlim) ltac:(done)) as Ea.
  destruct (auto_start flags); subst L1;
    [unfold start_receiving, take_write_guard; simpl; rewrite Ew; simpl|simpl];
    (destruct (temp flags); [rewrite E2|]);
    match goal with |- context [await_reserve _ ?ps] =>
      change ps with [respond_reserve_ok channel_id (new_v4 ids) BUFFER_SIZE] end;
    by rewrite Ea.
Qed.

(** Ids to be drawn are unused everywhere. *)
Definition ready st : Prop := forall k node n,
  (drawn st <= k < limit)%nat -> cluster st !! node = Some n -> unused (new_v4 k) n.

Lemma ready_set st node n n' :
  (drawn st < limit)%nat -> ready st -> cluster st !! node = Some n ->
  (exists size, holds (new_v4 (drawn st)) size (sn_ledger n) (sn_ledger n'))
    \/ same_space (sn_ledger n) (sn_ledger n') ->
  (forall k, k <> new_v4 (drawn st) -> lock_table (sn_locks n') !! k = lock_table (sn_locks n) !! k) ->
  ready (set_node node n' (S (drawn st)) st).
Proof.
  intros Hlim Hrdy Hn Hsp Hlk k node' m Hk. simpl in *. rewrite lookup_insert_Some.
  intros [[_ <-]|[_ Hm]]; [|by apply (Hrdy k node' m); [lia|]].
  destruct (Hrdy k node n ltac:(lia) Hn) as (Hr & Hu & Hl).
  assert (Hne : new_v4 k <> new_v4 (drawn st)) by (intros E%new_v4_inj; lia).
  unfold unused. rewrite (Hlk _ Hne). split_ands; [| |done].
  - destruct Hsp as [(sz & r & c & _ & -> & _)|(_ & -> & _)]; [|done]. by rewrite lookup_insert_ne.
  - destruct Hsp as [(sz & r & c & _ & _ & -> & _)|(_ & _ & -> & _)]; [|done]. by rewrite lookup_insert_ne.
Qed.

(** How an attempt to reserve a part ends on its node. *)
Definition part_outcome (node : Uuid) (size : u64) (st st' : NodeState M)
    (r : MDSFTPResult ReservedFragment) : Prop :=
  match r with
  | Ok fr => rf_node_id fr = node /\ rf_size fr = size /\ exists n n',
      cluster st !! node = Some n /\ cluster st' = <[node := n']> (cluster st)
      /\ unused (rf_chunk_id fr) n /\ holds (rf_chunk_id fr) size (sn_ledger n) (sn_ledger n')
  | Err _ => cluster st' = cluster st \/ exists n n',
      cluster st !! node = Some n /\ cluster st' = <[node := n']> (cluster st)
      /\ same_space (sn_ledger n) (sn_ledger n')
  end.

Lemma try_reserve_chunk_spec node size b f flags st :
  (drawn st < limit)%nat -> ready st ->
  let '(st', r) := try_reserve_chunk new_v4 now channel_id fragment_size node size b f flags st in
  (drawn st' <= S (drawn st))%nat /\ ready st' /\ part_outcome node size st st' r.
Proof.
  intros Hlim Hrdy.
  assert (Hun : forall n, cluster st !! node = Some n -> unused (new_v4 (drawn st)) n)
    by (intros n; apply Hrdy; lia).
  unfold try_reserve_chunk. case_decide as Hself.
  - destruct (cluster st !! node) as [n|] eqn:En; [|by split; [simpl; lia|split; [|left]]].
    pose proof (try_reserve_cases now (new_v4 (drawn st)) size b f (durable flags) (sn_ledger n)) as Hc.
    destruct (try_reserve _ _ _ _ _ _ _) as [L [id|e]].
    + destruct Hc as [-> Hh]. split; [done|split].
      * apply (ready_set st node n); [done|done|done|left; by exists size|done].
      * split; [done|]. split; [done|]. exists n, (mkNode L (sn_locks n)).
        split_ands; [done|done|by apply Hun|done].
    + assert (Hr' : ready (set_node node (mkNode L (sn_locks n)) (S (drawn st)) st))
        by (apply (ready_set st node n); [done|done|done|by right|done]).
      destruct e; (split; [done|split; [done|]]); right; by exists n, (mkNode L (sn_locks n)).
  - unfold remote_reserve. destruct (cluster st !! node) as [n|] eqn:En; [|by split; [simpl; lia|split; [|left]]].
    pose proof (remote_reserve_node size b f flags (drawn st) n Hlim (Hun n eq_refl)) as Hn.
    cbv zeta in Hn. destruct (handle_reserve _ _ _ _ _ _) as [h' r']. cbn [fst] in Hn.
    destruct Hn as (Hids & Hlk & Hres). rewrite Hids. set (n' := mkNode (h_ledger h') (h_locks h')).
    destruct (await_reserve channel_id (packets (h_out h'))) as [res|e].
    + destruct Hres as [Hid Hh]. split; [done|split].
      * apply (ready_set st node n); [done|done|done|left; by exists size|done].
      * split; [done|]. split; [done|]. exists n, n'. rewrite <- Hid in Hh.
        split_ands; [done|done| |done]. simpl. rewrite Hid. by apply Hun.
    + assert (Hr' : ready (set_node node n' (S (drawn st)) st))
        by (apply (ready_set st node n); [done|done|done|by right|done]).
      destruct e; (split; [done|split; [done|]]); right; by exists n, n'.
Qed.

(** A node after some fragments were reserved: it holds its fragment, or nothing changed. *)
Definition node_outcome (fs : list ReservedFragment) (id : Uuid) (n n' : StorageNode M) : Prop :=
  (exists fr, fr ∈ fs /\ rf_node_id fr = id /\ unused (rf_chunk_id fr) n
     /\ holds (rf_chunk_id fr) (rf_size fr) (sn_ledger n) (sn_ledger n'))
  \/ ((id ∉ map rf_node_id fs) /\ same_space (sn_ledger n) (sn_ledger n')).

Definition part (fr : ReservedFragment) : Uuid * u64 := (rf_node_id fr, rf_size fr).

Lemma reserve_all_spec ts b f flags st :
  NoDup ts.*1 -> (drawn st + length ts <= limit)%nat -> ready st ->
  let '(st', fs, ok) := reserve_all new_v4 now channel_id fragment_size ts b f flags st in
  (map part fs `prefix_of` ts) /\ (ok = true -> map part fs = ts)
  /\ Forall (fun fr => is_Some (cluster st !! rf_node_id fr)) fs
  /\ (forall id, id ∉ ts.*1 -> cluster st' !! id = cluster st !! id)
  /\ forall id n, cluster st !! id = Some n ->
       exists n', cluster st' !! id = Some n' /\ node_outcome fs id n n'.
Proof.
  revert st. induction ts as [|[node size] ts IH]; intros st Hnd Hlim Hrdy; simpl.
  { split_ands; [done|done|constructor|done|]. intros id n Hn. exists n. split; [done|]. right.
    split; [apply not_elem_of_nil|done]. }
  apply NoDup_cons in Hnd as [Hnode Hnd]. simpl in Hnode, Hlim.
  pose proof (try_reserve_chunk_spec node size b f flags st ltac:(lia) Hrdy) as Hp.
  destruct (try_reserve_chunk _ _ _ _ _ _ _ _ _ _) as [st1 [fr|e]]; destruct Hp as (Hdr & Hrdy1 & Hp).
  - destruct Hp as (<- & <- & n0 & n1 & Hn0 & Hcl & Hun & Hh).
    specialize (IH st1 Hnd ltac:(lia) Hrdy1). destruct (reserve_all _ _ _ _ _ _ _ _ _) as [[st2 fs] ok].
    destruct IH as (Hpre & Hok & Hex & Hout & Hin). split_ands.
    + by apply prefix_cons.
    + intros E. simpl. by rewrite Hok.
    + constructor; [by rewrite Hn0|]. eapply Forall_impl; [exact Hex|]. intros f' Hf'. simpl in Hf'.
      rewrite Hcl, lookup_insert_is_Some' in Hf'. destruct Hf' as [<-|?]; [by rewrite Hn0|done].
    + intros id [Hne Hid]%not_elem_of_cons. rewrite Hout, Hcl by done. by apply lookup_insert_ne.
    + intros id n Hn. destruct (decide (id = rf_node_id fr)) as [->|Hne].
      * exists n1. rewrite Hout, Hcl, lookup_insert_eq by done. split; [done|].
        left. exists fr. rewrite Hn0 in Hn. simplify_eq. split_ands; [left|done|done|done].
      * destruct (Hin id n) as (n' & Hn' & Ho); [by rewrite Hcl, lookup_insert_ne|].
        exists n'. split; [done|]. destruct Ho as [(f' & ? & ?)|[Hno Hs]].
        -- left. exists f'. split; [by right|done].
        -- right. split; [|done]. by apply not_elem_of_cons.
  - split_ands; [apply prefix_nil|done|constructor| |].
    + intros id [Hne _]%not_elem_of_cons.
      destruct Hp as [->|(n & n' & _ & -> & _)]; [done|by apply lookup_insert_ne].
    + intros id n Hn. destruct Hp as [->|(n0 & n' & Hn0 & -> & Hs)].
      { exists n. split; [done|]. right. split; [apply not_elem_of_nil|done]. }
      destruct (decide (id = node)) as [->|Hne].
      * exists n'. rewrite lookup_insert_eq. split; [done|]. rewrite Hn0 in Hn. simplify_eq.
        right. split; [apply not_elem_of_nil|done].
      * exists n. rewrite lookup_insert_ne by done. split; [done|]. right.
        split; [apply not_elem_of_nil|done].
Qed.

Lemma cancel_all_spec fs st :
  NoDup (map rf_node_id fs) ->
  forall id n, cluster st !! id = Some n ->
  exists n', cluster (fold_left (fun st fr => cancel_fragment fr st) fs st) !! id = Some n'
    /\ (forall fr, fr ∈ fs -> rf_node_id fr = id ->
         sn_ledger n' = fst (cancel_reservation (rf_chunk_id fr) (sn_ledger n)))
    /\ (id ∉ map rf_node_id fs -> n' = n).
Proof.
  revert st. induction fs as [|fr fs IH]; intros st Hnd id n Hn; simpl in *.
  { exists n. split_ands; [done|by intros fr ?%not_elem_of_nil|done]. }
  apply NoDup_cons in Hnd as [Hfr Hnd].
  destruct (decide (id = rf_node_id fr)) as [->|Hne].
  - set (n1 := mkNode (fst (cancel_reservation (rf_chunk_id fr) (sn_ledger n))) (sn_locks n)).
    assert (Ec : cancel_fragment fr st = set_node (rf_node_id fr) n1 (drawn st) st)
      by (unfold cancel_fragment; by rewrite Hn).
    rewrite Ec.
    destruct (IH (set_node (rf_node_id fr) n1 (drawn st) st) Hnd (rf_node_id fr) n1)
      as (n' & Hn' & _ & Hsame); [apply lookup_insert_eq|].
    rewrite (Hsame Hfr) in Hn'. exists n1. split; [done|]. split.
    + intros f' [->|Hf']%elem_of_cons Hid; [done|].
      exfalso. apply Hfr. rewrite <- Hid. apply list_elem_of_fmap. by exists f'.
    + intros Hnot. exfalso. apply Hnot. left.
  - assert (Hn1 : cluster (cancel_fragment fr st) !! id = Some n).
    { unfold cancel_fragment. destruct (cluster st !! rf_node_id fr); [|done].
      simpl. by rewrite lookup_insert_ne. }
    destruct (IH (cancel_fragment fr st) Hnd id n Hn1) as (n' & Hn' & Hin & Hsame).
    exists n'. split; [done|]. split.
    + intros f' [->|Hf']%elem_of_cons Hid; [done|by apply Hin].
    + intros [_ Hnot]%not_elem_of_cons. by apply Hsame.
Qed.

Lemma storage_insert_keys k v l : forall x, x ∈ (storage_insert k v l).*1 -> x = k \/ x ∈ l.*1.
Proof.
  induction l as [|[k' v'] l IH]; intros x; simpl; [by intros ->%list_elem_of_singleton; left|].
  case_decide as Hk; simpl.
  - intros [->|Hx]%elem_of_cons; [by left|right; by right].
  - intros [->|Hx]%elem_of_cons; [right; left|]. destruct (IH x Hx); [by left|right; by right].
Qed.

(** The entries of a storage map: one per node, none negative. *)
Definition storage_ok (l : list (Uuid * u64)) : Prop := NoDup l.*1 /\ Forall (fun x => 0 <= x.2) l.

Lemma storage_insert_ok k v l : storage_ok l -> 0 <= v -> storage_ok (storage_insert k v l).
Proof.
  intros [Hnd Hpos] Hv. induction l as [|[k' v'] l IH]; simpl.
  { split; [apply NoDup_singleton|by repeat constructor]. }
  apply NoDup_cons in Hnd as [Hk' Hnd]. apply Forall_cons in Hpos as [Hv' Hpos].
  case_decide as Hk; [subst; split; [by apply NoDup_cons|by constructor]|].
  destruct (IH Hnd Hpos) as [Hn Hp]. split; [|by constructor]. apply NoDup_cons. split; [|done].
  intros Hin. by apply storage_insert_keys in Hin as [?|?].
Qed.

Lemma storage_refresh_ok peers l :
  storage_ok l -> Forall (fun x => 0 <= x.2) peers ->
  storage_ok (fold_left (fun m p => storage_insert p.1 p.2 m) peers l).
Proof.
  intros Hl Hp. revert l Hl. induction Hp as [|[k v] peers Hv _ IH]; intros l Hl; simpl; [done|].
  by apply IH, storage_insert_ok.
Qed.

Lemma storage_refresh_length peers l :
  (length (fold_left (fun m p => storage_insert p.1 p.2 m) peers l) <= length l + length peers)%nat.
Proof.
  assert (Hi : forall k v l, (length (storage_insert k v l) <= S (length l))%nat).
  { intros k v l'. induction l' as [|[k' v'] l' IH]; simpl; [lia|]. case_decide; simpl; lia. }
  revert l. induction peers as [|[k v] peers IH]; intros l; simpl; [lia|].
  etrans; [apply IH|]. specialize (Hi k v l). lia.
Qed.

(** What is promised of the reservation of an upload of [size] bytes. *)
Definition reserved_or_unchanged (size : Z) (st st' : NodeState M)
    (r : NodeClientResponse (list ReservedFragment)) : Prop :=
  match r with
  | Ok fs => total (map part fs) = size /\ NoDup (map rf_node_id fs)
      /\ forall fr, fr ∈ fs -> exists n n', cluster st !! rf_node_id fr = Some n
           /\ cluster st' !! rf_node_id fr = Some n'
           /\ holds (rf_chunk_id fr) (rf_size fr) (sn_ledger n) (sn_ledger n')
  | Err _ => forall id n, cluster st !! id = Some n ->
      exists n', cluster st' !! id = Some n' /\ same_space (sn_ledger n) (sn_ledger n')
  end.

Lemma node_unique fs fr fr' :
  NoDup (map rf_node_id fs) -> fr ∈ fs -> fr' ∈ fs -> rf_node_id fr = rf_node_id fr' -> fr = fr'.
Proof.
  intros Hnd [i Hi]%list_elem_of_lookup [j Hj]%list_elem_of_lookup E.
  assert (i = j) as ->; [|congruence].
  apply (NoDup_lookup (map rf_node_id fs) i j (rf_node_id fr) Hnd); rewrite list_lookup_fmap.
  - by rewrite Hi.
  - by rewrite Hj, E.
Qed.

Lemma reserve_targets_spec targets b f flags st :
  NoDup targets.*1 -> (drawn st + length targets <= limit)%nat -> ready st ->
  (forall id n, cluster st !! id = Some n -> in_width 64 (disk_reserved_size (sn_ledger n))) ->
  let '(st', r) :=
    match reserve_all new_v4 now channel_id fragment_size targets b f flags st with
    | (st, fragments, true) => (st, Ok fragments)
    | (st, fragments, false) =>
        (fold_left (fun st f => cancel_fragment f st) fragments st, Err NcInsufficientStorage)
    end in
  reserved_or_unchanged (total targets) st st' r.
Proof.
  intros Hnd Hlim Hrdy Hw. pose proof (reserve_all_spec targets b f flags st Hnd Hlim Hrdy) as Hr.
  destruct (reserve_all _ _ _ _ _ _ _ _ _) as [[st1 fs] ok].
  destruct Hr as ([more Hpre] & Hok & Hex & _ & Hout).
  assert (Hndf : NoDup (map rf_node_id fs)).
  { rewrite Hpre, fmap_app in Hnd. apply NoDup_app in Hnd as [Hnd _].
    unfold part in Hnd. by rewrite map_map in Hnd. }
  destruct ok; simpl.
  - rewrite Hok by done. split_ands; [done|done|]. intros fr Hfr.
    rewrite Forall_forall in Hex. destruct (Hex fr Hfr) as [n Hn].
    destruct (Hout _ n Hn) as (n' & Hn' & [(fr' & Hfr' & Hid & _ & Hh)|[Hno _]]).
    + exists n, n'. rewrite (node_unique fs fr fr'); [by rewrite <- Hid in *|done..].
    + exfalso. apply Hno. apply list_elem_of_fmap. by exists fr.
  - intros id n Hn. destruct (Hout id n Hn) as (n1 & Hn1 & Ho).
    destruct (cancel_all_spec fs st1 Hndf id n1 Hn1) as (n2 & Hn2 & Hin & Hsame).
    exists n2. split; [done|]. destruct Ho as [(fr & Hfr & Hid & (Hr & Hu & _) & Hh)|[Hno Hs]].
    + rewrite (Hin fr Hfr Hid). apply (cancel_holds _ _ _ _ Hh Hr Hu). by eapply Hw.
    + by rewrite (Hsame Hno).
Qed.

End all_or_nothing.

(** ** Witnesses *)
Lemma placement_exact_witness :
  let '(targets, rem) := resolve_targets 1 100 [(1, 100); (2, 50); (3, 400)] 450
                           PreferSelfThenMostFree in
  total targets + rem = 450 /\ targets = [(1, 100); (3, 350)].
Proof.
  pose proof (placement_exact 1 100 [(1, 100); (2, 50); (3, 400)] 450 PreferSelfThenMostFree) as Hp.
  destruct (resolve_targets 1 100 [(1, 100); (2, 50); (3, 400)] 450 PreferSelfThenMostFree)
    as [ts rem] eqn:E.
  split.
  - apply Hp; [|repeat constructor; simpl; lia|lia|lia].
    apply (bool_decide_unpack _). by vm_compute.
  - by vm_compute in E; simplify_eq.
Defined.

(** Node 1 has 300 bytes free; node 2 said it had 900 but has 100. *)
Definition sample_cluster : NodeState (gmap Uuid ExtFragmentMeta) :=
  mkState 1
    (<[1 := mkNode (FragmentLedger_new 300 ∅ ∅) (LockTable_new 10)]>
       (<[2 := mkNode (FragmentLedger_new 100 ∅ ∅) (LockTable_new 10)]> ∅))
    [(2, 900)] 0.

Definition upload_flags : ReserveFlags := mkReserveFlags true false false false.

Definition drawn_ids (n : nat) : Uuid := 1000 + Z.of_nat n.

