(* ===== verification/FileAccess.v ===== *)
(** * Reading and resuming files

    [node/src/public/service/file_access_service.rs] and [file_io_service.rs]: how a download
    of a byte range is split over the fragments of a file, and how a durable upload that was
    interrupted continues where it stopped.

    A fragment is its entry in the file record and its content; the content of fragments is
    given by their chunk id. *)
From Stdlib Require Import ZArith Lia List.
From stdpp Require Import base numbers list.
From S2P Require Import Prelude Errors MdsftpData TransferManager Placement.
Local Open Scope Z_scope.

(** ** Downloads *)
(** [sort_by_key] on the order of the chunks, which is stable. *)
Fixpoint insert_by_order (x : FileChunk) (l : list FileChunk) : list FileChunk :=
  match l with
  | [] => [x]
  | y :: l => if decide (chunk_order x <= chunk_order y) then x :: y :: l else y :: insert_by_order x l
  end.

Definition sort_by_order (l : list FileChunk) : list FileChunk := fold_right insert_by_order [] l.

(** The part of a chunk of [size] bytes at [start] that a request for [range] wants: nothing,
    the default range for the whole of it, or a part. *)
Definition range_of_chunk (range : u64 * u64) (start size : Z)
    : NodeClientResponse (option ChunkRange) :=
  let end_ := start + size - 1 in
  let in_range_start := Z.max start (as_i64 range.1) in
  let in_range_end := Z.min end_ (as_i64 range.2) in
  if decide (in_range_end < in_range_start) then Ok None
  else if decide (in_range_end <> end_ \/ in_range_start <> start) then
    match ChunkRange_new (wrap 64 (in_range_start - start)) (wrap 64 (in_range_end + 1 - start)) with
    | Ok r => Ok (Some r)
    | Err e => Err (client_of_mdsftp e)
    end
  else Ok (Some ChunkRange_default).

Fixpoint chunk_ranges (range : u64 * u64) (start : Z) (chunks : list FileChunk)
    : NodeClientResponse (list (option ChunkRange)) :=
  match chunks with
  | [] => Ok []
  | c :: chunks =>
      match range_of_chunk range start (chunk_size c) with
      | Err e => Err e
      | Ok r =>
          match chunk_ranges range (start + chunk_size c) chunks with
          | Ok rs => Ok (r :: rs)
          | Err e => Err e
          end
      end
  end.

(** [outbound_transfer]: what is written to the client for one chunk.  A local chunk is read
    from the range's start for its size; a remote one is uploaded by its node. *)
Definition outbound_transfer (content : list u8) (range : option ChunkRange) : list u8 :=
  match range with
  | Some r => take (Z.to_nat (ChunkRange_size r)) (drop (Z.to_nat (range_start r)) content)
  | None => content
  end.

Fixpoint send_chunks (content : Uuid -> list u8) (chunks : list FileChunk)
    (ranges : list (option ChunkRange)) : list u8 :=
  match chunks, ranges with
  | c :: chunks, r :: ranges =>
      match r with
      | Some r => outbound_transfer (content (chunk_id c)) (ChunkRange_into_option r)
      | None => []
      end ++ send_chunks content chunks ranges
  | _, _ => []
  end.

(** [handle_download] from the file record on: [range] is already satisfiable, end inclusive. *)
Definition handle_download (content : Uuid -> list u8) (file_chunks : list FileChunk)
    (range : option (u64 * u64)) : NodeClientResponse (list u8) :=
  let chunk_ids := sort_by_order file_chunks in
  match range with
  | None =>
      Ok (send_chunks content chunk_ids (map (fun _ => Some ChunkRange_default) chunk_ids))
  | Some range =>
      match chunk_ranges range 0 chunk_ids with
      | Ok ranges => Ok (send_chunks content chunk_ids ranges)
      | Err e => Err e
      end
  end.

(** ** Resuming an upload *)
(** The first chunk not yet complete, and the bytes of it that are there; [None] is the
    internal error of a session that is complete after all. *)
Fixpoint resume_point (curr already_uploaded : Z) (sizes : list Z) (idx : nat) : option (nat * Z) :=
  match sizes with
  | [] => None
  | size :: sizes =>
      let curr := curr + size in
      if decide (already_uploaded < curr) then Some (idx, size - (curr - already_uploaded))
      else resume_point curr already_uploaded sizes (S idx)
  end.

(** [inbound_transfer] to a fragment: [size - skip] bytes of the stream are stored after what
    is there, or instead of it; a stream that ends early is an error. *)
Definition inbound_transfer (skip size : Z) (append : bool) (stored stream : list u8)
    : option (list u8 * list u8) :=
  let n := Z.to_nat (size - skip) in
  if decide (n <= length stream)%nat
  then Some ((if append then stored else []) ++ take n stream, drop n stream)
  else None.

Fixpoint transfer_chunks (skip : Z) (append : bool) (sizes : list Z) (stored : list (list u8))
    (stream : list u8) : option (list (list u8)) :=
  match sizes, stored with
  | size :: sizes, s :: stored =>
      '(s, stream) ← inbound_transfer skip size append s stream;
      ss ← transfer_chunks 0 false sizes stored stream;
      Some (s :: ss)
  | _, _ => Some stored
  end.

(** [handle_upload_durable] over the fragments in order: their sizes and what each has stored,
    which is what [query_chunk] reports of it. *)
Definition upload_durable (sizes : list Z) (stored : list (list u8)) (stream : list u8)
    : option (list (list u8)) :=
  let already_uploaded := list_sum (map (fun s => Z.of_nat (length s)) stored) in
  if decide (already_uploaded = list_sum sizes) then Some stored
  else
    '(i, skip) ← resume_point 0 already_uploaded sizes 0;
    let first := bool_decide (0 < already_uploaded) in
    let skip := if first then skip else 0 in
    ss ← transfer_chunks skip first (drop i sizes) (drop i stored) stream;
    Some (take i stored ++ ss).

(** Specification: a file cut into pieces of the given sizes. *)
Fixpoint split_sizes (sizes : list Z) (l : list u8) : list (list u8) :=
  match sizes with
  | [] => []
  | n :: sizes => take (Z.to_nat n) l :: split_sizes sizes (drop (Z.to_nat n) l)
  end.

(** ** Downloads: correctness *)
Lemma as_i64_small x : 0 <= x < 2 ^ 63 -> as_i64 x = x.
Proof. intros Hx. unfold as_i64. rewrite Z.mod_small; lia. Qed.

Lemma take_min_length {A} n (l : list A) : take (n `min` length l) l = take n l.
Proof.
  destruct (Nat.min_spec n (length l)) as [[_ ->]|[? ->]]; [done|]. by rewrite !take_ge by lia.
Qed.

(** What of a chunk at [start] lies in the range. *)
Definition part_in_range (range : u64 * u64) (start : Z) (c : list u8) : list u8 :=
  drop (Z.to_nat (range.1 - start)) (take (Z.to_nat (range.2 + 1 - start)) c).

Lemma range_of_chunk_spec range start (c : list u8) :
  0 <= range.1 < 2 ^ 63 -> 0 <= range.2 < 2 ^ 63 -> 0 <= start ->
  start + Z.of_nat (length c) < 2 ^ 63 ->
  exists r, range_of_chunk range start (Z.of_nat (length c)) = Ok r
    /\ match r with Some r => outbound_transfer c (ChunkRange_into_option r) | None => [] end
       = part_in_range range start c.
Proof.
  intros Ha Hb Hs Hl. unfold range_of_chunk, part_in_range. rewrite !as_i64_small by done.
  destruct range as [a b]. cbn [fst snd] in *. case_decide as Hnone.
  { exists None. split; [done|]. symmetry. apply nil_length_inv.
    rewrite length_drop, length_take. lia. }
  case_decide as Hpart.
  - rewrite !wrap_small by (unfold in_width; lia).
    set (lo := Z.max start a) in *. set (hi := Z.min (start + Z.of_nat (length c) - 1) b) in *.
    exists (Some (mkChunkRange (lo - start) (hi + 1 - start))). split.
    { unfold ChunkRange_new. by rewrite decide_False by lia. }
    unfold ChunkRange_into_option. cbn [range_start range_end].
    rewrite u64_add_small, decide_True by (try unfold in_width; lia).
    unfold outbound_transfer, ChunkRange_size. cbn [range_start range_end].
    rewrite u64_sub_small by (try unfold in_width; lia).
    rewrite skipn_firstn_comm. replace (Z.to_nat (lo - start)) with (Z.to_nat (a - start)) by lia.
    rewrite <- (take_min_length (Z.to_nat (b + 1 - start) - Z.to_nat (a - start))).
    f_equal. rewrite length_drop. lia.
  - exists (Some ChunkRange_default). split; [done|].
    replace (Z.to_nat (a - start)) with 0%nat by lia. rewrite drop_0, take_ge by lia. done.
Qed.

(** A chunk of the file with its content. *)
Definition stored_chunk (content : Uuid -> list u8) (c : FileChunk) : Prop :=
  chunk_size c = Z.of_nat (length (content (chunk_id c))).

Lemma part_in_range_app range start (c rest : list u8) :
  0 <= start ->
  part_in_range range start (c ++ rest)
  = part_in_range range start c ++ part_in_range range (start + Z.of_nat (length c)) rest.
Proof.
  intros Hs. unfold part_in_range. destruct range as [a b]. cbn [fst snd].
  rewrite take_app, drop_app, length_take.
  destruct (decide (Z.to_nat (b + 1 - start) <= length c)%nat) as [Hle|Hgt].
  - replace (Z.to_nat (b + 1 - start) - length c)%nat with 0%nat by lia.
    replace (Z.to_nat (b + 1 - (start + Z.of_nat (length c)))) with 0%nat by lia.
    by rewrite !take_0, !drop_nil.
  - f_equal. f_equal; [lia|]. f_equal. lia.
Qed.

Lemma chunk_ranges_spec content range start chunks :
  0 <= range.1 < 2 ^ 63 -> 0 <= range.2 < 2 ^ 63 -> 0 <= start ->
  Forall (stored_chunk content) chunks ->
  start + Z.of_nat (length (concat (map (fun c => content (chunk_id c)) chunks))) < 2 ^ 63 ->
  exists rs, chunk_ranges range start chunks = Ok rs
    /\ send_chunks content chunks rs
       = part_in_range range start (concat (map (fun c => content (chunk_id c)) chunks)).
Proof.
  intros Ha Hb Hs Hst. revert start Hs. induction Hst as [|c chunks Hc _ IH]; intros start Hs Hl; simpl.
  { exists []. split; [done|]. unfold part_in_range. by rewrite take_nil, drop_nil. }
  simpl in Hl. rewrite length_app in Hl. unfold stored_chunk in Hc. rewrite Hc.
  destruct (range_of_chunk_spec range start (content (chunk_id c))) as (r & -> & Er); [done..|lia|].
  destruct (IH (start + Z.of_nat (length (content (chunk_id c))))) as (rs & -> & Ers); [lia..|].
  exists (r :: rs). split; [done|]. simpl. by rewrite part_in_range_app, Er, Ers.
Qed.

Lemma send_all content chunks :
  send_chunks content chunks (map (fun _ => Some ChunkRange_default) chunks)
  = concat (map (fun c => content (chunk_id c)) chunks).
Proof. induction chunks as [|c chunks IH]; simpl; [done|]. by rewrite IH. Qed.

Lemma insert_by_order_perm x l : insert_by_order x l ≡ₚ x :: l.
Proof.
  induction l as [|y l IH]; simpl; [done|]. case_decide; [done|]. rewrite IH. apply Permutation_swap.
Qed.

Lemma sort_by_order_perm l : sort_by_order l ≡ₚ l.
Proof. induction l as [|x l IH]; simpl; [done|]. by rewrite insert_by_order_perm, IH. Qed.

(** A download delivers exactly the bytes asked for.  The client gets the fragments of
    the file in their order, or, for a satisfiable range, exactly the bytes from its first to
    its last inclusive, however the range falls on the fragments; a range never fails once it
    is satisfiable. *)
Lemma download_exact content file_chunks range :
  Forall (stored_chunk content) file_chunks ->
  let file := concat (map (fun c => content (chunk_id c)) (sort_by_order file_chunks)) in
  Z.of_nat (length file) < 2 ^ 63 ->
  (forall r, range = Some r -> 0 <= r.1 /\ r.1 <= r.2 < Z.of_nat (length file)) ->
  handle_download content file_chunks range
  = Ok match range with
       | Some r => take (Z.to_nat (r.2 + 1 - r.1)) (drop (Z.to_nat r.1) file)
       | None => file
       end.
Proof.
  intros Hst file Hlen Hr. unfold handle_download.
  destruct range as [r|]; [|by rewrite send_all]. destruct (Hr r eq_refl) as [Ha Hb].
  destruct (chunk_ranges_spec content r 0 (sort_by_order file_chunks)) as (rs & -> & E);
    [lia|lia|lia|by rewrite sort_by_order_perm|done|].
  rewrite E. f_equal. unfold part_in_range. rewrite skipn_firstn_comm, !Z.sub_0_r.
  f_equal. lia.
Qed.

(** The node of a remote chunk sends what a local one would be read as. *)
Lemma remote_outbound content range B fs :
  0 < fs < 2 ^ 32 -> 0 <= B ->
  let params := mkSizeParams (Z.of_nat (length content)) range in
  in_width 64 (SizeParams_size params) ->
  SizeParams_offset params + SizeParams_size params <= Z.of_nat (length content) ->
  0 <= SizeParams_offset params ->
  chunk_count fs (SizeParams_size params) + B < 2 ^ 32 - 1 ->
  exists s, mdsftp_upload (SeekableStream content) params
      (map Z.of_nat (seq 0 (Z.to_nat (chunk_count fs (SizeParams_size params))))) B fs = (s, Ok tt)
    /\ sent_content (up_trace s) = outbound_transfer content range.
Proof.
  intros Hfs HB params Hw Hfit Hoff Hcount.
  assert (Hread : read_from (SeekableStream content) (SizeParams_offset params)
    = drop (Z.to_nat (SizeParams_offset params)) content).
  { unfold read_from. case_decide; [done|]. by replace (Z.to_nat _) with 0%nat by lia. }
  destruct (upload_done_holds (SeekableStream content) params B fs) as (s & E & D);
    [done|done|done| |done|].
  { rewrite Hread, length_drop. unfold in_width in Hw. lia. }
  exists s. split; [exact E|]. rewrite (ud_content _ _ _ _ _ D), Hread. subst params.
  unfold SizeParams_size, SizeParams_offset, outbound_transfer.
  destruct range as [r|]; cbn [sp_range sp_size]; [done|]. simpl. by rewrite drop_0, take_ge by lia.
Qed.

(** ** Resuming: correctness *)
Lemma split_sizes_length sizes l : length (split_sizes sizes l) = length sizes.
Proof. revert l. induction sizes; intros l; simpl; [done|]. by f_equal. Qed.

Lemma list_sum_nonneg l : Forall (fun n => 0 <= n) l -> 0 <= list_sum l.
Proof. unfold list_sum. induction 1; simpl; lia. Qed.

Lemma split_sizes_sum sizes l :
  Forall (fun n => 0 <= n) sizes ->
  list_sum (map (fun s => Z.of_nat (length s)) (split_sizes sizes l))
  = Z.min (list_sum sizes) (Z.of_nat (length l)).
Proof.
  intros Hp. revert l. induction Hp as [|n sizes Hn Hp IH]; intros l; cbn [split_sizes map].
  { unfold list_sum. simpl. lia. }
  pose proof (list_sum_nonneg sizes Hp).
  change (Z.of_nat (length (take (Z.to_nat n) l))
    + list_sum (map (fun s => Z.of_nat (length s)) (split_sizes sizes (drop (Z.to_nat n) l)))
    = Z.min (n + list_sum sizes) (Z.of_nat (length l))).
  rewrite IH, length_take, length_drop. lia.
Qed.

(** Chunks with nothing stored take the rest of the stream in turn. *)
Lemma transfer_rest sizes stored stream :
  Forall (fun n => 0 <= n) sizes -> length stored = length sizes ->
  list_sum sizes <= Z.of_nat (length stream) ->
  transfer_chunks 0 false sizes stored stream = Some (split_sizes sizes stream).
Proof.
  intros Hp. revert stored stream. induction Hp as [|n sizes Hn Hp IH]; intros [|s stored] stream Hl Hs;
    try done. change (n + list_sum sizes <= Z.of_nat (length stream)) in Hs.
  pose proof (list_sum_nonneg sizes Hp).
  cbn [transfer_chunks]. unfold inbound_transfer.
  rewrite Z.sub_0_r, decide_True by lia. cbn [mbind option_bind].
  rewrite IH; [done|by simplify_eq/=|]. rewrite length_drop. lia.
Qed.

Lemma resume_transfer sizes (F : list u8) k (first : bool) idx curr :
  Forall (fun n => 0 <= n) sizes -> list_sum sizes = Z.of_nat (length F) ->
  (k < length F)%nat -> (first = false -> k = 0%nat) ->
  exists i skip, resume_point curr (curr + Z.of_nat k) sizes idx = Some ((idx + i)%nat, skip)
    /\ exists ss, transfer_chunks (if first then skip else 0) first (drop i sizes)
         (drop i (split_sizes sizes (take k F))) (drop k F) = Some ss
       /\ take i (split_sizes sizes (take k F)) ++ ss = split_sizes sizes F.
Proof.
  intros Hp. revert F k idx curr. induction Hp as [|n sizes Hn Hp IH]; intros F k idx curr Hsum Hk Hfirst.
  { unfold list_sum in Hsum. simpl in Hsum. lia. }
  change (n + list_sum sizes = Z.of_nat (length F)) in Hsum. cbn [resume_point split_sizes].
  pose proof (list_sum_nonneg sizes Hp). case_decide as Hlt.
  - exists 0%nat, (Z.of_nat k). rewrite Nat.add_0_r. split; [f_equal; f_equal; lia|].
    cbn [drop take app]. exists (split_sizes (n :: sizes) F). split; [|done].
    assert (Hskip : (if first then Z.of_nat k else 0) = Z.of_nat k).
    { destruct first; [done|]. rewrite Hfirst by done. done. }
    rewrite Hskip. cbn [transfer_chunks split_sizes]. unfold inbound_transfer.
    rewrite length_drop, decide_True by lia. cbn [mbind option_bind].
    assert (Hold : (if first then take (Z.to_nat n) (take k F) else []) = take k F).
    { destruct first; [rewrite take_ge; [done|rewrite length_take; lia]|]. by rewrite Hfirst by done. }
    rewrite Hold, take_take_drop, drop_drop.
    replace (k + Z.to_nat (n - Z.of_nat k))%nat with (Z.to_nat n) by lia.
    rewrite transfer_rest; [done|done|apply split_sizes_length|]. rewrite length_drop. lia.
  - destruct (IH (drop (Z.to_nat n) F) (k - Z.to_nat n)%nat (S idx) (curr + n)) as (i & skip & Hrp & ss & Hts & Hss).
    { rewrite length_drop. lia. }
    { rewrite length_drop. lia. }
    { intros Hf. rewrite Hfirst by done. lia. }
    exists (S i), skip. split.
    { replace (curr + Z.of_nat k) with (curr + n + Z.of_nat (k - Z.to_nat n)) by lia.
      rewrite Hrp. f_equal. f_equal. lia. }
    assert (Ed : drop (Z.to_nat n) (take k F) = take (k - Z.to_nat n) (drop (Z.to_nat n) F))
      by apply skipn_firstn_comm.
    assert (Es : drop k F = drop (k - Z.to_nat n) (drop (Z.to_nat n) F)).
    { rewrite drop_drop. f_equal. lia. }
    cbn [drop take]. rewrite Ed, Es. exists ss. split; [exact Hts|].
    simpl. rewrite Hss. f_equal. rewrite take_take. f_equal. lia.
Qed.


(** ** Witnesses *)
Definition sample_content (id : Uuid) : list u8 :=
  if decide (id = 7) then [1; 2; 3] else [4; 5; 6; 7].

Definition sample_chunks : list FileChunk := [mkFileChunk 2 8 4 1; mkFileChunk 1 7 3 0].

Lemma download_exact_witness :
  handle_download sample_content sample_chunks (Some (1, 4)) = Ok [2; 3; 4; 5].
Proof.
  exact (download_exact sample_content sample_chunks (Some (1, 4))
    ltac:(repeat constructor) ltac:(by vm_compute) ltac:(intros r [= <-]; by vm_compute)).
Defined.

