(* ===== verification/Paths.v ===== *)
(** * Paths

    [data/src/pathlib.rs] and the path extractors of the node: how the path of a request is
    brought into the form under which files and directories are recorded.

    A string is the list of its bytes; the separators are ASCII, so the regular expression,
    [trim_matches] and [chars().filter] act on bytes.  [Path::parent] and [Path::file_name]
    are those of the standard library on Unix. *)
From Stdlib Require Import ZArith Lia List Ascii String.
From stdpp Require Import base numbers list strings.
From S2P Require Import Prelude Errors.
Local Open Scope Z_scope.

Abbreviation Text := (list ascii) (only parsing).

Definition str (s : string) : Text := list_ascii_of_string s.

Definition SLASH : ascii := "/"%char.
Definition BACKSLASH : ascii := "\"%char.

(** The class [[\\/]] of [PATH_REGEX]. *)
Definition is_sep (c : ascii) : bool := bool_decide (c = SLASH \/ c = BACKSLASH).

(** [PATH_REGEX.replace_all(path, "/")]: each run of separators becomes one slash. *)
Fixpoint replace_all (in_run : bool) (p : Text) : Text :=
  match p with
  | [] => []
  | c :: p =>
      if is_sep c then if in_run then replace_all true p else SLASH :: replace_all true p
      else c :: replace_all false p
  end.

Fixpoint trim_start (p : Text) : Text :=
  match p with
  | [] => []
  | c :: p => if decide (c = SLASH) then trim_start p else c :: p
  end.

Fixpoint trim_end (p : Text) : Text :=
  match p with
  | [] => []
  | c :: p =>
      match trim_end p with
      | [] => if decide (c = SLASH) then [] else [c]
      | p => c :: p
      end
  end.

(** [trim_matches('/')] *)
Definition trim_matches (p : Text) : Text := trim_end (trim_start p).

Definition normalize (path : Text) : Text := trim_matches (replace_all false path).
#[global] Arguments normalize : simpl never.

(** ** [std::path::Path] *)
Fixpoint split_on (f : ascii -> bool) (p : Text) : list Text :=
  match p with
  | [] => [[]]
  | c :: p =>
      if f c then [] :: split_on f p
      else match split_on f p with s :: ss => (c :: s) :: ss | [] => [[c]] end
  end.

Fixpoint join (ss : list Text) : Text :=
  match ss with
  | [] => []
  | s :: ss => match ss with [] => s | _ => s ++ SLASH :: join ss end
  end.

Inductive Component : Type := RootDir | CurDir | ParentDir | Normal (name : Text).

Definition DOT : Text := str ".".
Definition DOTDOT : Text := str "..".

(** Empty segments and single dots are not components. *)
Definition skipped (seg : Text) : bool := bool_decide (seg = [] \/ seg = DOT).

Fixpoint drop_skipped (segs : list Text) : list Text :=
  match segs with
  | [] => []
  | s :: segs' => if skipped s then drop_skipped segs' else segs
  end.

(** The root or the leading dot, and the segments after it. *)
Definition path_head (p : Text) : option Component * list Text :=
  match split_on (fun c => bool_decide (c = SLASH)) p with
  | [] => (None, [])
  | s :: body =>
      if decide (s = [] /\ body <> []) then (Some RootDir, body)
      else if decide (s = DOT) then (Some CurDir, body)
      else (None, s :: body)
  end.

(** [Components::as_path] of the head and the segments that are left. *)
Definition as_path (head : option Component) (body : list Text) : Text :=
  match head with
  | Some RootDir => SLASH :: join body
  | Some CurDir => join (DOT :: body)
  | _ => join body
  end.

(** [Components::next_back], with the path before the component. *)
Definition next_back (p : Text) : option (Component * Text) :=
  let '(head, body) := path_head p in
  match drop_skipped (reverse body) with
  | seg :: rest =>
      Some (if decide (seg = DOTDOT) then ParentDir else Normal seg,
            as_path head (reverse (drop_skipped rest)))
  | [] => (fun h => (h, [])) <$> head
  end.

Definition Path_parent (p : Text) : option Text :=
  match next_back p with
  | Some (RootDir, _) => None
  | Some (_, rest) => Some rest
  | None => None
  end.

Definition Path_file_name (p : Text) : option Text :=
  match next_back p with Some (Normal name, _) => Some name | _ => None end.

(** ** Splitting and joining *)
Definition split_path (file_path : Text) : option Text * Text :=
  let parent := normalize <$> Path_parent file_path in
  let parent := match parent with Some [] => None | _ => parent end in
  (parent, normalize (default [] (Path_file_name file_path))).
#[global] Arguments split_path : simpl never.

Definition join_parent_name (parent name : Text) : Text :=
  match parent with [] => name | _ => parent ++ SLASH :: name end.

(** ** Validation *)
Record FsLimitConfiguration : Type := mkFsLimit {
  max_path_length : u32;
  max_directory_depth : u32
}.

Definition FsLimitConfiguration_new : FsLimitConfiguration := mkFsLimit 4096 256.

Definition auto_reject_path_length (cfg : FsLimitConfiguration) : u32 :=
  wrap 32 (max_path_length cfg + 32).

(** [s.len() as u32] *)
Definition len_u32 (p : Text) : u32 := wrap 32 (Z.of_nat (length p)).

Definition count_slashes (p : Text) : nat := length (filter (fun c => c = SLASH) p).

Definition prepare_path (path : Text) (cfg : FsLimitConfiguration) : option Text :=
  if decide (auto_reject_path_length cfg < len_u32 path) then None
  else
    let normalized := normalize path in
    let nest_level := wrap 32 (wrap 32 (Z.of_nat (count_slashes normalized)) + 1) in
    if decide (max_directory_depth cfg < nest_level \/ max_path_length cfg < len_u32 normalized)
    then None else Some normalized.

(** [EntryPath] and [RenameEntityRequest]: the path is checked once and cached. *)
Record EntryPath : Type := mkEntryPath {
  ep_app_id : Uuid;
  ep_bucket_id : Uuid;
  ep_path : option Text;
  ep_cached_path : option Text
}.

Definition EntryPath_check_valid (cfg : FsLimitConfiguration) (e : EntryPath)
    : NodeClientResponse EntryPath :=
  match prepare_path (default [] (ep_path e)) cfg with
  | Some p => Ok (mkEntryPath (ep_app_id e) (ep_bucket_id e) (ep_path e) (Some p))
  | None => Err NcBadRequest
  end.

(** [EntryPath::from_request], after the path parameters are parsed. *)
Definition EntryPath_from_request (cfg : FsLimitConfiguration) (e : EntryPath)
    : NodeClientResponse EntryPath :=
  map_err (fun _ => NcBadResourcePath) (EntryPath_check_valid cfg e).

Record RenameEntityRequest : Type := mkRename { rn_to : Text; rn_cached_path : option Text }.

Definition Rename_check_valid (cfg : FsLimitConfiguration) (r : RenameEntityRequest)
    : NodeClientResponse RenameEntityRequest :=
  match prepare_path (rn_to r) cfg with
  | Some p => Ok (mkRename (rn_to r) (Some p))
  | None => Err NcBadRequest
  end.

(** ** Normalisation *)
(** Reference: the names between separators. *)
Definition names (p : Text) : list Text := filter (fun s => s <> []) (split_on is_sep p).

(** A name has characters and no separator. *)
Definition clean (s : Text) : Prop := s <> [] /\ Forall (fun c => is_sep c = false) s.

#[global] Instance clean_dec s : Decision (clean s).
Proof. unfold clean. apply _. Defined.

Lemma split_on_cons f p : exists s ss, split_on f p = s :: ss.
Proof.
  induction p as [|c p (s & ss & E)]; simpl; [by eauto|]. rewrite E. destruct (f c); eauto.
Qed.

Lemma trim_start_replace p : trim_start (replace_all false p) = replace_all true p.
Proof.
  induction p as [|c p IH]; simpl; [done|]. destruct (is_sep c) eqn:Ec; simpl.
  - assert (E : trim_start (replace_all true p) = replace_all true p); [|done].
    clear IH Ec c. induction p as [|c p IH]; simpl; [done|].
    destruct (is_sep c) eqn:Ec; [done|]. simpl. rewrite decide_False; [done|].
    intros ->. done.
  - rewrite decide_False; [done|]. intros ->. done.
Qed.

Lemma join_nil ss : Forall (fun s => s <> []) ss -> join ss = [] -> ss = [].
Proof.
  destruct ss as [|s [|t ss]]; intros Hs; [done| |]; apply Forall_cons in Hs as [Hs _]; simpl.
  - done.
  - by destruct s.
Qed.

Lemma join_cons s ss : join (s :: ss) = s ++ match ss with [] => [] | _ => SLASH :: join ss end.
Proof. destruct ss; simpl; [by rewrite app_nil_r|done]. Qed.

Lemma filter_nonempty (ss : list Text) : Forall (fun s => s <> []) (filter (fun s => s <> []) ss).
Proof. apply Forall_forall. intros s. rewrite list_elem_of_filter. tauto. Qed.

Lemma trim_end_cons c p : c <> SLASH -> trim_end (c :: p) = c :: trim_end p.
Proof. intros Hc. simpl. destruct (trim_end p); [by rewrite decide_False|done]. Qed.

Lemma trim_end_slash p :
  trim_end (SLASH :: p) = match trim_end p with [] => [] | q => SLASH :: q end.
Proof. simpl. by destruct (trim_end p). Qed.

Lemma trim_replace p s ss :
  split_on is_sep p = s :: ss ->
  trim_end (replace_all true p) = join (names p)
  /\ trim_end (replace_all false p)
     = s ++ match filter (fun s => s <> []) ss with [] => [] | qs => SLASH :: join qs end.
Proof.
  unfold names. revert s ss. induction p as [|c p IH]; intros s ss E;
    cbn [split_on replace_all] in *.
  { by injection E as <- <-. }
  destruct (split_on_cons is_sep p) as (t & ts & Et). destruct (IH t ts Et) as [IHt IHf].
  rewrite Et in *. destruct (is_sep c) eqn:Ec; injection E as <- <-.
  - rewrite (filter_cons_False _ []) by tauto. split; [done|].
    rewrite trim_end_slash, IHt.
    destruct (filter (fun s => s <> []) (t :: ts)) as [|q qs] eqn:Eq; [done|].
    destruct (join (q :: qs)) eqn:Ej; [|done].
    apply join_nil in Ej; [done|]. rewrite <- Eq. apply filter_nonempty.
  - rewrite (filter_cons_True _ (c :: t)) by done.
    assert (Hc : c <> SLASH) by (intros ->; done).
    rewrite trim_end_cons, IHf by done. split; [|done]. rewrite join_cons. by destruct (filter _ ts).
Qed.

Lemma normalize_join p : normalize p = join (names p).
Proof.
  unfold normalize, trim_matches. rewrite trim_start_replace.
  destruct (split_on_cons is_sep p) as (s & ss & E). by destruct (trim_replace p s ss E).
Qed.

Lemma split_on_clean f s : Forall (fun c => f c = false) s -> split_on f s = [s].
Proof. induction 1 as [|c s Hc _ IH]; simpl; [done|]. by rewrite Hc, IH. Qed.

Lemma split_on_app f s c p :
  Forall (fun c => f c = false) s -> f c = true -> split_on f (s ++ c :: p) = s :: split_on f p.
Proof.
  induction 1 as [|d s Hd _ IH]; intros Hc; simpl; [by rewrite Hc|]. by rewrite Hd, IH.
Qed.

Lemma split_on_join f ss :
  f SLASH = true -> ss <> [] -> Forall (Forall (fun c => f c = false)) ss ->
  split_on f (join ss) = ss.
Proof.
  intros Hf Hne Hss. induction Hss as [|s ss Hs Hss IH]; [done|].
  destruct ss as [|t ss]; simpl join; [by apply split_on_clean|].
  rewrite split_on_app by done. f_equal. by apply IH.
Qed.

Lemma names_clean p : Forall clean (names p).
Proof.
  unfold names. apply Forall_forall. intros s. rewrite list_elem_of_filter. intros [Hne Hs].
  split; [done|]. revert s Hne Hs. induction p as [|c p IH]; simpl; intros s Hne Hs.
  { by apply list_elem_of_singleton in Hs. }
  destruct (split_on_cons is_sep p) as (t & ts & E). rewrite E in *.
  destruct (is_sep c) eqn:Ec; apply elem_of_cons in Hs as [->|Hs]; [done|by apply IH| |].
  - constructor; [done|]. destruct t; [done|]. apply IH; [done|by left].
  - apply IH; [done|by right].
Qed.

Lemma names_join ss : Forall clean ss -> names (join ss) = ss.
Proof.
  intros Hss. unfold names. destruct ss as [|s ss]; [done|].
  rewrite split_on_join; [|done|done|]; cycle 1.
  { eapply Forall_impl; [done|]. by intros x []. }
  induction Hss as [|x l [Hx _] _ IH]; [done|]. by rewrite filter_cons_True, IH.
Qed.

Lemma normalize_canonical_parts p :
  normalize (normalize p) = normalize p /\ names (normalize p) = names p.
Proof.
  assert (E : names (normalize p) = names p).
  { rewrite normalize_join. apply names_join, names_clean. }
  by rewrite (normalize_join (normalize p)), E, <- normalize_join.
Qed.

(** Normalisation.  The normal form of a path is its names joined by single slashes; it
    has the same names, and two paths have the same normal form exactly if they have the
    same names.  So normalising twice changes nothing. *)
Theorem normalize_canonical p :
  normalize p = join (names p) /\ names (normalize p) = names p
  /\ (forall q, normalize q = normalize p <-> names q = names p).
Proof.
  split; [apply normalize_join|]. split; [apply normalize_canonical_parts|]. intros q. split.
  - intros E. rewrite <- (proj2 (normalize_canonical_parts q)), E. apply normalize_canonical_parts.
  - intros E. by rewrite !normalize_join, E.
Qed.

Lemma normalize_clean ss : Forall clean ss -> normalize (join ss) = join ss.
Proof. intros Hss. by rewrite normalize_join, names_join. Qed.

(** ** Splitting *)
(** A name that stands for itself as a path component. *)
Definition plain (s : Text) : Prop := clean s /\ s <> DOT /\ s <> DOTDOT.

#[global] Instance plain_dec s : Decision (plain s).
Proof. unfold plain. apply _. Defined.

Lemma plain_clean ss : Forall plain ss -> Forall clean ss.
Proof. intros Hss. eapply Forall_impl; [done|]. by intros s []. Qed.

Lemma plain_not_skipped s : plain s -> skipped s = false.
Proof. intros [[? _] [? _]]. apply bool_decide_eq_false. tauto. Qed.

Lemma drop_skipped_plain ss : Forall plain ss -> drop_skipped ss = ss.
Proof. destruct 1 as [|s ss Hs _]; simpl; [done|]. by rewrite plain_not_skipped. Qed.

Lemma path_head_join s ss :
  plain s -> Forall (Forall (fun c => is_sep c = false)) ss ->
  path_head (join (s :: ss)) = (None, s :: ss).
Proof.
  intros ([Hne Hs] & Hd & _) Hss. unfold path_head. rewrite split_on_join; [|done|done|].
  - rewrite decide_False by tauto. by rewrite decide_False.
  - assert (Hall : Forall (Forall (fun c => is_sep c = false)) (s :: ss)) by by constructor.
    eapply Forall_impl; [exact Hall|]. intros x Hx. eapply Forall_impl; [exact Hx|].
    intros c Hc. apply bool_decide_eq_false. intros ->. done.
Qed.

Lemma clean_chars ss : Forall clean ss -> Forall (Forall (fun c => is_sep c = false)) ss.
Proof. intros Hss. eapply Forall_impl; [done|]. by intros s []. Qed.

(** The last component of a path of plain names, and what a trailing dot or double dot does. *)
Lemma next_back_plain ss s :
  Forall plain ss -> plain s -> next_back (join (ss ++ [s])) = Some (Normal s, join ss).
Proof.
  intros Hss Hs. unfold next_back.
  assert (E : path_head (join (ss ++ [s])) = (None, ss ++ [s])).
  { destruct ss as [|x ss]; simpl app; [by apply path_head_join|].
    apply Forall_cons in Hss as [Hx Hss]. apply path_head_join; [done|].
    apply clean_chars, plain_clean, Forall_app. by split; [|constructor]. }
  rewrite E, reverse_snoc. simpl. rewrite plain_not_skipped by done.
  rewrite decide_False by apply Hs.
  rewrite drop_skipped_plain by by apply Forall_reverse. by rewrite reverse_involutive.
Qed.

Lemma next_back_dotted ss d :
  Forall plain ss -> ss <> [] -> d = DOT \/ d = DOTDOT ->
  next_back (join (ss ++ [d]))
  = if decide (d = DOT) then next_back (join ss) else Some (ParentDir, join ss).
Proof.
  intros Hss Hne Hd. destruct ss as [|x ss]; [done|].
  assert (Hx : plain x) by (by apply Forall_cons in Hss as [? _]).
  assert (Hch : Forall (Forall (fun c => is_sep c = false)) (ss ++ [d])).
  { apply Forall_cons in Hss as [_ Hss]. apply Forall_app. split.
    - by apply clean_chars, plain_clean.
    - by destruct Hd as [-> | ->]; repeat constructor. }
  unfold next_back at 1. rewrite <- app_comm_cons, path_head_join by done.
  rewrite app_comm_cons, reverse_snoc. destruct Hd as [-> | ->]; cbn [drop_skipped].
  - replace (skipped DOT) with true by done. rewrite decide_True by done.
    unfold next_back. rewrite path_head_join; [done|done|].
    apply clean_chars, plain_clean. by apply Forall_cons in Hss as [_ ?].
  - replace (skipped DOTDOT) with false by done. rewrite decide_True by done.
    rewrite drop_skipped_plain by by apply Forall_reverse. by rewrite reverse_involutive.
Qed.

Lemma normalize_nil ss : Forall clean ss -> ss <> [] -> join ss <> [].
Proof. intros Hss Hne E. apply Hne, join_nil; [|done]. eapply Forall_impl; [done|]. by intros x []. Qed.

Lemma split_path_join ss s :
  Forall plain ss -> plain s ->
  split_path (join (ss ++ [s])) = (match ss with [] => None | _ => Some (join ss) end, s).
Proof.
  intros Hss Hs. unfold split_path, Path_parent, Path_file_name. rewrite next_back_plain by done.
  cbn. rewrite (normalize_clean ss) by by apply plain_clean.
  replace (normalize s) with s.
  - destruct ss as [|x ss]; [done|].
    destruct (join (x :: ss)) eqn:E; [|done]. by apply normalize_nil in E; [|apply plain_clean|].
  - symmetry. apply (normalize_clean [s]). constructor; [apply Hs|done].
Qed.

Lemma join_snoc l s : l <> [] -> join (l ++ [s]) = join l ++ SLASH :: s.
Proof.
  intros Hl. destruct l as [|x l]; [done|]. clear Hl. revert x.
  induction l as [|y l IH]; intros x; [done|].
  change (join (x :: y :: l)) with (x ++ SLASH :: join (y :: l)).
  rewrite <- app_assoc. cbn [app]. by rewrite <- (IH y).
Qed.

(** Splitting a path undoes joining it.  For a path of plain names, [split_path] of its
    normal form gives the normalised parent, none at the root, and the last name, and joining
    the two again gives the normal form back. *)
Theorem split_path_roundtrip p ss s :
  names p = ss ++ [s] -> Forall plain (names p) ->
  split_path (normalize p) = (match ss with [] => None | _ => Some (join ss) end, s)
  /\ join_parent_name (default [] (split_path (normalize p)).1) (split_path (normalize p)).2
     = normalize p.
Proof.
  intros En Hp. rewrite normalize_join, En in *. apply Forall_app in Hp as [Hss Hs].
  apply Forall_cons in Hs as [Hs _]. rewrite split_path_join by done. split; [done|].
  clear En. destruct Hss as [|x ss Hx Hss]; [done|]. cbn [fst snd default from_option].
  rewrite join_snoc by done. destruct (join (x :: ss)) eqn:Ej; [|done].
  apply normalize_nil in Ej; [done| |done]. apply plain_clean. by constructor.
Qed.

(** A trailing dot names the same entry, a trailing double dot an entry without a name. *)
Lemma split_path_dot ss :
  Forall plain ss -> ss <> [] -> split_path (join (ss ++ [DOT])) = split_path (join ss).
Proof.
  intros Hss Hne. unfold split_path, Path_parent, Path_file_name.
  by rewrite next_back_dotted, decide_True by auto.
Qed.

Lemma split_path_dotdot ss :
  Forall plain ss -> ss <> [] -> split_path (join (ss ++ [DOTDOT])) = (Some (join ss), []).
Proof.
  intros Hss Hne. unfold split_path, Path_parent, Path_file_name.
  rewrite next_back_dotted, decide_False by auto. cbn.
  rewrite (normalize_clean ss) by by apply plain_clean.
  destruct (join ss) eqn:E; [|done]. by apply normalize_nil in E; [|apply plain_clean|].
Qed.

(** ** Validation *)
Lemma count_slashes_app p q : count_slashes (p ++ q) = (count_slashes p + count_slashes q)%nat.
Proof. unfold count_slashes. by rewrite filter_app, length_app. Qed.

Lemma count_slashes_clean s : Forall (fun c => is_sep c = false) s -> count_slashes s = 0%nat.
Proof.
  unfold count_slashes. induction 1 as [|c s Hc _ IH]; [done|]. rewrite filter_cons_False; [done|].
  intros ->. done.
Qed.

Lemma count_slashes_join ss : Forall clean ss -> count_slashes (join ss) = (length ss - 1)%nat.
Proof.
  induction 1 as [|s ss [_ Hs] _ IH]; [done|]. rewrite join_cons, count_slashes_app.
  rewrite count_slashes_clean by done. destruct ss as [|t ss]; [done|].
  change (SLASH :: join (t :: ss)) with ([SLASH] ++ join (t :: ss)).
  rewrite count_slashes_app, IH. simpl. lia.
Qed.

Lemma replace_all_length b p : (length (replace_all b p) <= length p)%nat.
Proof.
  revert b. induction p as [|c p IH]; intros b; simpl; [lia|].
  destruct (is_sep c), b; simpl; specialize (IH true) as H1; specialize (IH false) as H2; lia.
Qed.

Lemma trim_end_length p : (length (trim_end p) <= length p)%nat.
Proof. induction p as [|c p IH]; simpl; [lia|]. destruct (trim_end p); [case_decide|]; simpl in *; lia. Qed.

Lemma normalize_length p : (length (normalize p) <= length p)%nat.
Proof.
  unfold normalize, trim_matches. rewrite trim_start_replace, trim_end_length.
  apply replace_all_length.
Qed.

Lemma join_length ss : Forall clean ss -> (2 * length ss <= S (length (join ss)))%nat.
Proof.
  induction 1 as [|s ss [Hs _] _ IH]; [simpl; lia|]. rewrite join_cons, length_app.
  destruct s; [done|]. destruct ss; simpl in *; lia.
Qed.

(** Every path, of whatever names, is longer than its parent. *)
Lemma join_split p : join (split_on (fun c => bool_decide (c = SLASH)) p) = p.
Proof.
  induction p as [|c p IH]; [done|]. cbn [split_on].
  destruct (split_on_cons (fun c => bool_decide (c = SLASH)) p) as (t & ts & E). rewrite E in *.
  case_bool_decide as Hc.
  - subst c. rewrite join_cons, IH. done.
  - rewrite join_cons in *. simpl. by rewrite IH.
Qed.

Lemma join_app_length l seg k :
  seg <> [] -> (length (join l) < length (join (l ++ seg :: k)))%nat.
Proof.
  intros Hs. induction l as [|s l IH]; cbn [app].
  - rewrite join_cons, length_app. destruct seg; [done|simpl; lia].
  - rewrite !join_cons, !length_app. destruct l as [|t l]; [simpl; destruct k; simpl; lia|].
    simpl in *. lia.
Qed.

Lemma path_head_as_path p head body :
  path_head p = (head, body) -> as_path head body = p \/ (p = [] /\ body = [[]]).
Proof.
  unfold path_head. pose proof (join_split p) as E.
  destruct (split_on _ p) as [|s b] eqn:Es.
  { by destruct (split_on_cons (fun c => bool_decide (c = SLASH)) p) as (? & ? & ?); simplify_eq. }
  case_decide as H1; [|case_decide as H2]; intros [= <- <-]; left; simpl; [|by subst s|done].
  destruct H1 as [-> Hb]. rewrite join_cons in E. by destruct b.
Qed.

Lemma drop_skipped_suffix l :
  exists k, l = k ++ drop_skipped l /\ match drop_skipped l with seg :: _ => seg <> [] | [] => True end.
Proof.
  induction l as [|s l (k & E & Hh)]; [by exists []|]. simpl.
  destruct (skipped s) eqn:Es.
  - exists (s :: k). split; [|done]. by rewrite <- app_comm_cons, <- E.
  - exists []. split; [done|]. apply bool_decide_eq_false in Es. tauto.
Qed.

Lemma next_back_shorter p c rest :
  next_back p = Some (c, rest) -> c <> RootDir -> (length rest < length p)%nat.
Proof.
  unfold next_back. destruct (path_head p) as [head body] eqn:Eh. intros E Hc.
  destruct (drop_skipped_suffix (reverse body)) as (k & Eb & Hseg).
  destruct (drop_skipped (reverse body)) as [|seg rest'].
  - destruct head as [h|]; [|done]. injection E as <- <-.
    destruct p; [by vm_compute in Eh|simpl; lia].
  - injection E as <- <-. destruct (drop_skipped_suffix rest') as (k' & Er & _).
    assert (Hb : body = reverse (drop_skipped rest') ++ reverse k' ++ seg :: reverse k).
    { rewrite <- (reverse_involutive body), Eb. rewrite Er at 1.
      by rewrite reverse_app, reverse_cons, reverse_app, <- !app_assoc. }
    destruct (path_head_as_path _ _ _ Eh) as [<-|[-> ->]]; cycle 1.
    { assert (Hin : seg ∈ ([[]] : list Text)).
      { rewrite Hb, !elem_of_app, elem_of_cons. auto. }
      by apply list_elem_of_singleton in Hin. }
    rewrite Hb, app_assoc.
    assert (Hle : forall l m, (length (join l) <= length (join (l ++ m)))%nat).
    { intros l m. destruct m as [|t m]; [by rewrite app_nil_r|].
      induction l as [|x l IH]; [simpl; lia|]. cbn [app]. rewrite !join_cons, !length_app.
      destruct l; simpl in *; lia. }
    pose proof (Hle (reverse (drop_skipped rest')) (reverse k')) as H1.
    pose proof (join_app_length (reverse (drop_skipped rest') ++ reverse k') seg (reverse k) Hseg) as H2.
    destruct head as [[]|]; cbn [as_path]; try (simpl; lia).
    rewrite !join_cons, !length_app. destruct (reverse (drop_skipped rest')) as [|]; simpl in *;
      destruct (reverse k'); simpl in *; lia.
Qed.

Lemma split_parent_shorter p q : (split_path p).1 = Some q -> (length q < length p)%nat.
Proof.
  unfold split_path, Path_parent. cbn [fst].
  destruct (next_back p) as [[c rest]|] eqn:E; [|done].
  assert (Hl : c <> RootDir -> (length (normalize rest) < length p)%nat).
  { intros Hc. pose proof (next_back_shorter p c rest E Hc). pose proof (normalize_length rest). lia. }
  destruct c; [done|..]; cbn [fmap option_fmap option_map];
    destruct (normalize rest) as [|x l] eqn:En; try done; intros [= <-]; by apply Hl.
Qed.

(** The limits on paths.  A path is accepted exactly if it is at most 32 bytes longer
    than the limit and its normal form respects the limits on length and depth; the accepted
    path is that normal form, and it is accepted again unchanged. *)
Theorem prepare_path_spec p cfg :
  in_width 32 (Z.of_nat (length p)) -> in_width 32 (max_path_length cfg + 32) ->
  (forall q, prepare_path p cfg = Some q <->
     q = normalize p /\ Z.of_nat (length p) <= max_path_length cfg + 32
     /\ Z.of_nat (length q) <= max_path_length cfg
     /\ Z.max 1 (Z.of_nat (length (names p))) <= max_directory_depth cfg)
  /\ (forall q, prepare_path p cfg = Some q -> prepare_path q cfg = Some q).
Proof.
  intros Hp Hcfg.
  assert (Hspec : forall p q, in_width 32 (Z.of_nat (length p)) ->
    prepare_path p cfg = Some q <->
     q = normalize p /\ Z.of_nat (length p) <= max_path_length cfg + 32
     /\ Z.of_nat (length q) <= max_path_length cfg
     /\ Z.max 1 (Z.of_nat (length (names p))) <= max_directory_depth cfg).
  { clear p Hp. intros p q Hp. pose proof (normalize_length p) as Hlen.
    pose proof (join_length (names p) (names_clean p)) as Hj. rewrite <- normalize_join in Hj.
    assert (Hc : count_slashes (normalize p) = (length (names p) - 1)%nat).
    { rewrite normalize_join. apply count_slashes_join, names_clean. }
    unfold prepare_path, auto_reject_path_length, len_u32. unfold in_width in *.
    rewrite Hc, !wrap_small by (rewrite ?wrap_small by (unfold in_width; lia); unfold in_width; lia).
    split.
    - intros E. repeat case_decide; simplify_eq. split; [done|]. lia.
    - intros (-> & ? & ? & ?). rewrite !decide_False by lia. done. }
  split; [intros q; by apply Hspec|]. intros q Hq. apply Hspec in Hq as (-> & ? & ? & ?); [|done].
  apply Hspec.
  - pose proof (normalize_length p). unfold in_width in *. lia.
  - destruct (normalize_canonical_parts p) as [E1 E2]. rewrite E1, E2. split; [done|].
    pose proof (normalize_length p). lia.
Qed.

(** ** Examples *)
Lemma split_path_roundtrip_witness :
  split_path (normalize (str "/a//path\to/a.txt")) = (Some (str "a/path/to"), str "a.txt")
  /\ join_parent_name (str "a/path/to") (str "a.txt") = str "a/path/to/a.txt".
Proof.
  destruct (split_path_roundtrip (str "/a//path\to/a.txt")
              [str "a"; str "path"; str "to"] (str "a.txt")) as [E1 E2].
  - reflexivity.
  - by vm_compute; repeat constructor.
  - split; [exact E1|reflexivity].
Defined.

Lemma prepare_path_spec_witness :
  prepare_path (str "/valid/path") (mkFsLimit 50 3) = Some (str "valid/path")
  /\ prepare_path (str "too/deep/path/structure") (mkFsLimit 50 3) = None.
Proof.
  split; [|reflexivity].
  apply (prepare_path_spec (str "/valid/path") (mkFsLimit 50 3));
    [by vm_compute|by vm_compute|]. split; [reflexivity|]. vm_compute. repeat split; discriminate.
Defined.
