(* ===== verification/Permissions.v ===== *)
(** * Permissions

    [data/src/model/permission_model.rs], [commons/src/permission] and the check of bucket
    tokens in [node/src/public/middleware/user_middleware.rs]: permissions as bit masks, the
    permits of a token, and the test in front of every file operation.

    The trait [PermissionListEntryBounds] is the class [PermissionEntry]; its laws hold of
    both permission enums. *)
From Stdlib Require Import ZArith Lia List.
From stdpp Require Import base numbers list sorting.
From S2P Require Import Prelude Errors.
Local Open Scope Z_scope.

Inductive UserPermission : Type :=
| Read | Write | Overwrite | ListDirectory | ListBucket | Rename | Delete | FetchBucketInfo.

Inductive AppPermission : Type :=
| CreateBucket | DeleteBucket | ListAllTokens | DeleteAllTokens | ManageRoles.

Inductive GlobalRole : Type := User | Admin.

#[global] Instance UserPermission_eq_dec : EqDecision UserPermission.
Proof. solve_decision. Defined.
#[global] Instance AppPermission_eq_dec : EqDecision AppPermission.
Proof. solve_decision. Defined.

Definition i32_of_GlobalRole (r : GlobalRole) : Z := match r with User => 1 | Admin => 2 end.

Definition i8_of_UserPermission (p : UserPermission) : i8 :=
  match p with
  | Read => 1 | Write => 2 | Overwrite => 3 | ListDirectory => 4 | ListBucket => 5
  | Rename => 6 | Delete => 7 | FetchBucketInfo => 8
  end.

Definition i8_of_AppPermission (p : AppPermission) : i8 :=
  match p with
  | CreateBucket => 1 | DeleteBucket => 2 | ListAllTokens => 3 | DeleteAllTokens => 4
  | ManageRoles => 5
  end.

(** [IntoBit + IntoEnumIterator] *)
Class PermissionEntry (T : Type) := {
  bit : T -> u64;
  iter : list T
}.

#[global] Instance UserPermission_entry : PermissionEntry UserPermission := {
  bit p := Z.shiftl 1 (i8_of_UserPermission p - 1);
  iter := [Read; Write; Overwrite; ListDirectory; ListBucket; Rename; Delete; FetchBucketInfo]
}.

#[global] Instance AppPermission_entry : PermissionEntry AppPermission := {
  bit p := Z.shiftl 1 (i8_of_AppPermission p - 1);
  iter := [CreateBucket; DeleteBucket; ListAllTokens; DeleteAllTokens; ManageRoles]
}.

Definition check_permission (allowance requested : u64) : bool :=
  bool_decide (Z.land allowance requested = requested).

(** [From<&PermissionList<T>> for u64] *)
Definition u64_of_list {T} `{PermissionEntry T} (l : list T) : u64 :=
  fold_left (fun val perm => Z.lor val (bit perm)) l 0.

(** [From<u64> for PermissionList<T>] *)
Definition list_of_u64 {T} `{PermissionEntry T} (value : u64) : list T :=
  filter (fun perm => Z.land value (bit perm) <> 0) iter.

(** The allowances the services ask for. *)
Definition DELETE_ALLOWANCE : u64 := u64_of_list [Delete; Write].
Definition RENAME_ALLOWANCE : u64 := u64_of_list [Rename].
Definition UPLOAD_ALLOWANCE : u64 := u64_of_list [Write].
Definition UPLOAD_OVERWRITE_ALLOWANCE : u64 := u64_of_list [Write; Delete; Overwrite].
Definition DOWNLOAD_ALLOWANCE : u64 := u64_of_list [Read].
Definition LIST_BUCKET_ALLOWANCE : u64 := u64_of_list [ListBucket].
Definition LIST_DIR_ALLOWANCE : u64 := u64_of_list [ListDirectory].
Definition CREATE_DIRECTORY_ALLOWANCE : u64 := u64_of_list [Write].
Definition RENAME_DIRECTORY_ALLOWANCE : u64 := u64_of_list [Write; Rename].
Definition FETCH_BUCKET_INFO_ALLOWANCE : u64 := u64_of_list [FetchBucketInfo].

(** ** Token permits *)
Record AppTokenPermit : Type := mkPermit { permit_bucket_id : Uuid; allowance : u64 }.

Record BucketAccessor : Type := mkAccessor { permits : list AppTokenPermit; acc_app_id : Uuid }.

Definition has_permission (acc : BucketAccessor) (app_id bucket : Uuid) (requested : u64)
    : NodeClientResponse unit :=
  if decide (acc_app_id acc <> app_id) then Err NcBadAuth
  else
    match find (fun p => bool_decide (permit_bucket_id p = bucket)) (permits acc) with
    | None => Err NcBadAuth
    | Some permit =>
        if check_permission (allowance permit) requested then Ok tt else Err NcBadAuth
    end.

(** ** Laws of a permission enum *)
Class PermissionLaws (T : Type) `{PermissionEntry T} : Prop := {
  bit_index : exists index : T -> Z, (forall p, bit p = 2 ^ index p /\ 0 <= index p < 64)
    /\ (forall p q, index p = index q -> p = q);
  iter_complete : forall p : T, p ∈ iter
}.

#[global] Instance UserPermission_laws : PermissionLaws UserPermission.
Proof.
  split.
  - exists (fun p => i8_of_UserPermission p - 1). by split; [intros []|intros [] []].
  - intros p. apply (bool_decide_unpack _). by destruct p.
Qed.

#[global] Instance AppPermission_laws : PermissionLaws AppPermission.
Proof.
  split.
  - exists (fun p => i8_of_AppPermission p - 1). by split; [intros []|intros [] []].
  - intros p. apply (bool_decide_unpack _). by destruct p.
Qed.

Section masks.
  Context {T : Type} `{PermissionLaws T} `{!EqDecision T}.
  Implicit Types l req : list T.

Lemma bits_of_list l i :
  0 <= i -> Z.testbit (u64_of_list l) i = true <-> exists p, p ∈ l /\ bit p = 2 ^ i.
Proof.
  intros Hi. destruct (bit_index (T := T)) as (index & Hbit & _).
  unfold u64_of_list. assert (Hgen : forall v,
    Z.testbit (fold_left (fun val perm => Z.lor val (bit perm)) l v) i = true
    <-> Z.testbit v i = true \/ exists p, p ∈ l /\ bit p = 2 ^ i).
  { induction l as [|q l IH]; intros v; simpl.
    - split; [by left|]. intros [?|(p & Hp & _)]; [done|by apply elem_of_nil in Hp].
    - rewrite IH, Z.lor_spec, orb_true_iff. destruct (Hbit q) as [-> Hq].
      rewrite Z.pow2_bits_eqb, Z.eqb_eq by lia. split.
      + intros [[?|E]|(p & Hp & ?)]; [by left| |]; right.
        * exists q. split; [by left|]. destruct (Hbit q) as [-> _]. by rewrite E.
        * exists p. by split; [right|].
      + intros [?|(p & Hp & E)]; [by left; left|]. apply elem_of_cons in Hp as [->|Hp]; [|by right; eauto].
        left; right. destruct (Hbit q) as [Eq _]. rewrite Eq in E.
        by apply Z.pow_inj_r in E; [|lia..]. }
  rewrite Hgen, Z.testbit_0_l. by split; [intros [?|?]|right].
Qed.

Lemma bit_inj (p q : T) : bit p = bit q -> p = q.
Proof.
  destruct (bit_index (T := T)) as (index & Hbit & Hinj). intros E.
  destruct (Hbit p) as [Ep ?], (Hbit q) as [Eq ?]. apply Hinj. rewrite Ep, Eq in E.
  by apply Z.pow_inj_r in E; [|lia..].
Qed.

Lemma land_bit v (p : T) : Z.land v (bit p) <> 0 <-> exists i, 0 <= i /\ bit p = 2 ^ i /\ Z.testbit v i = true.
Proof.
  destruct (bit_index (T := T)) as (index & Hbit & _). destruct (Hbit p) as [Ep Hp]. split.
  - intros Hne. exists (index p). split; [lia|]. split; [done|].
    destruct (Z.testbit v (index p)) eqn:Ev; [done|]. exfalso. apply Hne, Z.bits_inj'. intros i Hi.
    rewrite Z.land_spec, Ep, Z.pow2_bits_eqb, Z.testbit_0_l by lia.
    destruct (Z.eqb_spec (index p) i) as [<-|]; [by rewrite Ev|by rewrite andb_false_r].
  - intros (i & Hi & E & Hv) Hz.
    assert (Hb : Z.testbit (Z.land v (bit p)) i = true).
    { by rewrite Z.land_spec, Hv, E, Z.pow2_bits_true. }
    by rewrite Hz, Z.testbit_0_l in Hb.
Qed.

Lemma mask_member l p : Z.land (u64_of_list l) (bit p) <> 0 <-> p ∈ l.
Proof.
  rewrite land_bit. split.
  - intros (i & Hi & Ep & Hb). apply bits_of_list in Hb as (q & Hq & Eq); [|done].
    by replace p with q by (apply bit_inj; congruence).
  - intros Hp. destruct (bit_index (T := T)) as (index & Hbit & _). destruct (Hbit p) as [Ep ?].
    exists (index p). split; [lia|]. split; [done|]. apply bits_of_list; [lia|eauto].
Qed.

Lemma check_bits allowance requested :
  check_permission allowance requested = true
  <-> forall i, 0 <= i -> Z.testbit requested i = true -> Z.testbit allowance i = true.
Proof.
  unfold check_permission. rewrite bool_decide_eq_true. split.
  - intros E i Hi Hr. rewrite <- E, Z.land_spec in Hr. by apply andb_true_iff in Hr as [? _].
  - intros Hi. apply Z.bits_inj'. intros i Hpos. rewrite Z.land_spec.
    destruct (Z.testbit requested i) eqn:Er; [by rewrite Hi|by rewrite andb_false_r].
Qed.

(** Permission lists and masks.  Decoding the mask of a list gives back exactly the
    permissions of the list, in declaration order; and a mask allows the mask of a request
    exactly if every requested permission is in the list. *)
Theorem permission_masks l req :
  list_of_u64 (u64_of_list l) = filter (fun p => p ∈ l) iter
  /\ (forall p, p ∈ list_of_u64 (u64_of_list l) <-> p ∈ l)
  /\ (check_permission (u64_of_list l) (u64_of_list req) = true <-> req ⊆ l).
Proof.
  assert (E : list_of_u64 (u64_of_list l) = filter (fun p => p ∈ l) iter).
  { unfold list_of_u64. apply list_filter_iff. intros p. apply mask_member. }
  split; [done|]. split; [|rewrite check_bits; split].
  - intros p. rewrite E, list_elem_of_filter. split; [by intros []|]. split; [done|].
    apply iter_complete.
  - intros Hc p Hp. destruct (bit_index (T := T)) as (index & Hbit & _). destruct (Hbit p) as [Ep ?].
    assert (Hi : Z.testbit (u64_of_list l) (index p) = true).
    { apply Hc; [lia|]. apply bits_of_list; [lia|eauto]. }
    apply bits_of_list in Hi as (q & Hq & Eq); [|lia].
    by replace p with q by (apply bit_inj; congruence).
  - intros Hsub i Hi Hr. apply bits_of_list in Hr as (p & Hp & E'); [|done].
    apply bits_of_list; [done|]. eauto.
Qed.
End masks.

Lemma permits_find_first bucket l x :
  find (fun p => bool_decide (permit_bucket_id p = bucket)) l = Some x
  <-> exists before after, l = before ++ x :: after /\ permit_bucket_id x = bucket
      /\ Forall (fun p => permit_bucket_id p <> bucket) before.
Proof.
  induction l as [|y l IH]; simpl.
  { split; [done|]. by intros ([] & ? & ? & _). }
  case_bool_decide as Hy.
  - split; [intros [= ->]; by exists [], l|].
    intros ([|z before] & after & [= <- E] & ? & Hb); [by subst|].
    by apply Forall_cons in Hb as [Hz _].
  - rewrite IH. split.
    + intros (before & after & -> & ? & ?). exists (y :: before), after. by repeat constructor.
    + intros ([|z before] & after & [= <- E] & ? & Hb); [by subst|].
      apply Forall_cons in Hb as [_ Hb]. eauto.
Qed.

(** The permission check of a request.  It passes exactly if the token is for the
    application and its first permit for the bucket allows every requested bit; all other
    requests are refused as unauthorised. *)
Theorem has_permission_spec acc app_id bucket requested :
  (has_permission acc app_id bucket requested = Ok tt <->
     acc_app_id acc = app_id
     /\ exists before permit after, permits acc = before ++ permit :: after
        /\ permit_bucket_id permit = bucket
        /\ Forall (fun p => permit_bucket_id p <> bucket) before
        /\ forall i, 0 <= i -> Z.testbit requested i = true -> Z.testbit (allowance permit) i = true)
  /\ (has_permission acc app_id bucket requested <> Ok tt ->
      has_permission acc app_id bucket requested = Err NcBadAuth).
Proof.
  unfold has_permission. destruct (decide (acc_app_id acc <> app_id)) as [Ha|Ha].
  { split; [|done]. split; [done|]. by intros [? _]. }
  apply dec_stable in Ha. split; [|by destruct (find _ _); [destruct (check_permission _ _)|]].
  split.
  - destruct (find _ _) as [permit|] eqn:Ef; [|done]. destruct (check_permission _ _) eqn:Ec; [|done].
    intros _. split; [done|]. apply permits_find_first in Ef as (before & after & ? & ? & ?).
    exists before, permit, after. by rewrite <- check_bits.
  - intros (_ & before & permit & after & E & Hb & Hbefore & Hbits).
    assert (Ef : find (fun p => bool_decide (permit_bucket_id p = bucket)) (permits acc) = Some permit).
    { apply permits_find_first. eauto. }
    rewrite Ef. apply check_bits in Hbits. by rewrite Hbits.
Qed.

(** ** Examples *)
Lemma permission_masks_witness :
  list_of_u64 (u64_of_list [Rename; ListBucket; Overwrite]) = [Overwrite; ListBucket; Rename]
  /\ check_permission (u64_of_list [Rename; ListBucket; Overwrite]) (u64_of_list [ListBucket]) = true.
Proof.
  destruct (permission_masks [Rename; ListBucket; Overwrite] [ListBucket]) as (E & _ & Hc).
  split; [exact E|]. apply Hc. intros p Hp. apply list_elem_of_singleton in Hp as ->.
  right. left.
Defined.
