(* ===== verification/Database.v ===== *)
(** * The database

    [data/src/model] and [data/src/access]: the records of files, directories, buckets, upload
    sessions, applications, members, roles, tokens and users, and the queries on them.

    The tables and their keys are those the models declare.  The database itself is a
    parameter, the class [Database]: [DatabaseLaws] states what CQL documents of the queries
    used here.  A statement is its effect on the tables; an insert overwrites the row of its
    key, an update is of a row that exists, a batch within a partition is atomic, and a
    conditional statement tests and writes in one step.  A statement that fails may have been
    applied or not.  [scan_order] is the order in which a scan returns its rows. *)
From Stdlib Require Import ZArith Lia List Ascii.
From stdpp Require Import base numbers list strings gmap.
From S2P Require Import Prelude Errors Paths Permissions Placement.
Local Open Scope Z_scope.

(** ** Errors *)
Inductive CharybdisError : Type := NotFoundError | OtherError.

Inductive MeowithDataError : Type :=
| QueryError
| InternalFailure (e : CharybdisError)
| LockingError
| DataNotFound
| UnknownFailure.

#[global] Instance CharybdisError_eq_dec : EqDecision CharybdisError.
Proof. solve_decision. Defined.
#[global] Instance MeowithDataError_eq_dec : EqDecision MeowithDataError.
Proof. solve_decision. Defined.

Definition data_of_charybdis (e : CharybdisError) : MeowithDataError :=
  match e with NotFoundError => DataNotFound | e => InternalFailure e end.

Definition client_of_data (e : MeowithDataError) : NodeClientError :=
  match e with
  | DataNotFound => NcNotFound
  | LockingError => NcBadRequest
  | _ => NcInternalError
  end.

(** ** Records *)
Definition ROOT_DIR : Uuid := 0.

Record File : Type := mkFile {
  f_bucket_id : Uuid;
  f_directory : Uuid;
  f_name : Text;
  f_id : Uuid;
  f_size : i64;
  f_chunk_ids : list FileChunk;
  f_created : Z;
  f_last_modified : Z
}.

Record Directory : Type := mkDirectory {
  d_bucket_id : Uuid;
  d_parent : Text;
  d_name : Text;
  d_id : Uuid;
  d_created : Z;
  d_last_modified : Z
}.

Definition Directory_full_path (d : Directory) : Text := join_parent_name (d_parent d) (d_name d).

Record Bucket : Type := mkBucket {
  b_app_id : Uuid;
  b_id : Uuid;
  b_name : Text;
  b_encrypted : bool;
  b_atomic_upload : bool;
  b_quota : i64;
  b_file_count : i64;
  b_space_taken : i64;
  b_created : Z;
  b_last_modified : Z
}.

Inductive SessionState : Type := Writing | AwaitingData | TimedOut.

Definition i8_of_SessionState (s : SessionState) : i8 :=
  match s with Writing => 1 | AwaitingData => 2 | TimedOut => 3 end.

Record BucketUploadSession : Type := mkSession {
  s_app_id : Uuid;
  s_bucket : Uuid;
  s_id : Uuid;
  s_file_id : Uuid;
  s_path : Text;
  s_size : i64;
  s_durable : bool;
  s_fragments : list FileChunk;
  s_last_access : Z;
  s_state : i8
}.

Record App : Type := mkApp {
  a_id : Uuid;
  a_name : Text;
  a_owner_id : Uuid;
  a_quota : i64;
  a_created : Z;
  a_last_modified : Z
}.

Record UserRole : Type := mkUserRole {
  r_app_id : Uuid;
  r_name : Text;
  r_scopes : option (list (Uuid * i64));
  r_created : Z;
  r_last_modified : Z
}.

Record AppMember : Type := mkMember {
  m_app_id : Uuid;
  m_member_id : Uuid;
  m_member_roles : option (list Text)
}.

Record AppToken : Type := mkAppToken {
  t_app_id : Uuid;
  t_issuer_id : Uuid;
  t_name : Text;
  t_nonce : Uuid;
  t_created : Z;
  t_last_modified : Z
}.

Record UserRow : Type := mkUserRow {
  u_id : Uuid;
  u_session_id : Uuid;
  u_name : Text;
  u_auth_identifier : Text;
  u_quota : i64;
  u_global_role : Z;
  u_created : Z;
  u_last_modified : Z
}.

Record MicroserviceNode : Type := mkMicroserviceNode {
  ms_type : i8;
  ms_id : Uuid;
  ms_max_space : option i64;
  ms_used_space : option i64;
  ms_access_token : option Text;
  ms_access_token_issued_at : Z;
  ms_renewal_token : Text;
  ms_address : Text;
  ms_created : Z;
  ms_register_code : Text
}.

Record ServiceRegisterCode : Type := mkRegisterCode { rc_code : Text; rc_created : Z; rc_valid : bool }.

(** ** Tables, by primary key *)
Record Tables : Type := mkTables {
  files_table : gmap (Uuid * Uuid * Text) File;
  directories_table : gmap (Uuid * Text * Text) Directory;
  buckets_table : gmap (Uuid * Uuid) Bucket;
  sessions_table : gmap (Uuid * Uuid * Uuid) BucketUploadSession;
  apps_table : gmap Uuid App;
  user_roles_table : gmap (Uuid * Text) UserRole;
  app_members_table : gmap (Uuid * Uuid) AppMember;
  app_tokens_table : gmap (Uuid * Uuid * Text) AppToken;
  users_table : gmap Uuid UserRow;
  nodes_table : gmap (i8 * Uuid) MicroserviceNode;
  codes_table : gmap Text ServiceRegisterCode
}.

(** A record type with its key and its table. *)
Class Row (R K : Type) `{Countable K} := {
  row_key : R -> K;
  table : Tables -> gmap K R;
  set_table : gmap K R -> Tables -> Tables
}.
#[global] Hint Mode Row ! - - - : typeclass_instances.

#[global] Instance File_row : Row File (Uuid * Uuid * Text) := {
  row_key f := (f_bucket_id f, f_directory f, f_name f);
  table := files_table;
  set_table x T := mkTables x (directories_table T) (buckets_table T) (sessions_table T)
    (apps_table T) (user_roles_table T) (app_members_table T) (app_tokens_table T) (users_table T)
    (nodes_table T) (codes_table T)
}.
#[global] Instance Directory_row : Row Directory (Uuid * Text * Text) := {
  row_key d := (d_bucket_id d, d_parent d, d_name d);
  table := directories_table;
  set_table x T := mkTables (files_table T) x (buckets_table T) (sessions_table T)
    (apps_table T) (user_roles_table T) (app_members_table T) (app_tokens_table T) (users_table T)
    (nodes_table T) (codes_table T)
}.
#[global] Instance Bucket_row : Row Bucket (Uuid * Uuid) := {
  row_key b := (b_app_id b, b_id b);
  table := buckets_table;
  set_table x T := mkTables (files_table T) (directories_table T) x (sessions_table T)
    (apps_table T) (user_roles_table T) (app_members_table T) (app_tokens_table T) (users_table T)
    (nodes_table T) (codes_table T)
}.
#[global] Instance Session_row : Row BucketUploadSession (Uuid * Uuid * Uuid) := {
  row_key s := (s_app_id s, s_bucket s, s_id s);
  table := sessions_table;
  set_table x T := mkTables (files_table T) (directories_table T) (buckets_table T) x
    (apps_table T) (user_roles_table T) (app_members_table T) (app_tokens_table T) (users_table T)
    (nodes_table T) (codes_table T)
}.
#[global] Instance App_row : Row App Uuid := {
  row_key := a_id;
  table := apps_table;
  set_table x T := mkTables (files_table T) (directories_table T) (buckets_table T)
    (sessions_table T) x (user_roles_table T) (app_members_table T) (app_tokens_table T)
    (users_table T) (nodes_table T) (codes_table T)
}.
#[global] Instance UserRole_row : Row UserRole (Uuid * Text) := {
  row_key r := (r_app_id r, r_name r);
  table := user_roles_table;
  set_table x T := mkTables (files_table T) (directories_table T) (buckets_table T)
    (sessions_table T) (apps_table T) x (app_members_table T) (app_tokens_table T) (users_table T)
    (nodes_table T) (codes_table T)
}.
#[global] Instance AppMember_row : Row AppMember (Uuid * Uuid) := {
  row_key m := (m_app_id m, m_member_id m);
  table := app_members_table;
  set_table x T := mkTables (files_table T) (directories_table T) (buckets_table T)
    (sessions_table T) (apps_table T) (user_roles_table T) x (app_tokens_table T) (users_table T)
    (nodes_table T) (codes_table T)
}.
#[global] Instance AppToken_row : Row AppToken (Uuid * Uuid * Text) := {
  row_key t := (t_app_id t, t_issuer_id t, t_name t);
  table := app_tokens_table;
  set_table x T := mkTables (files_table T) (directories_table T) (buckets_table T)
    (sessions_table T) (apps_table T) (user_roles_table T) (app_members_table T) x (users_table T)
    (nodes_table T) (codes_table T)
}.
#[global] Instance UserRow_row : Row UserRow Uuid := {
  row_key := u_id;
  table := users_table;
  set_table x T := mkTables (files_table T) (directories_table T) (buckets_table T)
    (sessions_table T) (apps_table T) (user_roles_table T) (app_members_table T)
    (app_tokens_table T) x (nodes_table T) (codes_table T)
}.
#[global] Instance MicroserviceNode_row : Row MicroserviceNode (i8 * Uuid) := {
  row_key n := (ms_type n, ms_id n);
  table := nodes_table;
  set_table x T := mkTables (files_table T) (directories_table T) (buckets_table T)
    (sessions_table T) (apps_table T) (user_roles_table T) (app_members_table T)
    (app_tokens_table T) (users_table T) x (codes_table T)
}.
#[global] Instance ServiceRegisterCode_row : Row ServiceRegisterCode Text := {
  row_key := rc_code;
  table := codes_table;
  set_table x T := mkTables (files_table T) (directories_table T) (buckets_table T)
    (sessions_table T) (apps_table T) (user_roles_table T) (app_members_table T)
    (app_tokens_table T) (users_table T) (nodes_table T) x
}.

Section statements.
  Context {R K : Type} `{Row R K}.

Definition row_insert (r : R) (T : Tables) : Tables := set_table (<[row_key r := r]> (table T)) T.
Definition row_delete (k : K) (T : Tables) : Tables :=
  set_table (delete k (table (R := R) T)) T.
Definition row_update (k : K) (f : R -> R) (T : Tables) : Tables :=
  set_table (alter f k (table T)) T.
(** The rows of a table that satisfy the restriction of a scan. *)
Definition rows_where (p : R -> bool) (T : Tables) : list R :=
  filter (fun r => p r = true) (map snd (map_to_list (table T))).

Lemma row_update_ext k f g T :
  (forall r, table T !! k = Some r -> f r = g r) -> row_update k f T = row_update k g T.
Proof. intros E. unfold row_update. f_equal. by apply alter_ext. Qed.

Lemma row_update_insert k (f : R -> R) r T :
  table T !! k = Some r -> row_key (f r) = k -> row_update k f T = row_insert (f r) T.
Proof. intros Hr Hk. unfold row_update, row_insert. by rewrite Hk, (insert_alter f _ _ r Hr). Qed.
End statements.
Arguments row_delete R {K _ _ _} k T.
#[global] Arguments row_insert : simpl never.
#[global] Arguments row_delete : simpl never.
#[global] Arguments row_update : simpl never.

(** ** The session with the database *)
Class Database (D : Type) := {
  tables : D -> Tables;
  scan_order : forall R : Type, list R -> list R;
  db_read : D -> D * result CharybdisError Tables;
  db_exec : (Tables -> Tables) -> D -> D * result CharybdisError unit;
  db_exec_if : (Tables -> bool) -> (Tables -> Tables) -> D -> D * result MeowithDataError (bool * Tables)
}.

Class DatabaseLaws (D : Type) `{Database D} : Prop := {
  scan_permutes : forall R (l : list R), scan_order R l ≡ₚ l;
  read_tables : forall d d' r, db_read d = (d', r) ->
    tables d' = tables d /\ match r with Ok T => T = tables d | Err e => e <> NotFoundError end;
  exec_tables : forall f d d' r, db_exec f d = (d', r) ->
    match r with
    | Ok _ => tables d' = f (tables d)
    | Err _ => tables d' = tables d \/ tables d' = f (tables d)
    end;
  exec_if_tables : forall c f d d' r, db_exec_if c f d = (d', r) ->
    match r with
    | Ok (true, _) => c (tables d) = true /\ tables d' = f (tables d)
    | Ok (false, T) => c (tables d) = false /\ tables d' = tables d /\ T = tables d
    | Err _ => tables d' = tables d \/ (c (tables d) = true /\ tables d' = f (tables d))
    end
}.

(** A database that always answers, and one whose next statements fail as listed, each with
    whether it was applied. *)
#[global] Instance Tables_database : Database Tables := {
  tables T := T;
  scan_order _ l := l;
  db_read T := (T, Ok T);
  db_exec f T := (f T, Ok tt);
  db_exec_if c f T := if c T then (f T, Ok (true, T)) else (T, Ok (false, T))
}.

#[global] Instance Tables_laws : DatabaseLaws Tables.
Proof.
  split; simpl; [done| | |].
  - by intros d d' r [= <- <-].
  - by intros f d d' r [= <- <-].
  - intros c f d d' r E. destruct (c d) eqn:Ec; by injection E as <- <-.
Qed.

Record Faulty : Type := mkFaulty { ft_tables : Tables; ft_faults : list (option bool) }.

Definition next_fault (d : Faulty) : option bool * list (option bool) :=
  match ft_faults d with [] => (None, []) | o :: os => (o, os) end.

#[global] Instance Faulty_database : Database Faulty := {
  tables := ft_tables;
  scan_order _ l := reverse l;
  db_read d :=
    let '(o, os) := next_fault d in
    (mkFaulty (ft_tables d) os, match o with None => Ok (ft_tables d) | Some _ => Err OtherError end);
  db_exec f d :=
    let '(o, os) := next_fault d in
    match o with
    | None => (mkFaulty (f (ft_tables d)) os, Ok tt)
    | Some applied => (mkFaulty (if applied then f (ft_tables d) else ft_tables d) os, Err OtherError)
    end;
  db_exec_if c f d :=
    let '(o, os) := next_fault d in
    let new := if c (ft_tables d) then f (ft_tables d) else ft_tables d in
    match o with
    | None => (mkFaulty new os, Ok (c (ft_tables d), ft_tables d))
    | Some applied => (mkFaulty (if applied then new else ft_tables d) os, Err QueryError)
    end
}.

#[global] Instance Faulty_laws : DatabaseLaws Faulty.
Proof.
  split; simpl.
  - intros R l. apply reverse_Permutation.
  - intros d d' r. destruct (next_fault d) as [[]]; by intros [= <- <-].
  - intros f d d' r. destruct (next_fault d) as [[[]|]]; intros [= <- <-]; simpl; auto.
  - intros c f d d' r. destruct (next_fault d) as [[[]|]]; intros [= <- <-]; simpl;
      destruct (c (ft_tables d)); auto.
Qed.

(** ** Queries *)
Section queries.
  Context {D : Type} `{Database D}.

Abbreviation DB A := (effect D MeowithDataError A).

Definition read_tables_ : DB Tables := on_err data_of_charybdis db_read.

Definition execute (f : Tables -> Tables) : DB unit := on_err data_of_charybdis (db_exec f).

Section rows.
  Context {R K : Type} `{Row R K}.

(** [maybe_find_first_by_..] and [find_by_..] on a whole key. *)
Definition maybe_find (k : K) : DB (option R) :=
  T ← read_tables_; mret (table T !! k).

Definition find_row (k : K) : DB R :=
  T ← read_tables_; of_result (ok_or (table T !! k) DataNotFound).

(** [find_by_..] on a prefix of a key or an index: a stream, read to its end. *)
Definition select (p : R -> bool) : DB (list R) :=
  T ← read_tables_; mret (scan_order R (rows_where p T)).

Definition maybe_find_first (p : R -> bool) : DB (option R) :=
  l ← select p; mret (head l).

Definition find_first (p : R -> bool) : DB R :=
  o ← maybe_find_first p; of_result (ok_or o DataNotFound).

Definition insert_row (r : R) : DB unit := execute (row_insert r).
Definition delete_row (r : R) : DB unit := execute (row_delete R (row_key r)).
End rows.

(** ** [file_access.rs] *)
(** [DID::of] *)
Definition DID_of (dir : option Directory) : option Uuid := d_id <$> dir.

Definition get_directory (bucket_id : Uuid) (path : option Text) : DB (option Directory) :=
  match path with
  | None => mret None
  | Some path =>
      let path := split_path path in
      d ← find_row (bucket_id, default [] path.1, path.2); mret (Some d)
  end.

Definition insert_bucket (bucket : Bucket) : DB unit := insert_row bucket.

Definition maybe_get_first_bucket (app_id : Uuid) : DB (option Bucket) :=
  maybe_find_first (fun b => bool_decide (b_app_id b = app_id)).

Definition get_buckets (app_id : Uuid) : DB (list Bucket) :=
  select (fun b => bool_decide (b_app_id b = app_id)).

Definition insert_directory (directory : Directory) : DB unit := insert_row directory.

Definition get_directories_from_bucket (bucket_id : Uuid) : DB (list Directory) :=
  select (fun d => bool_decide (d_bucket_id d = bucket_id)).

(** [.skip(start as usize).take((end - start) as usize)] *)
Definition page {A} (start end_ : u64) (l : list A) : list A :=
  take_z (u64_sub end_ start) (drop_z start l).

Definition get_directories_from_bucket_paginated (bucket_id : Uuid) (start end_ : u64)
    : DB (list Directory) :=
  l ← get_directories_from_bucket bucket_id; mret (page start end_ l).

Definition get_files_from_bucket (bucket_id : Uuid) : DB (list File) :=
  select (fun f => bool_decide (f_bucket_id f = bucket_id)).

Definition get_files_from_bucket_paginated (bucket_id : Uuid) (start end_ : u64)
    : DB (list File) :=
  l ← get_files_from_bucket bucket_id; mret (page start end_ l).

Definition get_files_from_bucket_and_directory (bucket_id : Uuid) (directory : option Uuid)
    : DB (list File) :=
  select (fun f => bool_decide (f_bucket_id f = bucket_id /\ f_directory f = default ROOT_DIR directory)).

Definition get_files_from_bucket_and_directory_paginated (bucket_id : Uuid)
    (directory : option Uuid) (start end_ : u64) : DB (list File) :=
  l ← get_files_from_bucket_and_directory bucket_id directory; mret (page start end_ l).

Definition maybe_get_first_file_from_directory (bucket_id : Uuid) (directory : option Uuid)
    : DB (option File) :=
  maybe_find_first
    (fun f => bool_decide (f_bucket_id f = bucket_id /\ f_directory f = default ROOT_DIR directory)).

Definition maybe_get_first_child_from_directory (bucket_id : Uuid) (directory : option Text)
    : DB (option Directory) :=
  maybe_find_first
    (fun d => bool_decide (d_bucket_id d = bucket_id /\ d_parent d = default [] directory)).

Definition get_sub_dirs (bucket_id : Uuid) (path : Text) : DB (list Directory) :=
  select (fun d => bool_decide (d_bucket_id d = bucket_id /\ d_parent d = path)).

Definition get_all_files : DB (list File) := select (fun _ => true).

Definition maybe_get_file_by_id (bucket_id file_id : Uuid) : DB (option File) :=
  maybe_find_first (fun f => bool_decide (f_bucket_id f = bucket_id /\ f_id f = file_id)).

Definition get_file (bucket_id : Uuid) (directory : option Uuid) (name : Text) : DB File :=
  find_row (bucket_id, default ROOT_DIR directory, name).

Definition get_file_dir (bucket_id : Uuid) (directory : option Text) (name : Text)
    : DB (File * option Directory) :=
  directory ← get_directory bucket_id directory;
  let id := match directory with Some d => d_id d | None => ROOT_DIR end in
  file ← find_row (bucket_id, id, name);
  mret (file, directory).

Definition maybe_get_file_dir (bucket_id : Uuid) (directory : option Text) (name : Text)
    : DB (option File * option Directory) :=
  directory ← get_directory bucket_id directory;
  let id := match directory with Some d => d_id d | None => ROOT_DIR end in
  file ← maybe_find (bucket_id, id, name);
  mret (file, directory).

(** The batch of a delete and an insert with one timestamp: where both write the same row, the
    deletion wins. *)
Definition batch_move {R K} `{Row R K} (old new : R) (T : Tables) : Tables :=
  row_delete R (row_key old) (row_insert new T).

Definition update_file_path (now : Z) (file : File) (directory : option Uuid) (name : Text)
    : DB File :=
  let new_file := mkFile (f_bucket_id file) (default 0 directory) name (f_id file) (f_size file)
    (f_chunk_ids file) (f_created file) now in
  execute (batch_move file new_file);; mret new_file.

Definition update_file_chunks (file : File) : DB unit :=
  execute (row_update (row_key file) (fun f =>
    mkFile (f_bucket_id f) (f_directory f) (f_name f) (f_id f) (f_size f) (f_chunk_ids file)
      (f_created f) (f_last_modified f))).

Definition update_directory_path (directory : Directory) (parent : option Text) (name : Text)
    : DB Directory :=
  let new_dir := mkDirectory (d_bucket_id directory) (default [] parent) name (d_id directory)
    (d_created directory) (d_last_modified directory) in
  execute (batch_move directory new_dir);; mret new_dir.

Definition delete_directory (directory : Directory) : DB unit := delete_row directory.

Definition get_bucket_by_name (app_id : Uuid) (name : Text) : DB Bucket :=
  find_first (fun b => bool_decide (b_app_id b = app_id /\ b_name b = name)).

Definition get_bucket (app_id id : Uuid) : DB Bucket := find_row (app_id, id).

Definition delete_bucket (bucket : Bucket) : DB unit := delete_row bucket.

Definition QUERY_ATTEMPTS : nat := 2048.

Definition i64_add (a b : i64) : i64 := as_signed 64 (a + b).

Definition with_counters (file_count space_taken : i64) (b : Bucket) : Bucket :=
  mkBucket (b_app_id b) (b_id b) (b_name b) (b_encrypted b) (b_atomic_upload b) (b_quota b)
    file_count space_taken (b_created b) (b_last_modified b).

(** [IF file_count = ? and space_taken = ?] *)
Definition counters_are (bucket : Bucket) (T : Tables) : bool :=
  match table T !! row_key bucket with
  | Some b => bool_decide (b_file_count b = b_file_count bucket /\ b_space_taken b = b_space_taken bucket)
  | None => false
  end.

(** One attempt: [None] once applied, otherwise the bucket with the counters it found.  The
    answer for a missing row has no counters and fails the type check of the rows. *)
Definition update_bucket_attempt (file_count_delta space_taken_delta : i64) (bucket : Bucket)
    : DB (option Bucket) :=
  '(applied, T) ← db_exec_if (counters_are bucket)
    (row_update (row_key bucket)
       (with_counters (i64_add (b_file_count bucket) file_count_delta)
                      (i64_add (b_space_taken bucket) space_taken_delta)));
  if (applied : bool) then mret None
  else
    match table T !! row_key bucket with
    | Some b => mret (Some (with_counters (b_file_count b) (b_space_taken b) bucket))
    | None => throw QueryError
    end.

Fixpoint update_bucket_loop (attempts : nat) (bucket : Bucket) (file_count_delta space_taken_delta : i64)
    : DB unit :=
  match attempts with
  | O => throw UnknownFailure
  | S attempts =>
      o ← update_bucket_attempt file_count_delta space_taken_delta bucket;
      match o with
      | None => mret tt
      | Some bucket => update_bucket_loop attempts bucket file_count_delta space_taken_delta
      end
  end.

Definition update_bucket_space (bucket : Bucket) (file_count_delta space_taken_delta : i64) : DB unit :=
  update_bucket_loop QUERY_ATTEMPTS bucket file_count_delta space_taken_delta.

Definition update_bucket_quota (bucket : Bucket) : DB unit :=
  execute (row_update (row_key bucket) (fun b =>
    mkBucket (b_app_id b) (b_id b) (b_name b) (b_encrypted b) (b_atomic_upload b) (b_quota bucket)
      (b_file_count b) (b_space_taken b) (b_created b) (b_last_modified b))).

(** [try_join!] starts both statements; here the first is finished first. *)
Definition delete_file (file : File) (bucket : Bucket) : DB unit :=
  delete_row file;; update_bucket_space bucket (-1) (- f_size file).

Definition insert_file (file : File) (bucket : Bucket) : DB unit :=
  insert_row file;; update_bucket_space bucket 1 (f_size file).

Definition insert_upload_session (s : BucketUploadSession) : DB unit := insert_row s.

Definition get_upload_session (app_id bucket id : Uuid) : DB BucketUploadSession :=
  find_row (app_id, bucket, id).

Definition get_upload_sessions (app_id bucket : Uuid) : DB (list BucketUploadSession) :=
  select (fun s => bool_decide (s_app_id s = app_id /\ s_bucket s = bucket)).

Definition delete_upload_session (s : BucketUploadSession) : DB unit := delete_row s.

Definition delete_upload_session_by (app_id bucket_id id : Uuid) : DB unit :=
  execute (row_delete BucketUploadSession (app_id, bucket_id, id)).

Definition with_last_access (t : Z) (s : BucketUploadSession) : BucketUploadSession :=
  mkSession (s_app_id s) (s_bucket s) (s_id s) (s_file_id s) (s_path s) (s_size s) (s_durable s)
    (s_fragments s) t (s_state s).

Definition with_state (st : SessionState) (s : BucketUploadSession) : BucketUploadSession :=
  mkSession (s_app_id s) (s_bucket s) (s_id s) (s_file_id s) (s_path s) (s_size s) (s_durable s)
    (s_fragments s) (s_last_access s) (i8_of_SessionState st).

(** [IF last_access = ?] *)
Definition last_access_is (s : BucketUploadSession) (T : Tables) : bool :=
  match table T !! row_key s with
  | Some r => bool_decide (s_last_access r = s_last_access s)
  | None => false
  end.

(** The session is changed in place even when the update fails.  Timestamps are in
    milliseconds, the precision of the database. *)
Definition try_update_upload_session (now : Z) (s : BucketUploadSession) (d : D)
    : D * (BucketUploadSession * result MeowithDataError unit) :=
  let updated := with_last_access now s in
  match db_exec_if (last_access_is s) (row_update (row_key s) (fun _ => updated)) d with
  | (d, Ok (true, _)) => (d, (updated, Ok tt))
  | (d, Ok (false, T)) =>
      match table T !! row_key s with
      | Some r => (d, (with_last_access (s_last_access r) updated, Err LockingError))
      | None => (d, (updated, Err QueryError))
      end
  | (d, Err e) => (d, (updated, Err e))
  end.

(** [DirectoryIterator::from_parent], collected up to its first error.  [None] when the fuel,
    one unit per visited directory, is used up. *)
Fixpoint directory_iterator (fuel : nat) (visit_queue : list Directory) (d : D)
    : option (D * result MeowithDataError (list Directory)) :=
  match visit_queue with
  | [] => Some (d, Ok [])
  | next :: visit_queue =>
      match fuel with
      | O => None
      | S fuel =>
          match get_sub_dirs (d_bucket_id next) (Directory_full_path next) d with
          | (d, Err e) => Some (d, Err e)
          | (d, Ok subs) =>
              '(d, r) ← directory_iterator fuel (visit_queue ++ subs) d;
              Some (d, match r with Ok l => Ok (subs ++ l) | Err e => Err e end)
          end
      end
  end.

(** ** [app_access.rs] and [user_access.rs] *)
Definition insert_app (app : App) : DB unit := insert_row app.

Definition delete_partition {R K} `{Row R K} (p : R -> bool) : DB unit :=
  execute (fun T => set_table (filter (fun e : K * R => p e.2 = false) (table T)) T).

Definition delete_app (app : App) : DB unit :=
  delete_partition (fun t => bool_decide (t_app_id t = a_id app));;
  delete_partition (fun r => bool_decide (r_app_id r = a_id app));;
  delete_partition (fun m => bool_decide (m_app_id m = a_id app));;
  delete_row app.

Definition get_app_member (app_id user_id : Uuid) : DB AppMember := find_row (app_id, user_id).
Definition maybe_get_app_member (app_id user_id : Uuid) : DB (option AppMember) :=
  maybe_find (app_id, user_id).
Definition insert_app_member (app_id member_id : Uuid) : DB unit :=
  insert_row (mkMember app_id member_id (Some [])).
Definition delete_app_member (member : AppMember) : DB unit := delete_row member.
Definition update_app_member (member : AppMember) : DB unit :=
  execute (row_update (row_key member) (fun _ => member)).
Definition get_app_roles (app_id : Uuid) : DB (list UserRole) :=
  select (fun r => bool_decide (r_app_id r = app_id)).
Definition get_app_role (app_id : Uuid) (name : Text) : DB UserRole := find_row (app_id, name).
Definition insert_app_role (role : UserRole) : DB unit := insert_row role.
Definition delete_app_role (role : UserRole) : DB unit := delete_row role.
Definition update_app_role (role : UserRole) : DB unit :=
  execute (row_update (row_key role) (fun _ => role)).
Definition get_app_by_id (id : Uuid) : DB App := find_row id.
Definition get_app_members (app_id : Uuid) : DB (list AppMember) :=
  select (fun m => bool_decide (m_app_id m = app_id)).
Definition get_app_tokens (app_id : Uuid) : DB (list AppToken) :=
  select (fun t => bool_decide (t_app_id t = app_id)).
Definition get_app_tokens_by_issuer (app_id issuer_id : Uuid) : DB (list AppToken) :=
  select (fun t => bool_decide (t_app_id t = app_id /\ t_issuer_id t = issuer_id)).
Definition get_app_token (app_id issuer_id : Uuid) (name : Text) : DB AppToken :=
  find_row (app_id, issuer_id, name).
Definition insert_app_token (token : AppToken) : DB unit := insert_row token.
Definition delete_app_token (token : AppToken) : DB unit := delete_row token.
(** The views [apps_by_owner] and [app_members_by_user] of the same tables. *)
Definition get_apps_by_owner (owner_id : Uuid) : DB (list App) :=
  select (fun a => bool_decide (a_owner_id a = owner_id)).
Definition get_members_by_id (user_id : Uuid) : DB (list AppMember) :=
  select (fun m => bool_decide (m_member_id m = user_id)).
Definition update_app_quota (id : Uuid) (quota : i64) : DB unit :=
  execute (row_update id (fun a =>
    mkApp (a_id a) (a_name a) (a_owner_id a) quota (a_created a) (a_last_modified a))).

(** The views [users_by_name] and [users_by_auth] of the table of users. *)
Definition get_user_from_name (name : Text) : DB UserRow :=
  find_first (fun u => bool_decide (u_name u = name)).
Definition get_user_from_auth (auth_identifier : Text) : DB UserRow :=
  find_first (fun u => bool_decide (u_auth_identifier u = auth_identifier)).
Definition update_user (id : Uuid) (name : Text) : DB unit :=
  execute (row_update id (fun u => mkUserRow (u_id u) (u_session_id u) name (u_auth_identifier u)
    (u_quota u) (u_global_role u) (u_created u) (u_last_modified u))).
Definition get_user_from_id (id : Uuid) : DB UserRow := find_row id.
Definition maybe_get_user_from_id (id : Uuid) : DB (option UserRow) := maybe_find id.
Definition maybe_get_user_from_name (name : Text) : DB (option UserRow) :=
  maybe_find_first (fun u => bool_decide (u_name u = name)).
Definition maybe_get_first_user : DB (option UserRow) := maybe_find_first (fun _ => true).
Definition insert_user (user : UserRow) : DB unit := insert_row user.
Definition get_all_users : DB (list UserRow) := select (fun _ => true).
Definition update_user_quota (id : Uuid) (quota : u64) : DB unit :=
  execute (row_update id (fun u => mkUserRow (u_id u) (u_session_id u) (u_name u)
    (u_auth_identifier u) (as_i64 quota) (u_global_role u) (u_created u) (u_last_modified u))).
Definition update_user_role (id : Uuid) (role : GlobalRole) : DB unit :=
  execute (row_update id (fun u => mkUserRow (u_id u) (u_session_id u) (u_name u)
    (u_auth_identifier u) (u_quota u) (i32_of_GlobalRole role) (u_created u) (u_last_modified u))).

Definition get_microservices : DB (list MicroserviceNode) := select (fun _ => true).
Definition get_microservice_node (id : Uuid) (node_type : i8) : DB MicroserviceNode := find_row (node_type, id).
Definition get_microservice_from_type (service_type : i8) : DB (list MicroserviceNode) :=
  select (fun n => bool_decide (ms_type n = service_type)).
Definition insert_microservice_node (node : MicroserviceNode) : DB unit := insert_row node.
(** [UpdateMicroservice]: the used and the greatest space. *)
Definition update_microservice_node (node : MicroserviceNode) (max_space used_space : u64) : DB unit :=
  execute (row_update (row_key node) (fun n => mkMicroserviceNode (ms_type n) (ms_id n)
    (Some (as_i64 max_space)) (Some (as_i64 used_space)) (ms_access_token n) (ms_access_token_issued_at n)
    (ms_renewal_token n) (ms_address n) (ms_created n) (ms_register_code n))).
Definition remove_microservice_node (node : MicroserviceNode) : DB unit := delete_row node.
Definition update_service_access_token (node : MicroserviceNode) (issued_at : Z) : DB unit :=
  execute (row_update (row_key node) (fun n => mkMicroserviceNode (ms_type n) (ms_id n)
    (ms_max_space n) (ms_used_space n) (ms_access_token node) issued_at
    (ms_renewal_token n) (ms_address n) (ms_created n) (ms_register_code n))).
Definition get_service_register_code (code : Text) : DB ServiceRegisterCode := find_row code.
Definition insert_service_register_code (code : ServiceRegisterCode) : DB unit := insert_row code.
Definition remove_service_register_code (code : ServiceRegisterCode) : DB unit := delete_row code.
Definition update_service_register_code (code : ServiceRegisterCode) : DB unit :=
  execute (row_update (row_key code) (fun _ => code)).
Definition get_service_register_codes : DB (list ServiceRegisterCode) := select (fun _ => true).
End queries.

(** ** A database that answers *)
Class ReliableDatabase (D : Type) `{Database D} : Prop := {
  reliable_scan : forall R (l : list R), scan_order R l ≡ₚ l;
  reliable_read : forall d, exists d', db_read d = (d', Ok (tables d)) /\ tables d' = tables d;
  reliable_exec : forall f d, exists d', db_exec f d = (d', Ok tt) /\ tables d' = f (tables d);
  reliable_exec_if : forall c f d, exists d', db_exec_if c f d = (d', Ok (c (tables d), tables d))
    /\ tables d' = if c (tables d) then f (tables d) else tables d
}.

#[global] Instance Tables_reliable : ReliableDatabase Tables.
Proof.
  split; simpl; [done|by eauto..|].
  intros c f d. exists (if c d then f d else d). by destruct (c d).
Qed.

Section reliable.
  Context {D : Type} `{ReliableDatabase D}.
  Context {R K : Type} `{Row R K}.
  Implicit Types d : D.

Lemma run_read d : exists d', read_tables_ d = (d', Ok (tables d)) /\ tables d' = tables d.
Proof.
  unfold read_tables_, on_err. destruct (reliable_read d) as (d' & -> & ?). eauto.
Qed.

Lemma run_execute f d : exists d', execute f d = (d', Ok tt) /\ tables d' = f (tables d).
Proof. unfold execute, on_err. destruct (reliable_exec f d) as (d' & -> & ?). eauto. Qed.

Lemma run_find_row k d :
  exists d', find_row k d = (d', ok_or (table (R := R) (tables d) !! k) DataNotFound) /\ tables d' = tables d.
Proof.
  unfold find_row, mbind, effect_bind. destruct (run_read d) as (d' & -> & ?). eauto.
Qed.

Lemma run_maybe_find k d :
  exists d', maybe_find k d = (d', Ok (table (R := R) (tables d) !! k)) /\ tables d' = tables d.
Proof.
  unfold maybe_find, mbind, effect_bind. destruct (run_read d) as (d' & -> & ?). eauto.
Qed.

Lemma run_select (p : R -> bool) d :
  exists d' l, select p d = (d', Ok l) /\ tables d' = tables d /\ l ≡ₚ rows_where p (tables d).
Proof.
  unfold select, mbind, effect_bind. destruct (run_read d) as (d' & -> & ?).
  eexists _, _. split; [done|]. split; [done|]. apply reliable_scan.
Qed.

Lemma elem_of_rows_where (p : R -> bool) T r :
  r ∈ rows_where p T <-> p r = true /\ exists k, table T !! k = Some r.
Proof.
  unfold rows_where. rewrite list_elem_of_filter, list_elem_of_In, in_map_iff. split.
  - intros (Hp & [k r'] & <- & Hin). split; [done|]. exists k.
    by apply elem_of_map_to_list, list_elem_of_In.
  - intros (Hp & k & Hk). split; [done|]. exists (k, r). split; [done|].
    by apply list_elem_of_In, elem_of_map_to_list.
Qed.

Lemma NoDup_rows_where (p : R -> bool) T :
  (forall (k : K) (r : R), table T !! k = Some r -> row_key r = k) -> NoDup (rows_where p T).
Proof.
  intros Hkey. unfold rows_where. apply NoDup_filter.
  apply (NoDup_fmap_2_strong snd); [|apply NoDup_map_to_list].
  intros [k1 s1] [k2 s2] Hk1%elem_of_map_to_list Hk2%elem_of_map_to_list E. simpl in E. subst.
  by rewrite <- (Hkey _ _ Hk1), <- (Hkey _ _ Hk2).
Qed.

Lemma run_maybe_find_first (p : R -> bool) d :
  exists d' o, maybe_find_first p d = (d', Ok o) /\ tables d' = tables d
    /\ match o with
       | Some r => p r = true /\ exists k, table (tables d) !! k = Some r
       | None => forall k r, table (tables d) !! k = Some r -> p r = false
       end.
Proof.
  unfold maybe_find_first, mbind, effect_bind.
  destruct (run_select p d) as (d' & l & -> & Ht & Hl). eexists _, _. split; [done|]. split; [done|].
  destruct l as [|r l]; simpl.
  - intros k r Hk. destruct (p r) eqn:Hp; [|done].
    assert (Hin : r ∈ rows_where p (tables d)) by (apply elem_of_rows_where; eauto).
    rewrite <- Hl in Hin. by apply elem_of_nil in Hin.
  - apply elem_of_rows_where. rewrite <- Hl. by left.
Qed.

Lemma run_insert_row (r : R) d :
  exists d', insert_row r d = (d', Ok tt) /\ tables d' = row_insert r (tables d).
Proof. apply run_execute. Qed.

Lemma run_delete_row (r : R) d :
  exists d', delete_row r d = (d', Ok tt) /\ tables d' = row_delete R (row_key r) (tables d).
Proof. apply run_execute. Qed.
End reliable.

(** ** The space account of a bucket *)
Definition bump (dc ds : i64) (b : Bucket) : Bucket :=
  with_counters (i64_add (b_file_count b) dc) (i64_add (b_space_taken b) ds) b.

Definition same_counters (a b : Bucket) : Prop :=
  b_file_count a = b_file_count b /\ b_space_taken a = b_space_taken b.

#[global] Instance same_counters_dec a b : Decision (same_counters a b).
Proof. unfold same_counters. apply _. Defined.

Section bucket_space.
  Context {D : Type} `{ReliableDatabase D}.
  Implicit Types d : D.

Lemma run_attempt dc ds (c b : Bucket) d :
  table (tables d) !! row_key c = Some b ->
  exists d', update_bucket_attempt dc ds c d =
      (d', Ok (if decide (same_counters b c) then None
               else Some (with_counters (b_file_count b) (b_space_taken b) c)))
    /\ tables d' = if decide (same_counters b c)
                   then row_update (row_key c) (bump dc ds) (tables d) else tables d.
Proof.
  intros Hb. unfold update_bucket_attempt, mbind, effect_bind.
  edestruct (reliable_exec_if (D := D)) as (d' & -> & E). exists d'.
  rewrite E. clear E.
  assert (Ec : counters_are c (tables d) = bool_decide (same_counters b c)).
  { unfold counters_are. by rewrite Hb. }
  rewrite Ec. destruct (decide (same_counters b c)) as [Hs|Hs].
  - rewrite bool_decide_true by done. split; [done|]. apply row_update_ext.
    intros r. rewrite Hb. intros [= <-]. unfold bump. by destruct Hs as [-> ->].
  - rewrite bool_decide_false by done. by rewrite Hb.
Qed.

(** The update succeeds from any copy of the bucket, however old its counters. *)
Lemma run_bucket_space dc ds (c b : Bucket) d :
  table (tables d) !! row_key c = Some b ->
  exists d', update_bucket_space c dc ds d = (d', Ok tt)
    /\ tables d' = row_update (row_key c) (bump dc ds) (tables d).
Proof.
  intros Hb. unfold update_bucket_space, QUERY_ATTEMPTS.
  change 2048%nat with (S (S 2046)). cbn [update_bucket_loop]. unfold mbind, effect_bind.
  destruct (run_attempt dc ds c b d Hb) as (d1 & -> & E1).
  destruct (decide (same_counters b c)); [by eauto|]. cbn [update_bucket_loop].
  destruct (run_attempt dc ds (with_counters (b_file_count b) (b_space_taken b) c) b d1)
    as (d2 & -> & E2); [by rewrite E1|].
  rewrite decide_True by done. rewrite decide_True, E1 in E2 by done. eauto.
Qed.
End bucket_space.

(** ** Programs of statements *)
(** [m] only reads, and what it answers satisfies [Q]. *)
Definition reads {D : Type} `{Database D} {E A} (T : Tables) (m : effect D E A) (Q : A -> Prop) : Prop :=
  forall d, tables d = T -> tables (m d).1 = T /\ forall a, (m d).2 = Ok a -> Q a.

(** The tables [m] leaves, whether it fails or not. *)
Definition leaves {D : Type} `{Database D} {E A} (T : Tables) (m : effect D E A) (P : Tables -> Prop) : Prop :=
  forall d, tables d = T -> P (tables (m d).1).

Section programs.
  Context {D : Type} `{DatabaseLaws D}.
  Implicit Types (d : D) (T : Tables) (P : Tables -> Prop).

Lemma reads_bind {E A B} T (m : effect D E A) (k : A -> effect D E B) Q R :
  reads T m Q -> (forall a, Q a -> reads T (k a) R) -> reads T (m ≫= k) R.
Proof.
  intros Hm Hk d Hd. unfold mbind, effect_bind. destruct (Hm d Hd) as [H1 H2].
  destruct (m d) as [d' [a|e]]; cbn [fst snd] in *; [by apply Hk; [apply H2|]|by split].
Qed.

Lemma leaves_bind {E A B} T (m : effect D E A) (k : A -> effect D E B) Q P :
  P T -> reads T m Q -> (forall a, Q a -> leaves T (k a) P) -> leaves T (m ≫= k) P.
Proof.
  intros HP Hm Hk d Hd. unfold mbind, effect_bind. destruct (Hm d Hd) as [H1 H2].
  destruct (m d) as [d' [a|e]]; cbn [fst snd] in *; [by apply (Hk a); [apply H2|]|by rewrite H1].
Qed.

(** A statement that changes the tables, followed by others. *)
Lemma leaves_then {E A B} T (m : effect D E A) (k : A -> effect D E B) P R :
  leaves T m P -> (forall T', P T' -> R T') -> (forall T' a, P T' -> leaves T' (k a) R) ->
  leaves T (m ≫= k) R.
Proof.
  intros Hm HR Hk d Hd. unfold mbind, effect_bind. specialize (Hm d Hd).
  destruct (m d) as [d' [a|e]]; cbn [fst snd] in *; [by apply (Hk (tables d'))|by apply HR].
Qed.

Lemma reads_ret {E A} T (a : A) (Q : A -> Prop) : Q a -> reads (D := D) (E := E) T (mret a) Q.
Proof. intros HQ d Hd. split; [done|]. by intros b [= <-]. Qed.

Lemma reads_of_result {E A} T (r : result E A) (Q : A -> Prop) :
  (forall a, r = Ok a -> Q a) -> reads (D := D) T (of_result r) Q.
Proof. intros HQ d Hd. by split. Qed.

Lemma reads_throw {E A} T (e : E) (Q : A -> Prop) : reads (D := D) T (throw e) Q.
Proof. intros d Hd. by split. Qed.

Lemma reads_on_err {E F A} (f : E -> F) T (m : effect D E A) Q : reads T m Q -> reads T (on_err f m) Q.
Proof.
  intros Hm d Hd. unfold on_err. destruct (Hm d Hd) as [H1 H2]. destruct (m d) as [d' [a|e]]; [|done].
  cbn in *. split; [done|]. intros b [= <-]. by apply H2.
Qed.

Lemma reads_weaken {E A} T (m : effect D E A) (Q Q' : A -> Prop) :
  (forall a, Q a -> Q' a) -> reads T m Q -> reads T m Q'.
Proof. intros HQ Hm d Hd. destruct (Hm d Hd) as [? H2]. split; [done|]. intros a Ha. by apply HQ, H2. Qed.

Lemma leaves_reads {E A} T (m : effect D E A) Q P : P T -> reads T m Q -> leaves T m P.
Proof. intros HP Hm d Hd. destruct (Hm d Hd) as [-> _]. done. Qed.

Lemma leaves_on_err {E F A} (f : E -> F) T (m : effect D E A) P : leaves T m P -> leaves T (on_err f m) P.
Proof. intros Hm d Hd. unfold on_err. specialize (Hm d Hd). by destruct (m d). Qed.

Lemma leaves_execute T f P : P T -> P (f T) -> leaves (D := D) T (execute f) P.
Proof.
  intros H1 H2 d <-. unfold execute, on_err. destruct (db_exec f d) as [d' [u|e]] eqn:Ex;
    apply exec_tables in Ex; cbn; [by rewrite Ex|by destruct Ex as [->| ->]].
Qed.

Section rows.
  Context {R K : Type} `{Row R K}.

Lemma reads_tables T : reads (D := D) T read_tables_ (fun T' => T' = T).
Proof.
  intros d <-. unfold read_tables_, on_err. destruct (db_read d) as [d' r] eqn:E.
  apply read_tables in E as [Hd Hr]. split; [done|]. cbn. destruct r; [|done]. by intros ? [= <-].
Qed.

Lemma reads_find_row T (k : K) : reads (D := D) T (find_row k) (fun r : R => table T !! k = Some r).
Proof.
  apply (reads_bind _ _ _ (fun T' => T' = T)); [apply reads_tables|]. intros ? ->. apply reads_of_result.
  intros a. unfold ok_or. destruct (table T !! k); [|done]. by intros [= ->].
Qed.

Lemma reads_maybe_find T (k : K) : reads (D := D) T (maybe_find k) (fun o : option R => table T !! k = o).
Proof.
  apply (reads_bind _ _ _ (fun T' => T' = T)); [apply reads_tables|]. intros ? ->. by apply reads_ret.
Qed.

Lemma reads_select T (p : R -> bool) : reads (D := D) T (select p) (fun l => l ≡ₚ rows_where p T).
Proof.
  apply (reads_bind _ _ _ (fun T' => T' = T)); [apply reads_tables|]. intros ? ->.
  apply reads_ret, scan_permutes.
Qed.

Lemma reads_maybe_find_first T (p : R -> bool) :
  reads (D := D) T (maybe_find_first p) (fun o =>
    match o with
    | Some r => p r = true /\ exists k, table T !! k = Some r
    | None => forall k r, table T !! k = Some r -> p r = false
    end).
Proof.
  eapply reads_bind; [apply reads_select|]. intros l Hl. apply reads_ret. destruct l as [|r l]; simpl.
  - intros k r Hk. destruct (p r) eqn:Hp; [|done].
    assert (Hin : r ∈ rows_where p T) by (apply elem_of_rows_where; eauto).
    rewrite <- Hl in Hin. by apply elem_of_nil in Hin.
  - apply elem_of_rows_where. rewrite <- Hl. by left.
Qed.
End rows.
End programs.
