(* ===== verification/BucketSpace.v ===== *)
(** * The space account of a bucket

    [update_bucket_space] of [data/src/access/file_access.rs]: the number of files and the
    space of a bucket are kept by optimistic updates that are repeated until no other client
    came between.  Here any number of such updates run at once, each step one attempt of one
    of them. *)
From Stdlib Require Import ZArith Lia List Wellfounded Wf_nat.
From stdpp Require Import base numbers list gmap relations.
From S2P Require Import Prelude Errors Paths Placement Database.
Local Open Scope Z_scope.

(** A call of [update_bucket_space] in progress. *)
Record Task : Type := mkTask {
  tk_bucket : Bucket;
  tk_count_delta : i64;
  tk_space_delta : i64;
  tk_attempts : nat;
  tk_result : option (result MeowithDataError unit)
}.

Definition start_task (b : Bucket) (dc ds : i64) : Task := mkTask b dc ds QUERY_ATTEMPTS None.

Definition finish (r : result MeowithDataError unit) (t : Task) : Task :=
  mkTask (tk_bucket t) (tk_count_delta t) (tk_space_delta t) (tk_attempts t) (Some r).

(** The next iteration of the loop of a call. *)
Definition task_attempt (t : Task) (T : Tables) : Tables * Task :=
  match tk_result t, tk_attempts t with
  | Some _, _ => (T, t)
  | None, O => (T, finish (Err UnknownFailure) t)
  | None, S n =>
      match update_bucket_attempt (tk_count_delta t) (tk_space_delta t) (tk_bucket t) T with
      | (T, Ok None) => (T, finish (Ok tt) t)
      | (T, Ok (Some b)) => (T, mkTask b (tk_count_delta t) (tk_space_delta t) n None)
      | (T, Err e) => (T, finish (Err e) t)
      end
  end.

Inductive space_step : Tables * list Task -> Tables * list Task -> Prop :=
| space_attempt T ts i t T' t' :
    ts !! i = Some t -> tk_result t = None -> task_attempt t T = (T', t') ->
    space_step (T, ts) (T', <[i := t']> ts).

(** A call that runs alone is the function: its attempts are the iterations of the loop. *)
Fixpoint run_alone (n : nat) (t : Task) (T : Tables) : Tables * Task :=
  match n with
  | O => (T, t)
  | S n => let '(T, t) := task_attempt t T in run_alone n t T
  end.

Lemma run_alone_done n t T r : tk_result t = Some r -> run_alone n t T = (T, t).
Proof. intros Hr. induction n; simpl; [done|]. unfold task_attempt. by rewrite Hr. Qed.

Lemma run_alone_S n t T :
  run_alone (S n) t T = let '(T, t) := task_attempt t T in run_alone n t T.
Proof. done. Qed.

Lemma run_alone_loop n b dc ds T :
  let '(T', t) := run_alone (S n) (mkTask b dc ds n None) T in
  (T', tk_result t) = let '(T', r) := update_bucket_loop n b dc ds T in (T', Some r).
Proof.
  revert b T. induction n as [|n IH]; intros b T; [done|].
  rewrite run_alone_S. unfold task_attempt at 1. cbn [tk_result tk_attempts tk_count_delta tk_space_delta tk_bucket].
  cbn [update_bucket_loop]. unfold mbind at 1, effect_bind at 1.
  destruct (update_bucket_attempt dc ds b T) as [T' [[b'|]|e]] eqn:E.
  - apply IH.
  - by rewrite (run_alone_done _ _ _ (Ok tt)).
  - by rewrite (run_alone_done _ _ _ (Err e)).
Qed.

(** ** What an attempt does *)
Abbreviation bucket_at T k := (table (R := Bucket) T !! k).

Lemma attempt_spec dc ds c T b :
  bucket_at T (row_key c) = Some b ->
  update_bucket_attempt dc ds c T =
    if decide (same_counters b c)
    then (row_update (row_key c) (bump dc ds) T, Ok None)
    else (T, Ok (Some (with_counters (b_file_count b) (b_space_taken b) c))).
Proof.
  intros Hb. destruct (run_attempt (D := Tables) dc ds c b T) as (T' & -> & E); [exact Hb|]. simpl in E. subst.
  by case_decide.
Qed.

(** ** The invariant *)
Definition applied (k : Uuid * Uuid) (t : Task) : bool :=
  bool_decide (tk_result t = Some (Ok tt) /\ row_key (tk_bucket t) = k).

(** The sum over the calls on bucket [k] that were applied. *)
Definition applied_sum (g : Task -> Z) (k : Uuid * Uuid) (ts : list Task) : Z :=
  list_sum (map (fun t => if applied k t then g t else 0) ts).

Definition after (b0 : Bucket) (count space : Z) : Bucket :=
  with_counters (as_signed 64 (b_file_count b0 + count)) (as_signed 64 (b_space_taken b0 + space)) b0.

Definition failed_attempts (t : Task) : Z := Z.of_nat QUERY_ATTEMPTS - Z.of_nat (tk_attempts t).

(** A call in progress failed at most once more than others were applied, and it can only fail
    again if one was applied since its last attempt. *)
Definition task_inv (T0 T : Tables) (ts : list Task) (t : Task) : Prop :=
  let k := row_key (tk_bucket t) in
  is_Some (bucket_at T0 k)
  /\ match tk_result t with
     | Some r => r = Ok tt
     | None =>
         let n := applied_sum (fun _ => 1) k ts in
         failed_attempts t <= n + 1
         /\ (failed_attempts t <= n \/ forall b, bucket_at T k = Some b -> same_counters b (tk_bucket t))
     end.

Record space_inv (T0 : Tables) (st : Tables * list Task) : Prop := {
  si_account : forall k b0, bucket_at T0 k = Some b0 ->
    bucket_at st.1 k = Some (after b0 (applied_sum tk_count_delta k st.2)
                                      (applied_sum tk_space_delta k st.2));
  si_tasks : Forall (task_inv T0 st.1 st.2) st.2
}.

Lemma applied_sum_insert g k ts i t t' :
  ts !! i = Some t ->
  applied_sum g k (<[i := t']> ts)
  = applied_sum g k ts - (if applied k t then g t else 0) + (if applied k t' then g t' else 0).
Proof.
  intros Hi. unfold applied_sum.
  by rewrite (list_sum_insert (fun t => if applied k t then g t else 0) ts i t t').
Qed.

Lemma applied_running k t : tk_result t = None -> applied k t = false.
Proof. intros E. apply bool_decide_eq_false. rewrite E. by intros []. Qed.

Lemma applied_count_nonneg k ts : 0 <= applied_sum (fun _ => 1) k ts.
Proof. unfold applied_sum. induction ts as [|t ts IH]; simpl; [lia|]. destruct (applied k t); lia. Qed.

Lemma applied_count_le k ts : applied_sum (fun _ => 1) k ts <= Z.of_nat (length ts).
Proof. unfold applied_sum. induction ts as [|t ts IH]; simpl; [lia|]. destruct (applied k t); lia. Qed.

(** With a call in progress, fewer than all are applied. *)
Lemma applied_count_running k ts i t :
  ts !! i = Some t -> tk_result t = None -> applied_sum (fun _ => 1) k ts < Z.of_nat (length ts).
Proof.
  intros Hi Hr. pose proof (applied_count_le k (<[i := finish (Ok tt) (mkTask
    (with_counters 0 0 (mkBucket k.1 k.2 [] false false 0 0 0 0 0)) 0 0 0 None)]> ts)) as Hle.
  rewrite (applied_sum_insert _ _ _ i t), length_insert in Hle by done.
  rewrite (applied_running k t) in Hle by done. unfold applied in Hle.
  rewrite bool_decide_true in Hle; [lia|]. by destruct k.
Qed.

Lemma bump_after dc ds b0 count space :
  bump dc ds (after b0 count space) = after b0 (count + dc) (space + ds).
Proof.
  unfold bump, after, i64_add. simpl. rewrite !as_signed_add, !Z.add_assoc by lia. done.
Qed.

Lemma row_update_at k f T k' :
  bucket_at (row_update k f T) k' = if decide (k' = k) then f <$> bucket_at T k else bucket_at T k'.
Proof.
  unfold row_update. simpl. case_decide as Hk; [subst; apply lookup_alter_eq|].
  by apply lookup_alter_ne.
Qed.

(** An attempt of a call in progress: applied, or postponed with what it found. *)
Lemma task_attempt_cases T t T' t' b :
  tk_result t = None -> task_attempt t T = (T', t') -> (0 < tk_attempts t)%nat ->
  bucket_at T (row_key (tk_bucket t)) = Some b ->
  (same_counters b (tk_bucket t)
   /\ T' = row_update (row_key (tk_bucket t)) (bump (tk_count_delta t) (tk_space_delta t)) T
   /\ t' = finish (Ok tt) t)
  \/ (~ same_counters b (tk_bucket t) /\ T' = T
      /\ t' = mkTask (with_counters (b_file_count b) (b_space_taken b) (tk_bucket t))
                (tk_count_delta t) (tk_space_delta t) (tk_attempts t - 1) None).
Proof.
  intros Hr E Hn Hb. unfold task_attempt in E. rewrite Hr in E.
  destruct (tk_attempts t) as [|n]; [lia|]. rewrite (attempt_spec _ _ _ _ _ Hb) in E.
  destruct (decide (same_counters b (tk_bucket t))); injection E as <- <-; [by left|right].
  simpl. by rewrite Nat.sub_0_r.
Qed.

Lemma task_inv_mono T0 T T' ts ts' t :
  (forall k, applied_sum (fun _ => 1) k ts <= applied_sum (fun _ => 1) k ts') ->
  (forall k, applied_sum (fun _ => 1) k ts = applied_sum (fun _ => 1) k ts' ->
     bucket_at T' k = bucket_at T k) ->
  task_inv T0 T ts t -> task_inv T0 T' ts' t.
Proof.
  intros Hle Heq (Hk & Ht). split; [done|]. destruct (tk_result t); [done|].
  destruct Ht as [Hf Ht]. specialize (Hle (row_key (tk_bucket t))). specialize (Heq (row_key (tk_bucket t))).
  split; [lia|]. destruct Ht as [?|Hs]; [left; lia|].
  destruct (decide (applied_sum (fun _ => 1) (row_key (tk_bucket t)) ts
                    = applied_sum (fun _ => 1) (row_key (tk_bucket t)) ts')) as [E|E];
    [right; by rewrite Heq|left; lia].
Qed.

Lemma space_step_inv T0 st st' :
  (length st.2 < QUERY_ATTEMPTS)%nat -> space_inv T0 st -> space_step st st' -> space_inv T0 st'.
Proof.
  intros Hlen [Hacc Htasks] Hstep. destruct Hstep as [T ts i t T' t' Hi Hr E]. cbn [fst snd] in *.
  pose proof (Forall_lookup_1 _ _ _ _ Htasks Hi) as (Hk & Ht). rewrite Hr in Ht.
  destruct Hk as [b0 Hb0]. pose proof (Hacc _ _ Hb0) as Hb. set (b := after b0 _ _) in Hb.
  assert (Hn : (0 < tk_attempts t)%nat).
  { pose proof (applied_count_running (row_key (tk_bucket t)) ts i t Hi Hr).
    unfold failed_attempts in Ht. destruct Ht as [Ht _]. lia. }
  assert (Hupd : forall g k, applied_sum g k (<[i := t']> ts)
                             = applied_sum g k ts + if applied k t' then g t' else 0).
  { intros g k. rewrite (applied_sum_insert _ _ _ i t) by done. rewrite applied_running by done. lia. }
  destruct (task_attempt_cases _ _ _ _ _ Hr E Hn Hb) as [(Hs & -> & ->)|(Hs & -> & ->)].
  - assert (Happ : forall k, applied k (finish (Ok tt) t) = bool_decide (row_key (tk_bucket t) = k)).
    { intros k. apply bool_decide_ext. simpl. tauto. }
    split; cbn [fst snd].
    + intros k b1 Hb1. rewrite !Hupd, !Happ, row_update_at. case_decide as Hkk.
      * subst k. rewrite bool_decide_true, Hb by done. cbn [fmap option_fmap option_map]. unfold b. rewrite bump_after. by assert (b1 = b0) as -> by congruence.
      * rewrite bool_decide_false by done. rewrite !Z.add_0_r. by apply Hacc.
    + apply Forall_insert; [|split; [by eauto|done]]. eapply Forall_impl; [exact Htasks|].
      intros u. apply task_inv_mono; intros k; rewrite Hupd, Happ; case_bool_decide; [lia|lia|lia|].
      intros _. rewrite row_update_at, decide_False; done.
  - assert (Hsame : forall g k, applied_sum g k (<[i := mkTask (with_counters (b_file_count b)
        (b_space_taken b) (tk_bucket t)) (tk_count_delta t) (tk_space_delta t) (tk_attempts t - 1)
        None]> ts) = applied_sum g k ts).
    { intros g k. rewrite Hupd, applied_running by done. lia. }
    split; cbn [fst snd].
    + intros k b1 Hb1. rewrite !Hsame. by apply Hacc.
    + apply Forall_insert.
      * eapply Forall_impl; [exact Htasks|]. intros u.
        apply task_inv_mono; intros k; rewrite Hsame; [lia|done].
      * split; [by eauto|]. simpl. rewrite Hsame. destruct Ht as [Hf [Hf'|Ht]].
        -- unfold failed_attempts in *. simpl in *. split; [lia|]. right. intros b'. rewrite Hb.
           by intros [= <-].
        -- by destruct Hs; apply Ht.
Qed.

Definition started (T0 : Tables) (ts : list Task) : Prop :=
  Forall (fun t => is_Some (bucket_at T0 (row_key (tk_bucket t)))
                   /\ tk_attempts t = QUERY_ATTEMPTS /\ tk_result t = None) ts.

Definition i64_counters (T0 : Tables) : Prop :=
  forall k b, bucket_at T0 k = Some b ->
    - 2 ^ 63 <= b_file_count b < 2 ^ 63 /\ - 2 ^ 63 <= b_space_taken b < 2 ^ 63.

Lemma started_inv T0 ts : started T0 ts -> i64_counters T0 -> space_inv T0 (T0, ts).
Proof.
  intros Hst Hi.
  assert (Hz : forall g k, applied_sum g k ts = 0).
  { intros g k. unfold applied_sum. induction Hst as [|t ts (_ & _ & Hr) _ IH]; simpl; [done|].
    rewrite applied_running by done. lia. }
  split; cbn [fst snd].
  - intros k b0 Hb. rewrite Hb, !Hz. destruct (Hi _ _ Hb) as [??]. unfold after.
    rewrite !Z.add_0_r, !as_signed_small by lia. by destruct b0.
  - eapply Forall_impl; [exact Hst|]. intros t (Hk & Ha & Hr). split; [done|]. rewrite Hr, Hz.
    unfold failed_attempts. rewrite Ha. split; [lia|]. left. lia.
Qed.

Lemma space_step_length st st' : space_step st st' -> length st'.2 = length st.2.
Proof. destruct 1. simpl. apply length_insert. Qed.

Lemma reachable_inv T0 ts st :
  started T0 ts -> i64_counters T0 -> (length ts < QUERY_ATTEMPTS)%nat ->
  rtc space_step (T0, ts) st -> space_inv T0 st /\ length st.2 = length ts.
Proof.
  intros Hst Hi Hlen Hr. pose proof (started_inv _ _ Hst Hi) as Hinv.
  assert (Hgen : forall x y, rtc space_step x y -> length x.2 = length ts -> space_inv T0 x ->
    space_inv T0 y /\ length y.2 = length ts).
  { clear Hinv Hr. induction 1 as [x|x y z Hxy _ IH]; intros Hl HI; [done|]. apply IH.
    - by rewrite (space_step_length _ _ Hxy).
    - eapply space_step_inv; [|done|done]. by rewrite Hl. }
  by apply (Hgen _ _ Hr).
Qed.

Fixpoint attempts_left (ts : list Task) : nat :=
  match ts with
  | [] => 0
  | t :: ts => match tk_result t with None => S (tk_attempts t) | Some _ => 0 end + attempts_left ts
  end%nat.

Lemma attempts_left_insert ts i t t' :
  ts !! i = Some t -> tk_result t = None ->
  (match tk_result t' with None => S (tk_attempts t') | Some _ => 0 end < S (tk_attempts t))%nat ->
  (attempts_left (<[i := t']> ts) < attempts_left ts)%nat.
Proof.
  revert i. induction ts as [|u ts IH]; intros [|i] Hi Hr Hlt; simpl in *; [done|done| |].
  - injection Hi as ->. rewrite Hr. lia.
  - specialize (IH i Hi Hr Hlt). lia.
Qed.

Lemma space_step_decreases st st' : space_step st st' -> (attempts_left st'.2 < attempts_left st.2)%nat.
Proof.
  destruct 1 as [T ts i t T' t' Hi Hr E]. simpl. eapply attempts_left_insert; [done|done|].
  unfold task_attempt in E. rewrite Hr in E. destruct (tk_attempts t) as [|n].
  - injection E as <- <-. simpl. lia.
  - destruct (update_bucket_attempt _ _ _ _) as [? [[?|]|?]]; injection E as <- <-; simpl; lia.
Qed.

(** C12: concurrent changes of a bucket's account.  Fewer than 2048 calls of
    [update_bucket_space] run at once, each from any copy of its bucket, in any interleaving
    of their attempts.  At every moment the counters of each bucket are their initial values
    plus the changes of exactly the calls that have returned, which all succeeded; none gives
    up.  The calls finish: there is no infinite interleaving, and when none can make another
    attempt all have succeeded. *)
Theorem bucket_account_exact T0 ts st :
  started T0 ts -> i64_counters T0 -> (length ts < QUERY_ATTEMPTS)%nat ->
  rtc space_step (T0, ts) st ->
  (forall k b0, bucket_at T0 k = Some b0 ->
     bucket_at st.1 k = Some (after b0 (applied_sum tk_count_delta k st.2)
                                       (applied_sum tk_space_delta k st.2)))
  /\ Forall (fun t => tk_result t = None \/ tk_result t = Some (Ok tt)) st.2
  /\ well_founded (fun y x => space_step x y)
  /\ ((forall st', ~ space_step st st') -> Forall (fun t => tk_result t = Some (Ok tt)) st.2).
Proof.
  intros Hst Hi Hlen Hr. destruct (reachable_inv _ _ _ Hst Hi Hlen Hr) as [[Hacc Htasks] _].
  assert (Hres : Forall (fun t => tk_result t = None \/ tk_result t = Some (Ok tt)) st.2).
  { eapply Forall_impl; [exact Htasks|]. intros t (_ & Ht). destruct (tk_result t) as [r|]; [|by left].
    right. by rewrite Ht. }
  split; [done|]. split; [done|]. split.
  - eapply wf_incl; [|apply (well_founded_ltof _ (fun st => attempts_left st.2))].
    intros y x. apply space_step_decreases.
  - intros Hstuck. apply Forall_lookup. intros i t Ht.
    destruct (Forall_lookup_1 _ _ _ _ Hres Ht) as [Hn|?]; [|done]. exfalso.
    destruct st as [T us]. destruct (task_attempt t T) as [T' t'] eqn:E.
    by apply (Hstuck (T', <[i := t']> us)); econstructor.
Qed.

(** ** Example: an upload and a deletion, both from an outdated copy of the bucket *)
Definition bucket7 : Bucket := mkBucket 1 7 [] false false 1000 4 300 0 0.

Definition tables7 : Tables := row_insert bucket7 (mkTables ∅ ∅ ∅ ∅ ∅ ∅ ∅ ∅ ∅ ∅ ∅).

Definition calls7 : list Task :=
  [start_task bucket7 1 50; start_task (with_counters 3 100 bucket7) (-1) (-100)].

Definition end7 : Tables * list Task :=
  let '(T1, t1) := task_attempt (start_task bucket7 1 50) tables7 in
  let '(T2, t2) := run_alone 2 (start_task (with_counters 3 100 bucket7) (-1) (-100)) T1 in
  (T2, [t1; t2]).

Lemma started7 : started tables7 calls7.
Proof. repeat constructor; by eexists. Qed.

Lemma counters7 : i64_counters tables7.
Proof.
  intros k b Hb. unfold tables7, row_insert in Hb. simpl in Hb.
  apply lookup_insert_Some in Hb as [[_ <-]|[_ Hb]]; [simpl; lia|]. by rewrite lookup_empty in Hb.
Qed.

Lemma space_step_at i T ts t :
  ts !! i = Some t -> tk_result t = None ->
  space_step (T, ts) ((task_attempt t T).1, <[i := (task_attempt t T).2]> ts).
Proof. intros Hi Hr. econstructor; [done|done|]. by destruct (task_attempt t T). Qed.

Lemma reach7 : rtc space_step (tables7, calls7) end7.
Proof.
  eapply rtc_l; [by apply (space_step_at 0)|]. eapply rtc_l; [by apply (space_step_at 1)|].
  eapply rtc_l; [by apply (space_step_at 1)|]. apply rtc_refl.
Qed.

Lemma bucket_account_exact_witness :
  bucket_at end7.1 (1, 7) = Some (with_counters 4 250 bucket7)
  /\ Forall (fun t => tk_result t = Some (Ok tt)) end7.2.
Proof.
  destruct (bucket_account_exact tables7 calls7 end7 started7 counters7 ltac:(vm_compute; lia) reach7)
    as (Hacc & _ & _ & Hdone).
  split; [exact (Hacc (1, 7) bucket7 eq_refl)|]. apply Hdone. intros st' Hstep.
  remember end7 as st eqn:Est. destruct Hstep as [T ts i t T' t' Hi Hr E].
  apply (f_equal snd) in Est. vm_compute in Est. subst ts.
  destruct i as [|[|i]]; simpl in Hi; by simplify_eq.
Defined.
