(* ===== verification/UploadSessions.v ===== *)
(** * Upload sessions

    [node/src/public/service/durable_transfer_session_manager.rs]: the record of a running
    upload, which any node may find in the database; who may write to it is decided by
    conditional updates on its last access.

    The functions of the manager come first, then the handlers of several nodes that work on
    one session at once.  Times are milliseconds. *)
From Stdlib Require Import ZArith Lia List.
From stdpp Require Import base numbers list strings gmap relations.
From S2P Require Import Prelude Errors Paths Placement FragmentLedger Database.
Local Open Scope Z_scope.

Section manager.
  Context {D : Type} `{Database D}.

Definition start_session (s : BucketUploadSession) : effect D NodeClientError Uuid :=
  on_err client_of_data (insert_upload_session s);; mret (s_id s).

(** The session passed by reference comes back with the result. *)
Definition update_session (now : Z) (s : BucketUploadSession) (d : D)
    : D * (BucketUploadSession * NodeClientResponse unit) :=
  let '(d, (s, r)) := try_update_upload_session now s d in (d, (s, map_err client_of_data r)).

Definition get_session (app_id bucket_id id : Uuid) : effect D NodeClientError BucketUploadSession :=
  on_err (fun _ => NcNoSuchSession) (get_upload_session app_id bucket_id id).

Definition try_lock_session (now : Z) (s : BucketUploadSession) (expected target : SessionState) (d : D)
    : D * (BucketUploadSession * NodeClientResponse unit) :=
  if decide (s_state s <> i8_of_SessionState expected) then (d, (s, Err NcBadRequest))
  else update_session now (with_state target s) d.

(** The result of the deletion is ignored. *)
Definition end_session (app_id bucket_id id : Uuid) : effect D NodeClientError unit :=
  attempt (delete_upload_session_by app_id bucket_id id);; mret tt.

Definition session_valid (now : Z) (s : BucketUploadSession) : bool :=
  if s_durable s
  then bool_decide (now - s_last_access s <= 1000 * DURABLE_UPLOAD_SESSION_VALIDITY_TIME_SECS)
  else bool_decide (now - s_last_access s <= 1000 * (2 * 60)).

Definition validate_session (now : Z) (s : BucketUploadSession) : effect D NodeClientError bool :=
  let valid := session_valid now s in
  (if valid then mret tt else end_session (s_app_id s) (s_bucket s) (s_id s));; mret valid.

Fixpoint sum_valid (now : Z) (total : i64) (l : list BucketUploadSession)
    : effect D NodeClientError i64 :=
  match l with
  | [] => mret total
  | s :: l =>
      valid ← validate_session now s;
      sum_valid now (if (valid : bool) then i64_add total (s_size s) else total) l
  end.

Definition get_reserved_space (now : Z) (app_id bucket_id : Uuid) : effect D NodeClientError i64 :=
  l ← on_err client_of_data (get_upload_sessions app_id bucket_id);
  sum_valid now 0 l.
End manager.

(** ** Reserved space *)
Section reserved.
  Context {D : Type} `{ReliableDatabase D}.
  Implicit Types d : D.

Definition session_keyed (T : Tables) : Prop :=
  forall k s, sessions_table T !! k = Some s -> row_key s = k.

Definition expired (now : Z) (s : BucketUploadSession) : Prop := session_valid now s = false.

#[global] Instance expired_dec now s : Decision (expired now s).
Proof. unfold expired. apply _. Defined.

Lemma run_end_session app_id bucket_id id d :
  exists d', end_session app_id bucket_id id d = (d', Ok tt)
    /\ tables d' = row_delete BucketUploadSession (app_id, bucket_id, id) (tables d).
Proof.
  unfold end_session, mbind, effect_bind, attempt, delete_upload_session_by.
  edestruct (run_execute (D := D)) as (d' & -> & ?). eauto.
Qed.

Lemma run_sum_valid now l : forall total d, exists d',
  sum_valid now total l d = (d', Ok (fold_left (fun t s => if session_valid now s then i64_add t (s_size s) else t) l total))
  /\ tables d' = fold_left (fun T s => if session_valid now s then T
                              else row_delete BucketUploadSession (row_key s) T) l (tables d).
Proof.
  induction l as [|s l IH]; intros total d; [by exists d|].
  cbn [sum_valid fold_left]. unfold validate_session, mbind, effect_bind.
  destruct (session_valid now s); [apply IH|].
  destruct (run_end_session (s_app_id s) (s_bucket s) (s_id s) d) as (d1 & -> & Hd1).
  destruct (IH total d1) as (d2 & E2 & Hd2). exists d2. split; [exact E2|]. by rewrite Hd2, Hd1.
Qed.

Lemma sum_valid_total now l total :
  fold_left (fun t s => if session_valid now s then i64_add t (s_size s) else t) l (as_signed 64 total)
  = as_signed 64 (total + list_sum (map s_size (filter (fun s => session_valid now s = true) l))).
Proof.
  revert total. induction l as [|s l IH]; intros total; [simpl; by rewrite Z.add_0_r|].
  cbn [fold_left]. rewrite filter_cons. destruct (session_valid now s) eqn:Ev.
  - rewrite decide_True by done. unfold i64_add. rewrite as_signed_add, IH by lia.
    cbn [map]. change (list_sum (s_size s :: ?x)) with (s_size s + list_sum x).
    f_equal. simpl. lia.
  - rewrite decide_False by done. apply IH.
Qed.

Lemma delete_expired now l T (k : Uuid * Uuid * Uuid) :
  sessions_table (fold_left (fun T s => if session_valid now s then T
                       else row_delete BucketUploadSession (row_key s) T) l T) !! k
  = if decide (Exists (fun s => row_key s = k /\ expired now s) l) then None
    else sessions_table T !! k.
Proof.
  revert T. induction l as [|s l IH]; intros T; cbn [fold_left].
  { rewrite decide_False; [done|]. by inversion 1. }
  rewrite IH. unfold expired. destruct (decide (Exists _ l)) as [Hl|Hl].
  - rewrite decide_True; [done|]. by right.
  - destruct (session_valid now s) eqn:Ev.
    + rewrite decide_False; [done|]. rewrite Exists_cons. intros [[_ E]|?]; [congruence|done].
    + unfold row_delete. cbn. destruct (decide (k = row_key s)) as [->|Hk].
      * rewrite lookup_delete_eq, decide_True; [done|]. by left.
      * rewrite lookup_delete_ne by done. rewrite decide_False; [done|].
        rewrite Exists_cons. intros [[E _]|?]; [by apply Hk|done].
Qed.

(** The space reserved by running uploads.  It is the sum, at 64 bits, of the sizes of the
    bucket's sessions that are still valid; the sessions that are no longer valid are removed
    on the way, and nothing else is. *)
Theorem reserved_space_spec now app_id bucket_id d :
  session_keyed (tables d) ->
  exists d' l, get_reserved_space now app_id bucket_id d
      = (d', Ok (as_signed 64 (list_sum (map s_size (filter (fun s => session_valid now s = true) l)))))
    /\ (forall s, s ∈ l <-> sessions_table (tables d) !! row_key s = Some s
                           /\ s_app_id s = app_id /\ s_bucket s = bucket_id)
    /\ NoDup l
    /\ forall k, sessions_table (tables d') !! k
        = match sessions_table (tables d) !! k with
          | Some s => if decide (s_app_id s = app_id /\ s_bucket s = bucket_id /\ expired now s)
                      then None else Some s
          | None => None
          end.
Proof.
  intros Hkey. unfold get_reserved_space, mbind, effect_bind, on_err, get_upload_sessions.
  edestruct (run_select (D := D) (R := BucketUploadSession)) as (d1 & l & -> & Hd1 & Hl).
  cbn [map_err]. destruct (run_sum_valid now l 0 d1) as (d2 & E2 & Hd2). exists d2, l.
  assert (Hmem : forall s, s ∈ l <-> sessions_table (tables d) !! row_key s = Some s
                                     /\ s_app_id s = app_id /\ s_bucket s = bucket_id).
  { intros s. rewrite Hl, elem_of_rows_where, bool_decide_eq_true. split.
    - intros (Hs & k & Hk). by rewrite (Hkey k s Hk).
    - intros (Hk & Hs). eauto. }
  split; [|split; [done|split]].
  - rewrite E2. f_equal. f_equal. exact (sum_valid_total now l 0).
  - rewrite Hl. by apply NoDup_rows_where.
  - intros k. rewrite Hd2, delete_expired, Hd1.
    destruct (sessions_table (tables d) !! k) as [s|] eqn:Hk; [|by case_decide].
    assert (Hiff : Exists (fun s0 => row_key s0 = k /\ expired now s0) l
      <-> s_app_id s = app_id /\ s_bucket s = bucket_id /\ expired now s).
    { rewrite Exists_exists. split.
      - intros (s0 & Hin & E & He). apply Hmem in Hin as (Hk0 & ? & ?).
        rewrite E, Hk in Hk0. by injection Hk0 as ->.
      - intros (? & ? & He). exists s. rewrite Hmem, (Hkey k s Hk). done. }
    by destruct (decide (Exists _ l)); [rewrite decide_True by tauto|rewrite decide_False by tauto].
Qed.
End reserved.

(** ** Handlers on one session *)
(** A request handler: idle, with a copy of the session, or after [try_lock_session] let it
    write. *)
Inductive Uploader : Type :=
| Idle
| Loaded (s : BucketUploadSession)
| Holding (s : BucketUploadSession).

Section sessions.
  (** The session, and whether the clocks are assumed to advance between updates. *)
  Variable app_id bucket_id id : Uuid.
  Variable advancing : bool.

Abbreviation key := (app_id, bucket_id, id).
Abbreviation row T := (sessions_table T !! key).

Definition clock_ok (now : Z) (T : Tables) : Prop :=
  advancing = true -> forall r, row T = Some r -> s_last_access r < now.

(** The steps of [handle_upload_durable], [resume_upload_session] and the notifier on the
    session, the expiry of its row, and what other requests do to other rows. *)
Inductive session_step : Tables * list Uploader -> Tables * list Uploader -> Prop :=
| s_load T us i T' s :
    us !! i = Some Idle -> get_session app_id bucket_id id T = (T', Ok s) ->
    session_step (T, us) (T', <[i := Loaded s]> us)
| s_lock now T us i s T' s' r :
    us !! i = Some (Loaded s) -> clock_ok now T ->
    try_lock_session now s AwaitingData Writing T = (T', (s', r)) ->
    session_step (T, us) (T', <[i := match r with Ok _ => Holding s' | Err _ => Idle end]> us)
| s_resume now T us i s T' s' r :
    us !! i = Some (Loaded s) -> clock_ok now T ->
    try_lock_session now s TimedOut AwaitingData T = (T', (s', r)) ->
    session_step (T, us) (T', <[i := Idle]> us)
| s_keep_alive now T us i s T' s' r :
    us !! i = Some (Holding s) -> clock_ok now T ->
    update_session now s T = (T', (s', r)) ->
    session_step (T, us) (T', <[i := Holding s']> us)
| s_interrupt now T us i s T' s' r :
    us !! i = Some (Holding s) -> clock_ok now T ->
    update_session now (with_state TimedOut s) T = (T', (s', r)) ->
    session_step (T, us) (T', <[i := Idle]> us)
| s_end T us i s T' r :
    us !! i = Some (Holding s) -> end_session app_id bucket_id id T = (T', r) ->
    session_step (T, us) (T', <[i := Idle]> us)
| s_abandon T us i u :
    us !! i = Some u -> session_step (T, us) (T, <[i := Idle]> us)
| s_expire T us :
    session_step (T, us) (row_delete BucketUploadSession key T, us)
| s_other T us T' :
    row T' = row T -> session_step (T, us) (T', us).

Definition holding (u : Uploader) : Prop := match u with Holding _ => True | _ => False end.

(** A copy with the current last access has the current state; a writer has the row itself. *)
Definition copy_inv (T : Tables) (u : Uploader) : Prop :=
  match u with
  | Idle => True
  | Loaded s => row_key s = key
      /\ forall r, row T = Some r -> s_last_access s <= s_last_access r
           /\ (s_last_access s = s_last_access r -> s_state s = s_state r)
  | Holding s => row_key s = key /\ s_state s = i8_of_SessionState Writing
      /\ forall r, row T = Some r -> r = s
  end.

Record session_inv (st : Tables * list Uploader) : Prop := {
  sv_key : forall r, row st.1 = Some r -> row_key r = key;
  sv_copies : Forall (copy_inv st.1) st.2;
  sv_one : forall i j u v, st.2 !! i = Some u -> st.2 !! j = Some v ->
    holding u -> holding v -> i = j
}.

(** The conditional update on the reliable database. *)
Lemma update_session_cases now s T T' s' r :
  row_key s = key -> update_session now s T = (T', (s', r)) ->
  (exists o, row T = Some o /\ s_last_access o = s_last_access s /\ r = Ok tt
     /\ s' = with_last_access now s /\ row T' = Some s' /\ row_key s' = key)
  \/ (T' = T /\ r <> Ok tt /\ (exists t, s' = with_last_access t s)
      /\ forall o, row T = Some o -> s_last_access o <> s_last_access s).
Proof.
  intros Hk E. unfold update_session, try_update_upload_session in E.
  cbn [db_exec_if Tables_database] in E. unfold last_access_is in E. rewrite Hk in E. cbn in E.
  destruct (sessions_table T !! key) as [o|] eqn:Ho.
  - case_bool_decide as Hl.
    + injection E as <- <- <-. left. exists o. split; [done|]. split; [done|]. split; [done|].
      split; [done|]. split; [|done]. unfold row_update. cbn.
      replace (s_app_id s, s_bucket s, s_id s) with key by exact (eq_sym Hk).
      by rewrite lookup_alter_eq, Ho.
    + rewrite Ho in E. injection E as <- <- <-. right. split; [done|]. split; [done|].
      split; [by eexists|]. by intros ? [= <-].
  - rewrite Ho in E. injection E as <- <- <-. right. split; [done|]. split; [done|]. by split; [eexists|].
Qed.

Lemma inv_update T us T' i u u' :
  session_inv (T, us) -> us !! i = Some u ->
  (forall r, row T' = Some r -> row_key r = key) ->
  (forall j v, j <> i -> us !! j = Some v -> copy_inv T v -> copy_inv T' v) ->
  copy_inv T' u' ->
  (holding u' -> forall j v, us !! j = Some v -> holding v -> j = i) ->
  session_inv (T', <[i := u']> us).
Proof.
  intros [Hk Hc H1] Hi Hk' Hother Hu' Hone. split; cbn [fst snd] in *; [done| |].
  - apply Forall_lookup. intros j v. rewrite list_lookup_insert_Some.
    intros [(-> & -> & _)|[Hne Hj]]; [done|]. eapply Hother; [done|done|].
    by apply (Forall_lookup_1 _ _ _ _ Hc Hj).
  - intros j1 j2 v1 v2. rewrite !list_lookup_insert_Some.
    intros [(-> & -> & _)|[Hn1 Hj1]] [(-> & -> & _)|[Hn2 Hj2]] Hv1 Hv2; [done| | |].
    + symmetry. by eapply Hone.
    + by eapply Hone.
    + by eapply H1.
Qed.

(** A row that did not change, or is gone, keeps every copy good. *)
Lemma copy_inv_row T T' v : row T' = row T \/ row T' = None -> copy_inv T v -> copy_inv T' v.
Proof.
  intros Hr. destruct v as [|s|s]; simpl; [done| |].
  - intros [Hk Hl]. split; [done|]. intros r. destruct Hr as [-> | ->]; [auto|done].
  - intros (Hk & Hs & Hl). split; [done|]. split; [done|]. intros r. destruct Hr as [-> | ->]; [auto|done].
Qed.

(** A later row makes every copy outdated. *)
Lemma copy_inv_later T T' v o n :
  row T = Some o -> row T' = Some n -> s_last_access o < s_last_access n ->
  ~ holding v -> copy_inv T v -> copy_inv T' v.
Proof.
  intros Ho Hn Hlt Hh. destruct v as [|s|s]; simpl; [done| |by destruct Hh].
  intros [Hk Hl]. split; [done|]. intros r. rewrite Hn. intros [= <-].
  destruct (Hl o Ho). split; [lia|]. intros ?. lia.
Qed.

Hypothesis clocks_advance : advancing = true.

(** An update with the expected state found the row in that state. *)
Lemma lock_cases now s expected target T us T' s' r :
  session_inv (T, us) -> (exists i, us !! i = Some (Loaded s)) -> clock_ok now T ->
  expected <> Writing ->
  try_lock_session now s expected target T = (T', (s', r)) ->
  (exists o, row T = Some o /\ row T' = Some s' /\ r = Ok tt /\ s_last_access o < s_last_access s'
     /\ row_key s' = key /\ s_state s' = i8_of_SessionState target
     /\ Forall (fun v => ~ holding v) us)
  \/ (T' = T /\ r <> Ok tt).
Proof.
  intros [Hk Hc _] [i Hi] Hclock Hexp E. cbn [fst snd] in *. unfold try_lock_session in E.
  destruct (decide (s_state s <> _)) as [Hs|Hs]; [injection E as <- <- <-; by right|].
  apply dec_stable in Hs. pose proof (Forall_lookup_1 _ _ _ _ Hc Hi) as [Hks Hcopy].
  destruct (update_session_cases now (with_state target s) T T' s' r) as
    [(o & Ho & Hl & -> & -> & Hn & Hkn)|(-> & ? & _)]; [done|done| |by right].
  left. exists o. split; [done|]. split; [done|]. split; [done|].
  split; [by apply Hclock|]. split; [done|]. split; [done|].
  apply Forall_lookup. intros j [|?|s2] Hj Hh; try done. destruct (Hcopy o Ho) as [_ Hst].
  pose proof (Forall_lookup_1 _ _ _ _ Hc Hj) as (_ & Hw & Hrow). rewrite (Hrow o Ho) in *.
  simpl in Hl. rewrite Hst, Hw in Hs by done. by destruct expected.
Qed.

(** The handler that changed the row is the only one that can hold it. *)
Lemma inv_applied T us T' i u u' o n :
  session_inv (T, us) -> us !! i = Some u ->
  row T = Some o -> row T' = Some n -> row_key n = key -> s_last_access o < s_last_access n ->
  (forall j v, us !! j = Some v -> holding v -> j = i) ->
  u' = Idle \/ (u' = Holding n /\ s_state n = i8_of_SessionState Writing) ->
  session_inv (T', <[i := u']> us).
Proof.
  intros HI Hi Ho Hn Hk Hlt Hone Hu'. eapply inv_update; [done|done| | | |by intros _].
  - rewrite Hn. by intros ? [= <-].
  - intros j v Hj Hv. eapply copy_inv_later; [done..|]. intros Hh. by apply Hj, (Hone j v).
  - destruct Hu' as [->|[-> ?]]; [done|]. split; [done|]. split; [done|].
    rewrite Hn. by intros ? [= <-].
Qed.

Lemma lock_step_inv now s expected target T us i T' s' r u :
  session_inv (T, us) -> us !! i = Some (Loaded s) -> clock_ok now T -> expected <> Writing ->
  try_lock_session now s expected target T = (T', (s', r)) ->
  (r = Ok tt -> u = Idle \/ (u = Holding s' /\ target = Writing)) -> (r <> Ok tt -> u = Idle) ->
  session_inv (T', <[i := u]> us).
Proof.
  intros HI Hi Hcl Hexp E Hok Herr.
  destruct (lock_cases now s expected target T us T' s' r HI (ex_intro _ i Hi) Hcl Hexp E)
    as [(o & Ho & Hn & -> & Hlt & Hks & Hst & Hno)|[-> Hr]].
  - eapply inv_applied; [done..| |].
    + intros j v Hj Hv. by destruct (Forall_lookup_1 _ _ _ _ Hno Hj).
    + destruct (Hok eq_refl) as [->|[-> ->]]; [by left|by right].
  - rewrite (Herr Hr). eapply inv_update; [done|done|apply HI|by auto|done|done].
Qed.

(** A writer's update fails only if the row is gone. *)
Lemma holder_step_inv now s st T us i T' s' r u :
  session_inv (T, us) -> us !! i = Some (Holding s) -> clock_ok now T ->
  update_session now (with_state st s) T = (T', (s', r)) ->
  u = Idle \/ (u = Holding s' /\ st = Writing) ->
  session_inv (T', <[i := u]> us).
Proof.
  intros HI Hi Hcl E Hu. pose proof HI as [Hk Hc H1]. cbn [fst snd] in *.
  pose proof (Forall_lookup_1 _ _ _ _ Hc Hi) as (Hks & Hw & Hrow).
  assert (Hone : forall j v, us !! j = Some v -> holding v -> j = i).
  { intros j v Hj Hv. by apply (H1 j i v (Holding s)). }
  destruct (update_session_cases now (with_state st s) T T' s' r Hks E)
    as [(o & Ho & Hl & -> & -> & Hn & Hkn)|(-> & Hr & [t ->] & Hne)].
  - eapply inv_applied; [done|done|done|done|done|by apply Hcl|done|].
    destruct Hu as [->|[-> ->]]; [by left|by right].
  - eapply inv_update; [done|done|done|by auto| |done].
    destruct Hu as [->|[-> ->]]; [done|]. split; [done|]. split; [done|].
    intros o Ho. destruct (Hne o Ho). by rewrite (Hrow o).
Qed.

Lemma with_state_same s : s_state s = i8_of_SessionState Writing -> with_state Writing s = s.
Proof. destruct s. simpl. by intros ->. Qed.

Lemma session_step_inv st st' : session_inv st -> session_step st st' -> session_inv st'.
Proof.
  intros HI Hstep. pose proof HI as [Hk Hc H1].
  destruct Hstep as [T us i T' s Hi E|now T us i s T' s' r Hi Hcl E|now T us i s T' s' r Hi Hcl E
    |now T us i s T' s' r Hi Hcl E|now T us i s T' s' r Hi Hcl E|T us i s T' r Hi E|T us i u Hi
    |T us|T us T' Hr]; cbn [fst snd] in *.
  - unfold get_session, on_err, get_upload_session, find_row, mbind, effect_bind in E.
    simpl in E. destruct (sessions_table T !! key) as [o|] eqn:Ho; [|done]. injection E as <- <-.
    eapply inv_update; [done|done|by rewrite Ho|by auto| |done]. split; [by apply Hk|].
    intros r. rewrite Ho. by intros [= <-].
  - eapply (lock_step_inv now s AwaitingData Writing); [done..|exact E|intros ->; by right|]. by destruct r as [[]|].
  - eapply (lock_step_inv now s TimedOut AwaitingData); [done..|exact E|by left|done].
  - pose proof (Forall_lookup_1 _ _ _ _ Hc Hi) as (_ & Hw & _).
    eapply holder_step_inv; [done..| |by right]. by rewrite with_state_same.
  - eapply holder_step_inv; [done..|exact E|by left].
  - assert (Hnone : row T' = None).
    { destruct (run_end_session (D := Tables) app_id bucket_id id T) as (T1 & E1 & HT1).
      rewrite E in E1. injection E1 as <- _. simpl in HT1. subst T'. apply lookup_delete_eq. }
    eapply inv_update; [done|done|by rewrite Hnone| |done|done].
    intros j v _ _. apply copy_inv_row. by right.
  - eapply inv_update; [done|done|done|by auto|done|done].
  - assert (Hnone : row (row_delete BucketUploadSession key T) = None) by apply lookup_delete_eq.
    split; cbn [fst snd]; [by rewrite Hnone| |done]. eapply Forall_impl; [exact Hc|].
    intros v. apply copy_inv_row. by right.
  - split; cbn [fst snd]; [by rewrite Hr| |done]. eapply Forall_impl; [exact Hc|].
    intros v. apply copy_inv_row. by left.
Qed.
End sessions.


(** ** Examples *)
Definition session9 : BucketUploadSession :=
  mkSession 1 7 9 3 (str "a.txt") 50 true [] 1000 (i8_of_SessionState AwaitingData).

Definition tables9 : Tables := row_insert session9 (mkTables ∅ ∅ ∅ ∅ ∅ ∅ ∅ ∅ ∅ ∅ ∅).

Definition writing9 (now : Z) : BucketUploadSession :=
  with_last_access now (with_state Writing session9).

Definition locked9 (now : Z) : Tables :=
  row_update (row_key session9) (fun _ => writing9 now) tables9.

Lemma load9 : get_session 1 7 9 tables9 = (tables9, Ok session9).
Proof. vm_compute. reflexivity. Qed.

Lemma lock9 now :
  try_lock_session now session9 AwaitingData Writing tables9
  = (locked9 now, (writing9 now, Ok tt)).
Proof. vm_compute. reflexivity. Qed.

(** Two handlers load the session; the first locks it at [now]. *)
Lemma first_locks advancing now :
  (advancing = true -> 1000 < now) ->
  rtc (session_step 1 7 9 advancing) (tables9, replicate 2 Idle)
    (locked9 now, [Holding (writing9 now); Loaded session9]).
Proof.
  intros Hnow. eapply rtc_l; [exact (s_load _ _ _ _ _ [Idle; Idle] 0 _ _ eq_refl load9)|].
  eapply rtc_l; [exact (s_load _ _ _ _ _ [Loaded session9; Idle] 1 _ _ eq_refl load9)|].
  eapply rtc_l; [|apply rtc_refl].
  refine (s_lock _ _ _ _ now tables9 [Loaded session9; Loaded session9] 0 session9 _ _ _
            eq_refl _ (lock9 now)).
  intros Ha r Hr. vm_compute in Hr. injection Hr as <-. by apply Hnow.
Qed.


(** The clock matters.  Timestamps have a precision of a millisecond; when the first
    writer locks a session in the same millisecond in which the session was last written, the
    update of a second handler that had loaded it meets the same last access, and both write. *)
Theorem session_exclusive_needs_clock :
  exists T, rtc (session_step 1 7 9 false) (tables9, replicate 2 Idle)
    (T, [Holding (writing9 1000); Holding (writing9 1000)]).
Proof.
  exists (locked9 1000).
  eapply rtc_r; [by apply (first_locks false 1000)|].
  assert (E : try_lock_session 1000 session9 AwaitingData Writing (locked9 1000)
            = (locked9 1000, (writing9 1000, Ok tt))) by (vm_compute; reflexivity).
  refine (s_lock _ _ _ _ 1000 _ [Holding (writing9 1000); Loaded session9] 1 session9 _ _ _
            eq_refl _ E); done.
Qed.

Lemma reserved_space_spec_witness :
  exists d', get_reserved_space 2000 1 7 tables9 = (d', Ok 50).
Proof.
  destruct (reserved_space_spec 2000 1 7 tables9) as (d' & l & E & _).
  - intros k s Hk. unfold tables9, row_insert in Hk. simpl in Hk.
    apply lookup_insert_Some in Hk as [[<- <-]|[_ Hk]]; [done|]. by rewrite lookup_empty in Hk.
  - assert (E50 : snd (get_reserved_space 2000 1 7 tables9) = Ok 50) by (vm_compute; reflexivity).
    exists d'. rewrite E in E50 |- *. cbn [snd] in E50. by rewrite E50.
Defined.
