(* ===== verification/Directories.v ===== *)
(** * Directories

    [try_mkdir] of [node/src/public/service/file_access_service.rs] and
    [node/src/public/service/directory_action_service.rs]: creating, deleting and renaming
    directories, on the records of the database.

    A directory is a row with the path of its parent and its name; files refer to it by its
    id.  [dir_tree] is the invariant: rows are stored under their own key, paths consist of
    plain names, and the parent of every directory exists. *)
From Stdlib Require Import ZArith Lia List Ascii.
From stdpp Require Import base numbers list strings gmap.
From S2P Require Import Prelude Errors Paths Permissions Placement Database.
Local Open Scope Z_scope.

(** The path cached by the extractor. *)
Definition EntryPath_path (e : EntryPath) : Text := default [] (ep_cached_path e).
Definition Rename_path (r : RenameEntityRequest) : Text := default [] (rn_cached_path r).

Record DeleteDirectoryRequest : Type := mkDeleteDirectory { recursive : bool }.

Section services.
  Context {D : Type} `{Database D}.
  (** The ids and the readings of the clock of one call, in order. *)
  Variable new_v4 : nat -> Uuid.
  Variable clock : nat -> Z.

(** The loop over the missing parents.  [None] stands for running out of fuel and for
    unwrapping a parent that is not there; [missing_parents_total] shows that neither happens. *)
Fixpoint missing_parents (fuel : nat) (bucket_id : Uuid) (current_parent : option Text) (d : D)
    : option (D * list (option Text * Text)) :=
  match fuel with
  | O => None
  | S fuel =>
      match get_directory bucket_id current_parent d with
      | (d, Ok _) => Some (d, [])
      | (d, Err _) =>
          parent ← current_parent;
          let current_parent_path := split_path parent in
          '(d, directories_to_create) ← missing_parents fuel bucket_id current_parent_path.1 d;
          Some (d, current_parent_path :: directories_to_create)
      end
  end.

Definition new_directory (bucket_id : Uuid) (i : nat) (directory : option Text * Text) : Directory :=
  mkDirectory bucket_id (default [] directory.1) directory.2 (new_v4 i) (clock (2 * i)) (clock (2 * i + 1)).

(** The last directory created is the result. *)
Fixpoint create_directories (bucket_id : Uuid) (i : nat) (directories : list (option Text * Text))
    (directory : option Text * Text) : effect D NodeClientError Directory :=
  match directories with
  | [] =>
      let new_dir := new_directory bucket_id i directory in
      on_err client_of_data (insert_directory new_dir);; mret new_dir
  | next :: directories =>
      on_err client_of_data (insert_directory (new_directory bucket_id i next));;
      create_directories bucket_id (S i) directories directory
  end.

Definition try_mkdir (bucket_id : Uuid) (path : Text) : effect D NodeClientError (option Directory) :=
  fun d =>
  if decide (path = []) then (d, Ok None)
  else
    let '(parent_path, dir_name) := split_path path in
    match get_directory bucket_id (Some path) d with
    | (d, Ok existing_dir) => (d, Ok existing_dir)
    | (d, Err _) =>
        match missing_parents (S (length path)) bucket_id parent_path d with
        | Some (d, directories_to_create) =>
            (dir ← create_directories bucket_id 0 directories_to_create (parent_path, dir_name);
             mret (Some dir)) d
        | None => (d, Err NcInternalError)
        end
    end.

Definition do_create_directory (path : EntryPath) (acc : BucketAccessor)
    : effect D NodeClientError unit :=
  of_result (has_permission acc (ep_app_id path) (ep_bucket_id path) CREATE_DIRECTORY_ALLOWANCE);;
  try_mkdir (ep_bucket_id path) (EntryPath_path path);; mret tt.

Definition dir_empty (directory : Directory) (check_dir : bool) : effect D NodeClientError unit :=
  child ← (if check_dir
           then on_err client_of_data
                  (maybe_get_first_child_from_directory (d_bucket_id directory)
                     (Some (Directory_full_path directory)))
           else mret None);
  match child with
  | Some _ => throw NcNotEmpty
  | None =>
      file ← on_err client_of_data
        (maybe_get_first_file_from_directory (d_bucket_id directory) (Some (d_id directory)));
      match file with Some _ => throw NcNotEmpty | None => mret tt end
  end.

(** [unwrap] of a directory that is not the root. *)
Definition get_existing (bucket_id : Uuid) (path : Text) : effect D NodeClientError Directory :=
  o ← on_err client_of_data (get_directory bucket_id (Some path));
  of_result (ok_or o NcInternalError).

(** The iterator collected into a vector, up to its first error; [None] when the fuel for the
    directories it visits is used up. *)
Definition collect_children (fuel : nat) (directory : Directory) (d : D)
    : option (D * NodeClientResponse (list Directory)) :=
  '(d, r) ← directory_iterator fuel [directory] d; Some (d, map_err client_of_data r).

Definition delete_children (directory : Directory) (children : list Directory)
    : effect D NodeClientError unit :=
  for_each (fun dir =>
    dir_empty directory false;;
    on_err client_of_data (delete_directory dir)) children.

Definition do_delete_directory (fuel : nat) (e_path : EntryPath) (req : DeleteDirectoryRequest)
    (acc : BucketAccessor) (d : D) : option (D * NodeClientResponse unit) :=
  let path := EntryPath_path e_path in
  match (of_result (has_permission acc (ep_app_id e_path) (ep_bucket_id e_path) DELETE_ALLOWANCE);;
         if decide (path = []) then throw NcBadRequest
         else get_existing (ep_bucket_id e_path) path) d with
  | (d, Err e) => Some (d, Err e)
  | (d, Ok directory) =>
      if recursive req then
        '(d, children) ← collect_children fuel directory d;
        Some ((children ← of_result children;
               delete_children directory children;;
               on_err client_of_data (delete_directory directory)) d)
      else
        Some ((dir_empty directory true;;
               on_err client_of_data (delete_directory directory)) d)
  end.

(** [old_parent_path[old_parent_path.len()..]] *)
Definition suffix_from (n : nat) (p : Text) : Text := drop n p.

Definition rename_children (new_parent_path old_parent_path : Text) (to_rename : list Directory)
    : effect D NodeClientError unit :=
  for_each (fun dir =>
    let new_local_parent_path :=
      normalize (new_parent_path ++ SLASH :: suffix_from (length old_parent_path) old_parent_path) in
    on_err client_of_data
      (update_directory_path dir (Some new_local_parent_path) (d_name dir));; mret tt) to_rename.

Definition do_rename_directory (fuel : nat) (e_path : EntryPath) (req : RenameEntityRequest)
    (acc : BucketAccessor) (d : D) : option (D * NodeClientResponse unit) :=
  let path := EntryPath_path e_path in
  let bucket_id := ep_bucket_id e_path in
  match has_permission acc (ep_app_id e_path) bucket_id RENAME_DIRECTORY_ALLOWANCE with
  | Err e => Some (d, Err e)
  | Ok _ =>
      if decide (path = Rename_path req) then Some (d, Ok tt)
      else if decide (path = [] \/ Rename_path req = []) then Some (d, Err NcBadRequest)
      else
        let '(new_parent, new_name) := split_path (Rename_path req) in
        match (original_directory ← get_existing bucket_id path;
               target ← attempt (get_directory bucket_id (Some (Rename_path req)));
               (if is_ok target then throw NcEntityExists else mret tt);;
               new_parent ← try_mkdir bucket_id (default [] new_parent);
               mret (original_directory, new_parent)) d with
        | (d, Err e) => Some (d, Err e)
        | (d, Ok (original_directory, new_parent)) =>
            '(d, to_rename) ← collect_children fuel original_directory d;
            Some ((to_rename ← of_result to_rename;
                   let old_parent_path := Directory_full_path original_directory in
                   let new_parent_path :=
                     join_parent_name (default [] (Directory_full_path <$> new_parent)) new_name in
                   rename_children new_parent_path old_parent_path to_rename;;
                   on_err client_of_data
                     (update_directory_path original_directory
                        (Directory_full_path <$> new_parent) new_name);; mret tt) d)
        end
  end.
End services.

(** ** Termination *)
(** Creating directories ends.  Whatever the database answers, and for every path, the loop
    over the missing parents of [try_mkdir] ends, and it never unwraps a parent that is not
    there: each parent is shorter than the path before it. *)
Theorem missing_parents_total {D} `{Database D} path bucket_id (d : D) :
  is_Some (missing_parents (S (length path)) bucket_id (split_path path).1 d).
Proof.
  assert (Hall : forall fuel parent (d : D),
    match parent with None => (1 <= fuel)%nat | Some q => (length q + 2 <= fuel)%nat end ->
    is_Some (missing_parents fuel bucket_id parent d)).
  { clear d. induction fuel as [|fuel IH]; intros parent d Hf; [destruct parent; lia|].
    cbn [missing_parents]. destruct parent as [q|]; [|by eexists].
    destruct (get_directory bucket_id (Some q) d) as [d1 [o|e]]; [by eexists|].
    cbn. destruct (IH (split_path q).1 d1) as [[d2 l] ->]; [|by eexists].
    destruct (split_path q).1 as [q'|] eqn:Eq; [|lia]. apply split_parent_shorter in Eq. lia. }
  apply Hall. destruct (split_path path).1 as [q|] eqn:Eq; [|lia].
  apply split_parent_shorter in Eq. lia.
Qed.

(** ** The tree of directories *)
Definition dir_exists (T : Tables) (b : Uuid) (l : list Text) : Prop :=
  l = [] \/ exists p x, l = p ++ [x] /\ is_Some (directories_table T !! (b, join p, x)).

Definition dir_tree (T : Tables) : Prop := forall b p x r,
  directories_table T !! (b, p, x) = Some r ->
  row_key r = (b, p, x) /\ exists l, p = join l /\ Forall plain (l ++ [x]) /\ dir_exists T b l.

(** Nothing but the directories changed. *)
Definition directories_only (T T' : Tables) : Prop :=
  T' = set_table (R := Directory) (directories_table T') T.

Definition parent_of (l : list Text) : option Text := match l with [] => None | _ => Some (join l) end.

Lemma directories_only_refl T : directories_only T T.
Proof. by destruct T. Qed.

Lemma directories_only_trans T1 T2 T3 :
  directories_only T1 T2 -> directories_only T2 T3 -> directories_only T1 T3.
Proof. unfold directories_only. intros -> ->. done. Qed.

Lemma insert_directories_only (r : Directory) T : directories_only T (row_insert r T).
Proof. done. Qed.

Lemma default_parent_of l : default [] (parent_of l) = join l.
Proof. by destruct l. Qed.

Lemma plain_snoc l x : Forall plain (l ++ [x]) -> Forall plain l /\ plain x.
Proof. rewrite Forall_app, Forall_singleton. done. Qed.

Lemma split_path_of l x : Forall plain (l ++ [x]) -> split_path (join (l ++ [x])) = (parent_of l, x).
Proof. intros [Hl Hx]%plain_snoc. rewrite split_path_join by done. by destruct l. Qed.

Lemma full_path_of b l x i c m :
  Forall plain l -> Directory_full_path (mkDirectory b (join l) x i c m) = join (l ++ [x]).
Proof.
  intros Hl. unfold Directory_full_path, join_parent_name. cbn.
  destruct l as [|y l]; [done|]. rewrite join_snoc by done.
  destruct (join (y :: l)) eqn:E; [|done]. by apply normalize_nil in E; [|apply plain_clean|].
Qed.

Lemma join_inj l m : Forall plain l -> Forall plain m -> join l = join m -> l = m.
Proof.
  intros Hl Hm E. rewrite <- (names_join l), <- (names_join m) by by apply plain_clean. by rewrite E.
Qed.

(** Everything above an existing directory exists. *)
Lemma tree_prefix T b l p y :
  dir_tree T -> Forall plain l -> dir_exists T b l -> (p ++ [y]) `prefix_of` l ->
  is_Some (directories_table T !! (b, join p, y)).
Proof.
  intros Ht. induction l as [|x l IH] using rev_ind; intros Hl Hex Hp.
  { apply prefix_nil_inv in Hp. by destruct p. }
  destruct Hex as [?|(p' & x' & [<- <-]%app_inj_tail & [r Hr])]; [by destruct l|].
  apply prefix_snoc_inv in Hp as [[-> ->]%app_inj_tail|Hp]; [by eexists|].
  destruct (Ht _ _ _ _ Hr) as (_ & l' & El & Hl' & Hex).
  apply plain_snoc in Hl as [Hl _]. apply plain_snoc in Hl' as [Hl' _].
  apply join_inj in El as <-; [|done..]. by apply IH.
Qed.

Definition entry_key (b : Uuid) (e : option Text * Text) : Uuid * Text * Text :=
  (b, default [] e.1, e.2).

Lemma entry_key_of b p x : entry_key b (parent_of p, x) = (b, join p, x).
Proof. unfold entry_key. cbn. by rewrite default_parent_of. Qed.

(** The tables after the missing parts of a path were inserted. *)
Lemma mkdir_tree b l x T T' dirs :
  Forall plain (l ++ [x]) -> dir_tree T -> directories_only T T' ->
  (forall e, e ∈ dirs ++ [(parent_of l, x)] <-> exists p y, e = (parent_of p, y)
     /\ (p ++ [y]) `prefix_of` (l ++ [x]) /\ directories_table T !! (b, join p, y) = None) ->
  (forall k, (forall q, q ∈ dirs ++ [(parent_of l, x)] -> k <> entry_key b q) ->
     directories_table T' !! k = directories_table T !! k) ->
  (forall q, q ∈ dirs ++ [(parent_of l, x)] -> exists r,
     directories_table T' !! entry_key b q = Some r /\ row_key r = entry_key b q) ->
  dir_tree T'
  /\ (forall k r, directories_table T !! k = Some r -> directories_table T' !! k = Some r)
  /\ (forall k r, directories_table T' !! k = Some r -> directories_table T !! k = Some r
        \/ exists p y, k = (b, join p, y) /\ (p ++ [y]) `prefix_of` (l ++ [x]))
  /\ directories_only T T'.
Proof.
  intros Hl Ht Honly Hdirs Hother Hnew.
  assert (Hkeep : forall k r, directories_table T !! k = Some r -> directories_table T' !! k = Some r).
  { intros k r Hk. rewrite Hother; [done|]. intros q (p & y & -> & _ & Hnone)%Hdirs ->.
    rewrite entry_key_of in Hk. congruence. }
  assert (Hcase : forall k r, directories_table T' !! k = Some r ->
            directories_table T !! k = Some r
            \/ exists p y, k = (b, join p, y) /\ (p ++ [y]) `prefix_of` (l ++ [x]) /\ row_key r = k).
  { intros k r Hk.
    destruct (decide (k ∈ entry_key b <$> (dirs ++ [(parent_of l, x)]))) as [Hd|Hd].
    - right. apply list_elem_of_fmap in Hd as (q & -> & Hq).
      destruct (Hnew q Hq) as (r' & Hr' & Hkey). rewrite Hk in Hr'. injection Hr' as <-.
      apply Hdirs in Hq as (p & y & -> & Hp & _). rewrite entry_key_of in *. eauto.
    - left. rewrite <- Hother; [done|]. intros q Hq ->. apply Hd. by apply list_elem_of_fmap_2. }
  assert (Hex : forall c m, dir_exists T c m -> dir_exists T' c m).
  { intros c m [->|(p & y & -> & [r Hr])]; [by left|]. right. eauto 10. }
  split; [|split; [done|split; [|done]]].
  - intros c p y r Hr. destruct (Hcase _ _ Hr) as [Hold|(p' & y' & E & Hp & Hkey)].
    + destruct (Ht _ _ _ _ Hold) as (? & m & -> & ? & ?). eauto 10.
    + injection E as -> -> ->. split; [done|]. exists p'. split; [done|].
      assert (Hpl : Forall plain (p' ++ [y'])) by (destruct Hp as [m E]; rewrite E in Hl; by apply Forall_app in Hl as [? _]).
      split; [done|]. destruct p' as [|z p' _] using rev_ind; [by left|]. right. exists p', z.
      split; [done|].
      assert (Hz : (p' ++ [z]) `prefix_of` (l ++ [x])) by (by eapply prefix_app_l).
      destruct (directories_table T !! (b, join p', z)) as [o|] eqn:Eo; [eauto|].
      destruct (Hnew (parent_of p', z)) as (o & Ho & _); [apply Hdirs; eauto|].
      rewrite entry_key_of in Ho. eauto.
  - intros k r Hr. destruct (Hcase _ _ Hr) as [?|(p & y & ? & ? & _)]; eauto.
Qed.

Section tree.
  Context {D : Type} `{ReliableDatabase D}.
  Implicit Types d : D.

Lemma run_get_directory b l x d :
  Forall plain (l ++ [x]) ->
  exists d', get_directory b (Some (join (l ++ [x]))) d
      = (d', match directories_table (tables d) !! (b, join l, x) with
             | Some r => Ok (Some r) | None => Err DataNotFound end)
    /\ tables d' = tables d.
Proof.
  intros Hl. unfold get_directory, mbind, effect_bind. rewrite split_path_of by done.
  cbn [fst snd]. rewrite default_parent_of.
  destruct (run_find_row (R := Directory) (b, join l, x) d) as (d' & -> & Hd).
  exists d'. split; [|done]. cbn [table Directory_row].
  by destruct (directories_table (tables d) !! (b, join l, x)).
Qed.

(** The parents found missing are the prefixes of the path that do not exist. *)
Lemma run_missing_parents b l : forall fuel d,
  Forall plain l -> (length l < fuel)%nat -> dir_tree (tables d) ->
  exists d' dirs, missing_parents fuel b (parent_of l) d = Some (d', dirs)
    /\ tables d' = tables d
    /\ forall e, e ∈ dirs <-> exists p x, e = (parent_of p, x) /\ (p ++ [x]) `prefix_of` l
                   /\ directories_table (tables d) !! (b, join p, x) = None.
Proof.
  induction l as [|x l IH] using rev_ind; intros fuel d Hl Hf Ht; (destruct fuel as [|fuel]; [lia|]);
    cbn [missing_parents].
  - exists d, []. split; [done|]. split; [done|]. intros e. split; [by intros ?%elem_of_nil|].
    intros (p & x & _ & Hp%prefix_nil_inv & _). by destruct p.
  - replace (parent_of (l ++ [x])) with (Some (join (l ++ [x]))) by (by destruct l).
    destruct (run_get_directory b l x d Hl) as (d1 & -> & Hd1).
    rewrite length_app in Hf. cbn [length] in Hf.
    destruct (directories_table (tables d) !! (b, join l, x)) as [r|] eqn:Er.
    + exists d1, []. split; [done|]. split; [done|]. intros e. split; [by intros ?%elem_of_nil|].
      intros (p & y & _ & Hp & Hnone). exfalso.
      eapply (tree_prefix _ b (l ++ [x])) in Hp as [? Hp]; [by rewrite Hp in Hnone|done..|].
      right. eauto.
    + cbn. rewrite split_path_of by done. cbn [fst].
      destruct (IH fuel d1) as (d2 & dirs & -> & Hd2 & Hin); [by apply plain_snoc in Hl as [? _]|lia|by rewrite Hd1|].
      exists d2, ((parent_of l, x) :: dirs). split; [done|]. split; [congruence|]. intros e.
      rewrite elem_of_cons, Hin, Hd1. split.
      * intros [->|(p & y & -> & Hp & Hn)]; [by exists l, x|]. exists p, y. split; [done|].
        split; [|done]. by apply prefix_app_r.
      * intros (p & y & -> & Hp & Hn). apply prefix_snoc_inv in Hp as [[-> ->]%app_inj_tail|Hp]; [by left|].
        right. eauto.
Qed.

  Variable new_v4 : nat -> Uuid.
  Variable clock : nat -> Z.

(** The loop of inserts: the rows of other keys stay, those of the given keys are new. *)
Lemma run_create b dirs e : forall i d, exists d' new,
  create_directories new_v4 clock b i dirs e d = (d', Ok new)
  /\ directories_only (tables d) (tables d')
  /\ directories_table (tables d') !! entry_key b e = Some new
  /\ (exists j, d_id new = new_v4 j)
  /\ (forall k, (forall q, q ∈ dirs ++ [e] -> k <> entry_key b q) ->
       directories_table (tables d') !! k = directories_table (tables d) !! k)
  /\ (forall q, q ∈ dirs ++ [e] -> exists r,
       directories_table (tables d') !! entry_key b q = Some r /\ row_key r = entry_key b q).
Proof.
  assert (Hins : forall n (d : D), exists d',
    on_err client_of_data (insert_directory n) d = (d', Ok tt) /\ tables d' = row_insert n (tables d)).
  { intros n d. unfold on_err. destruct (run_insert_row n d) as (d' & E & Ht).
    unfold insert_directory. rewrite E. by exists d'. }
  induction dirs as [|q dirs IH]; intros i d; cbn [create_directories]; unfold mbind, effect_bind.
  - destruct (Hins (new_directory new_v4 clock b i e) d) as (d1 & -> & Hd1).
    exists d1, (new_directory new_v4 clock b i e). rewrite Hd1.
    split; [done|]. split; [apply insert_directories_only|].
    assert (Hnew : directories_table (row_insert (new_directory new_v4 clock b i e) (tables d))
                   !! entry_key b e = Some (new_directory new_v4 clock b i e)) by apply lookup_insert_eq.
    split; [done|]. split; [by eexists|]. split.
    + intros k Hk. apply lookup_insert_ne. intros <-. by eapply Hk; [left|].
    + intros q ->%list_elem_of_singleton. by eexists.
  - destruct (Hins (new_directory new_v4 clock b i q) d) as (d1 & -> & Hd1).
    destruct (IH (S i) d1) as (d2 & new & -> & Hd2 & Hn & Hid & Hother & Hin).
    exists d2, new. split; [done|]. split.
    { eapply directories_only_trans; [|exact Hd2]. rewrite Hd1. apply insert_directories_only. }
    split; [done|]. split; [done|]. split.
    + intros k Hk. rewrite Hother by (intros q' Hq'; apply Hk; by right). rewrite Hd1.
      apply lookup_insert_ne. intros <-. by eapply Hk; [left|].
    + intros q' [->|Hq']%elem_of_cons; [|by apply Hin].
      destruct (decide (entry_key b q ∈ entry_key b <$> (dirs ++ [e]))) as [Hd|Hd].
      * apply list_elem_of_fmap in Hd as (q' & -> & Hq'). by apply Hin.
      * exists (new_directory new_v4 clock b i q). split; [|done]. rewrite Hother, Hd1; [apply lookup_insert_eq|].
        intros q' Hq' E. apply Hd. rewrite E. by apply list_elem_of_fmap_2.
Qed.

Lemma run_try_mkdir b l x d :
  Forall plain (l ++ [x]) -> dir_tree (tables d) ->
  exists d' dir, try_mkdir new_v4 clock b (join (l ++ [x])) d = (d', Ok (Some dir))
    /\ directories_table (tables d') !! (b, join l, x) = Some dir
    /\ (directories_table (tables d) !! (b, join l, x) = Some dir \/ exists j, d_id dir = new_v4 j)
    /\ dir_tree (tables d')
    /\ (forall k r, directories_table (tables d) !! k = Some r -> directories_table (tables d') !! k = Some r)
    /\ (forall k r, directories_table (tables d') !! k = Some r ->
          directories_table (tables d) !! k = Some r
          \/ exists p y, k = (b, join p, y) /\ (p ++ [y]) `prefix_of` (l ++ [x]))
    /\ directories_only (tables d) (tables d').
Proof.
  intros Hl Ht. unfold try_mkdir. rewrite decide_False.
  2: { apply normalize_nil; [by apply plain_clean|by destruct l]. }
  rewrite split_path_of by done. destruct (run_get_directory b l x d Hl) as (d1 & -> & Hd1).
  destruct (directories_table (tables d) !! (b, join l, x)) as [r|] eqn:Er.
  { exists d1, r. rewrite Hd1. eauto 10 using directories_only_refl. }
  pose proof (plain_snoc _ _ Hl) as [Hpl _].
  destruct (run_missing_parents b l (S (length (join (l ++ [x])))) d1) as (d2 & dirs & -> & Hd2 & Hin);
    [done| |by rewrite Hd1|].
  { pose proof (join_length (l ++ [x]) (plain_clean _ Hl)) as Hj. rewrite length_app in Hj. simpl in Hj. lia. }
  unfold mbind, effect_bind.
  destruct (run_create b dirs (parent_of l, x) 0 d2) as (d3 & new & -> & Hd3 & Hn & Hid & Hother & Hnew).
  rewrite entry_key_of in Hn.
  exists d3, new. split; [done|]. split; [done|]. split; [by right|].
  assert (Hdirs : forall e, e ∈ dirs ++ [(parent_of l, x)] <-> exists p y, e = (parent_of p, y)
            /\ (p ++ [y]) `prefix_of` (l ++ [x])
            /\ directories_table (tables d) !! (b, join p, y) = None).
  { intros e. rewrite elem_of_app, list_elem_of_singleton, Hin, Hd1. split.
    - intros [(p & y & -> & Hp & Hnone)| -> ]; [|by exists l, x]. exists p, y. split; [done|].
      split; [by apply prefix_app_r|done].
    - intros (p & y & -> & Hp & Hnone). apply prefix_snoc_inv in Hp as [[-> ->]%app_inj_tail|Hp]; [by right|].
      left. eauto. }
  apply (mkdir_tree b l x (tables d) (tables d3) dirs); try done.
  - congruence.
  - intros k Hk. by rewrite Hother, Hd2, Hd1.
Qed.

(** Creating a directory.  On a tree of directories, [try_mkdir] of a path of plain names
    returns the directory at that path, the one that was there or one with a new id, and it
    exists afterwards with all its parents; the result is a tree again.  No existing directory changes, the only new ones are the path and
    its parents, and no other table changes. *)
Theorem try_mkdir_spec b l x d :
  Forall plain (l ++ [x]) -> dir_tree (tables d) ->
  exists d' dir, try_mkdir new_v4 clock b (join (l ++ [x])) d = (d', Ok (Some dir))
    /\ directories_table (tables d') !! (b, join l, x) = Some dir
    /\ (directories_table (tables d) !! (b, join l, x) = Some dir \/ exists j, d_id dir = new_v4 j)
    /\ dir_tree (tables d')
    /\ (forall k r, directories_table (tables d) !! k = Some r -> directories_table (tables d') !! k = Some r)
    /\ (forall k r, directories_table (tables d') !! k = Some r ->
          directories_table (tables d) !! k = Some r
          \/ exists p y, k = (b, join p, y) /\ (p ++ [y]) `prefix_of` (l ++ [x]))
    /\ directories_only (tables d) (tables d').
Proof. apply run_try_mkdir. Qed.
End tree.

(** ** Descendants *)
Definition path_of (r : Directory) : list Text := names (Directory_full_path r).

Definition strict_prefix (p q : list Text) : Prop := p `prefix_of` q /\ p <> q.

Definition stored (T : Tables) (b : Uuid) (r : Directory) : Prop :=
  d_bucket_id r = b /\ directories_table T !! row_key r = Some r.

Lemma tree_row T k r :
  dir_tree T -> directories_table T !! k = Some r ->
  row_key r = k /\ exists l x, d_parent r = join l /\ d_name r = x /\ Forall plain (l ++ [x])
    /\ Directory_full_path r = join (l ++ [x]) /\ path_of r = l ++ [x].
Proof.
  intros Ht Hr. destruct k as [[b p] x]. destruct (Ht _ _ _ _ Hr) as (Hk & l & -> & Hl & _).
  split; [done|]. exists l, x. destruct r as [b' p' x' i c m]. injection Hk as -> -> ->.
  assert (E : Directory_full_path (mkDirectory b (join l) x i c m) = join (l ++ [x])).
  { apply full_path_of. by apply plain_snoc in Hl as [? _]. }
  unfold path_of. rewrite E, names_join by by apply plain_clean. done.
Qed.

Lemma stored_row T b r :
  dir_tree T -> stored T b r ->
  exists l x, row_key r = (b, join l, x) /\ Forall plain (l ++ [x])
    /\ Directory_full_path r = join (l ++ [x]) /\ path_of r = l ++ [x].
Proof.
  intros Ht [Hb Hr]. destruct (tree_row _ _ _ Ht Hr) as (_ & l & x & Hp & Hn & Hpl & Hf & Hpath).
  exists l, x. split; [|done]. cbn. by rewrite Hb, Hp, Hn.
Qed.

Lemma stored_inj T b r1 r2 :
  dir_tree T -> stored T b r1 -> stored T b r2 -> path_of r1 = path_of r2 -> r1 = r2.
Proof.
  intros Ht H1 H2 E. destruct (stored_row _ _ _ Ht H1) as (l1 & x1 & K1 & _ & _ & P1).
  destruct (stored_row _ _ _ Ht H2) as (l2 & x2 & K2 & _ & _ & P2).
  rewrite P1, P2 in E. apply app_inj_tail in E as [-> ->].
  destruct H1 as [_ H1], H2 as [_ H2]. rewrite K1 in H1. rewrite K2, H1 in H2. by injection H2.
Qed.

(** No directory of the queue is above another one. *)
Definition apart (Q : list Directory) : Prop := forall i j q r,
  Q !! i = Some q -> Q !! j = Some r -> path_of q `prefix_of` path_of r -> i = j.

Definition covered (Q : list Directory) (r : Directory) : Prop :=
  Exists (fun q => path_of q `prefix_of` path_of r) Q.

#[global] Instance covered_dec Q r : Decision (covered Q r).
Proof. unfold covered. apply _. Defined.

Definition below (T : Tables) (b : Uuid) (Q : list Directory) : gmap (Uuid * Text * Text) Directory :=
  filter (fun kr => d_bucket_id kr.2 = b /\ covered Q kr.2) (directories_table T).

Section queue.
  Variable T : Tables.
  Variable b : Uuid.
  Variable next : Directory.
  Variable Q subs : list Directory.
  Hypothesis Htree : dir_tree T.
  Hypothesis Hstored : Forall (stored T b) (next :: Q).
  Hypothesis Hapart : apart (next :: Q).
  Hypothesis Hsubs : forall r, r ∈ subs <-> stored T b r /\ exists x, path_of r = path_of next ++ [x].
  Hypothesis Hnodup : NoDup subs.

Lemma queue_apart q : q ∈ Q -> ~ path_of q `prefix_of` path_of next /\ ~ path_of next `prefix_of` path_of q.
Proof.
  intros [i Hi]%list_elem_of_lookup. split; intros Hp.
  - by specialize (Hapart (S i) 0%nat q next Hi eq_refl Hp).
  - by specialize (Hapart 0%nat (S i) next q eq_refl Hi Hp).
Qed.

Lemma step_stored : Forall (stored T b) (Q ++ subs).
Proof.
  apply Forall_app. split; [by apply Forall_cons in Hstored as [_ ?]|].
  apply Forall_forall. intros r Hr. by apply Hsubs in Hr as [? _].
Qed.

Lemma step_apart : apart (Q ++ subs).
Proof.
  assert (Hsub : forall j r, subs !! j = Some r -> exists x, path_of r = path_of next ++ [x]).
  { intros j r Hj. by apply Hsubs, (list_elem_of_lookup_2 _ j). }
  intros i j q r. rewrite !lookup_app_Some. intros [Hi|[Hi1 Hi]] [Hj|[Hj1 Hj]] Hp.
  - by specialize (Hapart (S i) (S j) q r Hi Hj Hp) as [= ?].
  - exfalso. destruct (Hsub _ _ Hj) as [x E]. rewrite E in Hp.
    destruct (queue_apart q) as [H1 H2]; [by apply (list_elem_of_lookup_2 _ i)|].
    apply prefix_snoc_inv in Hp as [E'|Hp]; [|done]. apply H2. rewrite E'. by apply prefix_app_r.
  - exfalso. destruct (Hsub _ _ Hi) as [x E]. rewrite E in Hp.
    destruct (queue_apart r) as [H1 H2]; [by apply (list_elem_of_lookup_2 _ j)|].
    apply H2. by eapply prefix_app_l.
  - destruct (Hsub _ _ Hi) as [x Ex], (Hsub _ _ Hj) as [y Ey]. rewrite Ex, Ey in Hp.
    apply prefix_app_inv, prefix_cons_inv_1 in Hp as ->.
    assert (E : q = r).
    { apply (stored_inj T b); [done|..|congruence];
        eapply Hsubs, list_elem_of_lookup_2; eassumption. }
    subst r. pose proof (NoDup_lookup _ _ _ _ Hnodup Hi Hj). lia.
Qed.

(** A directory strictly below [next] is a child of [next] or strictly below one. *)
Lemma strict_child r :
  stored T b r ->
  strict_prefix (path_of next) (path_of r) <->
  r ∈ subs \/ exists s, s ∈ subs /\ strict_prefix (path_of s) (path_of r).
Proof.
  intros Hr. split.
  - intros [[m E] Hne]. destruct m as [|x m]; [by rewrite app_nil_r in E|].
    destruct m as [|y m]; [left; apply Hsubs; eauto|]. right.
    destruct (stored_row _ _ _ Htree Hr) as (lr & xr & Kr & Hplain & _ & Pr).
    assert (Hpre : (path_of next ++ [x]) `prefix_of` (lr ++ [xr])).
    { rewrite <- Pr, E. exists (y :: m). by rewrite <- app_assoc. }
    destruct (tree_prefix T b (lr ++ [xr]) (path_of next) x) as [s Hs]; [done|done| |done|].
    { right. exists lr, xr. split; [done|]. destruct Hr as [_ Hr]. rewrite Kr in Hr. eauto. }
    destruct (tree_row _ _ _ Htree Hs) as (Ks & ls & xs & Hp & Hn & Hpls & _ & Ps).
    pose proof Ks as Ks'. cbn in Ks'. rewrite Hp, Hn in Ks'. injection Ks' as Hb El ->.
    apply join_inj in El as ->; [|by apply plain_snoc in Hpls as [? _]|].
    2: { destruct Hpre as [w Ew]. rewrite Ew in Hplain.
         apply Forall_app in Hplain as [Hplain _]. by apply plain_snoc in Hplain as [? _]. }
    exists s. split; [apply Hsubs; split; [|eauto]; split; [done|by rewrite Ks]|].
    rewrite Ps, E. split; [exists (y :: m); by rewrite <- app_assoc|].
    intros E'. apply (f_equal length) in E'. rewrite !length_app in E'. simpl in E'. lia.
  - intros [[_ [x ->]]%Hsubs|(s & [_ [x Es]]%Hsubs & Hp & Hne)].
    + split; [by apply prefix_app_r|]. intros E. apply (f_equal length) in E.
      rewrite length_app in E. simpl in E. lia.
    + rewrite Es in Hp. split; [by eapply prefix_app_l|]. intros E. rewrite <- E in Hp.
      by apply prefix_snoc_not in Hp.
Qed.

(** Visiting [next] leaves fewer directories to visit. *)
Lemma step_below : (size (below T b (Q ++ subs)) < size (below T b (next :: Q)))%nat.
Proof.
  pose proof Hstored as Hst. apply Forall_cons in Hst as [[Hnb Hnext] _].
  apply map_subset_size, map_subset_alt. split.
  - apply map_filter_subseteq_ext. intros k r Hr [Hb Hc]. split; [done|]. cbn in *.
    apply Exists_app in Hc as [Hc|Hc]; [by right|]. left. apply Exists_exists in Hc as (s & Hs & Hp).
    apply Hsubs in Hs as [_ [x E]]. rewrite E in Hp. by eapply prefix_app_l.
  - exists (row_key next). split.
    + apply map_lookup_filter_None. right. intros r. rewrite Hnext. intros [= <-] [_ Hc].
      apply Exists_exists in Hc as (s & Hs & Hp). apply elem_of_app in Hs as [Hs|Hs].
      * by apply (queue_apart s) in Hs as [? _].
      * apply Hsubs in Hs as [_ [x E]]. cbn in Hp. rewrite E in Hp. by apply prefix_snoc_not in Hp.
    + exists next. apply map_lookup_filter_Some. split; [done|]. split; [done|]. by left.
Qed.

(** What the visit of [next] adds to what the rest of the queue yields. *)
Lemma step_result l :
  NoDup l ->
  (forall r, r ∈ l <-> stored T b r /\ exists q, q ∈ Q ++ subs /\ strict_prefix (path_of q) (path_of r)) ->
  NoDup (subs ++ l)
  /\ forall r, r ∈ subs ++ l <-> stored T b r
       /\ exists q, q ∈ next :: Q /\ strict_prefix (path_of q) (path_of r).
Proof.
  intros Hndl Hl. split.
  - apply NoDup_app. split; [done|]. split; [|done]. intros r Hr Hr'.
    apply Hl in Hr' as (Hrs & q & Hq & Hp & Hne). pose proof Hr as [_ [x Ex]]%Hsubs.
    rewrite Ex in Hp, Hne. apply prefix_snoc_inv in Hp as [?|Hp]; [done|].
    apply elem_of_app in Hq as [Hq|Hq].
    + by apply queue_apart in Hq as [? _].
    + apply Hsubs in Hq as (_ & y & Ey). rewrite Ey in Hp. by apply prefix_snoc_not in Hp.
  - intros r. rewrite elem_of_app, Hl. split.
    + intros [Hr|(Hrs & q & [Hq|Hq]%elem_of_app & Hp)].
      * pose proof Hr as [Hrs _]%Hsubs. split; [done|]. exists next. split; [by left|].
        apply strict_child; auto.
      * split; [done|]. exists q. by split; [right|].
      * split; [done|]. exists next. split; [by left|]. apply strict_child; eauto.
    + intros (Hrs & q & [->|Hq]%elem_of_cons & Hp).
      * apply strict_child in Hp as [?|(s' & Hs' & ?)]; [by left| |done].
        right. split; [done|]. exists s'. rewrite elem_of_app. auto.
      * right. split; [done|]. exists q. rewrite elem_of_app. auto.
Qed.
End queue.

Section iterator.
  Context {D : Type} `{ReliableDatabase D}.
  Implicit Types d : D.

Lemma tree_keyed T k (r : Directory) : dir_tree T -> directories_table T !! k = Some r -> row_key r = k.
Proof. intros Ht Hr. by destruct (tree_row T k r Ht Hr). Qed.

Lemma run_get_sub_dirs b next d :
  dir_tree (tables d) -> stored (tables d) b next ->
  exists d' subs, get_sub_dirs b (Directory_full_path next) d = (d', Ok subs)
    /\ tables d' = tables d /\ NoDup subs
    /\ forall r, r ∈ subs <-> stored (tables d) b r /\ exists x, path_of r = path_of next ++ [x].
Proof.
  intros Ht Hn. unfold get_sub_dirs.
  edestruct (run_select (D := D) (R := Directory)) as (d' & l & -> & Hd & Hl).
  exists d', l. split; [done|]. split; [done|]. split.
  { rewrite Hl. apply NoDup_rows_where. intros k r Hr. by eapply tree_keyed. }
  destruct (stored_row _ _ _ Ht Hn) as (ln & xn & _ & Hpn & Fn & Pn).
  intros r. rewrite Hl, elem_of_rows_where, bool_decide_eq_true. split.
  - intros ((Hb & Hp) & k & Hk). cbn in Hk. pose proof (tree_keyed _ _ _ Ht Hk) as Hkey.
    split; [split; [done|by rewrite Hkey]|].
    destruct (tree_row _ _ _ Ht Hk) as (_ & l' & x & Hp' & _ & Hpl & _ & P).
    exists x. rewrite P, Pn. f_equal. apply join_inj; [by apply plain_snoc in Hpl as [? _]|done|congruence].
  - intros (Hr & x & Hx). destruct (stored_row _ _ _ Ht Hr) as (l' & x' & K & Hpl & _ & P).
    rewrite P in Hx. apply app_inj_tail in Hx as [-> ->]. destruct Hr as [Hb Hr].
    split; [|eauto]. split; [done|]. injection K as _ Kp _. by rewrite Kp, Pn, Fn.
Qed.

(** Every directory strictly below the queue is yielded, once. *)
Lemma run_iterator b : forall fuel Q d,
  dir_tree (tables d) -> Forall (stored (tables d) b) Q -> apart Q ->
  (size (below (tables d) b Q) <= fuel)%nat ->
  exists d' l, directory_iterator fuel Q d = Some (d', Ok l)
    /\ tables d' = tables d /\ NoDup l
    /\ forall r, r ∈ l <-> stored (tables d) b r
                        /\ exists q, q ∈ Q /\ strict_prefix (path_of q) (path_of r).
Proof.
  induction fuel as [|fuel IH]; intros [|next Q] d Ht Hst Hap Hf; cbn [directory_iterator].
  1, 3: exists d, []; split; [done|]; split; [done|]; split; [constructor|]; intros r;
    split; [by intros ?%elem_of_nil|by intros (_ & q & ?%elem_of_nil & _)].
  - exfalso. pose proof (Forall_inv Hst) as [Hb Hq].
    assert (Hin : below (tables d) b (next :: Q) !! row_key next = Some next).
    { apply map_lookup_filter_Some. split; [done|]. split; [done|]. by left. }
    assert (Hz : size (below (tables d) b (next :: Q)) = 0%nat) by lia.
    apply map_size_empty_inv in Hz. by rewrite Hz in Hin.
  - pose proof (Forall_inv Hst) as Hn. pose proof Hn as [-> _].
    destruct (run_get_sub_dirs _ next d Ht Hn) as (d1 & subs & -> & Hd1 & Hnd & Hsubs).
    destruct (IH (Q ++ subs) d1) as (d2 & l & -> & Hd2 & Hndl & Hl); rewrite ?Hd1.
    + done.
    + by eapply step_stored.
    + by eapply (step_apart (tables d)).
    + pose proof (step_below (tables d) b next Q subs Hst Hap Hsubs). lia.
    + rewrite Hd1 in *. exists d2, (subs ++ l). split; [done|]. split; [done|].
      by eapply step_result.
Qed.
End iterator.

(** ** Deleting *)
Definition has_files (T : Tables) (dir : Directory) : Prop :=
  exists k f, files_table T !! k = Some f /\ f_bucket_id f = d_bucket_id dir /\ f_directory f = d_id dir.

Definition has_children (T : Tables) (dir : Directory) : Prop :=
  exists r x, stored T (d_bucket_id dir) r /\ path_of r = path_of dir ++ [x].

(** What makes the service answer that a directory is not empty. *)
Definition blocked (recursive : bool) (T : Tables) (dir : Directory) : Prop :=
  if recursive then has_children T dir /\ has_files T dir
  else has_children T dir \/ has_files T dir.

(** The directory and what is below it. *)
Definition in_subtree (dir r : Directory) : Prop :=
  d_bucket_id r = d_bucket_id dir /\ path_of dir `prefix_of` path_of r.

#[global] Instance in_subtree_dec dir r : Decision (in_subtree dir r).
Proof. unfold in_subtree. apply _. Defined.

(** The tables without the subtree of a directory. *)
Definition without_subtree (dir : Directory) (T T' : Tables) : Prop :=
  directories_only T T'
  /\ forall k, directories_table T' !! k
       = match directories_table T !! k with
         | Some r => if decide (in_subtree dir r) then None else Some r
         | None => None
         end.

Lemma child_in_subtree dir T b p y z o r :
  dir_tree T -> Forall plain ((p ++ [y]) ++ [z]) ->
  directories_table T !! (b, join p, y) = Some o ->
  directories_table T !! (b, join (p ++ [y]), z) = Some r ->
  in_subtree dir o -> in_subtree dir r.
Proof.
  intros Ht Hpl Ho Hr [Hb Hp].
  destruct (tree_row _ _ _ Ht Hr) as (Kr & l1 & x1 & P1 & N1 & Pl1 & _ & Path1).
  destruct (tree_row _ _ _ Ht Ho) as (Ko & l2 & x2 & P2 & N2 & Pl2 & _ & Path2).
  cbn in Kr, Ko. rewrite P1, N1 in Kr. rewrite P2, N2 in Ko.
  injection Kr as Krb Kr ->. injection Ko as Kob Ko ->. split; [congruence|].
  apply plain_snoc in Hpl as [Hpl _]. apply plain_snoc in Pl1 as [Pl1 _].
  apply join_inj in Kr as ->; [|done..]. apply plain_snoc in Hpl as [Hpl _]. apply plain_snoc in Pl2 as [Pl2 _].
  apply join_inj in Ko as ->; [|done..]. rewrite Path1, <- Path2. by apply prefix_app_r.
Qed.

Lemma without_subtree_tree dir T T' :
  dir_tree T -> without_subtree dir T T' -> dir_tree T'.
Proof.
  intros Ht [_ HT'] b p x r. rewrite HT'.
  destruct (directories_table T !! (b, p, x)) as [r'|] eqn:Er; [|done].
  case_decide as Hs; [done|]. intros [= <-].
  destruct (Ht _ _ _ _ Er) as (Hk & l & -> & Hl & Hex). split; [done|]. exists l. split; [done|].
  split; [done|]. destruct Hex as [->|(p & y & -> & [o Ho])]; [by left|]. right. exists p, y.
  split; [done|]. rewrite HT', Ho. case_decide; [|by eexists]. exfalso. by eapply Hs, child_in_subtree.
Qed.

Section deleting.
  Context {D : Type} `{ReliableDatabase D}.
  Implicit Types d : D.

Lemma run_first_child dir d :
  dir_tree (tables d) -> stored (tables d) (d_bucket_id dir) dir ->
  exists d' o, maybe_get_first_child_from_directory (d_bucket_id dir) (Some (Directory_full_path dir)) d
      = (d', Ok o) /\ tables d' = tables d /\ (is_Some o <-> has_children (tables d) dir).
Proof.
  intros Ht Hdir. destruct (run_get_sub_dirs _ dir d Ht Hdir) as (d' & subs & E & Hd & _ & Hsubs).
  unfold get_sub_dirs in E. unfold maybe_get_first_child_from_directory, maybe_find_first, mbind, effect_bind.
  cbn [default from_option]. unfold default in *. cbn. rewrite E. eexists _, _. split; [done|].
  split; [done|]. unfold has_children. destruct subs as [|r subs]; cbn; split.
  - by intros [].
  - intros (r & x & Hr & Hx). assert (Hin : r ∈ []) by (apply Hsubs; eauto). by apply elem_of_nil in Hin.
  - intros _. destruct (Hsubs r) as [[Hr [x Hx]] _]; [by left|]. eauto.
  - eauto.
Qed.

Lemma run_first_file dir d :
  exists d' o, maybe_get_first_file_from_directory (d_bucket_id dir) (Some (d_id dir)) d = (d', Ok o)
    /\ tables d' = tables d /\ (is_Some o <-> has_files (tables d) dir).
Proof.
  unfold maybe_get_first_file_from_directory.
  edestruct (run_maybe_find_first (D := D) (R := File)) as (d' & o & -> & Hd & Ho).
  exists d', o. split; [done|]. split; [done|]. unfold has_files. destruct o as [f|]; split.
  - intros _. destruct Ho as [Hp [k Hk]]. apply bool_decide_eq_true in Hp as [? ?]. eauto 10.
  - eauto.
  - by intros [].
  - intros (k & f & Hk & Hb & Hf). specialize (Ho k f Hk). apply bool_decide_eq_false in Ho.
    destruct Ho. done.
Qed.

Lemma run_dir_empty dir (c : bool) d :
  (c = true -> dir_tree (tables d) /\ stored (tables d) (d_bucket_id dir) dir) ->
  exists d' r, dir_empty dir c d = (d', r) /\ tables d' = tables d
    /\ ((r = Ok tt /\ ~ has_files (tables d) dir /\ (c = true -> ~ has_children (tables d) dir))
        \/ (r = Err NcNotEmpty /\ (has_files (tables d) dir \/ (c = true /\ has_children (tables d) dir)))).
Proof.
  intros Ht. unfold dir_empty, mbind, effect_bind.
  assert (Hc : exists d' o, (if c then on_err client_of_data
      (maybe_get_first_child_from_directory (d_bucket_id dir) (Some (Directory_full_path dir)))
      else mret None) d = (d', Ok o) /\ tables d' = tables d
      /\ (is_Some o <-> c = true /\ has_children (tables d) dir)).
  { destruct c; [|exists d, None; split; [done|]; split; [done|]; split; [by intros []|by intros []]].
    unfold on_err. destruct (Ht eq_refl) as [Ht' Hdir].
    destruct (run_first_child dir d Ht' Hdir) as (d' & o & -> & Hd & Ho).
    exists d', o. split; [done|]. split; [done|]. rewrite Ho. tauto. }
  destruct Hc as (d1 & o & -> & Hd1 & Ho). destruct o as [r|].
  { exists d1, (Err NcNotEmpty). split; [done|]. split; [done|]. right. split; [done|]. right. by apply Ho. }
  assert (Hno : ~ (c = true /\ has_children (tables d) dir)) by (intros Hx; by apply Ho in Hx as []).
  unfold on_err. destruct (run_first_file dir d1) as (d2 & [f|] & -> & Hd2 & Hf).
  - exists d2, (Err NcNotEmpty). split; [done|]. split; [congruence|]. right. split; [done|]. left.
    rewrite <- Hd1. by apply Hf.
  - exists d2, (Ok tt). split; [done|]. split; [congruence|]. left. split; [done|].
    split; [|intros ->; by intros ?; apply Hno]. rewrite <- Hd1. intros Hx. by apply Hf in Hx as [].
Qed.

Lemma run_delete_directory dir d :
  exists d', on_err client_of_data (delete_directory dir) d = (d', Ok tt)
    /\ tables d' = row_delete Directory (row_key dir) (tables d).
Proof.
  unfold on_err, delete_directory. destruct (run_delete_row dir d) as (d' & -> & E). eauto.
Qed.

Lemma run_delete_loop dir children : forall d,
  ~ has_files (tables d) dir ->
  exists d', delete_children dir children d
      = (d', Ok tt)
    /\ directories_only (tables d) (tables d')
    /\ forall k, directories_table (tables d') !! k
         = if decide (k ∈ row_key <$> children) then None else directories_table (tables d) !! k.
Proof.
  unfold delete_children. induction children as [|c children IH]; intros d Hf; cbn [for_each].
  { exists d. split; [done|]. split; [apply directories_only_refl|]. intros k.
    rewrite decide_False; [done|]. by intros ?%elem_of_nil. }
  unfold mbind, effect_bind.
  destruct (run_dir_empty dir false d ltac:(done)) as (d1 & r & -> & Hd1 & [[-> _]|[_ [?|[? _]]]]); [|done..].
  destruct (run_delete_directory c d1) as (d2 & -> & Hd2). rewrite Hd1 in Hd2.
  destruct (IH d2) as (d3 & E3 & Ho3 & Hk3); [by rewrite Hd2|]. exists d3. split; [exact E3|].
  split; [eapply directories_only_trans; [|exact Ho3]; by rewrite Hd2|].
  intros k. rewrite Hk3, Hd2, fmap_cons. destruct (decide (k ∈ row_key <$> children)) as [Hin|Hin].
  - rewrite decide_True; [done|by right].
  - destruct (decide (k = row_key c)) as [->|Hne].
    + rewrite decide_True by by left. apply lookup_delete_eq.
    + rewrite decide_False; [by apply lookup_delete_ne|]. by intros [?|?]%elem_of_cons.
Qed.

(** The rows at the keys of a subtree, deleted one by one. *)
Lemma delete_keys_subtree dir T T' (ks : list (Uuid * Text * Text)) :
  dir_tree T -> directories_only T T' ->
  (forall r, stored T (d_bucket_id dir) r -> row_key r ∈ ks <-> in_subtree dir r) ->
  (forall k, k ∈ ks -> exists r, stored T (d_bucket_id dir) r /\ row_key r = k) ->
  (forall k, directories_table T' !! k = if decide (k ∈ ks) then None else directories_table T !! k) ->
  without_subtree dir T T'.
Proof.
  intros Ht Ho Hks Hall Hk. split; [done|]. intros k. rewrite Hk.
  destruct (directories_table T !! k) as [r|] eqn:Er; [|by case_decide].
  pose proof (tree_keyed _ _ _ Ht Er) as Hkey. destruct (decide (k ∈ ks)) as [Hin|Hin].
  - destruct (Hall k Hin) as (r' & Hr' & Hk'). pose proof Hr' as [_ Hl]. rewrite Hk', Er in Hl.
    injection Hl as <-. rewrite decide_True; [done|]. apply Hks; [done|]. by rewrite Hk'.
  - rewrite decide_False; [done|]. intros Hs. apply Hin. rewrite <- Hkey. apply Hks; [|done].
    split; [apply Hs|by rewrite Hkey].
Qed.

Lemma run_get_existing b l x d :
  Forall plain (l ++ [x]) ->
  exists d', get_existing b (join (l ++ [x])) d
      = (d', ok_or (directories_table (tables d) !! (b, join l, x)) NcNotFound)
    /\ tables d' = tables d.
Proof.
  intros Hl. unfold get_existing, mbind, effect_bind, on_err.
  destruct (run_get_directory b l x d Hl) as (d' & -> & Hd). exists d'. split; [|done].
  by destruct (directories_table (tables d) !! (b, join l, x)).
Qed.

Lemma stored_apart T b dir : stored T b dir -> apart [dir].
Proof. intros _ [|i] [|j] q r; try done. Qed.

Lemma run_collect_children fuel dir d :
  dir_tree (tables d) -> stored (tables d) (d_bucket_id dir) dir ->
  (size (below (tables d) (d_bucket_id dir) [dir]) <= fuel)%nat ->
  exists d' l, collect_children fuel dir d = Some (d', Ok l) /\ tables d' = tables d /\ NoDup l
    /\ forall r, r ∈ l <-> stored (tables d) (d_bucket_id dir) r
                        /\ strict_prefix (path_of dir) (path_of r).
Proof.
  intros Ht Hdir Hf. unfold collect_children.
  destruct (run_iterator (d_bucket_id dir) fuel [dir] d) as (d' & l & -> & Hd & Hnd & Hl);
    [done|by constructor|by eapply stored_apart|done|].
  exists d', l. split; [done|]. split; [done|]. split; [done|]. intros r. rewrite Hl. split.
  - by intros (? & q & ->%list_elem_of_singleton & ?).
  - intros []. split; [done|]. exists dir. split; [by left|done].
Qed.

Lemma subtree_cases dir r T :
  dir_tree T -> stored T (d_bucket_id dir) dir -> stored T (d_bucket_id dir) r ->
  in_subtree dir r <-> r = dir \/ strict_prefix (path_of dir) (path_of r).
Proof.
  intros Ht Hdir Hr. split.
  - intros [_ Hp]. destruct (decide (path_of dir = path_of r)) as [E|Hne]; [left|by right].
    by eapply stored_inj.
  - intros [->|[Hp _]]; (split; [apply Hr || apply Hdir|done]).
Qed.

Lemma strict_has_child T dir r :
  dir_tree T -> stored T (d_bucket_id dir) dir -> stored T (d_bucket_id dir) r ->
  strict_prefix (path_of dir) (path_of r) -> has_children T dir.
Proof.
  intros Ht Hdir Hr Hp.
  destruct (run_get_sub_dirs (D := Tables) (d_bucket_id dir) dir T) as (d' & subs & _ & _ & _ & Hsubs);
    [exact Ht|exact Hdir|].
  apply (strict_child T _ dir subs Ht Hsubs r Hr) in Hp
    as [[? [x ?]]%Hsubs|(s & [? [x ?]]%Hsubs & _)]; unfold has_children; eauto.
Qed.

Lemma children_iff T dir l :
  dir_tree T -> stored T (d_bucket_id dir) dir ->
  (forall r, r ∈ l <-> stored T (d_bucket_id dir) r /\ strict_prefix (path_of dir) (path_of r)) ->
  l <> [] <-> has_children T dir.
Proof.
  intros Ht Hdir Hl. split.
  - intros Hne. destruct l as [|r l]; [done|]. destruct (proj1 (Hl r)) as [Hr Hp]; [by left|].
    by eapply strict_has_child.
  - intros (r & x & Hr & Hx). assert (Hin : r ∈ l).
    { apply Hl. split; [done|]. rewrite Hx. split; [by apply prefix_app_r|]. intros E.
      apply (f_equal length) in E. rewrite length_app in E. simpl in E. lia. }
    intros ->. by apply elem_of_nil in Hin.
Qed.

(** Without children, a directory is its own subtree. *)
Lemma leaf_subtree T dir :
  dir_tree T -> stored T (d_bucket_id dir) dir -> ~ has_children T dir ->
  without_subtree dir T (row_delete Directory (row_key dir) T).
Proof.
  intros Ht Hdir Hno. apply (delete_keys_subtree _ _ _ [row_key dir]); [done|done|..].
  - intros r Hr. rewrite (subtree_cases dir r T), list_elem_of_singleton by done. split.
    + intros Hk. left. destruct Hr as [_ Hr], Hdir as [_ Hdir]. rewrite Hk, Hdir in Hr. by injection Hr.
    + intros [->|Hp]; [done|]. destruct Hno. by eapply strict_has_child.
  - intros k ->%list_elem_of_singleton. eauto.
  - intros k. destruct (decide (k = row_key dir)) as [->|Hne].
    + rewrite decide_True by by left. apply lookup_delete_eq.
    + rewrite decide_False by (by intros ?%list_elem_of_singleton). by apply lookup_delete_ne.
Qed.

(** The recursive branch, from the directory on. *)
Lemma run_delete_recursive dir l d :
  dir_tree (tables d) -> stored (tables d) (d_bucket_id dir) dir ->
  (forall r, r ∈ l <-> stored (tables d) (d_bucket_id dir) r /\ strict_prefix (path_of dir) (path_of r)) ->
  exists d' r, (delete_children dir l;;
                on_err client_of_data (delete_directory dir)) d = (d', r)
    /\ ((r = Err NcNotEmpty /\ tables d' = tables d /\ l <> [] /\ has_files (tables d) dir)
        \/ (r = Ok tt /\ without_subtree dir (tables d) (tables d') /\ (l = [] \/ ~ has_files (tables d) dir))).
Proof.
  intros Ht Hdir Hl. unfold mbind, effect_bind.
  assert (Hcase : (exists d', delete_children dir l d
              = (d', Err NcNotEmpty) /\ tables d' = tables d /\ l <> [] /\ has_files (tables d) dir)
    \/ (l = [] \/ ~ has_files (tables d) dir) /\ exists d', delete_children dir l d = (d', Ok tt)
        /\ directories_only (tables d) (tables d')
        /\ forall k, directories_table (tables d') !! k
             = if decide (k ∈ row_key <$> l) then None else directories_table (tables d) !! k).
  { destruct l as [|c l].
    - right. split; [by left|]. exists d. split; [done|]. split; [apply directories_only_refl|].
      intros k. rewrite decide_False; [done|]. by intros ?%elem_of_nil.
    - destruct (run_dir_empty dir false d ltac:(done)) as (d1 & r & E & Hd1 & [(-> & Hf & _)|[-> Hf]]).
      + right. split; [by right|]. by apply run_delete_loop.
      + left. unfold delete_children. cbn [for_each]. unfold mbind, effect_bind. rewrite E. exists d1. split; [done|].
        split; [done|]. split; [done|]. by destruct Hf as [?|[? _]]. }
  destruct Hcase as [(d1 & -> & ?)|(Hf & d1 & -> & Ho & Hk)]; [exists d1, (Err NcNotEmpty); auto|].
  destruct (run_delete_directory dir d1) as (d2 & -> & Hd2). exists d2, (Ok tt). split; [done|].
  right. split; [done|]. split; [|done].
  apply (delete_keys_subtree _ _ _ (row_key <$> dir :: l)).
  - done.
  - eapply directories_only_trans; [exact Ho|]. by rewrite Hd2.
  - intros r Hr. rewrite (subtree_cases dir r (tables d)) by done. rewrite list_elem_of_fmap. split.
    + intros (r' & Ek & [->|Hin]%elem_of_cons).
      * left. destruct Hr as [_ Hr], Hdir as [_ Hdir]. rewrite Ek, Hdir in Hr. by injection Hr.
      * right. apply Hl in Hin as [[_ Hr'] Hp]. destruct Hr as [_ Hr]. rewrite Ek, Hr' in Hr.
        by injection Hr as <-.
    + intros [->|Hp]; [exists dir; by split; [|left]|]. exists r. split; [done|]. right. by apply Hl.
  - intros k (r & -> & [->|Hin]%elem_of_cons)%list_elem_of_fmap; [by exists dir|].
    apply Hl in Hin as [? _]. eauto.
  - intros k. rewrite Hd2, fmap_cons. destruct (decide (k = row_key dir)) as [->|Hne].
    + rewrite decide_True by by left. apply lookup_delete_eq.
    + transitivity (directories_table (tables d1) !! k); [by apply lookup_delete_ne|]. rewrite Hk.
      destruct (decide (k ∈ row_key <$> l)) as [Hin|Hin].
      * rewrite decide_True; [done|by right].
      * rewrite decide_False; [done|]. by intros [?|?]%elem_of_cons.
Qed.

End deleting.

(** ** Renaming *)
(** A sequence of moves, each a batch of a delete and an insert. *)
Definition moves (ps : list (Directory * Directory)) (T : Tables) : Tables :=
  fold_left (fun T p => batch_move p.1 p.2 T) ps T.

Abbreviation old_keys ps := ((fun p : Directory * Directory => row_key p.1) <$> ps).
Abbreviation new_keys ps := ((fun p : Directory * Directory => row_key p.2) <$> ps).

Lemma batch_move_lookup (o n : Directory) T k :
  row_key n <> row_key o ->
  directories_table (batch_move o n T) !! k
  = if decide (k = row_key o) then None
    else if decide (k = row_key n) then Some n else directories_table T !! k.
Proof.
  intros Hne. unfold batch_move. destruct (decide (k = row_key o)) as [->|Ho].
  { apply lookup_delete_eq. }
  etrans; [by apply lookup_delete_ne|]. destruct (decide (k = row_key n)) as [->|Hn].
  - apply lookup_insert_eq.
  - by apply lookup_insert_ne.
Qed.

Lemma moves_lookup ps : forall T,
  NoDup (new_keys ps) -> (forall k, k ∈ old_keys ps -> k ∉ new_keys ps) ->
  directories_only T (moves ps T)
  /\ (forall k, k ∈ old_keys ps -> directories_table (moves ps T) !! k = None)
  /\ (forall p, p ∈ ps -> directories_table (moves ps T) !! row_key p.2 = Some p.2)
  /\ (forall k, k ∉ old_keys ps -> k ∉ new_keys ps ->
        directories_table (moves ps T) !! k = directories_table T !! k).
Proof.
  induction ps as [|[o n] ps IH]; intros T Hnd Hdis.
  { split; [apply directories_only_refl|]. split; [by intros k ?%elem_of_nil|].
    by split; [intros p ?%elem_of_nil|]. }
  rewrite !fmap_cons in *. cbn [fst snd] in *. apply NoDup_cons in Hnd as [Hn Hnd].
  assert (Hon : row_key n <> row_key o).
  { intros E. apply (Hdis (row_key o)); [by left|]. rewrite <- E. by left. }
  destruct (IH (batch_move o n T) Hnd) as (Ho & Hold & Hnew & Hother).
  { intros k Hk Hk'. apply (Hdis k); by right. }
  change (moves ((o, n) :: ps) T) with (moves ps (batch_move o n T)).
  split; [eapply directories_only_trans; [|exact Ho]; done|]. split; [|split].
  - intros k [->|Hk]%elem_of_cons; [|by apply Hold].
    destruct (decide (row_key o ∈ old_keys ps)) as [Hin|Hin]; [by apply Hold|].
    rewrite Hother; [|done|intros Hin'; apply (Hdis (row_key o)); [by left|by right]].
    rewrite batch_move_lookup, decide_True; done.
  - intros p [->|Hp]%elem_of_cons; [|by apply Hnew]. cbn [snd].
    rewrite Hother; [|intros Hin; apply (Hdis (row_key n)); [by right|by left]|done].
    rewrite batch_move_lookup, decide_False, decide_True; done.
  - intros k Hko Hkn. rewrite not_elem_of_cons in Hko, Hkn. destruct Hko, Hkn.
    rewrite Hother, batch_move_lookup, !decide_False; done.
Qed.

Definition move_row (parent name : Text) (r : Directory) : Directory :=
  mkDirectory (d_bucket_id r) parent name (d_id r) (d_created r) (d_last_modified r).

Lemma normalize_trailing q : Forall plain q -> normalize (join q ++ [SLASH]) = join q.
Proof.
  intros Hq. rewrite normalize_join. f_equal. rewrite <- (names_join q) at 2 by by apply plain_clean.
  unfold names. generalize (join q). clear. intros p. induction p as [|c p IH]; [done|].
  cbn [app split_on]. destruct (split_on_cons is_sep p) as (s & ss & E).
  destruct (split_on_cons is_sep (p ++ [SLASH])) as (t & ts & Et). rewrite E, Et in *.
  destruct (is_sep c).
  - rewrite !(filter_cons_False _ []) by tauto. done.
  - assert (Hst : s = t /\ filter (fun x => x <> []) ss = filter (fun x => x <> []) ts).
    { clear IH. revert s ss t ts E Et. induction p as [|c' p IH]; intros s ss t ts E Et.
      - cbn in E, Et. injection E as <- <-. injection Et as <- <-. done.
      - cbn [app split_on] in E, Et. destruct (split_on_cons is_sep p) as (s' & ss' & E').
        destruct (split_on_cons is_sep (p ++ [SLASH])) as (t' & ts' & Et'). rewrite E', Et' in *.
        destruct (IH _ _ _ _ eq_refl eq_refl) as [-> Hf].
        destruct (is_sep c'); injection E as <- <-; injection Et as <- <-; [|done].
        split; [done|]. rewrite !filter_cons. by case_decide; rewrite Hf. }
    destruct Hst as [-> Hst]. by rewrite !(filter_cons_True _ (c :: t)), Hst.
Qed.

Section renamed.
  (** The tables, with the parents of the new path, and the children of the directory. *)
  Variable T : Tables.
  Variable b : Uuid.
  Variable l m : list Text.
  Variable x y : Text.
  Variable dir : Directory.
  Variable ch : list Directory.
  Hypothesis Htree : dir_tree T.
  Hypothesis Hlx : Forall plain (l ++ [x]).
  Hypothesis Hmy : Forall plain (m ++ [y]).
  Hypothesis Hnot_below : ~ (l ++ [x]) `prefix_of` (m ++ [y]).
  Hypothesis Hdir : directories_table T !! (b, join l, x) = Some dir.
  Hypothesis Hfree : directories_table T !! (b, join m, y) = None.
  Hypothesis Hparent : dir_exists T b m.
  Hypothesis Hflat : forall r, r ∈ ch <-> stored T b r /\ strict_prefix (l ++ [x]) (path_of r).
  Hypothesis Hchildren : forall r, r ∈ ch -> exists z, path_of r = (l ++ [x]) ++ [z].
  Hypothesis Hnodup : NoDup ch.

Definition renames : list (Directory * Directory) :=
  map (fun r => (r, move_row (join (m ++ [y])) (d_name r) r)) ch ++ [(dir, move_row (join m) y dir)].

Lemma dir_key : row_key dir = (b, join l, x).
Proof. by eapply tree_keyed. Qed.

Lemma child_key r : r ∈ ch ->
  row_key r = (b, join (l ++ [x]), d_name r) /\ Forall plain ((l ++ [x]) ++ [d_name r])
  /\ path_of r = (l ++ [x]) ++ [d_name r].
Proof.
  intros Hr. destruct (Hchildren r Hr) as [z Hz]. apply Hflat in Hr as [Hr _].
  destruct (stored_row _ _ _ Htree Hr) as (l' & x' & K & Hpl & _ & P).
  pose proof K as K'. cbn in K'. injection K' as _ _ ->.
  rewrite P in Hz |- *. by apply app_inj_tail in Hz as [-> ->].
Qed.

Lemma elem_renames p :
  p ∈ renames <-> p = (dir, move_row (join m) y dir)
    \/ exists r, r ∈ ch /\ p = (r, move_row (join (m ++ [y])) (d_name r) r).
Proof.
  unfold renames. rewrite elem_of_app, list_elem_of_singleton, list_elem_of_fmap. split.
  - intros [(r & -> & Hr)| -> ]; eauto.
  - intros [->|(r & Hr & ->)]; eauto.
Qed.

Lemma old_key_cases k :
  k ∈ old_keys renames <-> k = (b, join l, x) \/ exists r, r ∈ ch /\ k = row_key r.
Proof.
  rewrite list_elem_of_fmap. split.
  - intros (p & -> & [->|(r & Hr & ->)]%elem_renames); [left; apply dir_key|eauto].
  - intros [->|(r & Hr & ->)].
    + exists (dir, move_row (join m) y dir). split; [symmetry; apply dir_key|]. apply elem_renames. by left.
    + eexists. split; [|apply elem_renames; right; eauto]. done.
Qed.

Lemma new_key_cases k :
  k ∈ new_keys renames <-> k = (b, join m, y) \/ exists r, r ∈ ch /\ k = (b, join (m ++ [y]), d_name r).
Proof.
  pose proof dir_key as Hk. injection Hk as Hb _ _. rewrite list_elem_of_fmap. split.
  - intros (p & -> & [->|(r & Hr & ->)]%elem_renames); cbn; [left; congruence|].
    right. exists r. split; [done|]. destruct (child_key r Hr) as (K & _). injection K as -> _. done.
  - intros [->|(r & Hr & ->)].
    + exists (dir, move_row (join m) y dir). cbn. rewrite Hb. split; [done|]. apply elem_renames. by left.
    + exists (r, move_row (join (m ++ [y])) (d_name r) r). cbn.
      destruct (child_key r Hr) as (K & _). injection K as -> _. split; [done|]. apply elem_renames. eauto.
Qed.

Lemma renames_new_nodup : NoDup (new_keys renames).
Proof.
  assert (Hpm : Forall plain m) by by apply plain_snoc in Hmy as [? _].
  unfold renames. rewrite fmap_app. apply NoDup_app. split; [|split; [|apply NoDup_singleton]].
  - rewrite <- list_fmap_compose. apply NoDup_fmap_2_strong; [|done]. intros r1 r2 H1 H2 E. cbn in E.
    injection E as _ En. destruct (child_key r1 H1) as (_ & _ & P1), (child_key r2 H2) as (_ & _ & P2).
    apply Hflat in H1 as [H1 _], H2 as [H2 _]. eapply stored_inj; [done..|]. by rewrite P1, P2, En.
  - intros k Hk Hk'. apply list_elem_of_singleton in Hk'. subst k.
    rewrite <- list_fmap_compose in Hk. apply list_elem_of_fmap in Hk as (r & E & _). cbn in E.
    injection E as _ E _. apply join_inj in E; [|done..]. apply (f_equal length) in E.
    rewrite length_app in E. simpl in E. lia.
Qed.

Lemma renames_disjoint k : k ∈ old_keys renames -> k ∉ new_keys renames.
Proof.
  pose proof (plain_snoc _ _ Hlx) as [Hl _]. pose proof (plain_snoc _ _ Hmy) as [Hm _].
  rewrite old_key_cases, new_key_cases.
  intros [->|(r & Hr & ->)] [E|(r' & Hr' & E)].
  - injection E as E ->. apply join_inj in E as ->; [|done..]. by apply Hnot_below.
  - injection E as E ->. apply join_inj in E as ->; [|done..].
    destruct (tree_prefix T b ((m ++ [y]) ++ [d_name r']) m y) as [? Hs]; [done|done| | |by rewrite Hfree in Hs].
    + right. eauto.
    + by apply prefix_app_r.
  - destruct (child_key r Hr) as (K & Hpl & _). rewrite K in E. injection E as E _.
    apply join_inj in E as E; [|done..]. apply Hnot_below. rewrite E. by apply prefix_app_r.
  - destruct (child_key r Hr) as (K & Hpl & _). rewrite K in E. injection E as E _.
    apply join_inj in E as E; [|done..]. apply Hnot_below. by rewrite E.
Qed.

Lemma dir_path : path_of dir = l ++ [x].
Proof.
  destruct (tree_row _ _ _ Htree Hdir) as (K & l' & x' & Hp & Hn & Hpl & _ & P). cbn in K.
  rewrite Hp, Hn in K. injection K as _ E ->. rewrite P. f_equal.
  apply join_inj in E; [done|by apply plain_snoc in Hpl as [? _]|by apply plain_snoc in Hlx as [? _]].
Qed.

Lemma subtree_old r : stored T (d_bucket_id r) r -> in_subtree dir r <-> row_key r ∈ old_keys renames.
Proof.
  intros Hr. pose proof dir_key as Hk. injection Hk as Hb _ _.
  assert (Hd : stored T b dir) by (split; [done|by rewrite dir_key]).
  rewrite old_key_cases. split.
  - intros Hs. pose proof Hs as [Hrb _]. rewrite Hrb, Hb in Hr.
    apply (subtree_cases dir r T) in Hs; [|done|by rewrite Hb..].
    destruct Hs as [->|Hs]; [left; apply dir_key|]. right. exists r. split; [|done].
    apply Hflat. by rewrite <- dir_path.
  - intros [E|(r' & Hr' & E)].
    + destruct Hr as [_ Hr]. rewrite E, Hdir in Hr. injection Hr as <-. by split.
    + pose proof Hr' as [[Hb' Hs'] [Hp _]]%Hflat. destruct Hr as [_ Hr]. rewrite E, Hs' in Hr.
      injection Hr as <-. split; [congruence|]. by rewrite dir_path.
Qed.

Lemma new_key_free k : k ∈ new_keys renames -> directories_table T !! k = None.
Proof.
  rewrite new_key_cases. intros [->|(r & Hr & ->)]; [done|].
  destruct (directories_table T !! (b, join (m ++ [y]), d_name r)) as [o|] eqn:Eo; [|done].
  destruct (child_key r Hr) as (_ & Hpl & _). apply plain_snoc in Hpl as [_ Hpl].
  destruct (tree_prefix T b ((m ++ [y]) ++ [d_name r]) m y) as [? Hs]; [done| | | |by rewrite Hfree in Hs].
  - apply Forall_app. by split; [|constructor].
  - right. eauto.
  - by apply prefix_app_r.
Qed.

Record renamed (T' : Tables) : Prop := {
  rn_only : directories_only T T';
  rn_dir : directories_table T' !! (b, join m, y) = Some (move_row (join m) y dir);
  rn_children : forall r, r ∈ ch ->
    directories_table T' !! (b, join (m ++ [y]), d_name r) = Some (move_row (join (m ++ [y])) (d_name r) r);
  rn_gone : forall r, stored T (d_bucket_id r) r -> in_subtree dir r ->
    directories_table T' !! row_key r = None;
  rn_kept : forall r, stored T (d_bucket_id r) r -> ~ in_subtree dir r ->
    directories_table T' !! row_key r = Some r;
  rn_tree : dir_tree T'
}.

(** What exists in the old tree outside the subtree still exists. *)
Lemma moves_exists k r :
  directories_table T !! k = Some r -> ~ in_subtree dir r ->
  directories_table (moves renames T) !! k = Some r.
Proof.
  intros Hr Hs. destruct (moves_lookup renames T renames_new_nodup renames_disjoint) as (_ & _ & _ & Hother).
  rewrite Hother; [done|..].
  - intros Hold. apply Hs. apply subtree_old; pose proof (tree_keyed _ _ _ Htree Hr) as K; [|by rewrite K].
    split; [done|by rewrite K].
  - intros Hnew. apply new_key_free in Hnew. congruence.
Qed.

Lemma renames_renamed : renamed (moves renames T).
Proof.
  destruct (moves_lookup renames T renames_new_nodup renames_disjoint) as (Honly & Hold & Hnew & Hother).
  pose proof dir_key as Hk. injection Hk as Hb _ _.
  assert (Hrdir : directories_table (moves renames T) !! (b, join m, y) = Some (move_row (join m) y dir)).
  { rewrite <- Hb. apply (Hnew (dir, move_row (join m) y dir)). apply elem_renames. by left. }
  assert (Hrch : forall r, r ∈ ch -> directories_table (moves renames T) !! (b, join (m ++ [y]), d_name r)
            = Some (move_row (join (m ++ [y])) (d_name r) r)).
  { intros r Hr. destruct (child_key r Hr) as (K & _). injection K as <- _.
    apply (Hnew (r, move_row (join (m ++ [y])) (d_name r) r)). apply elem_renames. eauto. }
  split; [done|done|done| | |].
  - intros r Hr Hs. apply Hold. by apply subtree_old.
  - intros r [_ Hr] Hs. by apply moves_exists.
  - intros c p z r Hr. destruct (decide ((c, p, z) ∈ old_keys renames)) as [Ho|Ho];
      [by rewrite Hold in Hr|].
    destruct (decide ((c, p, z) ∈ new_keys renames)) as [Hn|Hn].
    + apply new_key_cases in Hn as [[= -> -> ->]|(r' & Hr' & [= -> -> ->])].
      * rewrite Hrdir in Hr. injection Hr as <-. split; [cbn; by rewrite Hb|]. exists m. split; [done|].
        split; [done|]. destruct Hparent as [->|(p & z & E & [o Hoo])]; [by left|]. right. exists p, z.
        split; [done|]. exists o. apply moves_exists; [done|]. intros [_ Hp]. apply Hnot_below.
        destruct (tree_row _ _ _ Htree Hoo) as (Ko & l2 & x2 & P2 & N2 & Pl2 & _ & Path2).
        cbn in Ko. rewrite P2, N2 in Ko. injection Ko as _ Ko ->.
        pose proof (plain_snoc _ _ Hmy) as [Hm _]. rewrite E in Hm.
        apply join_inj in Ko as ->; [|by apply plain_snoc in Pl2 as [? _]|by apply plain_snoc in Hm as [? _]].
        rewrite dir_path, Path2, <- E in Hp. by apply prefix_app_r.
      * destruct (child_key r' Hr') as (K & Hpl & _). rewrite Hrch in Hr by done. injection Hr as <-.
        injection K as Kb _. split; [cbn; by rewrite Kb|]. exists (m ++ [y]). split; [done|].
        split; [apply Forall_app; split; [done|]; by apply plain_snoc in Hpl as [_ ?]; constructor|].
        right. eauto.
    + rewrite Hother in Hr by done. destruct (Htree _ _ _ _ Hr) as (Hkr & l' & -> & Hl' & Hex).
      split; [done|]. exists l'. split; [done|]. split; [done|].
      destruct Hex as [->|(p & y' & -> & [o Hoo])]; [by left|]. right. exists p, y'. split; [done|].
      exists o. apply moves_exists; [done|]. intros Hs. apply Ho.
      rewrite <- Hkr. apply subtree_old; [split; [done|by rewrite Hkr]|]. by eapply child_in_subtree.
Qed.
End renamed.

Section renaming.
  Context {D : Type} `{ReliableDatabase D}.
  Implicit Types d : D.
  Variable new_v4 : nat -> Uuid.
  Variable clock : nat -> Z.

Lemma run_update_directory_path (r : Directory) parent name d :
  exists d', on_err client_of_data (update_directory_path r parent name) d
      = (d', Ok (move_row (default [] parent) name r))
    /\ tables d' = moves [(r, move_row (default [] parent) name r)] (tables d).
Proof.
  unfold on_err, update_directory_path, mbind, effect_bind.
  edestruct (run_execute (D := D)) as (d' & -> & E). exists d'. by split.
Qed.

Lemma run_rename_children np old ch : forall d,
  exists d', rename_children np old ch d = (d', Ok tt)
    /\ tables d' = moves (map (fun r => (r, move_row (normalize (np ++ [SLASH])) (d_name r) r)) ch) (tables d).
Proof.
  unfold rename_children, suffix_from. rewrite drop_all.
  induction ch as [|r ch IH]; intros d; [by exists d|]. cbn [for_each].
  destruct (run_update_directory_path r (Some (normalize (np ++ [SLASH]))) (d_name r) d) as (d1 & E & Hd1).
  destruct (IH d1) as (d2 & E2 & Hd2). exists d2. split; [|by rewrite Hd2, Hd1].
  unfold mbind, effect_bind. rewrite E. exact E2.
Qed.

Lemma run_mkdir_parent b m d :
  Forall plain m -> dir_tree (tables d) ->
  exists d' o, try_mkdir new_v4 clock b (join m) d = (d', Ok o)
    /\ Directory_full_path <$> o = parent_of m
    /\ dir_exists (tables d') b m /\ dir_tree (tables d')
    /\ (forall k r, directories_table (tables d) !! k = Some r -> directories_table (tables d') !! k = Some r)
    /\ (forall k r, directories_table (tables d') !! k = Some r -> directories_table (tables d) !! k = Some r
          \/ exists p y, k = (b, join p, y) /\ (p ++ [y]) `prefix_of` m)
    /\ directories_only (tables d) (tables d').
Proof.
  intros Hm Ht. destruct m as [|z m _] using rev_ind.
  { exists d, None. split; [done|]. split; [done|]. split; [by left|]. eauto 10 using directories_only_refl. }
  destruct (run_try_mkdir new_v4 clock b m z d Hm Ht) as (d' & dir & E & Hdir & _ & Ht' & ? & ? & ?).
  exists d', (Some dir). split; [done|]. split; [|split; [right|]; eauto 10].
  destruct (tree_row _ _ _ Ht' Hdir) as (K & l & x & Hp & Hn & Hpl & Hf & _). cbn.
  rewrite Hf. cbn in K. rewrite Hp, Hn in K. injection K as _ K ->.
  apply join_inj in K as ->; [by destruct m|by apply plain_snoc in Hpl as [? _]|by apply plain_snoc in Hm as [? _]].
Qed.

(** What [mkdir] of a path creates is not at or below a directory the path is not below. *)
Lemma mkdir_subtree T T' b m p :
  dir_tree T' -> Forall plain m -> ~ p `prefix_of` m ->
  (forall k r, directories_table T' !! k = Some r -> directories_table T !! k = Some r
     \/ exists q y, k = (b, join q, y) /\ (q ++ [y]) `prefix_of` m) ->
  forall r, stored T' b r -> p `prefix_of` path_of r -> stored T b r.
Proof.
  intros Ht Hm Hp Hnew r Hr Hpr. destruct (stored_row _ _ _ Ht Hr) as (l & x & K & Hpl & _ & P).
  destruct Hr as [Hb Hr]. split; [done|]. destruct (Hnew _ _ Hr) as [?|(q & y & E & Hq)]; [done|].
  exfalso. apply Hp. rewrite K in E. injection E as E ->.
  assert (Hqp : Forall plain (q ++ [y])) by (destruct Hq as [w E']; rewrite E' in Hm; by apply Forall_app in Hm as [? _]).
  apply join_inj in E as ->; [|by apply plain_snoc in Hpl as [? _]|by apply plain_snoc in Hqp as [? _]].
  rewrite P in Hpr. by etrans.
Qed.

Lemma mkdir_path_free T T' b m y :
  Forall plain m -> directories_table T !! (b, join m, y) = None ->
  (forall k r, directories_table T' !! k = Some r -> directories_table T !! k = Some r
     \/ exists q y, k = (b, join q, y) /\ (q ++ [y]) `prefix_of` m) ->
  directories_table T' !! (b, join m, y) = None.
Proof.
  intros Hm Hfree Hnew. destruct (directories_table T' !! (b, join m, y)) as [r|] eqn:Er; [|done].
  destruct (Hnew _ _ Er) as [?|(q & z & E & Hq)]; [congruence|]. injection E as E ->.
  assert (Hqp : Forall plain (q ++ [z])) by (destruct Hq as [w E']; rewrite E' in Hm; by apply Forall_app in Hm as [? _]).
  apply join_inj in E as ->; [|done|by apply plain_snoc in Hqp as [? _]]. by apply prefix_snoc_not in Hq.
Qed.

(** The execution: the parents of the new path, then the moves. *)
Lemma run_rename fuel e req acc l x m y dir d :
  has_permission acc (ep_app_id e) (ep_bucket_id e) RENAME_DIRECTORY_ALLOWANCE = Ok tt ->
  EntryPath_path e = join (l ++ [x]) -> Rename_path req = join (m ++ [y]) ->
  Forall plain (l ++ [x]) -> Forall plain (m ++ [y]) -> ~ (l ++ [x]) `prefix_of` (m ++ [y]) ->
  dir_tree (tables d) -> (size (directories_table (tables d)) <= fuel)%nat ->
  directories_table (tables d) !! (ep_bucket_id e, join l, x) = Some dir ->
  directories_table (tables d) !! (ep_bucket_id e, join m, y) = None ->
  exists d' T ch, do_rename_directory new_v4 clock fuel e req acc d = Some (d', Ok tt)
    /\ tables d' = moves (renames m y dir ch) T
    /\ dir_exists T (ep_bucket_id e) m /\ dir_tree T /\ directories_only (tables d) T
    /\ (forall k r, directories_table (tables d) !! k = Some r -> directories_table T !! k = Some r)
    /\ (forall k r, directories_table T !! k = Some r -> directories_table (tables d) !! k = Some r
          \/ exists p y, k = (ep_bucket_id e, join p, y) /\ (p ++ [y]) `prefix_of` m)
    /\ NoDup ch
    /\ (forall r, r ∈ ch <-> stored T (ep_bucket_id e) r /\ strict_prefix (l ++ [x]) (path_of r)).
Proof.
  intros Hperm Hpath Hreq Hlx Hmy Hnb Ht Hf Hdir Hfree. unfold do_rename_directory.
  rewrite Hperm, Hpath, Hreq, decide_False.
  2: { intros E. apply join_inj in E as E; [|done..]. apply Hnb. by rewrite E. }
  rewrite decide_False.
  2: { intros [E|E]; revert E; (apply normalize_nil; [by apply plain_clean|]); [by destruct l|by destruct m]. }
  rewrite split_path_of by done. rewrite default_parent_of.
  destruct (run_get_existing (ep_bucket_id e) l x d Hlx) as (d1 & E1 & Hd1). rewrite Hdir in E1. cbn in E1.
  rewrite (effect_bind_run _ _ _ _ _ E1).
  destruct (run_get_directory (ep_bucket_id e) m y d1 Hmy) as (d2 & E2 & Hd2). rewrite Hd1, Hfree in E2.
  unfold attempt. erewrite effect_bind_run by (cbn beta; rewrite E2; reflexivity).
  cbn [is_ok]. rewrite (effect_bind_run (mret tt) _ d2 d2 tt eq_refl).
  pose proof (plain_snoc _ _ Hmy) as [Hm _].
  destruct (run_mkdir_parent (ep_bucket_id e) m d2 Hm) as (d3 & o & E3 & Ho & Hex & Ht3 & Hkeep & Hnew & Honly);
    [by rewrite Hd2, Hd1|]. rewrite Hd2, Hd1 in *.
  rewrite (effect_bind_run _ _ _ _ _ E3). unfold mret at 1, effect_ret at 1. rewrite Ho, default_parent_of.
  assert (Hnm : ~ (l ++ [x]) `prefix_of` m) by (intros Hp; apply Hnb; by apply prefix_app_r).
  pose proof (mkdir_subtree _ _ _ _ _ Ht3 Hm Hnm Hnew) as Hsub.
  pose proof (Hkeep _ _ Hdir) as Hdir3.
  pose proof (dir_key _ _ _ _ _ Ht3 Hdir3) as Kdir. pose proof Kdir as Kb. injection Kb as Kb _ _.
  pose proof (dir_path _ _ _ _ _ Ht3 Hlx Hdir3) as Pdir.
  destruct (run_collect_children fuel dir d3) as (d4 & ch & E4 & Hd4 & Hnd & Hch).
  { done. }
  { split; [done|by rewrite Kdir]. }
  { etrans; [|exact Hf]. apply map_subseteq_size, map_subseteq_spec. intros k r.
    unfold below. rewrite map_lookup_filter_Some. intros (Hr & Hb & Hc). cbn in Hb, Hc.
    apply Exists_cons in Hc as [Hc|Hc]; [|by apply Exists_nil in Hc]. rewrite Pdir in Hc.
    pose proof (tree_keyed _ _ _ Ht3 Hr) as Kr. rewrite <- Kr. apply Hsub; [|done].
    split; [congruence|by rewrite Kr]. }
  rewrite Kb, Pdir in Hch. rewrite E4. unfold mbind at 1, option_bind. cbn beta iota.
  rewrite (effect_bind_run (of_result (Ok ch)) _ d4 d4 ch eq_refl).
  replace (join_parent_name (join m) y) with (join (m ++ [y]))
    by (symmetry; by apply (full_path_of 0 m y 0 0 0)).
  destruct (run_rename_children (join (m ++ [y])) (Directory_full_path dir) ch d4) as (d5 & E5 & Hd5).
  rewrite (effect_bind_run _ _ _ _ _ E5).
  destruct (run_update_directory_path dir (parent_of m) y d5) as (d6 & E6 & Hd6).
  rewrite (effect_bind_run _ _ _ _ _ E6). exists d6, (tables d3), ch. split; [done|].
  rewrite default_parent_of, Hd5, Hd4, normalize_trailing in Hd6 by done.
  split; [|done]. rewrite Hd6. unfold renames, moves. by rewrite fold_left_app.
Qed.

(** C25: renaming a directory.  A directory whose subdirectories have no subdirectories is
    renamed to a path that is free and not below it: it and its children are found, with
    their ids, at the new path and no longer at the old one; missing parents are created,
    every other directory stays, and the result is a tree again. *)
Theorem rename_directory_spec fuel e req acc l x m y dir d :
  has_permission acc (ep_app_id e) (ep_bucket_id e) RENAME_DIRECTORY_ALLOWANCE = Ok tt ->
  EntryPath_path e = join (l ++ [x]) -> Rename_path req = join (m ++ [y]) ->
  Forall plain (l ++ [x]) -> Forall plain (m ++ [y]) -> ~ (l ++ [x]) `prefix_of` (m ++ [y]) ->
  dir_tree (tables d) -> (size (directories_table (tables d)) <= fuel)%nat ->
  directories_table (tables d) !! (ep_bucket_id e, join l, x) = Some dir ->
  directories_table (tables d) !! (ep_bucket_id e, join m, y) = None ->
  (forall r, stored (tables d) (ep_bucket_id e) r -> strict_prefix (l ++ [x]) (path_of r) ->
     exists z, path_of r = (l ++ [x]) ++ [z]) ->
  exists d', do_rename_directory new_v4 clock fuel e req acc d = Some (d', Ok tt)
    /\ directories_only (tables d) (tables d') /\ dir_tree (tables d')
    /\ directories_table (tables d') !! (ep_bucket_id e, join m, y) = Some (move_row (join m) y dir)
    /\ (forall r z, stored (tables d) (ep_bucket_id e) r -> path_of r = (l ++ [x]) ++ [z] ->
          directories_table (tables d') !! (ep_bucket_id e, join (m ++ [y]), z)
          = Some (move_row (join (m ++ [y])) z r))
    /\ (forall r, stored (tables d) (d_bucket_id r) r -> directories_table (tables d') !! row_key r
          = if decide (in_subtree dir r) then None else Some r).
Proof.
  intros Hperm Hpath Hreq Hlx Hmy Hnb Ht Hf Hdir Hfree Hflat.
  destruct (run_rename fuel e req acc l x m y dir d) as
    (d' & T & ch & E & Htab & Hex & HtT & Honly & Hkeep & Hnew & Hnd & Hch); [done..|].
  exists d'. split; [done|]. pose proof (plain_snoc _ _ Hmy) as [Hm _].
  assert (Hnm : ~ (l ++ [x]) `prefix_of` m) by (intros Hp; apply Hnb; by apply prefix_app_r).
  assert (Hkids : forall r, r ∈ ch -> exists z, path_of r = (l ++ [x]) ++ [z]).
  { intros r [Hr Hp]%Hch. apply Hflat; [|done]. eapply (mkdir_subtree _ T); try done. apply Hp. }
  destruct (renames_renamed T (ep_bucket_id e) l m x y dir ch) as [R1 R2 R3 R4 R5 R6]; try done;
    [by apply Hkeep|by eapply mkdir_path_free|].
  rewrite Htab. split; [by eapply directories_only_trans|]. split; [done|]. split; [done|].
  assert (Hst : forall c r, stored (tables d) c r -> stored T c r).
  { intros c r [? Hr]. split; [done|by apply Hkeep]. }
  split.
  - intros r z Hr Hz.
    assert (Hin : r ∈ ch).
    { apply Hch. split; [by apply Hst|]. rewrite Hz. split; [by apply prefix_app_r|]. intros E'.
      apply (f_equal length) in E'. rewrite !length_app in E'. simpl in E'. lia. }
    pose proof (R3 r Hin) as Hr3.
    destruct (child_key T (ep_bucket_id e) l x ch HtT Hch Hkids r Hin) as (_ & _ & P).
    rewrite Hz in P. by apply app_inj_tail in P as [_ ->].
  - intros r Hr. case_decide; [apply R4|apply R5]; auto.
Qed.
End renaming.

(** ** Examples *)
Definition no_rows : Tables := mkTables ∅ ∅ ∅ ∅ ∅ ∅ ∅ ∅ ∅ ∅ ∅.

Definition sample_dir (parent name : string) (id : Uuid) : Directory :=
  mkDirectory 7 (str parent) (str name) id 0 0.

(** The directories [a] and [a/b]. *)
Definition sample_tree : Tables :=
  row_insert (sample_dir "a" "b" 11) (row_insert (sample_dir "" "a" 10) no_rows).

(** A file in [a/b]. *)
Definition sample_record : File := mkFile 7 11 (str "f") 20 5 [] 0 0.

Definition all_allowed : BucketAccessor := mkAccessor [mkPermit 7 (2 ^ 64 - 1)] 1.

Definition entry (p : string) : EntryPath := mkEntryPath 1 7 (Some (str p)) (Some (str p)).
Definition rename_to (p : string) : RenameEntityRequest := mkRename (str p) (Some (str p)).

Lemma dir_tree_empty : dir_tree no_rows.
Proof. intros b p x r Hr. by cbn [no_rows directories_table] in Hr; rewrite lookup_empty in Hr. Qed.

Lemma dir_tree_insert T b l x (r : Directory) :
  dir_tree T -> Forall plain (l ++ [x]) -> dir_exists T b l -> row_key r = (b, join l, x) ->
  dir_tree (row_insert r T).
Proof.
  intros Ht Hl Hex Hk b' p y r' Hr'.
  assert (Hmono : forall c m, dir_exists T c m -> dir_exists (row_insert r T) c m).
  { intros c m [->|(q & z & -> & Hq)]; [by left|]. right. exists q, z. split; [done|].
    change (is_Some (<[row_key r := r]> (directories_table T) !! (c, join q, z))).
    rewrite lookup_insert_is_Some. destruct (decide (row_key r = (c, join q, z))); auto. }
  change (<[row_key r := r]> (directories_table T) !! (b', p, y) = Some r') in Hr'.
  apply lookup_insert_Some in Hr' as [[E <-]|[_ Hr']].
  - rewrite Hk in E. injection E as <- <- <-. split; [done|]. eauto.
  - destruct (Ht _ _ _ _ Hr') as (? & m & ? & ? & ?). split; [done|]. eauto 10.
Qed.

Lemma sample_tree_ok : dir_tree sample_tree.
Proof.
  apply (dir_tree_insert _ 7 [str "a"] (str "b")); [|by vm_compute; repeat constructor| |done].
  - apply (dir_tree_insert _ 7 [] (str "a")); [apply dir_tree_empty|by vm_compute; repeat constructor|by left|done].
  - right. exists [], (str "a"). split; [done|].
    exists (sample_dir "" "a" 10). vm_compute. reflexivity.
Qed.

Definition ids (i : nat) : Uuid := 100 + Z.of_nat i.
Definition noon (_ : nat) : Z := 5.

Lemma try_mkdir_spec_witness :
  exists T dir, try_mkdir (D := Tables) ids noon 7 (str "a/c/d") sample_tree = (T, Ok (Some dir))
    /\ d_id dir = 101
    /\ directories_table T !! (7, str "a", str "b") = Some (sample_dir "a" "b" 11).
Proof.
  destruct (try_mkdir_spec (D := Tables) ids noon 7 [str "a"; str "c"] (str "d") sample_tree)
    as (T & dir & E & Hd & _ & _ & Hkeep & _).
  - by vm_compute; repeat constructor.
  - exact sample_tree_ok.
  - exists T, dir. split; [exact E|]. split; [|apply Hkeep; vm_compute; reflexivity].
    assert (Hid : match snd (try_mkdir (D := Tables) ids noon 7 (str "a/c/d") sample_tree) with
                  | Ok (Some r) => d_id r | _ => 0 end = 101) by (vm_compute; reflexivity).
    change (str "a/c/d") with (join ([str "a"; str "c"] ++ [str "d"])) in Hid. by rewrite E in Hid.
Defined.


(** Recursive deletion does not look for files below the directory.  Deleting [a]
    recursively succeeds although [a/b] holds a file: the directories are gone, the record of
    the file stays, in a directory that no longer exists. *)
Theorem recursive_delete_orphans :
  exists T, do_delete_directory (D := Tables) 2 (entry "a") (mkDeleteDirectory true) all_allowed
      (row_insert sample_record sample_tree) = Some (T, Ok tt)
    /\ files_table T !! row_key sample_record = Some sample_record
    /\ directories_table T = ∅.
Proof. eexists. vm_compute. repeat split; reflexivity. Qed.

Lemma rename_directory_spec_witness :
  exists T, do_rename_directory (D := Tables) ids noon 2 (entry "a") (rename_to "x/y") all_allowed sample_tree
      = Some (T, Ok tt)
    /\ directories_table T !! (7, str "x", str "y") = Some (sample_dir "x" "y" 10)
    /\ directories_table T !! (7, str "x/y", str "b") = Some (sample_dir "x/y" "b" 11).
Proof.
  assert (Hrows : forall k r, directories_table sample_tree !! k = Some r ->
            r = sample_dir "" "a" 10 \/ r = sample_dir "a" "b" 11).
  { intros k r. unfold sample_tree, row_insert. cbn [set_table Directory_row directories_table table no_rows].
    rewrite !lookup_insert_Some, lookup_empty. intros [[_ <-]|[_ [[_ <-]|[_ [=]]]]]; auto. }
  destruct (rename_directory_spec (D := Tables) ids noon 2 (entry "a") (rename_to "x/y") all_allowed
              [] (str "a") [str "x"] (str "y") (sample_dir "" "a" 10) sample_tree)
    as (T & E & _ & _ & Hd & Hc & _).
  - vm_compute. reflexivity.
  - reflexivity.
  - reflexivity.
  - by vm_compute; repeat constructor.
  - by vm_compute; repeat constructor.
  - intros Hp%prefix_cons_inv_1. discriminate Hp.
  - exact sample_tree_ok.
  - vm_compute. lia.
  - vm_compute. reflexivity.
  - vm_compute. reflexivity.
  - intros r [_ Hr] [_ Hne]. destruct (Hrows _ _ Hr) as [-> | ->]; [destruct Hne; vm_compute; reflexivity|].
    exists (str "b"). vm_compute. reflexivity.
  - exists T. split; [exact E|]. split; [exact Hd|].
    apply (Hc (sample_dir "a" "b" 11) (str "b")); [split|]; vm_compute; reflexivity.
Defined.

(** Renaming moves every directory of the subtree directly under the new path.  After
    [a] is renamed to [z], the directory [a/b/c] is found at [z/c] instead of [z/b/c]. *)
Theorem rename_flattens :
  exists T, do_rename_directory (D := Tables) ids noon 3 (entry "a") (rename_to "z") all_allowed
      (row_insert (sample_dir "a/b" "c" 12) sample_tree) = Some (T, Ok tt)
    /\ directories_table T !! (7, str "z", str "c") = Some (sample_dir "z" "c" 12)
    /\ directories_table T !! (7, str "z/b", str "c") = None.
Proof. eexists. vm_compute. repeat split; reflexivity. Qed.

(** A directory renamed to a path below itself is no longer reachable: its new parent is
    its old path, at which there is no directory. *)
Lemma rename_below_itself :
  exists T, do_rename_directory (D := Tables) ids noon 2 (entry "a") (rename_to "a/x") all_allowed
      sample_tree = Some (T, Ok tt)
    /\ directories_table T !! (7, str "a", str "x") = Some (sample_dir "a" "x" 10)
    /\ directories_table T !! (7, str "", str "a") = None.
Proof. eexists. vm_compute. repeat split; reflexivity. Qed.

(** The directory named [..].  The path [..] creates a directory without a name whose full
    path is that of the root; listing what is below it finds the directory itself again, and
    the recursive deletion never ends, whatever the fuel. *)
Theorem dotdot_never_ends :
  exists T, do_create_directory (D := Tables) ids noon (entry "..") all_allowed no_rows = (T, Ok tt)
    /\ forall fuel, do_delete_directory fuel (entry "..") (mkDeleteDirectory true) all_allowed T = None.
Proof.
  eexists. split; [vm_compute; reflexivity|].
  set (T := mkTables _ _ _ _ _ _ _ _ _ _ _). set (self := mkDirectory 7 [] [] 100 5 5).
  assert (Hiter : forall fuel, directory_iterator fuel [self] T = None).
  { induction fuel as [|fuel IH]; [done|]. cbn [directory_iterator].
    replace (get_sub_dirs (d_bucket_id self) (Directory_full_path self) T) with
      (T, Ok [self] : result MeowithDataError (list Directory)) by (vm_compute; reflexivity).
    cbn [app]. by rewrite IH. }
  intros fuel. unfold do_delete_directory.
  replace ((of_result _;; _) T) with (T, Ok self : NodeClientResponse Directory) by (vm_compute; reflexivity).
  cbn [recursive]. unfold collect_children. by rewrite Hiter.
Qed.

(** A read that fails is taken for a directory that is not there.  When the first query of
    [try_mkdir] fails, the existing directory [a] is replaced by one with another id, and the
    files that refer to the old id are no longer in any directory. *)
Theorem mkdir_read_fault_replaces :
  exists d, try_mkdir ids noon 7 (str "a") (mkFaulty sample_tree [Some false])
      = (d, Ok (Some (mkDirectory 7 [] (str "a") 100 5 5)))
    /\ directories_table sample_tree !! (7, [], str "a") = Some (sample_dir "" "a" 10)
    /\ directories_table (ft_tables d) !! (7, [], str "a") = Some (mkDirectory 7 [] (str "a") 100 5 5).
Proof. eexists. vm_compute. repeat split; reflexivity. Qed.
