(* ===== verification/FileServices.v ===== *)
(** * Files

    The services of a node that work on the cluster and the database at once:
    [chunk_service.rs], [file_action_service.rs] and the uploads of [file_access_service.rs]
    in [node/src/public/service].

    [AppState] is the cluster as the node sees it and its session with the database.  A node
    that is not in [cluster] cannot be reached.  Requests to other nodes run the other node's
    channel handler and await its answer.  Futures joined with [try_join!] or [try_join_all]
    run here one after the other, up to the first error. *)
From Stdlib Require Import ZArith Lia List Ascii.
From stdpp Require Import base numbers list strings gmap.
From S2P Require Import Prelude Errors MdsftpData MdsftpWire MdsftpChannel MetaStore FragmentLedger LockTable.
From S2P Require Import LedgerCorrect ChannelHandler Placement FileAccess Paths Permissions Database UploadSessions Directories.
Local Open Scope Z_scope.

Record AppState (D M : Type) : Type := mkAppState { node_state : NodeState M; db_session : D }.
Arguments mkAppState {D M}.
Arguments node_state {D M}.
Arguments db_session {D M}.

(** The next id drawn with [Uuid::new_v4], and the ids that were drawn. *)
Definition advance {M} (n : nat) (st : NodeState M) : NodeState M :=
  mkState (self_id st) (cluster st) (node_storage_map st) (drawn st + n).

Section services.
  Context {D M : Type} `{Database D} `{ExtFragmentMetaStore M}.
  Variable new_v4 : nat -> Uuid.
  Variables (channel_id : u32) (fragment_size : u32).

Abbreviation Service A := (effect (AppState D M) NodeClientError A).

Definition on_db {E A} (m : effect D E A) : effect (AppState D M) E A := fun s =>
  let '(d, r) := m (db_session s) in (mkAppState (node_state s) d, r).

Definition query {A} (m : effect D MeowithDataError A) : Service A := on_db (on_err client_of_data m).

Definition on_nodes {E A} (f : NodeState M -> NodeState M * result E A)
    : effect (AppState D M) E A := fun s =>
  let '(st, r) := f (node_state s) in (mkAppState st (db_session s), r).

Definition draw_id : Service Uuid :=
  on_nodes (fun st => (advance 1 st, Ok (new_v4 (drawn st)))).

(** An operation on the node's own ledger, whose error is only logged. *)
Definition local_ledger (f : Ledger M -> Ledger M) (st : NodeState M) : NodeState M :=
  match cluster st !! self_id st with
  | Some n => set_node (self_id st) (mkNode (f (sn_ledger n)) (sn_locks n)) (drawn st) st
  | None => st
  end.

(** A request to another node: its handler runs, and the packets it sends come back. *)
Definition remote_call (now : Z) (node_id : Uuid) (f : Handler M -> Handler M * MDSFTPResult unit)
    (st : NodeState M) : NodeState M * MDSFTPResult (list MDSFTPRawPacket) :=
  match cluster st !! node_id with
  | None => (st, Err NoSuchNode)
  | Some n =>
      let h := Handler_new (sn_ledger n) (sn_locks n) now (drawn st) channel_id BUFFER_SIZE
                 fragment_size in
      let '(h, _) := f h in
      (set_node node_id (mkNode (h_ledger h) (h_locks h)) (h_ids h) st, Ok (packets (h_out h)))
  end.

Definition await_commit (ps : list MDSFTPRawPacket) : MDSFTPResult unit :=
  match ps with
  | p :: _ =>
      match handle_packet (fun _ => true) p
              (set_commit_sender (Some 0%nat) (Channel_new (H := list HandlerCall) channel_id)) with
      | Some (_, [ToCommit _ (Ok _)], _) => Ok tt
      | Some (_, [ToCommit _ (Err e)], _) => Err e
      | _ => Err Interrupted
      end
  | [] => Err Interrupted
  end.

Definition await_query (ps : list MDSFTPRawPacket) : MDSFTPResult u64 :=
  match ps with
  | p :: _ =>
      match handle_packet (fun _ => true) p
              (set_query_sender (Some 0%nat) (Channel_new (H := list HandlerCall) channel_id)) with
      | Some (_, [ToQuery _ (Ok res)], _) => Ok (qr_size res)
      | Some (_, [ToQuery _ (Err e)], _) => Err e
      | _ => Err Interrupted
      end
  | [] => Err Interrupted
  end.

(** ** [chunk_service.rs] *)
Definition service_commit_chunk (now : Z) (flags : CommitFlags) (node_id chunk_id : Uuid)
    (st : NodeState M) : NodeState M * NodeClientResponse unit :=
  if decide (node_id = self_id st) then
    (local_ledger (fun L =>
       if final flags then fst (commit_chunk chunk_id L)
       else if keep_alive flags then fst (commit_alive now chunk_id L)
       else if reject flags then fst (delete_chunk chunk_id L)
       else L) st, Ok tt)
  else
    match remote_call now node_id (handle_commit chunk_id flags) st with
    | (st, Ok ps) => (st, map_err client_of_mdsftp (await_commit ps))
    | (st, Err e) => (st, Err (client_of_mdsftp e))
    end.

Definition service_query_chunk (now : Z) (chunk_id node_id : Uuid) (st : NodeState M)
    : NodeState M * NodeClientResponse (option u64) :=
  if decide (node_id = self_id st) then
    (st, Ok (n ← cluster st !! self_id st;
             meta_content_size <$> existing_or_reserved_fragment_meta chunk_id (sn_ledger n)))
  else
    match remote_call now node_id (handle_query chunk_id) st with
    | (st, Ok ps) =>
        (st, match await_query ps with
             | Ok size => Ok (Some size)
             | Err NoSuchChunkId => Ok None
             | Err e => Err (client_of_mdsftp e)
             end)
    | (st, Err e) => (st, Err (client_of_mdsftp e))
    end.

(** ** [file_action_service.rs] *)
Definition delete_fragment (now : Z) (chunk : FileChunk) (st : NodeState M) : NodeState M :=
  if decide (server_id chunk = self_id st)
  then local_ledger (fun L => fst (delete_chunk (chunk_id chunk) L)) st
  else fst (remote_call now (server_id chunk) (handle_delete_chunk (chunk_id chunk)) st).

Definition do_delete_file (now : Z) (file : File) (bucket : Bucket) : Service unit :=
  modify (fun s => mkAppState
    (fold_left (fun st c => delete_fragment now c st) (f_chunk_ids file) (node_state s)) (db_session s));;
  query (delete_file file bucket).

Definition delete_file_srv (now : Z) (path : EntryPath) (acc : BucketAccessor) : Service unit :=
  of_result (has_permission acc (ep_app_id path) (ep_bucket_id path) DELETE_ALLOWANCE);;
  let split_path := split_path (EntryPath_path path) in
  bucket ← query (get_bucket (ep_app_id path) (ep_bucket_id path));
  file ← query (get_file_dir (ep_bucket_id path) split_path.1 split_path.2);
  do_delete_file now file.1 bucket.

Definition rename_file_srv (now utc : Z) (path : EntryPath) (req : RenameEntityRequest)
    (acc : BucketAccessor) : Service unit :=
  if decide (EntryPath_path path = Rename_path req) then mret tt
  else
    let split_old_path := split_path (EntryPath_path path) in
    let split_new_path := split_path (Rename_path req) in
    old_file ← query (get_file_dir (ep_bucket_id path) split_old_path.1 split_old_path.2);
    new_file ← query (maybe_get_file_dir (ep_bucket_id path) split_new_path.1 split_new_path.2);
    match new_file.1 with
    | None =>
        query (update_file_path utc old_file.1 (DID_of new_file.2) split_new_path.2);; mret tt
    | Some new_file_file =>
        of_result (has_permission acc (ep_app_id path) (ep_bucket_id path) DELETE_ALLOWANCE);;
        bucket ← query (get_bucket (ep_app_id path) (ep_bucket_id path));
        do_delete_file now new_file_file bucket;;
        query (update_file_path utc old_file.1 (DID_of new_file.2) split_new_path.2);; mret tt
    end.
End services.

(** ** The account of a bucket *)
Definition bucket_files (T : Tables) (b : Uuid) : gmap (Uuid * Uuid * Text) File :=
  filter (fun kf => f_bucket_id kf.2 = b) (files_table T).

(** The counters of a bucket are the number and the total size of its files. *)
Record account (app_id b : Uuid) (T : Tables) : Prop := {
  ac_bucket : exists bucket, buckets_table T !! (app_id, b) = Some bucket
    /\ row_key bucket = (app_id, b)
    /\ b_file_count bucket = Z.of_nat (size (bucket_files T b))
    /\ b_space_taken bucket = map_sum f_size (bucket_files T b);
  ac_keys : forall k f, files_table T !! k = Some f -> row_key f = k;
  ac_sizes : forall k f, files_table T !! k = Some f -> 0 <= f_size f;
  ac_count : Z.of_nat (size (bucket_files T b)) < 2 ^ 63;
  ac_space : map_sum f_size (bucket_files T b) < 2 ^ 63
}.

(** Rows of files and buckets in the same places, and all else the same. *)
Definition files_update (k : Uuid * Uuid) (dc ds : Z) (fs : gmap (Uuid * Uuid * Text) File) (T : Tables)
    : Tables :=
  row_update k (bump dc ds) (set_table (R := File) fs T).

Lemma files_update_files k dc ds fs T : files_table (files_update k dc ds fs T) = fs.
Proof. done. Qed.

Lemma files_update_account app_id b dc ds fs T :
  account app_id b T ->
  (forall k f, fs !! k = Some f -> row_key f = k /\ 0 <= f_size f) ->
  let fs' := filter (fun kf : _ * File => f_bucket_id kf.2 = b) fs in
  Z.of_nat (size fs') = Z.of_nat (size (bucket_files T b)) + dc ->
  map_sum f_size fs' = map_sum f_size (bucket_files T b) + ds ->
  Z.of_nat (size fs') < 2 ^ 63 -> map_sum f_size fs' < 2 ^ 63 ->
  account app_id b (files_update (app_id, b) dc ds fs T).
Proof.
  intros [(bucket & Hb & Hkb & Hc & Hs) _ _ _ _] Hfs fs' Ec Es Hc' Hs'.
  assert (Hnn : 0 <= map_sum f_size fs').
  { apply map_sum_nonneg. intros k f Hf. apply map_lookup_filter_Some in Hf as [Hf _]. by apply (Hfs k). }
  split.
  - exists (bump dc ds bucket). split.
    + unfold files_update, row_update. cbn. rewrite lookup_alter_eq. cbn in Hb. by rewrite Hb.
    + change (bucket_files (files_update (app_id, b) dc ds fs T) b) with fs'.
      split; [exact Hkb|]. unfold bump, i64_add. cbn. rewrite Hc, Hs, <- Ec, <- Es, !as_signed_small by lia. done.
  - intros k f Hf. by apply (Hfs k).
  - intros k f Hf. by apply (Hfs k).
  - exact Hc'.
  - exact Hs'.
Qed.

Lemma account_delete app_id b T f :
  account app_id b T -> files_table T !! row_key f = Some f -> f_bucket_id f = b ->
  account app_id b (files_update (app_id, b) (-1) (- f_size f) (delete (row_key f) (files_table T)) T).
Proof.
  intros HA Hf Hb. pose proof HA as [_ Hk Hz Hc Hs].
  assert (Hin : bucket_files T b !! row_key f = Some f) by (apply map_lookup_filter_Some; by split).
  assert (Ef : filter (fun kf : _ * File => f_bucket_id kf.2 = b) (delete (row_key f) (files_table T))
               = delete (row_key f) (bucket_files T b)) by apply map_filter_delete.
  assert (Esz : size (bucket_files T b) = S (size (delete (row_key f) (bucket_files T b)))).
  { rewrite <- (insert_delete_id (bucket_files T b) (row_key f) f Hin) at 1.
    apply map_size_insert_None, lookup_delete_eq. }
  pose proof (ac_sizes _ _ _ HA _ _ Hf) as Hpos.
  apply files_update_account; [done| |rewrite Ef..].
  - intros k g Hg. apply lookup_delete_Some in Hg as [_ Hg]. by split; [apply Hk|eapply Hz].
  - lia.
  - rewrite (map_sum_delete f_size _ _ f Hin). lia.
  - lia.
  - rewrite (map_sum_delete f_size _ _ f Hin). lia.
Qed.

Lemma account_insert app_id b T f :
  account app_id b T -> files_table T !! row_key f = None -> f_bucket_id f = b -> 0 <= f_size f ->
  Z.of_nat (size (bucket_files T b)) + 1 < 2 ^ 63 -> map_sum f_size (bucket_files T b) + f_size f < 2 ^ 63 ->
  account app_id b (files_update (app_id, b) 1 (f_size f) (<[row_key f := f]> (files_table T)) T).
Proof.
  intros HA Hf Hb Hpos Hc Hs. pose proof HA as [_ Hk Hz _ _].
  assert (Hin : bucket_files T b !! row_key f = None) by (apply map_lookup_filter_None; by left).
  assert (Ef : filter (fun kf : _ * File => f_bucket_id kf.2 = b) (<[row_key f := f]> (files_table T))
               = <[row_key f := f]> (bucket_files T b)) by (by rewrite map_filter_insert_True).
  assert (Esz : size (<[row_key f := f]> (bucket_files T b)) = S (size (bucket_files T b)))
    by by apply map_size_insert_None.
  apply files_update_account; [done| |rewrite Ef; rewrite ?Esz, ?map_sum_insert by done; lia..].
  intros k g [[<- <-]|[_ Hg]]%lookup_insert_Some; [done|]. by split; [apply Hk|eapply Hz].
Qed.

(** Moving a file within its bucket changes neither counter. *)
Lemma account_move app_id b T f g :
  account app_id b T -> files_table T !! row_key f = Some f -> files_table T !! row_key g = None ->
  f_bucket_id f = b -> f_bucket_id g = b -> f_size g = f_size f ->
  account app_id b (batch_move f g T).
Proof.
  intros HA Hf Hg Hbf Hbg Hsz. pose proof HA as [(bucket & Hb & Hkb & Hc & Hs) Hk Hz Hc' Hs'].
  assert (Hne : row_key f <> row_key g) by (intros E; rewrite E in Hf; congruence).
  assert (Hin : bucket_files T b !! row_key f = Some f) by (apply map_lookup_filter_Some; by split).
  assert (Hgn : bucket_files T b !! row_key g = None) by (apply map_lookup_filter_None; by left).
  assert (Ef : bucket_files (batch_move f g T) b = delete (row_key f) (<[row_key g := g]> (bucket_files T b))).
  { unfold bucket_files, batch_move, row_delete, row_insert. cbn [files_table set_table File_row table].
    by rewrite map_filter_delete, map_filter_insert_True. }
  assert (Esz : size (bucket_files (batch_move f g T) b) = size (bucket_files T b)).
  { rewrite Ef, map_size_delete_Some, map_size_insert_None by (by rewrite ?lookup_insert_ne by congruence; eauto).
    done. }
  assert (Esum : map_sum f_size (bucket_files (batch_move f g T) b) = map_sum f_size (bucket_files T b)).
  { rewrite Ef, (map_sum_delete _ _ _ f), map_sum_insert by (by rewrite ?lookup_insert_ne). lia. }
  split; rewrite ?Esz, ?Esum; try done; [by exists bucket|..].
  - intros k h. unfold batch_move, row_delete, row_insert. cbn.
    intros [_ [[<- <-]|[_ Hh]]%lookup_insert_Some]%lookup_delete_Some; [done|].
    by apply (Hk k h).
  - intros k h. unfold batch_move, row_delete, row_insert. cbn.
    intros [_ [[<- <-]|[_ Hh]]%lookup_insert_Some]%lookup_delete_Some; [|by eapply Hz].
    rewrite Hsz. by eapply Hz.
Qed.

(** ** Deleting fragments *)
Section fragments.
  Context {M : Type} `{ExtFragmentMetaStore M}.
  Implicit Types L : Ledger M.

(** A fragment whose upload was committed, and one of which nothing is left. *)
Definition committed (id : Uuid) L : Prop :=
  uncommited_map L !! id = None /\ is_Some (files L !! get_path id false) /\ is_Some (chunk_set L !! id).

Definition gone (id : Uuid) L : Prop := chunk_set L !! id = None /\ files L !! get_path id false = None.

Definition delete_chunks (ids : list Uuid) L : Ledger M :=
  fold_left (fun L id => fst (delete_chunk id L)) ids L.

Lemma delete_committed id L : committed id L -> gone id (fst (delete_chunk id L)).
Proof.
  intros (Hu & [f Hf] & [c Hc]). unfold delete_chunk, remove_file.
  rewrite bool_decide_false by (rewrite Hu; by intros []).
  cbn [files set_uncommited_map ext_remove set_ext_metadata_store]. unfold ext_remove. cbn.
  cbn in Hf. rewrite Hf. cbn. rewrite Hc. cbn. by split; apply lookup_delete_eq.
Qed.

Lemma gone_stays id k L : gone id L -> gone id (fst (delete_chunk k L)).
Proof.
  intros [Hc Hf]. destruct (decide (id = k)) as [->|Hne].
  - unfold delete_chunk, remove_file. cbn. destruct (files L !! get_path k (bool_decide _)); cbn; [|by split].
    rewrite Hc.
    assert (Hd : forall p, delete p (files L) !! get_path k false = None)
      by (intros p; apply lookup_delete_None; by right).
    by destruct (reservation_map L !! k); split; cbn; rewrite ?Hd.
  - destruct (delete_same_but k L id Hne) as (E1 & _ & _ & E4).
    split; [by rewrite E1|]. unfold get_path in *. by rewrite E4.
Qed.

Lemma delete_chunks_gone ids : forall L id,
  (gone id L \/ (id ∈ ids /\ committed id L)) -> gone id (delete_chunks ids L).
Proof.
  induction ids as [|k ids IH]; intros L id Hg; [by destruct Hg as [?|[?%elem_of_nil _]]|].
  apply IH. destruct Hg as [Hg|[Hin Hcom]]; [left; by apply gone_stays|].
  destruct (decide (id = k)) as [->|Hne]; [left; by apply delete_committed|].
  right. apply elem_of_cons in Hin as [?|Hin]; [done|]. split; [done|].
  destruct (delete_same_but k L id Hne) as (E1 & _ & E3 & E4).
  unfold committed, get_path in *. by rewrite E1, E3, E4.
Qed.

Lemma delete_chunks_other ids : forall L k, k ∉ ids ->
  chunk_set (delete_chunks ids L) !! k = chunk_set L !! k
  /\ reservation_map (delete_chunks ids L) !! k = reservation_map L !! k
  /\ uncommited_map (delete_chunks ids L) !! k = uncommited_map L !! k
  /\ forall b, files (delete_chunks ids L) !! (k, b) = files L !! (k, b).
Proof.
  induction ids as [|i ids IH]; intros L k Hk; [done|]. apply not_elem_of_cons in Hk as [Hne Hk].
  destruct (IH (fst (delete_chunk i L)) k Hk) as (E1 & E2 & E3 & E4).
  destruct (delete_same_but i L k Hne) as (F1 & F2 & F3 & F4).
  change (delete_chunks (i :: ids) L) with (delete_chunks ids (fst (delete_chunk i L))).
  rewrite E1, E2, E3. split_ands; [done|done|done|]. intros b. by rewrite E4.
Qed.

Lemma delete_chunks_inv ids L : ledger_inv L -> ledger_inv (delete_chunks ids L).
Proof.
  revert L. induction ids as [|i ids IH]; intros L HL; [done|]. apply IH. by apply delete_chunk_inv.
Qed.

  Variables (channel_id fragment_size : u32).

(** Deleting a fragment does the same on the node itself and on another node. *)
Lemma delete_fragment_cluster now c (st : NodeState M) :
  cluster (delete_fragment channel_id fragment_size now c st)
  = alter (fun n => mkNode (fst (delete_chunk (chunk_id c) (sn_ledger n))) (sn_locks n))
      (server_id c) (cluster st)
  /\ self_id (delete_fragment channel_id fragment_size now c st) = self_id st.
Proof.
  set (f := fun n : StorageNode M => mkNode (fst (delete_chunk (chunk_id c) (sn_ledger n))) (sn_locks n)).
  pose proof (fun n => insert_alter f (cluster st) (server_id c) n) as Halter.
  unfold delete_fragment, local_ledger, remote_call, handle_delete_chunk.
  case_decide as Hself; [rewrite <- Hself|];
    (destruct (cluster st !! server_id c) as [n|] eqn:En; [|by rewrite alter_absent]).
  - split; [by apply Halter|done].
  - rewrite <- (Halter n eq_refl). unfold f. cbn.
    by destruct (delete_chunk (chunk_id c) (sn_ledger n)) as [L r].
Qed.

(** The fragments of a file on one node. *)
Definition chunks_on (id : Uuid) (cs : list FileChunk) : list Uuid :=
  map chunk_id (filter (fun c => server_id c = id) cs).

Lemma delete_fragments_cluster now cs : forall (st : NodeState M) id,
  cluster (fold_left (fun st c => delete_fragment channel_id fragment_size now c st) cs st) !! id
  = (fun n => mkNode (delete_chunks (chunks_on id cs) (sn_ledger n)) (sn_locks n)) <$> cluster st !! id.
Proof.
  induction cs as [|c cs IH]; intros st id; cbn [fold_left].
  { by destruct (cluster st !! id) as [[]|]. }
  rewrite IH, (proj1 (delete_fragment_cluster now c st)). unfold chunks_on. rewrite filter_cons.
  case_decide as Hc.
  - subst id. rewrite lookup_alter_eq. by destruct (cluster st !! server_id c).
  - by rewrite lookup_alter_ne.
Qed.
End fragments.

(** ** Files by path *)
Definition dir_id (T : Tables) (b : Uuid) (l : list Text) : option Uuid :=
  match reverse l with
  | [] => Some ROOT_DIR
  | x :: p => d_id <$> directories_table T !! (b, join (reverse p), x)
  end.

Definition file_at (T : Tables) (b : Uuid) (l : list Text) (x : Text) : option File :=
  i ← dir_id T b l; files_table T !! (b, i, x).

Lemma dir_id_snoc T b p x : dir_id T b (p ++ [x]) = d_id <$> directories_table T !! (b, join p, x).
Proof. unfold dir_id. by rewrite reverse_snoc, reverse_involutive. Qed.

Section lookups.
  Context {D : Type} `{ReliableDatabase D}.
  Implicit Types d : D.

Lemma run_get_dir b l d :
  Forall plain l ->
  exists d' r, get_directory b (parent_of l) d = (d', r) /\ tables d' = tables d
    /\ match dir_id (tables d) b l with
       | None => r = Err DataNotFound
       | Some i => exists o, r = Ok o /\ default ROOT_DIR (DID_of o) = i
       end.
Proof.
  intros Hl. destruct l as [|x p _] using rev_ind.
  { exists d, (Ok None). split; [done|]. split; [done|]. by exists None. }
  rewrite dir_id_snoc. replace (parent_of (p ++ [x])) with (Some (join (p ++ [x]))) by (by destruct p).
  destruct (run_get_directory b p x d Hl) as (d' & -> & Hd). eexists _, _. split; [done|]. split; [done|].
  destruct (directories_table (tables d) !! (b, join p, x)) as [r|]; [|done]. by exists (Some r).
Qed.

Lemma run_get_file_dir b l x d :
  Forall plain l ->
  exists d' r, get_file_dir b (parent_of l) x d = (d', r) /\ tables d' = tables d
    /\ match file_at (tables d) b l x with
       | None => r = Err DataNotFound
       | Some f => exists o, r = Ok (f, o)
       end.
Proof.
  intros Hl. unfold get_file_dir, file_at. destruct (run_get_dir b l d Hl) as (d1 & r & E & Hd1 & Hr).
  unfold mbind at 1, effect_bind at 1. rewrite E.
  destruct (dir_id (tables d) b l) as [i|]; cbn [mbind option_bind].
  2: { subst r. exists d1, (Err DataNotFound). done. }
  destruct Hr as (o & -> & Ho).
  destruct (run_find_row (R := File) (b, i, x) d1) as (d2 & E2 & Hd2).
  replace (match o with Some dir => d_id dir | None => ROOT_DIR end) with i
    by (rewrite <- Ho; by destruct o).
  unfold mbind, effect_bind. rewrite E2, Hd1. cbn [table File_row].
  destruct (files_table (tables d) !! (b, i, x)) as [f|]; cbn [ok_or].
  - exists d2, (Ok (f, o)). split; [done|]. split; [congruence|]. eauto.
  - exists d2, (Err DataNotFound). split; [done|]. split; [congruence|done].
Qed.

Lemma run_maybe_get_file_dir b l x i d :
  Forall plain l -> dir_id (tables d) b l = Some i ->
  exists d' o, maybe_get_file_dir b (parent_of l) x d = (d', Ok (files_table (tables d) !! (b, i, x), o))
    /\ tables d' = tables d /\ default ROOT_DIR (DID_of o) = i.
Proof.
  intros Hl Hi. unfold maybe_get_file_dir. destruct (run_get_dir b l d Hl) as (d1 & r & E & Hd1 & Hr).
  unfold mbind, effect_bind. rewrite E. rewrite Hi in Hr. destruct Hr as (o & -> & Ho).
  destruct (run_maybe_find (R := File) (b, i, x) d1) as (d2 & E2 & Hd2).
  replace (match o with Some dir => d_id dir | None => ROOT_DIR end) with i
    by (rewrite <- Ho; by destruct o).
  rewrite E2, Hd1. exists d2, o. split; [done|]. by split; [congruence|].
Qed.

Lemma run_delete_file (f : File) (c bucket : Bucket) d :
  buckets_table (tables d) !! row_key c = Some bucket ->
  exists d', delete_file f c d = (d', Ok tt)
    /\ tables d' = files_update (row_key c) (-1) (- f_size f)
                     (delete (row_key f) (files_table (tables d))) (tables d).
Proof.
  intros Hb. unfold delete_file, mbind, effect_bind.
  destruct (run_delete_row f d) as (d1 & -> & Hd1).
  destruct (run_bucket_space (-1) (- f_size f) c bucket d1) as (d2 & -> & Hd2); [by rewrite Hd1|].
  exists d2. split; [done|]. by rewrite Hd2, Hd1.
Qed.

Lemma run_insert_file (f : File) (c bucket : Bucket) d :
  buckets_table (tables d) !! row_key c = Some bucket ->
  exists d', insert_file f c d = (d', Ok tt)
    /\ tables d' = files_update (row_key c) 1 (f_size f)
                     (<[row_key f := f]> (files_table (tables d))) (tables d).
Proof.
  intros Hb. unfold insert_file, mbind, effect_bind.
  destruct (run_insert_row f d) as (d1 & -> & Hd1).
  destruct (run_bucket_space 1 (f_size f) c bucket d1) as (d2 & -> & Hd2); [by rewrite Hd1|].
  exists d2. split; [done|]. by rewrite Hd2, Hd1.
Qed.
End lookups.

(** ** Deleting and renaming files *)
Section actions.
  Context {D M : Type} `{ReliableDatabase D} `{ExtFragmentMetaStore M}.
  Variables (channel_id fragment_size : u32).
  Implicit Types s : AppState D M.

Abbreviation rows s := (tables (db_session s)).

(** The fragments of a file are gone from the nodes, and no other fragment changed. *)
Definition fragments_deleted (f : File) (st st' : NodeState M) : Prop :=
  forall id n, cluster st !! id = Some n -> exists n', cluster st' !! id = Some n'
    /\ (forall c, c ∈ f_chunk_ids f -> server_id c = id -> committed (chunk_id c) (sn_ledger n) ->
          gone (chunk_id c) (sn_ledger n'))
    /\ (forall k, k ∉ chunks_on id (f_chunk_ids f) ->
          chunk_set (sn_ledger n') !! k = chunk_set (sn_ledger n) !! k
          /\ uncommited_map (sn_ledger n') !! k = uncommited_map (sn_ledger n) !! k
          /\ forall u, files (sn_ledger n') !! (k, u) = files (sn_ledger n) !! (k, u)).

Lemma delete_fragments_spec now f (st : NodeState M) :
  fragments_deleted f st
    (fold_left (fun st c => delete_fragment channel_id fragment_size now c st) (f_chunk_ids f) st).
Proof.
  intros id n Hn. rewrite delete_fragments_cluster, Hn. eexists. split; [done|]. cbn. split.
  - intros c Hc Hid Hcom. apply delete_chunks_gone. right. split; [|done].
    unfold chunks_on. apply list_elem_of_fmap. exists c. split; [done|]. by apply list_elem_of_filter.
  - intros k Hk. by destruct (delete_chunks_other (chunks_on id (f_chunk_ids f)) (sn_ledger n) k Hk)
      as (? & _ & ? & ?).
Qed.

Lemma run_query {A} (m : effect D MeowithDataError A) s d r :
  m (db_session s) = (d, r) ->
  query m s = (mkAppState (node_state s) d, map_err client_of_data r).
Proof. intros E. unfold query, on_db, on_err. by rewrite E. Qed.

Lemma run_do_delete_file now (f : File) (c bucket : Bucket) s :
  buckets_table (rows s) !! row_key c = Some bucket ->
  exists s', do_delete_file channel_id fragment_size now f c s = (s', Ok tt)
    /\ tables (db_session s') = files_update (row_key c) (-1) (- f_size f)
         (delete (row_key f) (files_table (rows s))) (rows s)
    /\ fragments_deleted f (node_state s) (node_state s').
Proof.
  intros Hb. unfold do_delete_file. erewrite effect_bind_run by reflexivity.
  destruct (run_delete_file f c bucket (db_session s) Hb) as (d' & E & Hd).
  erewrite run_query by exact E. eexists. split; [done|]. split; [done|]. apply delete_fragments_spec.
Qed.

Lemma run_get_bucket app_id b (bucket : Bucket) s :
  buckets_table (rows s) !! (app_id, b) = Some bucket ->
  exists d, query (get_bucket app_id b) s = (mkAppState (node_state s) d, Ok bucket) /\ tables d = rows s.
Proof.
  intros Hb. destruct (run_find_row (R := Bucket) (app_id, b) (db_session s)) as (d & E & Hd).
  exists d. split; [|done]. unfold get_bucket. erewrite run_query by exact E. cbn [table Bucket_row].
  by rewrite Hb.
Qed.

(** C30: deleting a file.  A file that is not there is not found, and nothing changes.  A file
    that is there loses its record, and only that record goes; its committed fragments are
    gone from every node that can be reached, with no other fragment touched; and the counters
    of the bucket are again the number and the total size of its files. *)
Theorem delete_file_srv_spec now path acc l x s :
  has_permission acc (ep_app_id path) (ep_bucket_id path) DELETE_ALLOWANCE = Ok tt ->
  EntryPath_path path = join (l ++ [x]) -> Forall plain (l ++ [x]) ->
  account (ep_app_id path) (ep_bucket_id path) (rows s) ->
  exists s' r, delete_file_srv channel_id fragment_size now path acc s = (s', r)
    /\ match file_at (rows s) (ep_bucket_id path) l x with
       | None => r = Err NcNotFound /\ rows s' = rows s /\ node_state s' = node_state s
       | Some f => r = Ok tt
           /\ files_table (rows s') = delete (row_key f) (files_table (rows s))
           /\ account (ep_app_id path) (ep_bucket_id path) (rows s')
           /\ fragments_deleted f (node_state s) (node_state s')
       end.
Proof.
  intros Hperm Hpath Hl Hacc. unfold delete_file_srv. rewrite Hperm.
  erewrite effect_bind_run by reflexivity. rewrite Hpath, split_path_of by done. cbn [fst snd].
  pose proof (plain_snoc _ _ Hl) as [Hpl _].
  destruct (ac_bucket _ _ _ Hacc) as (bucket & Hb & Hkb & _).
  destruct (run_get_bucket _ _ _ s Hb) as (d1 & E1 & Hd1). rewrite (effect_bind_run _ _ _ _ _ E1).
  destruct (run_get_file_dir (ep_bucket_id path) l x d1 Hpl) as (d2 & r & E2 & Hd2 & Hr).
  rewrite Hd1 in *. unfold mbind, effect_bind.
  rewrite (run_query _ (mkAppState (node_state s) d1) _ _ E2).
  destruct (file_at (rows s) (ep_bucket_id path) l x) as [f|] eqn:Ef.
  2: { subst r. eexists _, _. split; [done|]. cbn. done. }
  destruct Hr as [o ->]. cbn [map_err fst node_state].
  destruct (run_do_delete_file now f bucket bucket (mkAppState (node_state s) d2)) as (s' & -> & Hs' & Hfr);
    [cbn [db_session]; by rewrite Hd2, Hkb|].
  cbn [db_session node_state] in *. rewrite Hd2, Hkb in Hs'. exists s', (Ok tt). split; [done|].
  split; [done|]. unfold file_at in Ef. destruct (dir_id (rows s) (ep_bucket_id path) l) as [i|]; [|done].
  cbn in Ef. pose proof (ac_keys _ _ _ Hacc _ _ Ef) as Hkf. rewrite Hs'. split; [done|]. split; [|done].
  apply account_delete; [done|by rewrite Hkf|]. by injection Hkf.
Qed.

Definition moved_file (i : Uuid) (name : Text) (utc : Z) (f : File) : File :=
  mkFile (f_bucket_id f) i name (f_id f) (f_size f) (f_chunk_ids f) (f_created f) utc.

Lemma run_update_file_path utc (f : File) o name s :
  exists d, query (update_file_path utc f (DID_of o) name) s
      = (mkAppState (node_state s) d, Ok (moved_file (default ROOT_DIR (DID_of o)) name utc f))
    /\ tables d = batch_move f (moved_file (default ROOT_DIR (DID_of o)) name utc f) (rows s).
Proof.
  destruct (run_execute (batch_move f (moved_file (default ROOT_DIR (DID_of o)) name utc f)) (db_session s))
    as (d & E & Hd). exists d. split; [|done]. unfold update_file_path.
  change (default 0 (DID_of o)) with (default ROOT_DIR (DID_of o)).
  apply (run_query _ s d (Ok (moved_file (default ROOT_DIR (DID_of o)) name utc f))).
  by rewrite (effect_bind_run _ _ _ _ _ E).
Qed.

Lemma file_at_row app b T l x f :
  account app b T -> file_at T b l x = Some f -> files_table T !! row_key f = Some f /\ f_bucket_id f = b.
Proof.
  intros Hacc Hf. unfold file_at in Hf. destruct (dir_id T b l) as [j|]; [|done]. cbn in Hf.
  pose proof (ac_keys _ _ _ Hacc _ _ Hf) as Hk. rewrite Hk. split; [done|]. by injection Hk.
Qed.

(** The move itself, to a free place. *)
Lemma run_move_file app utc f o y i s :
  account app (f_bucket_id f) (rows s) -> files_table (rows s) !! row_key f = Some f ->
  default ROOT_DIR (DID_of o) = i -> files_table (rows s) !! (f_bucket_id f, i, y) = None ->
  exists d, query (update_file_path utc f (DID_of o) y) s = (mkAppState (node_state s) d, Ok (moved_file i y utc f))
    /\ files_table (tables d)
       = delete (row_key f) (<[(f_bucket_id f, i, y) := moved_file i y utc f]> (files_table (rows s)))
    /\ account app (f_bucket_id f) (tables d).
Proof.
  intros Hacc Hf Ho Hfree. destruct (run_update_file_path utc f o y s) as (d & E & Hd). rewrite Ho in *.
  exists d. split; [done|]. rewrite Hd. split; [done|]. by apply account_move.
Qed.

(** C31: renaming a file to another place.  If nothing is there, the file is found there with
    its id, size and fragments, no longer at its old place, and no fragment is touched.  A file
    that is there is replaced if the token may delete, and its fragments are gone; without
    that permission the request is refused and nothing changes.  The counters of the bucket
    stay exact. *)
Theorem rename_file_srv_spec now utc path req acc l x m y f i s :
  let b := ep_bucket_id path in
  let g := files_table (rows s) !! (b, i, y) in
  let f' := moved_file i y utc f in
  EntryPath_path path = join (l ++ [x]) -> Rename_path req = join (m ++ [y]) ->
  Forall plain (l ++ [x]) -> Forall plain (m ++ [y]) ->
  file_at (rows s) b l x = Some f -> dir_id (rows s) b m = Some i -> row_key f <> (b, i, y) ->
  account (ep_app_id path) b (rows s) ->
  exists s' r, rename_file_srv channel_id fragment_size now utc path req acc s = (s', r)
    /\ match g, has_permission acc (ep_app_id path) b DELETE_ALLOWANCE with
       | Some _, Err e => r = Err e /\ rows s' = rows s /\ node_state s' = node_state s
       | _, _ => r = Ok tt
           /\ files_table (rows s') = delete (row_key f) (<[(b, i, y) := f']> (files_table (rows s)))
           /\ account (ep_app_id path) b (rows s')
           /\ match g with
              | Some g => fragments_deleted g (node_state s) (node_state s')
              | None => node_state s' = node_state s
              end
       end.
Proof.
  intros b g f' Hpath Hreq Hlx Hmy Hf Hi Hne Hacc. unfold rename_file_srv. fold b. rewrite Hpath, Hreq.
  pose proof (plain_snoc _ _ Hlx) as [Hl _]. pose proof (plain_snoc _ _ Hmy) as [Hm _].
  destruct (file_at_row _ _ _ _ _ _ Hacc Hf) as [Hfrow Hfb]. rewrite decide_False.
  2: { intros E. apply join_inj in E; [|done..]. apply app_inj_tail in E as [-> ->].
       unfold file_at in Hf. rewrite Hi in Hf. cbn in Hf. by apply (ac_keys _ _ _ Hacc) in Hf. }
  rewrite !split_path_of by done. cbn [fst snd].
  destruct (run_get_file_dir b l x (db_session s) Hl) as (d1 & r1 & E1 & Hd1 & Hr1). rewrite Hf in Hr1.
  destruct Hr1 as [o1 ->]. erewrite effect_bind_run by (by apply (run_query _ s _ _ E1)).
  destruct (run_maybe_get_file_dir b m y i d1 Hm) as (d2 & o & E2 & Hd2 & Ho); [by rewrite Hd1|].
  erewrite effect_bind_run by (by apply (run_query _ (mkAppState (node_state s) d1) _ _ E2)).
  rewrite Hd1 in *. cbn [fst snd node_state]. fold g.
  destruct g as [g0|] eqn:Eg.
  - destruct (has_permission acc (ep_app_id path) b DELETE_ALLOWANCE) as [[]|e].
    2: { eexists _, _. split; [reflexivity|]. cbn. by rewrite Hd2. }
    erewrite effect_bind_run by reflexivity.
    destruct (ac_bucket _ _ _ Hacc) as (bucket & Hb & Hkb & _).
    destruct (run_get_bucket (ep_app_id path) b bucket (mkAppState (node_state s) d2)) as (d3 & E3 & Hd3);
      [cbn; by rewrite Hd2|]. rewrite (effect_bind_run _ _ _ _ _ E3). cbn [node_state db_session] in *.
    destruct (run_do_delete_file now g0 bucket bucket (mkAppState (node_state s) d3)) as (s4 & E4 & Hs4 & Hfr);
      [cbn [db_session]; by rewrite Hd3, Hd2, Hkb|]. rewrite (effect_bind_run _ _ _ _ _ E4). cbn [node_state db_session] in *.
    rewrite Hd3, Hd2, Hkb in Hs4. pose proof (ac_keys _ _ _ Hacc _ _ Eg) as Hkg.
    assert (Hfiles : files_table (rows s4) = delete (b, i, y) (files_table (rows s))).
    { by rewrite Hs4, files_update_files, Hkg. }
    destruct (run_move_file (ep_app_id path) utc f o y i s4) as (d5 & E5 & Hd5 & Hacc5); try done.
    { rewrite Hfb, Hs4. apply account_delete; [done|by rewrite Hkg|by injection Hkg]. }
    { by rewrite Hfiles, lookup_delete_ne. }
    { rewrite Hfiles, Hfb. apply lookup_delete_eq. }
    rewrite (effect_bind_run _ _ _ _ _ E5). eexists _, _. split; [reflexivity|]. rewrite Hfb in Hd5, Hacc5.
    split; [done|]. split; [|split; [exact Hacc5|exact Hfr]].
    cbn [db_session]. rewrite Hd5, Hfiles. f_equal. apply insert_delete_eq.
  - destruct (run_move_file (ep_app_id path) utc f o y i (mkAppState (node_state s) d2)) as (d3 & E3 & Hd3 & Hacc3);
      cbn [db_session]; rewrite ?Hd2, ?Hfb; try done.
    rewrite (effect_bind_run _ _ _ _ _ E3). eexists _, _. split; [reflexivity|]. cbn [db_session node_state] in *.
    rewrite Hfb in Hd3, Hacc3. rewrite Hd2 in Hd3. done.
Qed.
End actions.

(** ** Examples *)
(** Node 1 stores the fragment 500 of the file [f], three bytes, in the root of bucket 7. *)
Definition ledger500 : Ledger (gmap Uuid ExtFragmentMeta) :=
  mkLedger {[500 := mkFragmentMeta 3 4096]} ∅ ∅ (Some ∅) 10000 4096 3 0 false
    {[(500, false) := mkFragFile [1; 2; 3] 4096]}.

Definition file500 : File := mkFile 7 ROOT_DIR (str "f") 20 3 [mkFileChunk 1 500 3 0] 0 0.

Definition bucket7 : Bucket := mkBucket 1 7 (str "b") false false 10 1 3 0 0.

Definition state500 : AppState Tables (gmap Uuid ExtFragmentMeta) :=
  mkAppState (mkState 1 {[1 := mkNode ledger500 (LockTable_new 10)]} [] 0)
    (row_insert file500 (row_insert bucket7 no_rows)).

Lemma account500 : account 1 7 (db_session state500).
Proof.
  assert (Hf : bucket_files (db_session state500) 7 = {[row_key file500 := file500]})
    by (vm_compute; reflexivity).
  assert (Hk : forall k f, files_table (db_session state500) !! k = Some f -> k = row_key file500 /\ f = file500).
  { intros k f. change (files_table (db_session state500)) with ({[row_key file500 := file500]} : gmap _ File).
    intros [<- <-]%lookup_singleton_Some. split; reflexivity. }
  split; rewrite ?Hf.
  - exists bucket7. split; [vm_compute; reflexivity|]. split; [done|]. split; vm_compute; reflexivity.
  - intros k f [-> ->]%Hk. reflexivity.
  - intros k f [-> ->]%Hk. by vm_compute.
  - by vm_compute.
  - by vm_compute.
Qed.

Lemma file_at_500 : file_at (db_session state500) 7 [] (str "f") = Some file500.
Proof. vm_compute. reflexivity. Qed.

Lemma delete_file_srv_spec_witness :
  exists s', delete_file_srv 7 300 0 (entry "f") all_allowed state500 = (s', Ok tt)
    /\ account 1 7 (db_session s')
    /\ exists n', cluster (node_state s') !! 1 = Some n' /\ gone 500 (sn_ledger n').
Proof.
  destruct (delete_file_srv_spec (D := Tables) 7 300 0 (entry "f") all_allowed [] (str "f") state500)
    as (s' & r & E & Hr).
  - vm_compute. reflexivity.
  - reflexivity.
  - by vm_compute; repeat constructor.
  - exact account500.
  - change (ep_bucket_id (entry "f")) with 7 in Hr.
    change (tables (db_session state500)) with (db_session state500) in Hr.
    rewrite file_at_500 in Hr. destruct Hr as (-> & _ & Ha & Hd). exists s'. split; [exact E|].
    split; [exact Ha|].
    destruct (Hd 1 (mkNode ledger500 (LockTable_new 10)) ltac:(vm_compute; reflexivity)) as (n' & Hn' & Hg & _).
    exists n'. split; [exact Hn'|]. apply (Hg (mkFileChunk 1 500 3 0)); [by left|reflexivity|].
    split; [|split]; [vm_compute; reflexivity|by eexists|by eexists].
Defined.

Lemma rename_file_srv_spec_witness :
  exists s', rename_file_srv 7 300 0 9 (entry "f") (rename_to "g") all_allowed state500 = (s', Ok tt)
    /\ account 1 7 (db_session s').
Proof.
  destruct (rename_file_srv_spec (D := Tables) 7 300 0 9 (entry "f") (rename_to "g") all_allowed
              [] (str "f") [] (str "g") file500 ROOT_DIR state500) as (s' & r & E & Hr).
  - reflexivity.
  - reflexivity.
  - by vm_compute; repeat constructor.
  - by vm_compute; repeat constructor.
  - exact file_at_500.
  - reflexivity.
  - discriminate.
  - exact account500.
  - assert (Hg : files_table (db_session state500) !! (7, ROOT_DIR, str "g") = None) by (vm_compute; reflexivity).
    change (tables (db_session state500)) with (db_session state500) in Hr.
    change (ep_bucket_id (entry "f")) with 7 in Hr. rewrite Hg in Hr.
    exists s'. destruct Hr as (-> & _ & Ha & _). split; [exact E|exact Ha].
Defined.

(** Renaming a file to another spelling of its own path destroys it.  The path [f/.] names
    the same file as [f]: the file is deleted as the one to be replaced, and the batch that
    should move it deletes its record. *)
Theorem rename_alias_destroys :
  exists s', rename_file_srv 7 300 0 9 (entry "f") (rename_to "f/.") all_allowed state500 = (s', Ok tt)
    /\ files_table (db_session s') = ∅
    /\ exists n', cluster (node_state s') !! 1 = Some n' /\ files (sn_ledger n') = ∅.
Proof. eexists. vm_compute. split; [reflexivity|]. split; [reflexivity|]. eexists. split; reflexivity. Qed.
