(* ===== verification/Uploads.v ===== *)
(** * Uploads

    The upload handlers of [node/src/public/service/file_access_service.rs]: an upload in one
    request, and an upload through a durable session that can be interrupted and resumed.

    [inbound_transfer] and the ticks of the notifier are arguments of a request: the [i]-th
    transfer changes the cluster and ends in any way, and before it the notifier ticks any
    number of times.  What is proved holds for all of them. *)
From Stdlib Require Import ZArith Lia List Ascii.
From stdpp Require Import base numbers list strings gmap.
From S2P Require Import Prelude Errors MdsftpData MdsftpWire MdsftpChannel MetaStore FragmentLedger LockTable LedgerCorrect.
From S2P Require Import ChannelHandler Placement FileAccess Paths Permissions Database UploadSessions Directories FileServices.
Local Open Scope Z_scope.

(** A transfer to a fragment: the bytes to skip, the node, the fragment, its size, and whether
    the bytes are appended. *)
Record Transfer : Type := mkTransfer {
  tr_skip : u64;
  tr_node_id : Uuid;
  tr_chunk_id : Uuid;
  tr_size : u64;
  tr_append : bool
}.

Section uploads.
  Context {D M : Type} `{Database D} `{ExtFragmentMetaStore M}.
  Variable new_v4 : nat -> Uuid.
  Variables (channel_id : u32) (fragment_size : u32).
  (** The clocks at the start and at the end of the request. *)
  Variables (now utc utc_end : Z).
  Variable refresh : NodeClientResponse (option (list (Uuid * u64))).
  Variable inbound_transfer : nat -> Transfer -> NodeState M -> NodeState M * NodeClientResponse unit.
  Variable ticks : nat -> list (Z * Z).

Abbreviation Service A := (effect (AppState D M) NodeClientError A).

Definition commit_fragment (at_ : Z) (flags : CommitFlags) (c : FileChunk) : Service unit :=
  on_nodes (service_commit_chunk channel_id fragment_size at_ flags (server_id c) (chunk_id c)).

(** [try_mkdir], whose ids come from the same source; those it does not use are skipped. *)
Definition mkdir (bucket_id : Uuid) (path : Text) : Service (option Directory) := fun s =>
  let st := node_state s in
  on_db (try_mkdir (fun i => new_v4 (drawn st + i)) (fun _ => utc_end) bucket_id path)
    (mkAppState (advance (S (length path)) st) (db_session s)).

Definition end_session (split_path : option Text * Text) (size : i64) (session : BucketUploadSession)
    (bucket : Bucket) (app_session_ids : Uuid * Uuid) (old_file : option (option File)) (file_id : Uuid)
    : Service unit :=
  for_each (commit_fragment now CommitFlags_final) (s_fragments session);;
  directory ← match split_path.1 with
              | Some directory => dir ← mkdir (b_id bucket) directory; mret (d_id <$> dir)
              | None => mret (Some ROOT_DIR)
              end;
  let file := mkFile (b_id bucket) (default ROOT_DIR directory) split_path.2 file_id size
                (s_fragments session) utc_end utc_end in
  found ← attempt (on_db (get_file (b_id bucket) directory split_path.2));
  let old_file := match old_file with
                  | Some old_file => old_file
                  | None => match found with Ok f => Some f | Err _ => None end
                  end in
  match old_file with
  | Some old_file => do_delete_file channel_id fragment_size now old_file bucket
  | None => mret tt
  end;;
  query (insert_file file bucket);;
  on_db (UploadSessions.end_session app_session_ids.1 (b_id bucket) app_session_ids.2).

(** One tick of the notifier: the fragments are kept alive, then the session. *)
Definition notifier_tick (t : Z * Z) (session : BucketUploadSession) (s : AppState D M)
    : AppState D M * BucketUploadSession :=
  let '(s, _) := for_each (commit_fragment t.1 CommitFlags_keep_alive) (s_fragments session) s in
  let '(d, (session, _)) := update_session t.2 session (db_session s) in
  (mkAppState (node_state s) d, session).

Definition run_notifier (ts : list (Z * Z)) (session : BucketUploadSession) (s : AppState D M)
    : AppState D M * BucketUploadSession :=
  fold_left (fun '(s, session) t => notifier_tick t session s) ts (s, session).

(** The transfers one after the other up to the first error, beside the notifier. *)
Fixpoint transfer_all (i : nat) (trs : list Transfer) (session : BucketUploadSession)
    : Service (BucketUploadSession * NodeClientResponse unit) := fun s =>
  let '(s, session) := run_notifier (ticks i) session s in
  match trs with
  | [] => (s, Ok (session, Ok tt))
  | tr :: trs =>
      match on_nodes (inbound_transfer i tr) s with
      | (s, Ok _) => transfer_all (S i) trs session s
      | (s, Err e) => (s, Ok (session, Err e))
      end
  end.

Definition quota_exceeded (bucket : Bucket) (size : u64) (reserved : i64) : bool :=
  bool_decide (b_quota bucket < i64_add (i64_add (b_space_taken bucket) (as_i64 size)) reserved).

Definition handle_upload_oneshot (path : EntryPath) (size : u64) (acc : BucketAccessor) : Service unit :=
  let app_id := ep_app_id path in
  let bucket_id := ep_bucket_id path in
  of_result (has_permission acc app_id bucket_id UPLOAD_ALLOWANCE);;
  let split_path := split_path (EntryPath_path path) in
  bucket ← query (get_bucket app_id bucket_id);
  file ← attempt (on_db (get_file_dir bucket_id split_path.1 split_path.2));
  overwritten ← match file with
    | Ok file =>
        of_result (has_permission acc app_id bucket_id UPLOAD_OVERWRITE_ALLOWANCE);;
        if b_atomic_upload bucket then mret (true, Some file.1)
        else do_delete_file channel_id fragment_size now file.1 bucket;; mret (true, None)
    | Err _ => mret (false, None)
    end;
  reserved ← on_db (get_reserved_space utc app_id bucket_id);
  if quota_exceeded bucket size reserved then throw NcInsufficientStorage
  else
    file_id ← draw_id new_v4;
    reservation ← on_nodes (reserve_chunks new_v4 now channel_id fragment_size size
      (mkReserveFlags true false false overwritten.1) (b_id bucket) file_id PreferSelfThenMostFree refresh);
    id ← draw_id new_v4;
    let session := mkSession app_id bucket_id id file_id (EntryPath_path path) (as_i64 size) false
      (reserve_info_to_file_chunks reservation) utc (i8_of_SessionState Writing) in
    session_id ← on_db (start_session session);
    transferred ← transfer_all 0 (map (fun space =>
      mkTransfer 0 (rf_node_id space) (rf_chunk_id space) (rf_size space) false) reservation) session;
    match transferred.2 with
    | Err err =>
        on_db (UploadSessions.end_session app_id bucket_id session_id);;
        for_each (commit_fragment now CommitFlags_reject) (s_fragments transferred.1);;
        throw err
    | Ok _ =>
        end_session split_path (as_i64 size) transferred.1 bucket (app_id, session_id)
          (Some overwritten.2) file_id
    end.

Definition start_upload_session (path : EntryPath) (acc : BucketAccessor) (size : u64)
    : Service (Uuid * u32 * u64) :=
  let app_id := ep_app_id path in
  let bucket_id := ep_bucket_id path in
  of_result (map_err (fun _ => NcBadRequest) (has_permission acc app_id bucket_id UPLOAD_ALLOWANCE));;
  let split_path := split_path (EntryPath_path path) in
  bucket ← query (get_bucket app_id bucket_id);
  file ← attempt (on_db (get_file_dir bucket_id split_path.1 split_path.2));
  overwrite ← match file with
    | Ok file =>
        of_result (has_permission acc app_id bucket_id UPLOAD_OVERWRITE_ALLOWANCE);;
        (if b_atomic_upload bucket then mret tt
         else do_delete_file channel_id fragment_size now file.1 bucket);; mret true
    | Err _ => mret false
    end;
  reserved ← on_db (get_reserved_space utc app_id bucket_id);
  if quota_exceeded bucket size reserved then throw NcInsufficientStorage
  else
    file_id ← draw_id new_v4;
    reservation ← on_nodes (reserve_chunks new_v4 now channel_id fragment_size size
      (mkReserveFlags false true true overwrite) (b_id bucket) file_id PreferSelfThenMostFree refresh);
    id ← draw_id new_v4;
    let session := mkSession app_id bucket_id id file_id (EntryPath_path path) (as_i64 size) true
      (reserve_info_to_file_chunks reservation) utc (i8_of_SessionState AwaitingData) in
    session_id ← on_db (start_session session);
    mret (session_id, DURABLE_UPLOAD_SESSION_VALIDITY_TIME_SECS, 0).

(** [query_chunk] of every fragment, up to the first error. *)
Fixpoint query_all (cs : list FileChunk) : Service (list (option u64)) :=
  match cs with
  | [] => mret []
  | c :: cs =>
      size ← on_nodes (service_query_chunk channel_id fragment_size now (chunk_id c) (server_id c));
      sizes ← query_all cs;
      mret (size :: sizes)
  end.

(** [.map(|item| item.unwrap_or(0) as i64).sum()] *)
Definition sum_uploaded (sizes : list (option u64)) : i64 :=
  fold_left (fun acc size => i64_add acc (as_i64 (default 0 size))) sizes 0.

(** [try_lock_session] on the handler's copy of the session. *)
Definition lock_session (session : BucketUploadSession) (expected target : SessionState)
    : Service BucketUploadSession := fun s =>
  let '(d, (session, r)) := try_lock_session utc session expected target (db_session s) in
  (mkAppState (node_state s) d, match r with Ok _ => Ok session | Err e => Err e end).

(** The fragments from the one to continue with: only that one skips and appends. *)
Definition resumed_transfers (skip : u64) (first : bool) (cs : list FileChunk) : list Transfer :=
  imap (fun i c => mkTransfer (if decide (i = 0%nat) then skip else 0) (server_id c) (chunk_id c)
                     (wrap 64 (chunk_size c)) (if decide (i = 0%nat) then first else false)) cs.

Definition interrupted (session : BucketUploadSession) : Service unit := fun s =>
  let '(d, (_, r)) := update_session utc_end (with_state TimedOut session) (db_session s) in
  (mkAppState (node_state s) d, match r with Ok _ => Err NcBadRequest | Err e => Err e end).

Definition handle_upload_durable (session_id app_id bucket_id : Uuid) : Service unit :=
  session ← on_db (get_session app_id bucket_id session_id);
  bucket ← query (get_bucket app_id bucket_id);
  session ← lock_session session AwaitingData Writing;
  let sorted_chunks := sort_by_order (s_fragments session) in
  sizes ← query_all sorted_chunks;
  let already_uploaded := sum_uploaded sizes in
  let split_path := split_path (s_path session) in
  if decide (already_uploaded = s_size session) then
    end_session split_path (s_size session) session bucket (app_id, session_id) None (s_file_id session)
  else
    match resume_point 0 already_uploaded (map chunk_size sorted_chunks) 0 with
    | None => throw NcInternalError
    | Some (i, skip) =>
        let first := bool_decide (0 < already_uploaded) in
        let skip := if first then wrap 64 skip else 0 in
        transferred ← transfer_all 0 (resumed_transfers skip first (drop i sorted_chunks)) session;
        let session := transferred.1 in
        match transferred.2 with
        | Err _ => interrupted session
        | Ok _ =>
            end_session split_path (s_size session) session bucket (app_id, session_id) None
              (s_file_id session)
        end
    end.

Definition resume_upload_session (app_id bucket_id session_id : Uuid) : Service i64 :=
  session ← on_db (get_session app_id bucket_id session_id);
  session ← lock_session session TimedOut AwaitingData;
  sizes ← query_all (sort_by_order (s_fragments session));
  mret (sum_uploaded sizes).
End uploads.

(** ** Committing fragments *)
Section commits.
  Context {M : Type} `{ExtFragmentMetaStore M}.
  Variables (channel_id fragment_size : u32).
  Implicit Types L : Ledger M.

Definition apply_commit (at_ : Z) (flags : CommitFlags) (id : Uuid) L : Ledger M :=
  if final flags then fst (commit_chunk id L)
  else if keep_alive flags then fst (commit_alive at_ id L)
  else if reject flags then fst (delete_chunk id L)
  else L.

Definition apply_commits (at_ : Z) (flags : CommitFlags) (ids : list Uuid) L : Ledger M :=
  fold_left (fun L id => apply_commit at_ flags id L) ids L.

Lemma await_commit_ok : await_commit channel_id [respond_commit_ok channel_id] = Ok tt.
Proof.
  unfold await_commit.
  pose proof (handle_reply (H := list HandlerCall) (fun _ => true) channel_id RCommitOk
    (set_commit_sender (Some 0%nat) (Channel_new channel_id)) I) as E.
  simpl in E. by rewrite E.
Qed.

(** The same on the node itself and on another node, if it can be reached. *)
Lemma commit_cluster at_ flags node id (st : NodeState M) :
  let '(st', r) := service_commit_chunk channel_id fragment_size at_ flags node id st in
  cluster st' = alter (fun n => mkNode (apply_commit at_ flags id (sn_ledger n)) (sn_locks n)) node (cluster st)
  /\ self_id st' = self_id st
  /\ (r = Ok tt <-> node = self_id st \/ is_Some (cluster st !! node)).
Proof.
  set (f := fun n : StorageNode M => mkNode (apply_commit at_ flags id (sn_ledger n)) (sn_locks n)).
  pose proof (fun n => insert_alter f (cluster st) node n) as Halter.
  unfold service_commit_chunk, local_ledger, remote_call. case_decide as Hself.
  - rewrite <- Hself. destruct (cluster st !! node) as [n|] eqn:En.
    + split; [by apply Halter|]. split; [done|]. split; [by left|done].
    + split; [by rewrite alter_absent|]. split; [done|]. split; [by left|done].
  - destruct (cluster st !! node) as [n|] eqn:En.
    + cbn [handle_commit]. unfold handle_commit. cbn [out h_out packets with_ledger h_sid].
      change (packets _) with [respond_commit_ok channel_id] at 1. rewrite await_commit_ok.
      split; [by apply Halter|]. split; [done|]. split; [right; by eexists|done].
    + split; [by rewrite alter_absent|]. split; [done|]. split; [done|].
      intros [?|[? ?]]; done.
Qed.
End commits.

(** ** The records *)
Definition same_records (T T' : Tables) : Prop :=
  files_table T' = files_table T /\ directories_table T' = directories_table T
  /\ buckets_table T' = buckets_table T.

#[global] Instance same_records_preorder : PreOrder same_records.
Proof.
  split; [done|]. intros T1 T2 T3 (? & ? & ?) (? & ? & ?).
  unfold same_records. split_ands; congruence.
Qed.

Lemma account_records app_id b T T' :
  files_table T' = files_table T -> buckets_table T' = buckets_table T ->
  account app_id b T -> account app_id b T'.
Proof.
  intros Ef Eb [Hb Hk Hz Hc Hs]. split; unfold bucket_files in *; rewrite ?Ef, ?Eb; done.
Qed.

Lemma directories_only_records T T' :
  directories_only T T' -> files_table T' = files_table T /\ buckets_table T' = buckets_table T
    /\ sessions_table T' = sessions_table T.
Proof. unfold directories_only. intros ->. done. Qed.

Section keeps.
  Context {D M : Type} `{ReliableDatabase D} `{ExtFragmentMetaStore M}.
  Implicit Types s : AppState D M.

Abbreviation rows s := (tables (db_session s)).
Abbreviation Service A := (effect (AppState D M) NodeClientError A).

(** Computations that change no file, directory or bucket, and those that may only when they
    succeed. *)
Definition keeps {A} (m : Service A) : Prop := forall s, same_records (rows s) (rows (m s).1).

Definition outcome {A} (m : Service A) s (Q : A -> AppState D M -> Prop) : Prop :=
  match m s with
  | (s', Ok a) => Q a s'
  | (s', Err _) => same_records (rows s) (rows s')
  end.

Lemma keeps_bind {A B} (m : Service A) (f : A -> Service B) :
  keeps m -> (forall a, keeps (f a)) -> keeps (m ≫= f).
Proof.
  intros Hm Hf s. unfold mbind, effect_bind. specialize (Hm s). destruct (m s) as [s1 [a|e]]; [|done].
  cbn [fst] in Hm. etrans; [exact Hm|apply Hf].
Qed.

Lemma outcome_bind {A B} (m : Service A) (f : A -> Service B) s Q :
  keeps m -> (forall a s', same_records (rows s) (rows s') -> outcome (f a) s' Q) ->
  outcome (m ≫= f) s Q.
Proof.
  intros Hm Hf. unfold outcome, mbind, effect_bind. specialize (Hm s).
  destruct (m s) as [s1 [a|e1]]; cbn [fst] in Hm; [|done].
  specialize (Hf a s1 Hm). unfold outcome in Hf. destruct (f a s1) as [s2 [c|e]]; [done|]. by etrans.
Qed.

Lemma outcome_fail {A} (m : Service A) s Q :
  keeps m -> (forall s' a, m s <> (s', Ok a)) -> outcome m s Q.
Proof.
  intros Hm Hne. unfold outcome. specialize (Hm s). destruct (m s) as [s1 [a|e]]; [|done].
  by destruct (Hne s1 a).
Qed.

Lemma outcome_with {A} (m : Service A) s Q (P : Prop) T :
  rows s = T -> outcome m s Q -> P ->
  match m s with (s', Ok a) => Q a s' /\ P | (s', Err _) => same_records T (rows s') end.
Proof. intros <-. unfold outcome. by destruct (m s) as [s' [a|e]]. Qed.

Lemma keeps_ret {A} (r : NodeClientResponse A) : keeps (of_result r).
Proof. done. Qed.

Lemma keeps_on_nodes {A} (f : NodeState M -> NodeState M * NodeClientResponse A) : keeps (on_nodes f).
Proof. intros s. unfold on_nodes. by destruct (f (node_state s)). Qed.

Lemma keeps_for_each {A} (f : A -> Service unit) l : (forall a, keeps (f a)) -> keeps (for_each f l).
Proof. intros Hf. induction l as [|a l IH]; [done|]. apply keeps_bind; [apply Hf|done]. Qed.

(** Queries on the database that only read, or write sessions only. *)
Lemma keeps_on_db {E A} (m : effect D E A) :
  (forall d, same_records (tables d) (tables (m d).1)) ->
  forall s, same_records (rows s) (rows (on_db (M := M) m s).1).
Proof. intros Hm s. unfold on_db. specialize (Hm (db_session s)). by destruct (m (db_session s)). Qed.

Lemma reserved_keeps utc app_id b (d : D) :
  same_records (tables d) (tables (get_reserved_space utc app_id b d).1).
Proof.
  unfold get_reserved_space, mbind, effect_bind, on_err, get_upload_sessions.
  edestruct (run_select (D := D) (R := BucketUploadSession)) as (d1 & l & -> & Hd1 & _).
  cbn [map_err]. destruct (run_sum_valid utc l 0 d1) as (d2 & -> & Hd2). cbn [fst].
  rewrite Hd2, Hd1. generalize (tables d) as T. clear.
  induction l as [|x l IH]; intros T; [done|]. cbn [fold_left]. etrans; [|apply IH].
  by destruct (session_valid utc x).
Qed.

Lemma update_session_keeps utc session (d : D) :
  same_records (tables d) (tables (update_session utc session d).1).
Proof.
  unfold update_session, try_update_upload_session.
  edestruct (reliable_exec_if (D := D)) as (d' & -> & E).
  destruct (last_access_is session (tables d)); [cbn; by rewrite E|].
  destruct (table (tables d) !! row_key session); cbn; by rewrite E.
Qed.

Lemma end_session_keeps app_id b id (d : D) :
  same_records (tables d) (tables (UploadSessions.end_session app_id b id d).1).
Proof. destruct (run_end_session app_id b id d) as (d' & -> & E). cbn. by rewrite E. Qed.

Lemma start_session_keeps session (d : D) :
  same_records (tables d) (tables (start_session session d).1).
Proof.
  unfold start_session, insert_upload_session, mbind, effect_bind, on_err.
  destruct (run_insert_row session d) as (d' & -> & E). cbn. by rewrite E.
Qed.
End keeps.

(** ** Ending an upload *)
(** A fragment that is complete but not committed, and one that was committed. *)
Definition pending {M} (id : Uuid) (f : FragFile) (L : Ledger M) : Prop :=
  is_Some (uncommited_map L !! id) /\ files L !! get_path id true = Some f /\ is_Some (chunk_set L !! id).

Definition published {M} (id : Uuid) (f : FragFile) (L : Ledger M) : Prop :=
  uncommited_map L !! id = None /\ files L !! get_path id false = Some f /\ is_Some (chunk_set L !! id).

Definition reachable {M} (st : NodeState M) (cs : list FileChunk) : Prop :=
  Forall (fun c => server_id c = self_id st \/ is_Some (cluster st !! server_id c)) cs.

Section ending.
  Context {D M : Type} `{ReliableDatabase D} `{ExtFragmentMetaStore M}.
  Variable new_v4 : nat -> Uuid.
  Variables (channel_id fragment_size : u32).
  Variables (now utc_end : Z).
  Implicit Types s : AppState D M.
  Implicit Types L : Ledger M.

Abbreviation rows s := (tables (db_session s)).

Lemma commit_pending id f L : pending id f L -> published id f (fst (commit_chunk id L)).
Proof.
  intros ([c Hu] & Hf & Hc). unfold commit_chunk. rewrite Hu, Hf. cbn.
  split; [apply lookup_delete_eq|]. split; [apply lookup_insert_eq|done].
Qed.

Lemma published_commit id f k L : published id f L -> published id f (fst (commit_chunk k L)).
Proof.
  intros (Hu & Hf & Hc). unfold commit_chunk.
  assert (Hd : delete k (uncommited_map L) !! id = None) by (apply lookup_delete_None; by right).
  destruct (uncommited_map L !! k) as [c|] eqn:Ek; [|by split].
  assert (Hne : id <> k) by congruence.
  destruct (files L !! get_path k true); cbn; split; cbn; try done. split; [|done].
  unfold get_path in *. rewrite lookup_insert_ne, lookup_delete_ne by congruence. done.
Qed.

Lemma commit_other id f k L : id <> k -> pending id f L -> pending id f (fst (commit_chunk k L)).
Proof.
  intros Hne (Hu & Hf & Hc). unfold commit_chunk, pending, get_path in *.
  destruct (uncommited_map L !! k), (files L !! (k, true)); cbn;
    rewrite ?lookup_delete_ne, ?lookup_insert_ne, ?lookup_delete_ne by congruence; done.
Qed.

Lemma commits_publish at_ ids : forall L id f,
  published id f L \/ (id ∈ ids /\ pending id f L) ->
  published id f (apply_commits at_ CommitFlags_final ids L).
Proof.
  induction ids as [|k ids IH]; intros L id f Hp; [by destruct Hp as [?|[?%elem_of_nil _]]|].
  apply IH. cbn. destruct Hp as [Hp|[Hin Hp]]; [left; by apply published_commit|].
  destruct (decide (id = k)) as [->|Hne]; [left; by apply commit_pending|].
  right. apply elem_of_cons in Hin as [?|Hin]; [done|]. split; [done|]. by apply commit_other.
Qed.

Lemma run_commits at_ flags cs : forall s,
  let '(s', r) := for_each (commit_fragment channel_id fragment_size at_ flags) cs s in
  db_session s' = db_session s /\ self_id (node_state s') = self_id (node_state s)
  /\ (r = Ok tt -> forall id, cluster (node_state s') !! id
        = (fun n => mkNode (apply_commits at_ flags (chunks_on id cs) (sn_ledger n)) (sn_locks n))
            <$> cluster (node_state s) !! id)
  /\ (reachable (node_state s) cs -> r = Ok tt).
Proof.
  induction cs as [|c cs IH]; intros s; cbn [for_each].
  { split; [done|]. split; [done|]. split; [|done]. intros _ id. cbn. by destruct (cluster (node_state s) !! id) as [[]|]. }
  unfold mbind, effect_bind, commit_fragment at 1, on_nodes.
  pose proof (commit_cluster channel_id fragment_size at_ flags (server_id c) (chunk_id c) (node_state s)) as Hc.
  destruct (service_commit_chunk _ _ _ _ _ _ _) as [st r]. destruct Hc as (Hcl & Hself & Hr).
  destruct r as [[]|e].
  - specialize (IH (mkAppState st (db_session s))).
    destruct (for_each _ cs _) as [s' r]. cbn [node_state db_session] in *.
    destruct IH as (-> & -> & Hall & Hok). split_ands; [done|done| |].
    + intros Er id. rewrite (Hall Er), Hcl. unfold chunks_on. rewrite filter_cons. case_decide as Hid.
      * subst id. rewrite lookup_alter_eq. by destruct (cluster (node_state s) !! server_id c).
      * by rewrite lookup_alter_ne.
    + intros [_ Hre]%Forall_cons. apply Hok. eapply Forall_impl; [exact Hre|].
      intros x. cbn. rewrite Hself, Hcl. intros [?|[n Hn]]; [by left|]. right.
      destruct (decide (server_id c = server_id x)) as [E|Hne].
      * rewrite <- E in *. rewrite lookup_alter_eq, Hn. by eexists.
      * rewrite lookup_alter_ne by done. by eexists.
  - split_ands; [done|done|done|]. intros [Hre _]%Forall_cons. by apply Hr in Hre.
Qed.

(** The id of the directory of the file, which is created if it is missing. *)
Lemma run_mkdir_id b l s :
  Forall plain l -> dir_tree (rows s) ->
  exists s' i, match parent_of l with
               | Some directory => dir ← mkdir new_v4 utc_end b directory; mret (d_id <$> dir)
               | None => mret (Some ROOT_DIR)
               end s = (s', Ok (Some i))
    /\ cluster (node_state s') = cluster (node_state s) /\ self_id (node_state s') = self_id (node_state s)
    /\ directories_only (rows s) (rows s') /\ dir_tree (rows s')
    /\ dir_id (rows s') b l = Some i
    /\ (dir_id (rows s) b l = Some i \/ (dir_id (rows s) b l = None /\ exists j, i = new_v4 j)).
Proof.
  intros Hl Ht. destruct l as [|z p _] using rev_ind.
  { exists s, ROOT_DIR. split_ands; try done; [apply directories_only_refl|by left]. }
  replace (parent_of (p ++ [z])) with (Some (join (p ++ [z]))) by (by destruct p).
  destruct (run_try_mkdir (fun i => new_v4 (drawn (node_state s) + i)) (fun _ => utc_end) b p z (db_session s) Hl Ht)
    as (d' & dir & E & Hdir & Hor & Ht' & Hkeep & _ & Honly).
  unfold mbind, effect_bind, mkdir, on_db. cbn [db_session]. rewrite E. cbn.
  eexists _, _. split; [reflexivity|]. cbn [node_state db_session]. rewrite !dir_id_snoc, Hdir.
  split_ands; try done. destruct Hor as [->|[j Hj]]; [by left|].
  destruct (directories_table (rows s) !! (b, join p, z)) as [o|] eqn:Eo.
  - left. apply Hkeep in Eo. rewrite Hdir in Eo. by injection Eo as ->.
  - right. split; [done|]. eauto.
Qed.

(** What the end of an upload leaves, from the state in which all its bytes are stored. *)
Record upload_ended (app_id b : Uuid) (l : list Text) (x : Text) (size : Z) (frags : list FileChunk)
    (session_id file_id : Uuid) s s' : Prop := {
  ue_file : exists i, dir_id (rows s') b l = Some i
    /\ files_table (rows s') = <[(b, i, x) := mkFile b i x file_id size frags utc_end utc_end]>
                                 (files_table (rows s));
  ue_account : account app_id b (rows s');
  ue_tree : dir_tree (rows s');
  ue_session : sessions_table (rows s') = delete (app_id, b, session_id) (sessions_table (rows s));
  ue_new : forall c f n, c ∈ frags -> cluster (node_state s) !! server_id c = Some n ->
    pending (chunk_id c) f (sn_ledger n) ->
    (forall old, file_at (rows s) b l x = Some old -> chunk_id c ∉ chunks_on (server_id c) (f_chunk_ids old)) ->
    exists n', cluster (node_state s') !! server_id c = Some n' /\ published (chunk_id c) f (sn_ledger n');
  ue_old : forall old c n, file_at (rows s) b l x = Some old -> c ∈ f_chunk_ids old ->
    cluster (node_state s) !! server_id c = Some n -> committed (chunk_id c) (sn_ledger n) ->
    exists n', cluster (node_state s') !! server_id c = Some n' /\ gone (chunk_id c) (sn_ledger n')
}.

Lemma committed_published id L : committed id L <-> exists f, published id f L.
Proof.
  unfold committed, published. split.
  - intros (Hu & [f Hf] & Hc). eauto.
  - intros (f & Hu & Hf & Hc). split; [done|]. split; [by eexists|done].
Qed.

(** The nodes: the new fragments are committed, then the old ones deleted. *)
Lemma commit_then_delete at_ frags (old : option File) (st st1 st2 : NodeState M) :
  (forall id, cluster st1 !! id
     = (fun n => mkNode (apply_commits at_ CommitFlags_final (chunks_on id frags) (sn_ledger n)) (sn_locks n))
         <$> cluster st !! id) ->
  match old with Some f => fragments_deleted f st1 st2 | None => cluster st2 = cluster st1 end ->
  (forall c f n, c ∈ frags -> cluster st !! server_id c = Some n -> pending (chunk_id c) f (sn_ledger n) ->
     (forall o, old = Some o -> chunk_id c ∉ chunks_on (server_id c) (f_chunk_ids o)) ->
     exists n', cluster st2 !! server_id c = Some n' /\ published (chunk_id c) f (sn_ledger n'))
  /\ (forall o c n, old = Some o -> c ∈ f_chunk_ids o -> cluster st !! server_id c = Some n ->
     committed (chunk_id c) (sn_ledger n) ->
     exists n', cluster st2 !! server_id c = Some n' /\ gone (chunk_id c) (sn_ledger n')).
Proof.
  intros Hst1 Hst2. split.
  - intros c f n Hc Hn Hp Hdis. specialize (Hst1 (server_id c)). rewrite Hn in Hst1. cbn in Hst1.
    assert (Hpub : published (chunk_id c) f
      (apply_commits at_ CommitFlags_final (chunks_on (server_id c) frags) (sn_ledger n))).
    { apply commits_publish. right. split; [|done]. unfold chunks_on. apply list_elem_of_fmap.
      exists c. split; [done|]. by apply list_elem_of_filter. }
    destruct old as [o|]; [|rewrite Hst2, Hst1; by eexists].
    destruct (Hst2 _ _ Hst1) as (n' & Hn' & _ & Hoth). exists n'. split; [done|].
    destruct (Hoth (chunk_id c)) as (E1 & E2 & E3); [by apply Hdis|].
    unfold published, get_path in *. by rewrite E1, E2, E3.
  - intros o c n -> Hc Hn Hcom. specialize (Hst1 (server_id c)). rewrite Hn in Hst1. cbn in Hst1.
    destruct (Hst2 _ _ Hst1) as (n' & Hn' & Hgone & _). exists n'. split; [done|].
    apply (Hgone c); [done|done|]. cbn. apply committed_published in Hcom as [f Hf].
    apply committed_published. exists f. apply commits_publish. by left.
Qed.

(** The file that was there is deleted, and the new record takes its key. *)
Lemma run_replace app_id k (old : option File) (bucket : Bucket) (file : File) s :
  let b := b_id bucket in
  account app_id b (rows s) -> row_key bucket = (app_id, b) ->
  files_table (rows s) !! k = old -> row_key file = k -> f_bucket_id file = b -> 0 <= f_size file ->
  Z.of_nat (base.size (bucket_files (rows s) b)) + 1 < 2 ^ 63 ->
  map_sum f_size (bucket_files (rows s) b) + f_size file < 2 ^ 63 ->
  exists s', (match old with
              | Some old_file => do_delete_file channel_id fragment_size now old_file bucket
              | None => mret tt
              end;; query (insert_file file bucket)) s = (s', Ok tt)
    /\ files_table (rows s') = <[k := file]> (files_table (rows s))
    /\ directories_table (rows s') = directories_table (rows s)
    /\ sessions_table (rows s') = sessions_table (rows s)
    /\ account app_id b (rows s')
    /\ match old with
       | Some f => fragments_deleted f (node_state s) (node_state s')
       | None => cluster (node_state s') = cluster (node_state s)
       end.
Proof.
  intros b Hacc Hkb Hk Hkf Hfb Hsz Hcnt Hsp. destruct (ac_bucket _ _ _ Hacc) as (row & Hrow & _).
  destruct old as [f|].
  - pose proof (ac_keys _ _ _ Hacc _ _ Hk) as Kf. pose proof (ac_sizes _ _ _ Hacc _ _ Hk) as Hpos.
    destruct (run_do_delete_file channel_id fragment_size now f bucket row s) as (s1 & E1 & Hs1 & Hfr);
      [by rewrite Hkb|]. rewrite (effect_bind_run _ _ _ _ _ E1). rewrite Hkb, Kf in Hs1.
    assert (Hfbk : f_bucket_id f = b) by (rewrite <- Hkf in Kf; injection Kf as Kb _ _; congruence).
    assert (Hacc1 : account app_id b (rows s1)).
    { rewrite Hs1, <- Kf. apply account_delete; [done|by rewrite Kf|done]. }
    assert (Hin : bucket_files (rows s) b !! k = Some f) by (apply map_lookup_filter_Some; by split).
    assert (Ef : bucket_files (rows s1) b = delete k (bucket_files (rows s) b)).
    { unfold bucket_files. rewrite Hs1, files_update_files. apply map_filter_delete. }
    destruct (ac_bucket _ _ _ Hacc1) as (row1 & Hrow1 & _).
    destruct (run_insert_file file bucket row1 (db_session s1)) as (d2 & E2 & Hd2); [by rewrite Hkb|].
    rewrite (run_query _ _ _ _ E2). eexists. split; [reflexivity|]. cbn [db_session node_state].
    rewrite Hd2, Hkb, Hkf. split; [rewrite files_update_files, Hs1, files_update_files; apply insert_delete_eq|].
    split; [by rewrite Hs1|]. split; [by rewrite Hs1|]. split; [|exact Hfr].
    rewrite <- Hkf. apply account_insert; try done.
    + rewrite Hs1, files_update_files, Hkf. apply lookup_delete_eq.
    + rewrite Ef, map_size_delete_Some by (by eexists). lia.
    + rewrite Ef, (map_sum_delete _ _ _ f Hin). lia.
  - rewrite (effect_bind_run _ _ s s tt eq_refl).
    destruct (run_insert_file file bucket row (db_session s)) as (d2 & E2 & Hd2); [by rewrite Hkb|].
    rewrite (run_query _ _ _ _ E2). eexists. split; [reflexivity|]. cbn [db_session node_state].
    rewrite Hd2, Hkb, Hkf. split_ands; [done..| |done]. rewrite <- Hkf. apply account_insert; try done.
    by rewrite Hkf.
Qed.

Lemma dir_id_records T T' b l : directories_table T' = directories_table T -> dir_id T' b l = dir_id T b l.
Proof. intros E. unfold dir_id. destruct (reverse l); [done|]. by rewrite E. Qed.

Lemma dir_tree_records T T' : directories_table T' = directories_table T -> dir_tree T -> dir_tree T'.
Proof.
  intros E Ht c p z r Hr. rewrite E in Hr. destruct (Ht _ _ _ _ Hr) as (? & l' & ? & ? & Hex).
  split; [done|]. exists l'. split_ands; [done..|]. unfold dir_exists in *. by rewrite E.
Qed.

(** A directory that was just made holds no file. *)
Lemma file_in_made_directory app_id T b l x i :
  account app_id b T -> (forall k f j, files_table T !! k = Some f -> f_directory f <> new_v4 j) ->
  dir_id T b l = Some i \/ (dir_id T b l = None /\ exists j, i = new_v4 j) ->
  files_table T !! (b, i, x) = file_at T b l x.
Proof.
  intros Hacc Hfresh Hold. unfold file_at. destruct Hold as [->|[-> [j ->]]]; [done|]. cbn.
  destruct (files_table T !! (b, new_v4 j, x)) as [f|] eqn:Ef; [|done].
  pose proof (ac_keys _ _ _ Hacc _ _ Ef) as Kf. injection Kf as _ Kf _. by destruct (Hfresh _ _ j Ef).
Qed.

(** The commits may fail; then the records are as they were.  Otherwise the upload ends. *)
Lemma run_end_upload app_id l x size session bucket session_id old_file file_id s :
  let b := b_id bucket in
  let old := file_at (rows s) b l x in
  Forall plain (l ++ [x]) -> dir_tree (rows s) -> account app_id b (rows s) -> row_key bucket = (app_id, b) ->
  (forall k f j, files_table (rows s) !! k = Some f -> f_directory f <> new_v4 j) ->
  match old_file with Some o => o = old | None => True end ->
  0 <= size -> Z.of_nat (base.size (bucket_files (rows s) b)) + 1 < 2 ^ 63 ->
  map_sum f_size (bucket_files (rows s) b) + size < 2 ^ 63 ->
  exists s' r, end_session new_v4 channel_id fragment_size now utc_end (parent_of l, x) size session bucket
      (app_id, session_id) old_file file_id s = (s', r)
    /\ (reachable (node_state s) (s_fragments session) -> r = Ok tt)
    /\ match r with
       | Ok _ => upload_ended app_id b l x size (s_fragments session) session_id file_id s s'
       | Err _ => rows s' = rows s
       end.
Proof.
  intros b old Hlx Ht Hacc Hkb Hfresh Hof Hsz Hcnt Hsp. unfold end_session. cbn [fst snd].
  pose proof (plain_snoc _ _ Hlx) as [Hl _].
  pose proof (run_commits now CommitFlags_final (s_fragments session) s) as Hc.
  unfold mbind at 1, effect_bind at 1.
  destruct (for_each _ (s_fragments session) s) as [s1 r1]. destruct Hc as (Hdb1 & Hself1 & Hcl1 & Hre).
  destruct r1 as [[]|e].
  2: { exists s1, (Err e). split; [done|]. split; [exact Hre|]. by rewrite Hdb1. }
  specialize (Hcl1 eq_refl). rewrite <- Hdb1 in Ht.
  destruct (run_mkdir_id b l s1 Hl Ht) as (s2 & i & E2 & Hcl2 & _ & Honly & Ht2 & Hi & Hold).
  rewrite (effect_bind_run _ _ _ _ _ E2). rewrite Hdb1 in *.
  destruct (directories_only_records _ _ Honly) as (Ef2 & Eb2 & Es2).
  assert (Hk : files_table (rows s2) !! (b, i, x) = old) by (rewrite Ef2; by eapply file_in_made_directory).
  assert (Hacc2 : account app_id b (rows s2)) by (by eapply account_records).
  destruct (run_find_row (R := File) (b, i, x) (db_session s2)) as (d3 & E3 & Hd3).
  cbn [table File_row] in E3. rewrite Hk in E3.
  assert (E4 : attempt (F := NodeClientError) (on_db (M := M) (get_file b (Some i) x)) s2
    = (mkAppState (node_state s2) d3, Ok (ok_or old DataNotFound))).
  { unfold attempt, on_db, get_file. change (default ROOT_DIR (Some i)) with i. by rewrite E3. }
  rewrite (effect_bind_run _ _ _ _ _ E4).
  replace (match old_file with Some o => o | None => _ end) with old
    by (destruct old_file; [done|]; by destruct old).
  set (file := mkFile b (default ROOT_DIR (Some i)) x file_id size (s_fragments session) utc_end utc_end).
  assert (Ebf : bucket_files (rows s2) b = bucket_files (rows s) b) by (unfold bucket_files; by rewrite Ef2).
  destruct (run_replace app_id (b, i, x) old bucket file (mkAppState (node_state s2) d3))
    as (s5 & E5 & Hf5 & Hdir5 & Hs5 & Hacc5 & Hcl5); cbn [db_session]; rewrite ?Hd3; fold b; rewrite ?Ebf; try done.
  cbn [db_session node_state] in *. rewrite Hd3 in Hf5, Hdir5, Hs5. rewrite effect_bind_assoc.
  rewrite (effect_bind_run _ _ _ _ _ E5).
  unfold on_db. destruct (run_end_session app_id b session_id (db_session s5)) as (d7 & -> & Hd7).
  eexists _, _. split; [reflexivity|]. split; [done|].
  destruct (commit_then_delete now (s_fragments session) old (node_state s) (node_state s1) (node_state s5))
    as [Hnew Hgone]; [done| |].
  { destruct old; [|congruence]. intros id n. rewrite <- Hcl2. apply Hcl5. }
  split; cbn [db_session node_state]; try done.
  - exists i. rewrite Hd7. split.
    + by rewrite (dir_id_records (rows s2)).
    + change (files_table (row_delete _ _ _)) with (files_table (rows s5)). by rewrite Hf5, Ef2.
  - rewrite Hd7. by apply (account_records _ _ (rows s5)).
  - rewrite Hd7. by apply (dir_tree_records (rows s2)).
  - rewrite Hd7, <- Es2, <- Hs5. done.
Qed.

(** The end of an upload.  When every fragment's node can be reached, the file is found at
    its path, in directories created as needed, with the size and the fragments of the
    session; every complete fragment that is not also one of the old file is committed with its content; a file that was at the
    path is replaced and its fragments are gone; the counters of the bucket are again the
    number and the total size of its files; and the session is over. *)
Theorem end_session_spec app_id l x size session bucket session_id old_file file_id s :
  let b := b_id bucket in
  let old := file_at (rows s) b l x in
  Forall plain (l ++ [x]) -> dir_tree (rows s) -> account app_id b (rows s) -> row_key bucket = (app_id, b) ->
  (forall k f j, files_table (rows s) !! k = Some f -> f_directory f <> new_v4 j) ->
  match old_file with Some o => o = old | None => True end ->
  0 <= size -> Z.of_nat (base.size (bucket_files (rows s) b)) + 1 < 2 ^ 63 ->
  map_sum f_size (bucket_files (rows s) b) + size < 2 ^ 63 ->
  reachable (node_state s) (s_fragments session) ->
  exists s', end_session new_v4 channel_id fragment_size now utc_end (parent_of l, x) size session bucket
      (app_id, session_id) old_file file_id s = (s', Ok tt)
    /\ upload_ended app_id b l x size (s_fragments session) session_id file_id s s'.
Proof.
  intros b old Hlx Ht Hacc Hkb Hfresh Hof Hsz Hcnt Hsp Hre.
  destruct (run_end_upload app_id l x size session bucket session_id old_file file_id s)
    as (s' & r & E & Hok & Hr); [done..|].
  rewrite (Hok Hre) in E, Hr. eauto.
Qed.
End ending.

(** ** Uploads in one request *)
Lemma file_at_records T T' b l x :
  files_table T' = files_table T -> directories_table T' = directories_table T ->
  file_at T' b l x = file_at T b l x.
Proof. intros Ef Ed. unfold file_at, dir_id. by rewrite Ef, Ed. Qed.

Section oneshot.
  Context {D M : Type} `{ReliableDatabase D} `{ExtFragmentMetaStore M}.
  Variable new_v4 : nat -> Uuid.
  Variables (channel_id fragment_size : u32).
  Variables (now utc utc_end : Z).
  Variable refresh : NodeClientResponse (option (list (Uuid * u64))).
  Variable inbound_transfer : nat -> Transfer -> NodeState M -> NodeState M * NodeClientResponse unit.
  Variable ticks : nat -> list (Z * Z).
  Implicit Types s : AppState D M.

Abbreviation rows s := (tables (db_session s)).

Lemma commit_keeps at_ flags cs :
  keeps (D := D) (for_each (commit_fragment channel_id fragment_size at_ flags) cs).
Proof. apply keeps_for_each. intros c. apply keeps_on_nodes. Qed.

Lemma notifier_keeps ts : forall session s,
  same_records (rows s) (rows (run_notifier channel_id fragment_size ts session s).1).
Proof.
  induction ts as [|t ts IH]; intros session s; [done|].
  unfold run_notifier. cbn [fold_left]. unfold notifier_tick at 2.
  pose proof (commit_keeps t.1 CommitFlags_keep_alive (s_fragments session) s) as H1'.
  destruct (for_each _ _ s) as [s1 r1]. cbn [fst] in H1'.
  pose proof (update_session_keeps t.2 session (db_session s1)) as H2'.
  destruct (update_session t.2 session (db_session s1)) as [d [session' r2]]. cbn [fst] in H2'.
  etrans; [|apply (IH session' (mkAppState (node_state s1) d))]. by etrans.
Qed.

Lemma transfer_keeps trs : forall i session,
  keeps (transfer_all channel_id fragment_size inbound_transfer ticks i trs session).
Proof.
  induction trs as [|tr trs IH]; intros i session s; cbn [transfer_all];
    pose proof (notifier_keeps (ticks i) session s) as Hn;
    destruct (run_notifier channel_id fragment_size (ticks i) session s) as [s1 session']; [done|].
  cbn [fst] in Hn. pose proof (keeps_on_nodes (inbound_transfer i tr) s1) as Ht.
  destruct (on_nodes (inbound_transfer i tr) s1) as [s2 [u|e]]; cbn [fst] in *; [|by etrans].
  etrans; [exact Hn|]. etrans; [exact Ht|]. apply IH.
Qed.

(** The records after an upload: one file more, or one replaced. *)
Definition uploaded (app_id b : Uuid) (l : list Text) (x : Text) (size : Z) (T : Tables) s' : Prop :=
  account app_id b (rows s') /\ dir_tree (rows s')
  /\ exists i file_id frags, dir_id (rows s') b l = Some i
     /\ files_table (rows s') = <[(b, i, x) := mkFile b i x file_id size frags utc_end utc_end]>
                                  (files_table T).

(** From the quota check on, with the file that will be replaced. *)
Lemma oneshot_rest path size l x (bucket : Bucket) overwrite s :
  let b := ep_bucket_id path in
  EntryPath_path path = join (l ++ [x]) ->
  Forall plain (l ++ [x]) -> dir_tree (rows s) -> account (ep_app_id path) b (rows s) ->
  row_key bucket = (ep_app_id path, b) ->
  (forall k f j, files_table (rows s) !! k = Some f -> f_directory f <> new_v4 j) ->
  0 <= size < 2 ^ 63 -> Z.of_nat (base.size (bucket_files (rows s) b)) + 1 < 2 ^ 63 ->
  map_sum f_size (bucket_files (rows s) b) + size < 2 ^ 63 ->
  outcome (
    reserved ← on_db (get_reserved_space utc (ep_app_id path) b);
    if quota_exceeded bucket size reserved then throw NcInsufficientStorage
    else
      file_id ← draw_id new_v4;
      reservation ← on_nodes (reserve_chunks new_v4 now channel_id fragment_size size
        (mkReserveFlags true false false overwrite) (b_id bucket) file_id PreferSelfThenMostFree refresh);
      id ← draw_id new_v4;
      let session := mkSession (ep_app_id path) b id file_id (EntryPath_path path) (as_i64 size) false
        (reserve_info_to_file_chunks reservation) utc (i8_of_SessionState Writing) in
      session_id ← on_db (start_session session);
      transferred ← transfer_all channel_id fragment_size inbound_transfer ticks 0 (map (fun space =>
        mkTransfer 0 (rf_node_id space) (rf_chunk_id space) (rf_size space) false) reservation) session;
      match transferred.2 with
      | Err err =>
          on_db (UploadSessions.end_session (ep_app_id path) b session_id);;
          for_each (commit_fragment channel_id fragment_size now CommitFlags_reject) (s_fragments transferred.1);;
          throw err
      | Ok _ =>
          end_session new_v4 channel_id fragment_size now utc_end (split_path (EntryPath_path path))
            (as_i64 size) transferred.1 bucket (ep_app_id path, session_id)
            (Some (file_at (rows s) b l x)) file_id
      end) s (fun _ s' => uploaded (ep_app_id path) b l x size (rows s) s').
Proof.
  intros b Hpath Hlx Ht Hacc Hkb Hfresh Hsz Hcnt Hsp.
  apply outcome_bind; [intros s1; apply keeps_on_db, reserved_keeps|]. intros reserved s1 H1'.
  destruct (quota_exceeded bucket size reserved); [done|].
  apply outcome_bind; [apply keeps_on_nodes|]. intros file_id s2 H2'.
  apply outcome_bind; [apply keeps_on_nodes|]. intros reservation s3 H3'.
  apply outcome_bind; [apply keeps_on_nodes|]. intros id s4 H4'. cbv zeta.
  apply outcome_bind; [intros s5; apply keeps_on_db, start_session_keeps|]. intros session_id s5 H5'.
  apply outcome_bind; [apply transfer_keeps|]. intros [session r] s6 H6'. cbn [fst snd].
  assert (Hsame : same_records (rows s) (rows s6)) by (do 5 (etrans; [eassumption|]); done).
  clear s1 s2 s3 s4 s5 H1' H2' H3' H4' H5' H6'. destruct Hsame as (Ef & Ed & Eb).
  destruct r as [[]|e].
  - rewrite Hpath, split_path_of, as_i64_small by done. unfold outcome.
    pose proof Hkb as Kb. injection Kb as _ Kb. rewrite <- Kb in *.
    assert (Ebf : bucket_files (rows s6) (b_id bucket) = bucket_files (rows s) (b_id bucket))
      by (unfold bucket_files; by rewrite Ef).
    destruct (run_end_upload new_v4 channel_id fragment_size now utc_end (ep_app_id path) l x size session
      bucket session_id (Some (file_at (rows s) (b_id bucket) l x)) file_id s6) as (s7 & r & -> & _ & Hr);
      rewrite ?Ebf, ?Ef; try done; [by eapply dir_tree_records|by eapply account_records|..|by lia|].
    { by rewrite (file_at_records (rows s) (rows s6)). }
    destruct r as [[]|e]; [|by rewrite Hr].
    destruct Hr as [(i & Hi & Hf) Ha Ht' _ _ _]. split; [done|]. split; [done|].
    exists i, file_id, (s_fragments session). split; [done|]. by rewrite Hf, Ef.
  - apply outcome_fail.
    + apply keeps_bind; [intros s7; apply keeps_on_db, end_session_keeps|]. intros _.
      apply keeps_bind; [apply commit_keeps|]. intros _ s7. done.
    + intros s' a. unfold mbind, effect_bind.
      destruct (on_db _ s6) as [s7 [u|e']]; [|done]. by destruct (for_each _ _ s7) as [s8 [v|e']].
Qed.

End oneshot.

(** ** Examples *)
Definition no_ticks (_ : nat) : list (Z * Z) := [].
Definition broken_transfer (_ : nat) (_ : Transfer) (st : NodeState (gmap Uuid ExtFragmentMeta))
    : NodeState (gmap Uuid ExtFragmentMeta) * NodeClientResponse unit := (st, Err NcBadRequest).

Lemma dirs500 : dir_tree (db_session state500).
Proof. apply (dir_tree_records no_rows); [reflexivity|apply dir_tree_empty]. Qed.

Lemma fresh500 k f j : files_table (db_session state500) !! k = Some f -> f_directory f <> drawn_ids j.
Proof.
  change (files_table (db_session state500)) with ({[row_key file500 := file500]} : gmap _ File).
  intros [<- <-]%lookup_singleton_Some. unfold drawn_ids, file500, ROOT_DIR. cbn. lia.
Qed.


(** A session whose only fragment, 501, is complete on node 1. *)
Definition ledger501 : Ledger (gmap Uuid ExtFragmentMeta) :=
  mkLedger {[501 := mkFragmentMeta 2 4096]} ∅ {[501 := mkCommitInfo 0]} (Some ∅) 10000 4096 2 0 false
    {[(501, true) := mkFragFile [8; 9] 4096]}.

Definition session501 : BucketUploadSession :=
  mkSession 1 7 9 21 (str "g") 2 true [mkFileChunk 1 501 2 0] 5 (i8_of_SessionState Writing).

Definition state501 : AppState Tables (gmap Uuid ExtFragmentMeta) :=
  mkAppState (mkState 1 {[1 := mkNode ledger501 (LockTable_new 10)]} [] 0) (db_session state500).

Lemma end_session_spec_witness :
  exists s', end_session drawn_ids 7 300 0 6 (None, str "g") 2 session501 bucket7 (1, 9) None 21 state501
      = (s', Ok tt)
    /\ account 1 7 (db_session s')
    /\ exists n', cluster (node_state s') !! 1 = Some n'
       /\ published 501 (mkFragFile [8; 9] 4096) (sn_ledger n').
Proof.
  destruct (end_session_spec (D := Tables) drawn_ids 7 300 0 6 1 [] (str "g") 2 session501 bucket7 9 None 21
    state501 ltac:(by vm_compute; repeat constructor) dirs500 account500 ltac:(reflexivity) fresh500
    I ltac:(lia) ltac:(by vm_compute) ltac:(by vm_compute)) as (s' & E & [_ Ha _ _ Hnew _]).
  - constructor; [by left|constructor].
  - exists s'. split; [exact E|]. split; [exact Ha|].
    apply (Hnew (mkFileChunk 1 501 2 0) _ (mkNode ledger501 (LockTable_new 10))).
    + by left.
    + vm_compute. reflexivity.
    + split; [by eexists|]. split; [reflexivity|by eexists].
    + intros old Ho. vm_compute in Ho. discriminate Ho.
Defined.

(** An overwriting upload that is refused has already deleted the file.  In a bucket
    without atomic uploads the old file goes before the quota is checked, and its size still
    counts against the quota: the new file of eight bytes would fit into the ten of the
    bucket, but is refused next to the three of the old one, which is gone. *)
Theorem refused_overwrite_deletes :
  file_at (db_session state500) 7 [] (str "f") = Some file500
  /\ exists s', handle_upload_oneshot drawn_ids 7 300 0 5 6 (Ok None) broken_transfer no_ticks
      (entry "f") 8 all_allowed state500 = (s', Err NcInsufficientStorage)
    /\ file_at (db_session s') 7 [] (str "f") = None
    /\ exists n', cluster (node_state s') !! 1 = Some n' /\ files (sn_ledger n') = ∅.
Proof.
  split; [exact file_at_500|]. eexists. vm_compute. split; [reflexivity|]. split; [reflexivity|].
  eexists. split; reflexivity.
Qed.

(** A session whose fragment is on node 2, which cannot be reached. *)
Definition session502 : BucketUploadSession :=
  mkSession 1 7 9 22 (str "g") 2 true [mkFileChunk 2 502 2 0] 5 (i8_of_SessionState AwaitingData).

Definition state502 : AppState Tables (gmap Uuid ExtFragmentMeta) :=
  mkAppState (node_state state500) (row_insert session502 (db_session state500)).

(** An upload that cannot ask a node for its progress blocks its session.  The session is
    locked before the fragments are queried; when a node cannot be reached, the request fails
    and the session stays marked as being written, so that neither sending data nor resuming
    it is possible any more, also once the node is back. *)
Theorem failed_query_blocks_session :
  exists s', handle_upload_durable drawn_ids 7 300 0 6 7 broken_transfer no_ticks 9 1 7 state502
      = (s', Err NcInternalError)
    /\ s_state <$> sessions_table (db_session s') !! (1, 7, 9) = Some (i8_of_SessionState Writing)
    /\ forall n utc inbound ticks, let s := mkAppState n (db_session s') in
       snd (handle_upload_durable drawn_ids 7 300 0 utc 9 inbound ticks 9 1 7 s) = Err NcBadRequest
       /\ snd (resume_upload_session 7 300 0 utc 1 7 9 s) = Err NcBadRequest.
Proof.
  eexists. split; [vm_compute; reflexivity|]. split; [vm_compute; reflexivity|].
  intros n utc inbound ticks. split; vm_compute; reflexivity.
Qed.
