(* ===== verification/Listing.v ===== *)
(** * Listings and downloads

    [node/src/public/service/file_list_service.rs]: the files and directories of a bucket, the
    entries of a directory, and the description of one entry; and [handle_download] of
    [file_access_service.rs] from the request to the bytes.  The services only read. *)
From Stdlib Require Import ZArith Lia List Ascii.
From stdpp Require Import base numbers list strings gmap.
From S2P Require Import Prelude Errors Paths Permissions Placement Database Directories FileAccess FileServices.
Local Open Scope Z_scope.

Record Entity : Type := mkEntity {
  e_name : Text;
  e_dir : option Uuid;
  e_dir_id : option Uuid;
  e_size : u64;
  e_is_dir : bool;
  e_created : Z;
  e_last_modified : Z
}.

Record PaginationInfo : Type := mkPagination { pg_start : option u64; pg_end : option u64 }.

Definition USIZE_MAX : u64 := 2 ^ 64 - 1.

Definition is_paginated (p : PaginationInfo) : bool :=
  bool_decide (is_Some (pg_start p) \/ is_Some (pg_end p)).

(** Both ends are taken from the start. *)
Definition completed_start (p : PaginationInfo) : u64 := default 0 (pg_start p).
Definition completed_end (p : PaginationInfo) : u64 := default USIZE_MAX (pg_start p).

Definition validate (p : PaginationInfo) : NodeClientResponse unit :=
  if is_paginated p then
    if decide (completed_end p <= completed_start p) then Err NcBadRequest else Ok tt
  else Ok tt.

Definition file_entity (include_dir : bool) (f : File) : Entity :=
  mkEntity (f_name f) (if include_dir then Some (f_directory f) else None) None (wrap 64 (f_size f)) false
    (f_created f) (f_last_modified f).

Definition directory_entity (name : Text) (d : Directory) : Entity :=
  mkEntity name None (Some (d_id d)) 0 true (d_created d) (d_last_modified d).

(** Without the type of the content. *)
Record DlInfo : Type := mkDlInfo { dl_size : u64; dl_attachment_name : Text }.

Section services.
  Context {D : Type} `{Database D}.

Abbreviation Service A := (effect D NodeClientError A).

(** The items are those of a stream that did not fail. *)
Definition collect_files (files : list File) (include_dir : bool) : list Entity :=
  map (file_entity include_dir) files.

Definition do_list_bucket_files (app_id bucket_id : Uuid) (acc : BucketAccessor) (p : PaginationInfo)
    : Service (list Entity) :=
  of_result (validate p);;
  of_result (has_permission acc app_id bucket_id LIST_BUCKET_ALLOWANCE);;
  files ← on_err client_of_data
    (if is_paginated p
     then get_files_from_bucket_paginated bucket_id (completed_start p) (completed_end p)
     else get_files_from_bucket bucket_id);
  mret (collect_files files true).

Definition do_list_bucket_directories (app_id bucket_id : Uuid) (acc : BucketAccessor)
    (p : PaginationInfo) : Service (list Entity) :=
  of_result (validate p);;
  of_result (has_permission acc app_id bucket_id LIST_BUCKET_ALLOWANCE);;
  dirs ← on_err client_of_data
    (if is_paginated p
     then get_directories_from_bucket_paginated bucket_id (completed_start p) (completed_end p)
     else get_directories_from_bucket bucket_id);
  mret (map (fun d => directory_entity (Directory_full_path d) d) dirs).

(** The directories first, then the files, up to [length] entries. *)
Definition do_list_dir (path : EntryPath) (acc : BucketAccessor) (p : PaginationInfo)
    : Service (list Entity) :=
  of_result (validate p);;
  of_result (has_permission acc (ep_app_id path) (ep_bucket_id path) LIST_DIR_ALLOWANCE);;
  dir ← on_err client_of_data (get_directory (ep_bucket_id path)
    (if decide (EntryPath_path path = []) then None else Some (EntryPath_path path)));
  sub_dirs ← on_err client_of_data (get_sub_dirs (ep_bucket_id path) (EntryPath_path path));
  let length := saturating_sub (completed_end p) (completed_start p) in
  let entries := take_z length (map (fun d => directory_entity (d_name d) d) sub_dirs) in
  let length := length - Z.of_nat (List.length entries) in
  if decide (0 < length) then
    files ← on_err client_of_data
      (get_files_from_bucket_and_directory (ep_bucket_id path) (d_id <$> dir));
    mret (entries ++ take_z length (collect_files files false))
  else mret entries.

Definition do_stat_file (path : EntryPath) (acc : BucketAccessor) : Service Entity :=
  of_result (has_permission acc (ep_app_id path) (ep_bucket_id path) DOWNLOAD_ALLOWANCE);;
  if decide (EntryPath_path path = []) then throw NcNotFound
  else
    let '(maybe_dir, filename) := split_path (EntryPath_path path) in
    dir_result ← attempt (get_directory (ep_bucket_id path) (Some (EntryPath_path path)));
    file_result ← attempt (get_file_dir (ep_bucket_id path) maybe_dir filename);
    match dir_result, file_result with
    | Err _, Err _ => throw NcNotFound
    | Ok (Some dir), _ => mret (directory_entity (d_name dir) dir)
    | _, Ok (file, dir) =>
        mret (mkEntity (f_name file) (d_id <$> dir) None (wrap 64 (f_size file)) false
                (f_created file) (f_last_modified file))
    | Ok None, Err _ => throw NcInternalError
    end.

(** The answer has the fields of the bucket. *)
Definition do_fetch_bucket_info (app_id bucket_id : Uuid) (acc : BucketAccessor) : Service Bucket :=
  of_result (has_permission acc app_id bucket_id FETCH_BUCKET_INFO_ALLOWANCE);;
  on_err client_of_data (get_bucket app_id bucket_id).

(** [handle_download], with what the nodes hold; a range is [to_satisfiable_range] of the
    requested [ByteRangeSpec].  The type of the content is a function of the name. *)
Definition download_file (content : Uuid -> list u8) (path : EntryPath) (acc : BucketAccessor)
    (range : option (u64 -> option (u64 * u64))) : Service (DlInfo * list u8) :=
  of_result (has_permission acc (ep_app_id path) (ep_bucket_id path) DOWNLOAD_ALLOWANCE);;
  let split := split_path (EntryPath_path path) in
  file ← on_err client_of_data (get_file_dir (ep_bucket_id path) split.1 split.2);
  range ← of_result
    match range with
    | Some to_satisfiable_range =>
        match to_satisfiable_range (wrap 64 (f_size file.1)) with
        | Some r => Ok (Some r)
        | None => Err NcRangeUnsatisfiable
        end
    | None => Ok None
    end;
  bytes ← of_result (handle_download content (f_chunk_ids file.1) range);
  mret (mkDlInfo (wrap 64 (f_size file.1)) split.2, bytes).
End services.

(** ** Pagination *)
(** Listings are never paginated.  A request that gives a start is refused; one that only
    gives an end is answered as if it had given none. *)
Theorem pagination_ignored p :
  in_width 64 (default 0 (pg_start p)) ->
  match pg_start p with
  | Some _ => validate p = Err NcBadRequest
  | None => validate p = Ok tt /\ completed_start p = 0 /\ completed_end p = USIZE_MAX
  end.
Proof.
  intros Hw. unfold validate, is_paginated, completed_start, completed_end.
  destruct (pg_start p) as [a|]; cbn in *.
  - by rewrite decide_True by lia.
  - split; [|done]. by destruct (pg_end p).
Qed.

Section listing.
  Context {D : Type} `{ReliableDatabase D}.
  Implicit Types d : D.

(** Listing a directory.  Without pagination the listing of a directory has its
    subdirectories, then its files, each once and nothing else; a directory that does not
    exist is not found.  Nothing changes. *)
Theorem list_dir_spec path acc l d :
  let T := tables d in
  let b := ep_bucket_id path in
  has_permission acc (ep_app_id path) b LIST_DIR_ALLOWANCE = Ok tt ->
  EntryPath_path path = join l -> Forall plain l ->
  Z.of_nat (size (directories_table T)) + Z.of_nat (size (files_table T)) < USIZE_MAX ->
  exists d' r, do_list_dir path acc (mkPagination None None) d = (d', r) /\ tables d' = T
    /\ match dir_id T b l with
       | None => r = Err NcNotFound
       | Some i => exists dirs fs, r = Ok (map (fun x => directory_entity (d_name x) x) dirs
                                          ++ map (file_entity false) fs)
           /\ dirs ≡ₚ rows_where (fun x => bool_decide (d_bucket_id x = b /\ d_parent x = join l)) T
           /\ fs ≡ₚ rows_where (fun f => bool_decide (f_bucket_id f = b /\ f_directory f = i)) T
       end.
Proof.
  intros T b Hperm Hpath Hl Hsz. unfold do_list_dir. fold b. rewrite Hperm, Hpath.
  change (validate (mkPagination None None)) with (Ok tt : NodeClientResponse unit).
  rewrite (effect_bind_run (of_result (Ok tt)) _ d d tt eq_refl).
  rewrite (effect_bind_run (of_result (Ok tt)) _ d d tt eq_refl).
  replace (if decide (join l = []) then None else Some (join l)) with (parent_of l).
  2: { destruct l as [|x l]; [done|]. rewrite decide_False; [done|].
       apply normalize_nil; [by apply plain_clean|done]. }
  destruct (run_get_dir b l d Hl) as (d1 & r1 & E1 & Hd1 & Hr1). fold T in Hr1.
  unfold mbind at 1, effect_bind at 1, on_err at 1. rewrite E1.
  destruct (dir_id T b l) as [i|].
  2: { subst r1. exists d1, (Err NcNotFound). done. }
  destruct Hr1 as (o & -> & Ho). cbn [map_err].
  unfold get_sub_dirs. destruct (run_select (R := Directory)
    (fun x => bool_decide (d_bucket_id x = b /\ d_parent x = join l)) d1) as (d2 & dirs & E2 & Hd2 & Hdirs).
  unfold mbind at 1, effect_bind at 1, on_err at 1. rewrite E2. cbn [map_err].
  rewrite Hd1 in Hdirs. fold T in Hdirs.
  assert (Hle : (length dirs <= size (directories_table T))%nat).
  { rewrite Hdirs. unfold rows_where. etrans; [apply length_filter|]. by rewrite length_map, length_map_to_list. }
  change (saturating_sub _ _) with USIZE_MAX. cbv zeta.
  rewrite (take_z_all USIZE_MAX (map _ dirs)) by (rewrite length_map; unfold USIZE_MAX in *; lia).
  rewrite length_map, decide_True by lia.
  unfold get_files_from_bucket_and_directory.
  replace (default ROOT_DIR (d_id <$> o)) with i by done.
  destruct (run_select (R := File) (fun f => bool_decide (f_bucket_id f = b /\ f_directory f = i)) d2)
    as (d3 & fs & E3 & Hd3 & Hfs).
  unfold mbind at 1, effect_bind at 1, on_err at 1. rewrite E3. cbn [map_err].
  rewrite Hd2, Hd1 in Hfs. fold T in Hfs.
  assert (Hlf : (length fs <= size (files_table T))%nat).
  { rewrite Hfs. unfold rows_where. etrans; [apply length_filter|]. by rewrite length_map, length_map_to_list. }
  exists d3. eexists. split; [reflexivity|]. split; [by rewrite Hd3, Hd2, Hd1|]. exists dirs, fs. split; [|done].
  unfold collect_files. rewrite take_z_all; [done|]. rewrite length_map. lia.
Qed.

(** The bytes of a file: those of its fragments, in their order. *)
Definition file_bytes (content : Uuid -> list u8) (f : File) : list u8 :=
  concat (map (fun c => content (chunk_id c)) (sort_by_order (f_chunk_ids f))).

(** Downloading a file.  A client with the permission who names a
    recorded file gets exactly its bytes, the fragments in their order, or exactly those from
    the first to the last of the range; a range outside the file is refused, and a path
    without a file is not found.  Nothing changes. *)
Theorem download_file_spec content path acc l x range d :
  let T := tables d in
  let b := ep_bucket_id path in
  has_permission acc (ep_app_id path) b DOWNLOAD_ALLOWANCE = Ok tt ->
  EntryPath_path path = join (l ++ [x]) -> Forall plain (l ++ [x]) ->
  (forall to_satisfiable_range size r, range = Some to_satisfiable_range ->
     to_satisfiable_range size = Some r -> 0 <= r.1 /\ r.1 <= r.2 < size) ->
  (forall f, file_at T b l x = Some f -> Forall (stored_chunk content) (f_chunk_ids f)
     /\ f_size f = Z.of_nat (length (file_bytes content f)) /\ f_size f < 2 ^ 63) ->
  exists d' r, download_file content path acc range d = (d', r) /\ tables d' = T
    /\ r = match file_at T b l x with
           | None => Err NcNotFound
           | Some f =>
               match range with
               | None => Ok (mkDlInfo (f_size f) x, file_bytes content f)
               | Some to_satisfiable_range =>
                   match to_satisfiable_range (f_size f) with
                   | None => Err NcRangeUnsatisfiable
                   | Some r => Ok (mkDlInfo (f_size f) x,
                       take (Z.to_nat (r.2 + 1 - r.1)) (drop (Z.to_nat r.1) (file_bytes content f)))
                   end
               end
           end.
Proof.
  intros T b Hperm Hpath Hlx Hrange Hfile. unfold download_file. fold b. rewrite Hperm, Hpath.
  rewrite (effect_bind_run (of_result (Ok tt)) _ d d tt eq_refl). rewrite split_path_of by done. cbn [fst snd].
  pose proof (plain_snoc _ _ Hlx) as [Hl _].
  destruct (run_get_file_dir b l x d Hl) as (d1 & r1 & E1 & Hd1 & Hr1). fold T in Hr1.
  unfold mbind at 1, effect_bind at 1, on_err at 1. rewrite E1.
  destruct (file_at T b l x) as [f|]; [|subst r1; by exists d1, (Err NcNotFound)].
  destruct Hr1 as (o & ->). cbn [map_err fst]. destruct (Hfile f eq_refl) as (Hst & Hsz & Hlt).
  assert (Hw : wrap 64 (f_size f) = f_size f) by (apply wrap_small; unfold in_width; lia).
  unfold mbind, effect_bind, of_result. rewrite Hw. unfold file_bytes in *.
  destruct range as [sat|]; [destruct (sat (f_size f)) as [r|] eqn:Er|].
  - pose proof (Hrange sat _ _ eq_refl Er).
    rewrite (download_exact content (f_chunk_ids f) (Some r)) by (done || lia || (intros ? [= <-]; lia)). by eexists d1, _.
  - by eexists d1, _.
  - rewrite (download_exact content (f_chunk_ids f) None) by (done || lia). by eexists d1, _.
Qed.

(** Describing an entry.  A path of plain names is described as the directory at that path
    if there is one, else as the file, else it is not found.  Nothing changes. *)
Theorem stat_spec path acc l x d :
  let T := tables d in
  let b := ep_bucket_id path in
  has_permission acc (ep_app_id path) b DOWNLOAD_ALLOWANCE = Ok tt ->
  EntryPath_path path = join (l ++ [x]) -> Forall plain (l ++ [x]) ->
  exists d' r, do_stat_file path acc d = (d', r) /\ tables d' = T
    /\ match directories_table T !! (b, join l, x), file_at T b l x with
       | Some dir, _ => r = Ok (directory_entity (d_name dir) dir)
       | None, Some f => exists e, r = Ok e /\ e_name e = f_name f /\ e_size e = wrap 64 (f_size f)
                                  /\ e_is_dir e = false
       | None, None => r = Err NcNotFound
       end.
Proof.
  intros T b Hperm Hpath Hlx. unfold do_stat_file. fold b. rewrite Hperm, Hpath.
  rewrite (effect_bind_run (of_result (Ok tt)) _ d d tt eq_refl).
  rewrite decide_False by (apply normalize_nil; [by apply plain_clean|by destruct l]).
  rewrite split_path_of by done. pose proof (plain_snoc _ _ Hlx) as [Hl _].
  destruct (run_get_directory b l x d Hlx) as (d1 & E1 & Hd1). fold T in E1.
  destruct (run_get_file_dir b l x d1 Hl) as (d2 & r2 & E2 & Hd2 & Hr2). rewrite Hd1 in Hr2. fold T in Hr2.
  unfold mbind, effect_bind, attempt. rewrite E1, E2. exists d2.
  assert (Ht : tables d2 = T) by (by rewrite Hd2, Hd1).
  destruct (directories_table T !! (b, join l, x)) as [dir|];
    destruct (file_at T b l x) as [f|]; [destruct Hr2 as [o ->]|subst r2|destruct Hr2 as [o ->]|subst r2];
    eexists; split; try reflexivity; split; try done.
  by eexists.
Qed.
End listing.

(** ** Examples *)
Lemma pagination_ignored_witness : validate (mkPagination (Some 10) (Some 20)) = Err NcBadRequest.
Proof. apply (pagination_ignored (mkPagination (Some 10) (Some 20))). unfold in_width. cbn. lia. Defined.

Lemma list_dir_spec_witness :
  exists T, do_list_dir (entry "a") all_allowed (mkPagination None None) sample_tree
      = (T, Ok [directory_entity (str "b") (sample_dir "a" "b" 11)]).
Proof.
  destruct (list_dir_spec (D := Tables) (entry "a") all_allowed [str "a"] sample_tree) as (T & r & E & _ & _).
  - vm_compute. reflexivity.
  - reflexivity.
  - by vm_compute; repeat constructor.
  - by vm_compute.
  - exists T. rewrite E. f_equal.
    assert (Hr : snd (do_list_dir (entry "a") all_allowed (mkPagination None None) sample_tree)
                 = Ok [directory_entity (str "b") (sample_dir "a" "b" 11)]) by (vm_compute; reflexivity).
    rewrite E in Hr. exact Hr.
Defined.

Lemma stat_spec_witness :
  exists T, do_stat_file (entry "a/b") all_allowed sample_tree
      = (T, Ok (directory_entity (str "b") (sample_dir "a" "b" 11))).
Proof.
  destruct (stat_spec (D := Tables) (entry "a/b") all_allowed [str "a"] (str "b") sample_tree)
    as (T & r & E & _ & Hr).
  - vm_compute. reflexivity.
  - reflexivity.
  - by vm_compute; repeat constructor.
  - assert (Hl : directories_table sample_tree !! (7, str "a", str "b") = Some (sample_dir "a" "b" 11))
      by (vm_compute; reflexivity).
    change (directories_table (tables sample_tree) !! (ep_bucket_id (entry "a/b"), join [str "a"], str "b"))
      with (directories_table sample_tree !! (7, str "a", str "b")) in Hr.
    rewrite Hl in Hr. subst r. exists T. exact E.
Defined.

Definition content500 (id : Uuid) : list u8 := if decide (id = 500) then [1; 2; 3] else [].
