(* ===== verification/Migration.v ===== *)
(** * Migration

    [node/src/public/service/migration_service.rs]: moving the fragments of a node that is
    going away to other nodes.

    The transfer is an argument as in the uploads, and so is the choice of [rand] among the
    candidates.  The guards of the lock table only make the migration wait; they are not
    modelled. *)
From Stdlib Require Import ZArith Lia List Ascii.
From stdpp Require Import base numbers list strings gmap.
From S2P Require Import Prelude Errors MdsftpData MdsftpWire MdsftpChannel MetaStore FragmentLedger LockTable LedgerCorrect.
From S2P Require Import ChannelHandler Placement FileAccess Paths Permissions Database UploadSessions Directories FileServices Uploads.
Local Open Scope Z_scope.

(** How a migration ends other than well: with an error, or waiting for a lock that it holds
    itself. *)
Inductive Halt : Type :=
| Failed (e : NodeClientError)
| Deadlocked.

Section migration.
  Context {D M : Type} `{Database D} `{ExtFragmentMetaStore M}.
  Variable new_v4 : nat -> Uuid.
  Variables (now : Z) (channel_id : u32) (fragment_size : u32).
  (** The transfer of the bytes read from the fragment. *)
  Variable inbound_transfer : list u8 -> Transfer -> NodeState M -> NodeState M * NodeClientResponse unit.
  (** [candidates.choose(&mut rand::thread_rng())] *)
  Variable choose : list Uuid -> option Uuid.

Abbreviation Service A := (effect (AppState D M) Halt A).

Definition own_ledger (st : NodeState M) : option (Ledger M) := sn_ledger <$> cluster st !! self_id st.

(** What [move_chunk] reads of the fragment before it reserves. *)
Definition move_source (id target_node : Uuid) (st : NodeState M)
    : NodeClientResponse (FragmentMeta * ExtFragmentMeta * list u8) :=
  match own_ledger st with
  | None => Err NcInternalError
  | Some L =>
      result_bind (ok_or (existing_fragment_meta id L) NcNotFound) (fun chunk_info =>
      result_bind (ok_or (extended_fragment_meta id L) NcNotFound) (fun meta =>
      result_bind (map_err (fun _ => NcInternalError) (fragment_read_stream id L)) (fun chunk =>
      if decide (target_node = self_id st) then Err NcInternalError
      else Ok (chunk_info, meta, chunk))))
  end.

Definition move_flags : ReserveFlags := mkReserveFlags true false false false.

Definition move_chunk (id target_node : Uuid) (st : NodeState M) : NodeState M * NodeClientResponse Uuid :=
  match move_source id target_node st with
  | Err e => (st, Err e)
  | Ok (chunk_info, meta, chunk) =>
      match try_reserve_chunk new_v4 now channel_id fragment_size target_node
              (meta_content_size chunk_info) (meta_bucket_id meta) (meta_file_id meta) move_flags st with
      | (st, Err e) => (st, Err (client_of_mdsftp e))
      | (st, Ok space) =>
          match inbound_transfer chunk (mkTransfer 0 (rf_node_id space) (rf_chunk_id space)
                  (rf_size space) false) st with
          | (st, Err e) => (st, Err e)
          | (st, Ok _) => (st, Ok (rf_chunk_id space))
          end
      end
  end.

(** Whether [move_chunk] asks for the write guard of the storage map: [try_reserve_chunk] does
    when the other node refuses for want of space. *)
Definition wants_storage_map (id target_node : Uuid) (st : NodeState M) : bool :=
  match move_source id target_node st with
  | Err _ => false
  | Ok (chunk_info, meta, _) =>
      match remote_reserve new_v4 now channel_id fragment_size target_node
              (meta_content_size chunk_info) (meta_bucket_id meta) (meta_file_id meta) move_flags st with
      | (_, Err (ReserveError _)) => true
      | _ => false
      end
  end.

(** [*storage_map.get(..).unwrap_or(&0) as i64 >= chunk.chunk_size] *)
Definition storage_of (st : NodeState M) (node : Uuid) : u64 :=
  from_option snd 0 (find (fun e => bool_decide (e.1 = node)) (node_storage_map st)).

Definition is_candidate (st : NodeState M) (chunk : FileChunk) (node : Uuid) : bool :=
  bool_decide (chunk_size chunk <= as_i64 (storage_of st node)).

Definition delete_own (id : Uuid) (st : NodeState M) : NodeState M * NodeClientResponse unit :=
  match cluster st !! self_id st with
  | Some n =>
      let '(L, r) := delete_chunk id (sn_ledger n) in
      (set_node (self_id st) (mkNode L (sn_locks n)) (drawn st) st, map_err client_of_io r)
  | None => (st, Err NcInternalError)
  end.

(** One fragment of a file: the fragment for the record, and whether it changed.  The loop
    holds the write guard of the storage map throughout. *)
Definition migrate_chunk (targets : list Uuid) (chunk : FileChunk) : Service (FileChunk * bool) :=
  L ← gets (fun s => own_ledger (node_state s));
  if from_option (fragment_exists (chunk_id chunk)) false L then
    candidates ← gets (fun s => filter (fun t => is_candidate (node_state s) chunk t = true) targets);
    target ← of_result (ok_or (choose candidates) (Failed NcInsufficientStorage));
    waits ← gets (fun s => wants_storage_map (chunk_id chunk) target (node_state s));
    if (waits : bool) then throw Deadlocked
    else
      on_err Failed (on_nodes (move_chunk (chunk_id chunk) target));;
      on_err Failed (on_nodes (delete_own (chunk_id chunk)));;
      mret (mkFileChunk target (chunk_id chunk) (chunk_size chunk) (chunk_order chunk), true)
  else mret (chunk, false).

(** The fragments of a record are a set, and no two of them have one id: the new set is the
    list of the new fragments. *)
Fixpoint migrate_file_chunks (targets : list Uuid) (chunks : list FileChunk)
    : Service (list FileChunk * bool) :=
  match chunks with
  | [] => mret ([], false)
  | chunk :: chunks =>
      one ← migrate_chunk targets chunk;
      rest ← migrate_file_chunks targets chunks;
      mret (one.1 :: rest.1, one.2 || rest.2)
  end.

Definition with_chunks (cs : list FileChunk) (f : File) : File :=
  mkFile (f_bucket_id f) (f_directory f) (f_name f) (f_id f) (f_size f) cs (f_created f) (f_last_modified f).

(** [AppState::pause] stops the ledger from reserving. *)
Definition migrate_chunks (targets : list Uuid) : Service unit :=
  modify (fun s => mkAppState (local_ledger pause (node_state s)) (db_session s));;
  files ← on_err Failed (query get_all_files);
  for_each (fun file =>
    new_chunks ← migrate_file_chunks targets (f_chunk_ids file);
    if (new_chunks.2 : bool)
    then on_err Failed (query (update_file_chunks (with_chunks new_chunks.1 file)))
    else mret tt) files.
End migration.

(** ** Records *)
(** A fragment as the record describes it, without the node. *)
Definition chunk_identity (c : FileChunk) : Uuid * Z * Z := (chunk_id c, chunk_size c, chunk_order c).

(** The record with fragments at other nodes. *)
Definition relocated (f f' : File) : Prop :=
  exists cs, f' = with_chunks cs f /\ map chunk_identity cs = map chunk_identity (f_chunk_ids f).

Definition relocated_files (T T' : Tables) : Prop :=
  forall k, option_Forall2 relocated (files_table T !! k) (files_table T' !! k).

Lemma relocated_refl f : relocated f f.
Proof. exists (f_chunk_ids f). by destruct f. Qed.

Lemma relocated_files_refl T : relocated_files T T.
Proof. intros k. destruct (files_table T !! k); constructor. apply relocated_refl. Qed.

Section records.
  Context {D M : Type} `{DatabaseLaws D} `{ExtFragmentMetaStore M}.
  Variable new_v4 : nat -> Uuid.
  Variables (now : Z) (channel_id : u32) (fragment_size : u32).
  Variable inbound_transfer : list u8 -> Transfer -> NodeState M -> NodeState M * NodeClientResponse unit.
  Variable choose : list Uuid -> option Uuid.
  Implicit Types s : AppState D M.

Abbreviation rows s := (tables (db_session s)).
Abbreviation migrate_one := (migrate_chunk (D := D) new_v4 now channel_id fragment_size inbound_transfer choose).
Abbreviation migrate_list := (migrate_file_chunks (D := D) new_v4 now channel_id fragment_size inbound_transfer choose).

Lemma migrate_chunk_keeps targets c s :
  db_session (migrate_one targets c s).1 = db_session s
  /\ forall x, (migrate_one targets c s).2 = Ok x -> chunk_identity x.1 = chunk_identity c.
Proof.
  unfold migrate_chunk, mbind, effect_bind, gets, of_result, on_err, on_nodes, throw.
  destruct (from_option _ false _); [|by split; [|intros x [= <-]]].
  destruct (ok_or _ _) as [t|e]; [|done]. destruct (wants_storage_map _ _ _ _ _ _ _); [done|].
  destruct (move_chunk _ _ _ _ _ _ _ _) as [st1 [id|e]]; [|done]. cbn.
  destruct (delete_own _ _) as [st2 [u|e]]; [|done]. by split; [|intros x [= <-]].
Qed.

Lemma migrate_file_chunks_keeps targets cs : forall s,
  db_session (migrate_list targets cs s).1 = db_session s
  /\ forall x, (migrate_list targets cs s).2 = Ok x -> map chunk_identity x.1 = map chunk_identity cs.
Proof.
  induction cs as [|c cs IH]; intros s; cbn [migrate_file_chunks]; [by split; [|intros x [= <-]]|].
  destruct (migrate_chunk_keeps targets c s) as [Hdb Hc].
  unfold mbind, effect_bind. destruct (migrate_one targets c s) as [s1 [x|e]]; [|done]. cbn [fst snd] in *.
  destruct (IH s1) as [Hdb2 Hcs]. destruct (migrate_list targets cs s1) as [s2 [y|e]];
    cbn [mret effect_ret fst snd] in *; (split; [congruence|]); [|done].
  intros z [= <-]. cbn. by rewrite (Hc x), (Hcs y).
Qed.

(** Writing the new fragments of a file that the loop read. *)
Lemma update_relocates T0 T f cs :
  files_table T0 !! row_key f = Some f -> map chunk_identity cs = map chunk_identity (f_chunk_ids f) ->
  relocated_files T0 T ->
  relocated_files T0 (row_update (row_key (with_chunks cs f)) (fun g =>
    mkFile (f_bucket_id g) (f_directory g) (f_name g) (f_id g) (f_size g) cs (f_created g) (f_last_modified g)) T).
Proof.
  intros Hf Hcs HT k. change (row_key (with_chunks cs f)) with (row_key f).
  change (files_table (row_update ?k ?g T)) with (alter g k (files_table T)).
  destruct (decide (k = row_key f)) as [->|Hne]; [|rewrite lookup_alter_ne by done; apply HT].
  rewrite lookup_alter_eq. specialize (HT (row_key f)). rewrite Hf in HT |- *.
  destruct (files_table T !! row_key f) as [g|]; inversion HT as [? ? (cs' & E & _)|]; subst.
  constructor. by exists cs.
Qed.

Lemma update_outcome f s :
  let T' := rows (on_err Failed (query (M := M) (update_file_chunks f)) s).1 in
  T' = rows s \/ T' = row_update (row_key f) (fun g =>
    mkFile (f_bucket_id g) (f_directory g) (f_name g) (f_id g) (f_size g) (f_chunk_ids f)
      (f_created g) (f_last_modified g)) (rows s).
Proof.
  unfold query, update_file_chunks, execute, on_db, on_err.
  destruct (db_exec _ (db_session s)) as [d [u|e]] eqn:E; apply exec_tables in E; cbn; auto.
Qed.

Lemma migrate_loop targets T0 l : forall s,
  Forall (fun f => files_table T0 !! row_key f = Some f) l -> relocated_files T0 (rows s) ->
  relocated_files T0 (rows (for_each (fun file =>
    new_chunks ← migrate_list targets (f_chunk_ids file);
    if (new_chunks.2 : bool)
    then on_err Failed (query (update_file_chunks (with_chunks new_chunks.1 file)))
    else mret tt) l s).1).
Proof.
  induction l as [|f l IH]; intros s Hl HT; cbn [for_each]; [done|]. apply Forall_cons in Hl as [Hf Hl].
  destruct (migrate_file_chunks_keeps targets (f_chunk_ids f) s) as [Hdb Hcs].
  unfold mbind at 1, effect_bind at 1. unfold mbind at 1, effect_bind at 1.
  destruct (migrate_list targets (f_chunk_ids f) s) as [s1 [x|e]]; cbn [fst snd] in *; [|by rewrite Hdb].
  rewrite <- Hdb in HT. destruct (x.2); [|by apply IH].
  pose proof (update_relocates T0 _ f x.1 Hf (Hcs x eq_refl) HT) as HU.
  pose proof (update_outcome (with_chunks x.1 f) s1) as HO.
  destruct (on_err Failed _ s1) as [s2 [u|e]]; cbn [fst] in *; [apply IH; [done|]|];
    by destruct HO as [->| ->].
Qed.

(** However a migration ends, with every fragment moved, with an error of the database, of
    a transfer or of the ledger in the middle, the files are the same afterwards, and each
    record has the same fragments, with the same ids, sizes and order: at most the nodes of
    some of them changed. *)
Theorem migration_keeps_records targets s :
  (forall k f, files_table (rows s) !! k = Some f -> row_key f = k) ->
  relocated_files (rows s)
    (rows (migrate_chunks new_v4 now channel_id fragment_size inbound_transfer choose targets s).1).
Proof.
  intros Hkeys. unfold migrate_chunks. unfold mbind at 1, effect_bind at 1, modify at 1.
  unfold mbind at 1, effect_bind at 1. unfold on_err at 1, query at 1, on_db at 1, on_err at 1.
  cbn [db_session].
  unfold get_all_files, select, mbind at 1, effect_bind at 1, read_tables_, on_err at 1.
  destruct (db_read (db_session s)) as [d r] eqn:E. apply read_tables in E as [Hd Hr].
  destruct r as [T|e]; cbn [map_err fst snd db_session]; [subst T|by rewrite Hd; apply relocated_files_refl].
  apply migrate_loop; cbn [db_session]; [|rewrite Hd; apply relocated_files_refl].
  apply Forall_forall. intros f Hf. rewrite scan_permutes in Hf.
  apply elem_of_rows_where in Hf as (_ & k & Hk). by rewrite (Hkeys k f Hk).
Qed.
End records.

(** ** Examples *)
(** Node 1 holds the fragment 500 with its metadata, and believes node 2 to have room. *)
Definition cluster500 (room : u64) : NodeState (gmap Uuid ExtFragmentMeta) :=
  mkState 1
    (<[1 := mkNode (set_ext_metadata_store (fun _ => Some {[500 := mkExtFragmentMeta 0 0]}) ledger500)
              (LockTable_new 10)]>
       (<[2 := mkNode (FragmentLedger_new room ∅ ∅) (LockTable_new 10)]> ∅))
    [(2, 10000)] 0.

Definition app500 (room : u64) : AppState Tables (gmap Uuid ExtFragmentMeta) :=
  mkAppState (cluster500 room) (db_session state500).

(** A transfer that stores the bytes on the other node. *)
Definition copy_bytes (bytes : list u8) (tr : Transfer) (st : NodeState (gmap Uuid ExtFragmentMeta))
    : NodeState (gmap Uuid ExtFragmentMeta) * NodeClientResponse unit :=
  match cluster st !! tr_node_id tr with
  | Some n =>
      let L := write_file (tr_chunk_id tr) (mkFragFile bytes 4096) (sn_ledger n) in
      let '(L, r) := release_reservation 0 (tr_chunk_id tr) (tr_size tr) L in
      (set_node (tr_node_id tr) (mkNode L (sn_locks n)) (drawn st) st, map_err client_of_io r)
  | None => (st, Err NcInternalError)
  end.

(** A migrated fragment is lost.  After the only fragment of a file was moved to node 2,
    the record names node 2 with the old id of the fragment, but node 2 stored the bytes under
    the new id it gave them, and was never told to keep them: no node has the fragment of the
    record, and the copy is still uncommitted. *)
Theorem migrated_fragment_lost :
  exists s', migrate_chunks drawn_ids 0 7 300 copy_bytes head [2] (app500 10000)
      = (s', Ok tt)
    /\ file_at (db_session s') 7 [] (str "f") = Some (with_chunks [mkFileChunk 2 500 3 0] file500)
    /\ (exists n1 n2, cluster (node_state s') !! 1 = Some n1 /\ cluster (node_state s') !! 2 = Some n2
        /\ fragment_exists 500 (sn_ledger n1) = false /\ fragment_exists 500 (sn_ledger n2) = false
        /\ fragment_exists 1000 (sn_ledger n2) = true
        /\ uncommited_map (sn_ledger n2) !! 1000 = Some (mkCommitInfo 0)).
Proof.
  eexists. vm_compute. split; [reflexivity|]. split; [reflexivity|].
  eexists _, _. repeat split; reflexivity.
Qed.

(** A target that has less room than the node remembers stops the migration for good.  The
    loop holds the write guard of the storage map, and the refused reservation waits for the
    same guard to record the free space. *)
Theorem migration_deadlock :
  (migrate_chunks drawn_ids 0 7 300 copy_bytes head [2] (app500 2)).2 = Err Deadlocked.
Proof. vm_compute. reflexivity. Qed.

Lemma migration_keeps_records_witness :
  relocated_files (tables (db_session (app500 10000)))
    (tables (db_session (migrate_chunks drawn_ids 0 7 300 copy_bytes head [2] (app500 10000)).1)).
Proof.
  refine (migration_keeps_records drawn_ids 0 7 300 copy_bytes head [2] (app500 10000) _).
  intros k f. change (files_table (tables (db_session (app500 10000))))
    with (<[row_key file500 := file500]> (∅ : gmap (Uuid * Uuid * Text) File)).
  intros [[<- <-]|[_ E]]%lookup_insert_Some; [reflexivity|].
  rewrite lookup_empty in E. discriminate.
Defined.
