(* ===== verification/Dashboard.v ===== *)
(** * The dashboard

    [dashboard/src/public]: applications with their quotas, members and roles, their buckets,
    and the check of what a user may do in an application.

    The services run against the database alone.  Ids drawn by [Uuid::new_v4] and the time are
    arguments.  Sums of 64-bit quotas wrap as in a release build.  An answer that only repeats
    the fields of a record is the record. *)
From Stdlib Require Import ZArith Lia List Ascii.
From stdpp Require Import base numbers list strings gmap.
From S2P Require Import Prelude Errors MetaStore Placement FileAccess Paths Permissions Database Directories.
Local Open Scope Z_scope.

(** ** Requests and answers *)
Record CreateApplicationRequest : Type := mkCreateApp { ca_name : Text; ca_quota : u64 }.
Record CreateBucketRequest : Type := mkCreateBucket {
  cb_name : Text;
  cb_app_id : Uuid;
  cb_quota : u64;
  cb_atomic_upload : bool
}.
Record ScopedPermission : Type := mkScoped { sp_bucket_id : Uuid; sp_allowance : u64 }.
Record AppRolePath : Type := mkRolePath { rp_name : Text; rp_app_id : Uuid }.
Record MemberIdRequest : Type := mkMemberId { mi_app_id : Uuid; mi_id : Uuid }.

Record MemberDto : Type := mkMemberDto {
  md_app_id : Uuid;
  md_member_id : Uuid;
  md_member_roles : list Text
}.
Definition MemberDto_of (m : AppMember) : MemberDto :=
  mkMemberDto (m_app_id m) (m_member_id m) (default [] (m_member_roles m)).

Record AppList : Type := mkAppList { al_owned : list App; al_member_of : list (App * MemberDto) }.

Record UserRoleDto : Type := mkRoleDto {
  rd_app_id : Uuid;
  rd_name : Text;
  rd_scopes : list ScopedPermission;
  rd_created : Z;
  rd_last_modified : Z
}.
Definition UserRoleDto_of (r : UserRole) : UserRoleDto :=
  mkRoleDto (r_app_id r) (r_name r)
    (default [] (map (fun v => mkScoped v.1 (wrap 64 v.2)) <$> r_scopes r))
    (r_created r) (r_last_modified r).

Record UploadSessionDto : Type := mkUploadSession {
  us_app_id : Uuid;
  us_bucket_id : Uuid;
  us_path : Text;
  us_size : u64;
  us_durable : bool;
  us_last_access : Z
}.
Definition UploadSession_of (s : BucketUploadSession) : UploadSessionDto :=
  mkUploadSession (s_app_id s) (s_bucket s) (s_path s) (wrap 64 (s_size s)) (s_durable s) (s_last_access s).

Record OwnUserInfo : Type := mkUserInfo {
  ui_id : Uuid;
  ui_name : Text;
  ui_global_role : Z;
  ui_created : Z;
  ui_last_modified : Z;
  ui_quota : i64
}.
Definition OwnUserInfo_of (u : UserRow) : OwnUserInfo :=
  mkUserInfo (u_id u) (u_name u) (u_global_role u) (u_created u) (u_last_modified u) (u_quota u).

Definition valid_name (name : Text) : NodeClientResponse unit :=
  if decide (Z.of_nat (length name) < 3 \/ 64 < Z.of_nat (length name)) then Err NcBadRequest else Ok tt.

(** ** What a user may do *)
Definition CREATE_BUCKET_ALLOWANCE : u64 := u64_of_list [CreateBucket].
Definition DELETE_BUCKET_ALLOWANCE : u64 := u64_of_list [DeleteBucket].
Definition ALTER_BUCKET_ALLOWANCE : u64 := u64_of_list [CreateBucket; DeleteBucket].
Definition LIST_ALL_TOKEN_ALLOWANCE : u64 := u64_of_list [ListAllTokens].
Definition DELETE_ALL_TOKEN_ALLOWANCE : u64 := u64_of_list [DeleteAllTokens; ListAllTokens].
Definition MANAGE_ROLES_ALLOWANCE : u64 := u64_of_list [ManageRoles].
Definition NO_ALLOWANCE : u64 := 0.

Inductive PermCheckScope : Type := Application | Buckets (bucket_id : Uuid).

Definition permit_covers (scope : PermCheckScope) (requested : u64) (permit : Uuid * i64) : bool :=
  match scope with
  | Application =>
      bool_decide (to_u128_le permit.1 = 0) && check_permission (wrap 64 permit.2) requested
  | Buckets bucket_id =>
      bool_decide (to_u128_le permit.1 <> 0) && bool_decide (bucket_id = permit.1)
        && check_permission (wrap 64 permit.2) requested
  end.

(** The roles of an application by name; of two entries of a name the last remains. *)
Definition role_map (roles : list UserRole) : gmap Text (list (Uuid * i64)) :=
  fold_left (fun m r => <[r_name r := default [] (r_scopes r)]> m) roles ∅.

Definition role_covers (roles : gmap Text (list (Uuid * i64))) (scope : PermCheckScope)
    (requested : u64) (role : Text) : bool :=
  existsb (permit_covers scope requested) (default [] (roles !! role)).

Definition sum_i64 (l : list i64) : i64 := fold_left i64_add l 0.

Section services.
  Context {D : Type} `{Database D}.

Abbreviation Service A := (effect D NodeClientError A).
Abbreviation db m := (on_err client_of_data m).

Definition has_app_permission (user : UserRow) (app : App) (requested : u64) (scope : PermCheckScope)
    : Service unit :=
  if decide (a_owner_id app = u_id user \/ u_global_role user = i32_of_GlobalRole Admin) then mret tt
  else
    member ← db (get_app_member (a_id app) (u_id user));
    roles ← db (get_app_roles (a_id app));
    if existsb (role_covers (role_map roles) scope requested) (default [] (m_member_roles member))
    then mret tt else throw NcBadAuth.

(** ** [application_service.rs] *)
Definition get_user_used_quota (user : UserRow) : effect D MeowithDataError i64 :=
  owned_apps ← get_apps_by_owner (u_id user);
  mret (sum_i64 (map a_quota owned_apps)).

Definition get_user_used_app_quota (app : App) : effect D MeowithDataError i64 :=
  buckets ← get_buckets (a_id app);
  mret (sum_i64 (map b_quota buckets)).

Definition do_create_app (id : Uuid) (now : Z) (req : CreateApplicationRequest) (user : UserRow)
    : Service App :=
  used_quota ← db (get_user_used_quota user);
  if decide (u_quota user < i64_add (as_i64 (ca_quota req)) used_quota) then throw NcInsufficientStorage
  else
    let app := mkApp id (ca_name req) (u_id user) (as_i64 (ca_quota req)) now now in
    db (insert_app app);; mret app.

(** The route in front of it. *)
Definition create_application (id : Uuid) (now : Z) (req : CreateApplicationRequest) (user : UserRow)
    : Service App :=
  of_result (valid_name (ca_name req));; do_create_app id now req user.

Definition do_edit_app (id : Uuid) (quota : u64) (user : UserRow) : Service unit :=
  used_quota ← db (get_user_used_quota user);
  app ← db (get_app_by_id id);
  app_min ← db (get_user_used_app_quota app);
  if decide (as_i64 quota <= app_min) then throw NcBadRequest
  else if decide (u_quota user < i64_add (i64_add (as_i64 quota) used_quota) (- a_quota app))
  then throw NcInsufficientStorage
  else db (update_app_quota (a_id app) (as_i64 quota)).

Definition do_delete_app (id : Uuid) (user : UserRow) : Service unit :=
  app ← db (get_app_by_id id);
  if decide (u_id user <> a_owner_id app) then throw NcBadAuth
  else
    bucket ← db (maybe_get_first_bucket id);
    match bucket with
    | Some _ => throw NcEntityExists
    | None => db (delete_app app)
    end.

Definition do_add_member (member_id app_id : Uuid) (user : UserRow) : Service unit :=
  app ← db (get_app_by_id app_id);
  if decide (u_id user <> a_owner_id app) then throw NcBadAuth
  else
    found ← db (maybe_get_user_from_id member_id);
    match found with
    | Some _ => db (insert_app_member (a_id app) member_id)
    | None => throw NcNotFound
    end.

Definition do_delete_member (member_id app_id : Uuid) (user : UserRow) : Service unit :=
  app ← db (get_app_by_id app_id);
  if decide (u_id user <> a_owner_id app) then throw NcBadAuth
  else
    found ← db (maybe_get_app_member (a_id app) member_id);
    match found with
    | Some member => db (delete_app_member member)
    | None => throw NcNotFound
    end.

Fixpoint membered_apps (members : list AppMember) : Service (list (App * MemberDto)) :=
  match members with
  | [] => mret []
  | member :: members =>
      app ← db (get_app_by_id (m_app_id member));
      rest ← membered_apps members;
      mret ((app, MemberDto_of member) :: rest)
  end.

Definition do_list_apps (user : UserRow) : Service AppList :=
  owned_apps ← db (get_apps_by_owner (u_id user));
  members ← db (get_members_by_id (u_id user));
  member_of ← membered_apps members;
  mret (mkAppList owned_apps member_of).

Definition do_list_buckets (app_id : Uuid) (user : UserRow) : Service (list Bucket) :=
  app ← db (get_app_by_id app_id);
  has_app_permission user app NO_ALLOWANCE Application;;
  db (get_buckets app_id).

Definition do_list_members (app_id : Uuid) (user : UserRow) : Service (list MemberDto) :=
  app ← db (get_app_by_id app_id);
  has_app_permission user app NO_ALLOWANCE Application;;
  members ← db (get_app_members app_id);
  mret (map MemberDto_of members).

(** ** [bucket_service.rs] *)
Definition do_create_bucket (id : Uuid) (now : Z) (req : CreateBucketRequest) (user : UserRow)
    : Service Bucket :=
  app ← db (get_app_by_id (cb_app_id req));
  has_app_permission user app CREATE_BUCKET_ALLOWANCE Application;;
  buckets ← db (get_buckets (cb_app_id req));
  let sum := sum_i64 (map b_quota buckets) in
  if decide (a_quota app < i64_add sum (as_i64 (cb_quota req))) then throw NcInsufficientStorage
  else
    let bucket := mkBucket (cb_app_id req) id (cb_name req) false (cb_atomic_upload req)
                    (as_i64 (cb_quota req)) 0 0 now now in
    db (insert_bucket bucket);; mret bucket.

Definition create_bucket (id : Uuid) (now : Z) (req : CreateBucketRequest) (user : UserRow)
    : Service Bucket :=
  of_result (valid_name (cb_name req));; do_create_bucket id now req user.

Definition do_delete_bucket (app_id bucket_id : Uuid) (user : UserRow) : Service unit :=
  bucket ← db (get_bucket app_id bucket_id);
  app ← db (get_app_by_id app_id);
  has_app_permission user app DELETE_BUCKET_ALLOWANCE Application;;
  file ← db (maybe_get_first_file_from_directory bucket_id None);
  match file with
  | Some _ => throw NcEntityExists
  | None =>
      child ← db (maybe_get_first_child_from_directory bucket_id None);
      match child with
      | Some _ => throw NcEntityExists
      | None => db (delete_bucket bucket)
      end
  end.

Definition with_quota (quota : i64) (b : Bucket) : Bucket :=
  mkBucket (b_app_id b) (b_id b) (b_name b) (b_encrypted b) (b_atomic_upload b) quota
    (b_file_count b) (b_space_taken b) (b_created b) (b_last_modified b).

Definition do_edit_bucket (quota : u64) (app_id bucket_id : Uuid) (user : UserRow) : Service unit :=
  bucket ← db (get_bucket app_id bucket_id);
  app ← db (get_app_by_id app_id);
  has_app_permission user app ALTER_BUCKET_ALLOWANCE Application;;
  reservations ← db (get_upload_sessions app_id bucket_id);
  let reserved := sum_i64 (map s_size reservations) in
  app_quota ← db (get_user_used_app_quota app);
  let app_used := i64_add app_quota (- b_quota bucket) in
  if decide (a_quota app < i64_add app_used (as_i64 quota)) then throw NcInsufficientStorage
  else if decide (as_i64 quota < i64_add (b_space_taken bucket) reserved) then throw NcInsufficientStorage
  else db (update_bucket_quota (with_quota (as_i64 quota) bucket)).

Definition do_get_upload_sessions (bucket_id app_id : Uuid) (user : UserRow)
    : Service (list UploadSessionDto) :=
  db (get_bucket app_id bucket_id);;
  app ← db (get_app_by_id app_id);
  has_app_permission user app NO_ALLOWANCE Application;;
  sessions ← db (get_upload_sessions app_id bucket_id);
  mret (map UploadSession_of sessions).

(** ** [role_service.rs] *)
Definition do_get_roles (app_id : Uuid) (user : UserRow) : Service (list UserRoleDto) :=
  app ← db (get_app_by_id app_id);
  has_app_permission user app NO_ALLOWANCE Application;;
  roles ← db (get_app_roles app_id);
  mret (map UserRoleDto_of roles).

Definition do_create_role (now : Z) (req : AppRolePath) (user : UserRow) : Service unit :=
  app ← db (get_app_by_id (rp_app_id req));
  has_app_permission user app MANAGE_ROLES_ALLOWANCE Application;;
  db (insert_app_role (mkUserRole (rp_app_id req) (rp_name req) None now now)).

Definition do_delete_role (req : AppRolePath) (user : UserRow) : Service unit :=
  app ← db (get_app_by_id (rp_app_id req));
  has_app_permission user app MANAGE_ROLES_ALLOWANCE Application;;
  role ← db (get_app_role (rp_app_id req) (rp_name req));
  db (delete_app_role role).

Definition do_patch_role (now : Z) (req : AppRolePath) (user : UserRow) (perms : list ScopedPermission)
    : Service unit :=
  app ← db (get_app_by_id (rp_app_id req));
  has_app_permission user app MANAGE_ROLES_ALLOWANCE Application;;
  role ← db (get_app_role (rp_app_id req) (rp_name req));
  db (update_app_role (mkUserRole (r_app_id role) (r_name role)
    (Some (remove_dups (map (fun it => (sp_bucket_id it, as_i64 (sp_allowance it))) perms)))
    (r_created role) now)).

Definition do_patch_member_roles (req : MemberIdRequest) (user : UserRow) (roles : list Text)
    : Service unit :=
  app ← db (get_app_by_id (mi_app_id req));
  has_app_permission user app MANAGE_ROLES_ALLOWANCE Application;;
  app_roles ← db (get_app_roles (mi_app_id req));
  if forallb (fun role => bool_decide (role ∈ map r_name app_roles)) roles then
    member ← db (get_app_member (mi_app_id req) (mi_id req));
    db (update_app_member (mkMember (m_app_id member) (m_member_id member) (Some (remove_dups roles))))
  else throw NcBadRequest.

(** ** [user_service.rs] *)
Definition do_get_user_by_id (id : Uuid) : Service (option OwnUserInfo) :=
  user ← db (maybe_get_user_from_id id); mret (OwnUserInfo_of <$> user).

Definition do_get_user_by_name (name : Text) : Service (option OwnUserInfo) :=
  user ← db (maybe_get_user_from_name name); mret (OwnUserInfo_of <$> user).
End services.

(** ** The permission check *)
Definition privileged (user : UserRow) (app : App) : Prop :=
  a_owner_id app = u_id user \/ u_global_role user = i32_of_GlobalRole Admin.

#[global] Instance privileged_dec user app : Decision (privileged user app).
Proof. unfold privileged. apply _. Defined.

(** The member has a role with a permit of that scope for all that is requested. *)
Definition role_permits (T : Tables) (m : AppMember) (scope : PermCheckScope) (requested : u64) : Prop :=
  exists name role permit, name ∈ default [] (m_member_roles m)
    /\ user_roles_table T !! (m_app_id m, name) = Some role
    /\ permit ∈ default [] (r_scopes role) /\ permit_covers scope requested permit = true.

Definition roles_keyed (T : Tables) : Prop :=
  (forall k r, user_roles_table T !! k = Some r -> row_key r = k)
  /\ (forall k m, app_members_table T !! k = Some m -> row_key m = k).

Definition allowed (T : Tables) (user : UserRow) (app : App) (scope : PermCheckScope) (requested : u64) : Prop :=
  privileged user app
  \/ exists m, app_members_table T !! (a_id app, u_id user) = Some m /\ role_permits T m scope requested.

Lemma role_map_lookup l name scopes :
  (forall r r', r ∈ l -> r' ∈ l -> r_name r = r_name r' -> r = r') ->
  role_map l !! name = Some scopes
  <-> exists r, r ∈ l /\ r_name r = name /\ default [] (r_scopes r) = scopes.
Proof.
  unfold role_map.
  assert (Hgen : forall m : gmap Text (list (Uuid * i64)), (forall r r', r ∈ l -> r' ∈ l -> r_name r = r_name r' -> r = r') ->
    fold_left (fun m r => <[r_name r := default [] (r_scopes r)]> m) l m !! name = Some scopes
    <-> (exists r, r ∈ l /\ r_name r = name /\ default [] (r_scopes r) = scopes)
        \/ ((forall r, r ∈ l -> r_name r <> name) /\ m !! name = Some scopes)).
  2: { intros Hu. rewrite (Hgen ∅ Hu), lookup_empty. naive_solver. }
  clear. induction l as [|r l IH]; intros m Hu; cbn [fold_left]; [set_solver|].
  rewrite IH by set_solver. clear IH. destruct (decide (r_name r = name)) as [Hn|Hn].
  - rewrite Hn, lookup_insert_eq. split.
    + intros [(r' & ? & ?)|(_ & [= <-])]; left; [exists r'|exists r]; set_solver.
    + intros [(r' & [->|Hin]%elem_of_cons & Hr' & <-)|(Hno & _)].
      * destruct (decide (Exists (fun r' => r_name r' = name) l)) as [Hin|Hno].
        -- apply Exists_exists in Hin as (r'' & Hin & Hr''). left. exists r''. split; [done|].
           split; [done|]. by rewrite (Hu r'' r) by (set_solver || congruence).
        -- right. split; [|done]. intros r'' ? ?. apply Hno, Exists_exists. eauto.
      * left. eauto.
      * by destruct (Hno r); [left|].
  - rewrite lookup_insert_ne by done. set_solver.
Qed.

Lemma role_check T m roles scope requested :
  roles_keyed T ->
  roles ≡ₚ rows_where (fun r : UserRole => bool_decide (r_app_id r = m_app_id m)) T ->
  existsb (role_covers (role_map roles) scope requested) (default [] (m_member_roles m)) = true
  <-> role_permits T m scope requested.
Proof.
  intros [Hkey _] Hroles.
  assert (Hmem : forall r, r ∈ roles <-> user_roles_table T !! (m_app_id m, r_name r) = Some r
                                         /\ r_app_id r = m_app_id m).
  { intros r. rewrite Hroles, elem_of_rows_where, bool_decide_eq_true. split.
    - intros (Hr & k & Hk). pose proof (Hkey k r Hk) as <-. rewrite <- Hr. by split.
    - intros (Hk & Hr). eauto. }
  assert (Hu : forall r r', r ∈ roles -> r' ∈ roles -> r_name r = r_name r' -> r = r').
  { intros r r' [Hr _]%Hmem [Hr' _]%Hmem E. rewrite E, Hr' in Hr. by injection Hr. }
  rewrite existsb_exists. unfold role_permits, role_covers. split.
  - intros (name & Hn%list_elem_of_In & Hc). apply existsb_exists in Hc as (permit & Hp%list_elem_of_In & Hc).
    destruct (role_map roles !! name) as [scopes|] eqn:Em; [|by apply elem_of_nil in Hp].
    apply role_map_lookup in Em as (r & Hr & <- & <-); [|done]. apply Hmem in Hr as [Hr _]. by exists (r_name r), r, permit.
  - intros (name & role & permit & Hn & Hr & Hp & Hc). exists name. split; [by apply list_elem_of_In|].
    pose proof (Hkey _ _ Hr) as Hk. injection Hk as Ha <-.
    assert (Em : role_map roles !! r_name role = Some (default [] (r_scopes role))).
    { apply role_map_lookup; [done|]. exists role. by rewrite Hmem. }
    rewrite Em. apply existsb_exists. exists permit. by rewrite <- list_elem_of_In.
Qed.

Section permissions.
  Context {D : Type} `{ReliableDatabase D}.
  Implicit Types d : D.

Lemma run_permission user app requested scope d :
  roles_keyed (tables d) ->
  exists d' r, has_app_permission user app requested scope d = (d', r) /\ tables d' = tables d
    /\ match r with
       | Ok _ => allowed (tables d) user app scope requested
       | Err e =>
           ~ privileged user app
           /\ match app_members_table (tables d) !! (a_id app, u_id user) with
              | None => e = NcNotFound
              | Some m => e = NcBadAuth /\ ~ role_permits (tables d) m scope requested
              end
       end.
Proof.
  intros Hk. unfold has_app_permission. fold (privileged user app).
  destruct (decide (privileged user app)) as [Hp|Hp]; [exists d, (Ok tt); split; [done|]; split; [done|by left]|].
  unfold get_app_member, get_app_roles.
  destruct (run_find_row (R := AppMember) (a_id app, u_id user) d) as (d1 & E1 & Hd1).
  change (table (R := AppMember) (tables d)) with (app_members_table (tables d)) in E1.
  destruct (app_members_table (tables d) !! (a_id app, u_id user)) as [m|] eqn:Em.
  2: { exists d1, (Err NcNotFound). unfold mbind, effect_bind, on_err at 1. by rewrite E1. }
  destruct (run_select (fun r : UserRole => bool_decide (r_app_id r = a_id app)) d1) as (d2 & l & E2 & Hd2 & Hl).
  assert (Ha : m_app_id m = a_id app) by (pose proof (proj2 Hk _ _ Em) as E; by injection E).
  rewrite <- Ha, Hd1 in Hl. pose proof (role_check _ m l scope requested Hk Hl) as Hc.
  unfold mbind, effect_bind, on_err. rewrite E1. cbn [map_err ok_or]. rewrite E2. cbn [map_err].
  destruct (existsb _ _); eexists d2, _; (split; [done|]); (split; [congruence|]); cbn.
  - right. exists m. split; [done|]. by apply Hc.
  - split; [done|]. split; [done|]. by intros ?%Hc.
Qed.

(** Who may act in an application.  The owner and global administrators always may; anyone
    else has to be a member, or the application is not found for them, and needs a role whose
    permit for the application, or for the bucket, includes everything that is requested. *)
Theorem has_app_permission_spec user app requested scope d :
  roles_keyed (tables d) ->
  exists d' r, has_app_permission user app requested scope d = (d', r) /\ tables d' = tables d
    /\ match r with
       | Ok _ => allowed (tables d) user app scope requested
       | Err e =>
           ~ privileged user app
           /\ match app_members_table (tables d) !! (a_id app, u_id user) with
              | None => e = NcNotFound
              | Some m => e = NcBadAuth /\ ~ role_permits (tables d) m scope requested
              end
       end.
Proof. apply run_permission. Qed.

(** Nothing of a bucket is left. *)
Definition bucket_empty (T : Tables) (b : Uuid) : Prop :=
  (forall k f, files_table T !! k = Some f -> f_bucket_id f <> b)
  /\ (forall k r, directories_table T !! k = Some r -> d_bucket_id r <> b).

(** Every file is in the root of its bucket or in one of its directories. *)
Definition files_placed (T : Tables) : Prop := forall k f, files_table T !! k = Some f ->
  f_directory f = ROOT_DIR
  \/ exists j r, directories_table T !! j = Some r /\ d_bucket_id r = f_bucket_id f.

Lemma no_root_directory T b :
  dir_tree T -> (forall k r, directories_table T !! k = Some r -> d_bucket_id r = b -> d_parent r <> []) ->
  forall k r, directories_table T !! k = Some r -> d_bucket_id r <> b.
Proof.
  intros Htree Hroot [[b' p] x] r. remember (length p) as n eqn:En. revert p x r En.
  induction (lt_wf n) as [n _ IH]. intros p x r En Hr Hb.
  destruct (Htree b' p x r Hr) as (Hkey & l & Hp & Hplain & Hex). injection Hkey as Hb' Hpar _.
  destruct Hex as [->|(q & y & -> & r' & Hr')].
  - by apply (Hroot _ _ Hr Hb); rewrite Hpar, Hp.
  - destruct (Htree b' (join q) y r' Hr') as (Hkey' & _). injection Hkey' as Hb'' _ _.
    eapply (IH (length (join q))); [|done|exact Hr'|congruence].
    rewrite En, Hp. apply Forall_app in Hplain as [Hplain _]. apply Forall_app in Hplain as [_ Hy].
    apply Forall_cons in Hy as [Hy _]. destruct q as [|z q].
    + destruct Hy as [[Hy _] _]. destruct y as [|c y]; [done|].
      change (0 < length (c :: y))%nat. simpl. lia.
    + rewrite join_snoc, length_app by done. simpl. lia.
Qed.

(** The end of the handler: the bucket goes if its root is empty. *)
Lemma run_delete_if_empty (bucket : Bucket) bucket_id d :
  dir_tree (tables d) -> files_placed (tables d) ->
  exists d' r, (file ← on_err client_of_data (maybe_get_first_file_from_directory bucket_id None);
      match file with
      | Some _ => throw NcEntityExists
      | None =>
          child ← on_err client_of_data (maybe_get_first_child_from_directory bucket_id None);
          match child with
          | Some _ => throw NcEntityExists
          | None => on_err client_of_data (delete_bucket bucket)
          end
      end) d = (d', r)
    /\ match r with
       | Ok _ => bucket_empty (tables d) bucket_id /\ tables d' = row_delete Bucket (row_key bucket) (tables d)
       | Err e => tables d' = tables d /\ ~ bucket_empty (tables d) bucket_id
       end.
Proof.
  intros Htree Hplaced. unfold maybe_get_first_file_from_directory, maybe_get_first_child_from_directory.
  unfold mbind at 1, effect_bind at 1, on_err at 1.
  edestruct (run_maybe_find_first (D := D) (R := File)) as (d4 & o & -> & Hd4 & Ho). cbn [map_err]. destruct o as [f|].
  { exists d4, (Err NcEntityExists). split; [done|]. split; [done|]. intros [Hno _].
    destruct Ho as ([Hf _]%bool_decide_eq_true & k & Hkf). by apply (Hno k f Hkf). }
  unfold mbind at 1, effect_bind at 1, on_err at 1.
  edestruct (run_maybe_find_first (D := D) (R := Directory)) as (d5 & o & -> & Hd5 & Ho').
  rewrite Hd4 in Hd5, Ho'. cbn [map_err].
  destruct o as [c|].
  { exists d5, (Err NcEntityExists). split; [done|]. split; [done|]. intros [_ Hno].
    destruct Ho' as ([Hf _]%bool_decide_eq_true & k & Hkf). by apply (Hno k c Hkf). }
  destruct (run_delete_row bucket d5) as (d6 & E6 & Hd6). exists d6, (Ok tt). split.
  { unfold on_err, delete_bucket. by rewrite E6. }
  split; [|by rewrite Hd6, Hd5].
  assert (Hdirs : forall k r, directories_table (tables d) !! k = Some r -> d_bucket_id r <> bucket_id).
  { apply no_root_directory; [done|]. intros k r Hr' Hb' Hp. specialize (Ho' k r Hr').
    apply bool_decide_eq_false in Ho'. by apply Ho'. }
  split; [|done]. intros k f Hf Eb. specialize (Ho k f Hf). apply bool_decide_eq_false in Ho.
  destruct (Hplaced k f Hf) as [Hroot|(j & r & Hj & Ej)]; [by apply Ho|].
  apply (Hdirs j r Hj). congruence.
Qed.

(** Deleting a bucket.  It is deleted only by someone who may, and only if it is empty:
    in a database whose directories form trees and whose files are in them, looking at the
    root of the bucket is enough.  Otherwise nothing changes. *)
Theorem delete_bucket_spec app_id bucket_id user d :
  roles_keyed (tables d) -> dir_tree (tables d) -> files_placed (tables d) ->
  exists d' r, do_delete_bucket app_id bucket_id user d = (d', r)
    /\ match r with
       | Ok _ => exists bucket app, buckets_table (tables d) !! (app_id, bucket_id) = Some bucket
           /\ apps_table (tables d) !! app_id = Some app
           /\ allowed (tables d) user app Application DELETE_BUCKET_ALLOWANCE
           /\ bucket_empty (tables d) bucket_id
           /\ tables d' = row_delete Bucket (row_key bucket) (tables d)
       | Err e => tables d' = tables d /\ (e = NcEntityExists -> ~ bucket_empty (tables d) bucket_id)
       end.
Proof.
  intros Hk Htree Hplaced. unfold do_delete_bucket, get_bucket, get_app_by_id.
  destruct (run_find_row (R := Bucket) (app_id, bucket_id) d) as (d1 & E1 & Hd1).
  unfold mbind at 1, effect_bind at 1, on_err at 1. rewrite E1.
  destruct (table (tables d) !! (app_id, bucket_id)) as [bucket|] eqn:Hb; cbn [ok_or map_err];
    [|by exists d1, (Err NcNotFound)].
  destruct (run_find_row (R := App) app_id d1) as (d2 & E2 & Hd2). rewrite Hd1 in Hd2, E2.
  unfold mbind at 1, effect_bind at 1, on_err at 1. rewrite E2.
  destruct (table (tables d) !! app_id) as [app|] eqn:Ha; cbn [ok_or map_err]; [|by exists d2, (Err NcNotFound)].
  destruct (run_permission user app DELETE_BUCKET_ALLOWANCE Application d2) as (d3 & r & E3 & Hd3 & Hr);
    [by rewrite Hd2|]. rewrite Hd2 in Hd3, Hr.
  unfold mbind at 1, effect_bind at 1. rewrite E3.
  destruct r as [[]|e]; [|exists d3, (Err e); split; [done|]; split; [done|]; intros ->;
    destruct Hr as [_ Hr]; destruct (app_members_table (tables d) !! _) as [m|]; [by destruct Hr|done]].
  destruct (run_delete_if_empty bucket bucket_id d3) as (d4 & r & E4 & Hr4); [by rewrite Hd3..|].
  rewrite Hd3 in Hr4. exists d4, r. split; [exact E4|]. destruct r as [[]|e]; [|by destruct Hr4].
  exists bucket, app. by destruct Hr4.
Qed.
End permissions.

(** ** Quotas *)
(** The requests that change the tables, with the ids and times the handlers draw. *)
Inductive Request : Type :=
| CreateApp (id : Uuid) (now : Z) (req : CreateApplicationRequest)
| EditApp (id : Uuid) (quota : u64)
| DeleteApp (id : Uuid)
| AddMember (member_id app_id : Uuid)
| DeleteMember (member_id app_id : Uuid)
| CreateBucketIn (id : Uuid) (now : Z) (req : CreateBucketRequest)
| EditBucket (quota : u64) (app_id bucket_id : Uuid)
| DeleteBucketOf (app_id bucket_id : Uuid)
| CreateRole (now : Z) (req : AppRolePath)
| DeleteRole (req : AppRolePath)
| PatchRole (now : Z) (req : AppRolePath) (perms : list ScopedPermission)
| PatchMemberRoles (req : MemberIdRequest) (roles : list Text).

(** A handler whose answer is of no interest. *)
Definition silent {S E A} (m : effect S E A) : effect S E unit := m;; mret tt.

Definition serve {D} `{Database D} (user : UserRow) (r : Request) : effect D NodeClientError unit :=
  match r with
  | CreateApp id now req => silent (create_application id now req user)
  | EditApp id quota => do_edit_app id quota user
  | DeleteApp id => do_delete_app id user
  | AddMember member_id app_id => do_add_member member_id app_id user
  | DeleteMember member_id app_id => do_delete_member member_id app_id user
  | CreateBucketIn id now req => silent (create_bucket id now req user)
  | EditBucket quota app_id bucket_id => do_edit_bucket quota app_id bucket_id user
  | DeleteBucketOf app_id bucket_id => do_delete_bucket app_id bucket_id user
  | CreateRole now req => do_create_role now req user
  | DeleteRole req => do_delete_role req user
  | PatchRole now req perms => do_patch_role now req user perms
  | PatchMemberRoles req roles => do_patch_member_roles req user roles
  end.

(** Requests served one after the other, whatever the answers. *)
Fixpoint serve_all {D} `{Database D} (reqs : list (UserRow * Request)) (d : D) : D :=
  match reqs with
  | [] => d
  | (user, r) :: reqs => serve_all reqs (serve user r d).1
  end.

(** The ids of the applications a request creates. *)
Definition new_apps (r : Request) : list Uuid := match r with CreateApp id _ _ => [id] | _ => [] end.

Definition sensible_quota (r : Request) : Prop :=
  match r with
  | CreateApp _ _ req => 0 <= ca_quota req < 2 ^ 62
  | EditApp _ quota | EditBucket quota _ _ => 0 <= quota < 2 ^ 62
  | CreateBucketIn _ _ req => 0 <= cb_quota req < 2 ^ 62
  | _ => True
  end.

Definition app_buckets (T : Tables) (a : Uuid) : gmap (Uuid * Uuid) Bucket :=
  filter (fun kb => bool_decide (b_app_id kb.2 = a) = true) (buckets_table T).

Record quotas_ok (T : Tables) : Prop := {
  qo_apps : forall k a, apps_table T !! k = Some a -> a_id a = k;
  qo_buckets : forall k b, buckets_table T !! k = Some b ->
    row_key b = k /\ 0 <= b_quota b /\ is_Some (apps_table T !! b_app_id b);
  qo_sums : forall k a, apps_table T !! k = Some a ->
    map_sum b_quota (app_buckets T k) <= a_quota a < 2 ^ 62
}.

Lemma sum_i64_spec l : sum_i64 l = as_signed 64 (list_sum l).
Proof.
  unfold sum_i64. enough (Hg : forall a, fold_left i64_add l (as_signed 64 a) = as_signed 64 (a + list_sum l)).
  { exact (Hg 0). }
  induction l as [|x l IH]; intros a; cbn [fold_left]; [by rewrite Z.add_0_r|].
  unfold i64_add at 2. rewrite as_signed_add, IH by lia.
  change (list_sum (x :: l)) with (x + list_sum l). f_equal. lia.
Qed.

Lemma as_i64_sensible q : 0 <= q < 2 ^ 62 -> as_i64 q = q.
Proof. intros Hq. apply as_i64_small. lia. Qed.

Lemma i64_add_small a b : - 2 ^ 63 <= a + b < 2 ^ 63 -> i64_add a b = a + b.
Proof. intros Hab. unfold i64_add. apply as_signed_small; lia. Qed.

Section quota_facts.
  Variable T : Tables.
  Hypothesis HT : quotas_ok T.

Lemma bucket_sum_nonneg a : 0 <= map_sum b_quota (app_buckets T a).
Proof.
  apply map_sum_nonneg. intros k b Hb. apply map_lookup_filter_Some in Hb as [Hb _].
  by apply (qo_buckets T HT k).
Qed.

(** What the sum over a scan of the application's buckets is. *)
Lemma scanned_sum a app (l : list Bucket) :
  apps_table T !! a = Some app -> l ≡ₚ rows_where (fun b => bool_decide (b_app_id b = a)) T ->
  sum_i64 (map b_quota l) = map_sum b_quota (app_buckets T a).
Proof.
  intros Ha Hl. rewrite sum_i64_spec, (list_sum_perm _ _ (Permutation_map b_quota Hl)).
  unfold rows_where. rewrite (map_sum_filter_list b_quota (fun b => bool_decide (b_app_id b = a))).
  fold (app_buckets T a). change (table T) with (buckets_table T).
  pose proof (qo_sums T HT a app Ha). pose proof (bucket_sum_nonneg a).
  unfold app_buckets in *. rewrite as_signed_small by lia. done.
Qed.
End quota_facts.

Lemma quotas_same T T' :
  apps_table T' = apps_table T -> buckets_table T' = buckets_table T -> quotas_ok T -> quotas_ok T'.
Proof. intros Ea Eb [H1 H2 H3]. unfold app_buckets in H3. split; unfold app_buckets; by rewrite ?Ea, ?Eb. Qed.

(** Changes of the applications. *)
Section app_changes.
  Variables (T : Tables) (app : App).
  Hypothesis HT : quotas_ok T.

Lemma quotas_set_app :
  map_sum b_quota (app_buckets T (a_id app)) <= a_quota app < 2 ^ 62 -> quotas_ok (row_insert app T).
Proof.
  intros Hq. destruct HT as [H1 H2 H3]. split; unfold row_insert, app_buckets; cbn [apps_table buckets_table set_table table App_row].
  - intros k a [[<- <-]|[_ Ha]]%lookup_insert_Some; [done|by apply H1].
  - intros k b Hb. destruct (H2 k b Hb) as (? & ? & Hin). split; [done|]. split; [done|].
    by apply lookup_insert_is_Some'; right.
  - intros k a [[<- <-]|[_ Ha]]%lookup_insert_Some; [done|by apply (H3 k)].
Qed.

Lemma quotas_delete_app :
  (forall k b, buckets_table T !! k = Some b -> b_app_id b <> a_id app) ->
  quotas_ok (row_delete App (a_id app) T).
Proof.
  intros Hno. destruct HT as [H1 H2 H3]. split; unfold row_delete, app_buckets; cbn [apps_table buckets_table set_table table App_row].
  - intros k a [_ Ha]%lookup_delete_Some. by apply H1.
  - intros k b Hb. destruct (H2 k b Hb) as (? & ? & Hin). split; [done|]. split; [done|].
    rewrite lookup_delete_ne; [done|]. intros E. by apply (Hno k b).
  - intros k a [_ Ha]%lookup_delete_Some. by apply (H3 k).
Qed.
End app_changes.

Lemma apps_after_insert T app k :
  is_Some (apps_table (row_insert app T) !! k) -> k = a_id app \/ is_Some (apps_table T !! k).
Proof.
  change (apps_table (row_insert app T)) with (<[a_id app := app]> (apps_table T)).
  intros [<-|Hk]%lookup_insert_is_Some'; [by left|by right].
Qed.

Lemma apps_after_delete T (app : App) k :
  is_Some (apps_table (row_delete App (a_id app) T) !! k) -> is_Some (apps_table T !! k).
Proof.
  change (apps_table (row_delete App (a_id app) T)) with (delete (a_id app) (apps_table T)).
  intros [a [_ Hk]%lookup_delete_Some]. by exists a.
Qed.

(** Changes of the buckets. *)
Section bucket_changes.
  Variables (T : Tables) (b : Bucket).
  Hypothesis HT : quotas_ok T.

Lemma app_buckets_insert : app_buckets (row_insert b T) (b_app_id b) = <[row_key b := b]> (app_buckets T (b_app_id b)).
Proof. unfold app_buckets, row_insert. cbn [buckets_table set_table table Bucket_row]. apply map_filter_insert_True. by apply bool_decide_true. Qed.

Lemma app_buckets_other (a : Uuid) (m : gmap (Uuid * Uuid) Bucket) :
  (forall k, k.1 = a -> m !! k = buckets_table T !! k) ->
  (forall k c, m !! k = Some c -> row_key c = k) ->
  filter (fun kb : _ * Bucket => bool_decide (b_app_id kb.2 = a) = true) m = app_buckets T a.
Proof.
  intros Hm Hkey. apply map_eq. intros k. apply option_eq. intros c. unfold app_buckets.
  rewrite !map_lookup_filter_Some, bool_decide_eq_true. cbn.
  assert (Hk : m !! k = Some c \/ buckets_table T !! k = Some c -> k = (b_app_id c, b_id c)).
  { intros [Hc|Hc]; [by rewrite <- (Hkey k c Hc)|by destruct (qo_buckets T HT k c Hc) as (<- & _)]. }
  split; intros [Hc E]; (split; [|done]); rewrite Hk in * by auto; [rewrite <- Hm|rewrite Hm]; done.
Qed.

Lemma quotas_set_bucket app :
  apps_table T !! b_app_id b = Some app -> 0 <= b_quota b ->
  map_sum b_quota (app_buckets T (b_app_id b))
    - from_option b_quota 0 (buckets_table T !! row_key b) + b_quota b <= a_quota app ->
  quotas_ok (row_insert b T).
Proof.
  intros Ha Hq Hsum.
  assert (Hkey : forall k c, <[row_key b := b]> (buckets_table T) !! k = Some c -> row_key c = k).
  { intros k c [[<- <-]|[_ Hc]]%lookup_insert_Some; [done|]. by apply (qo_buckets T HT k). }
  split; change (apps_table (row_insert b T)) with (apps_table T);
    try change (buckets_table (row_insert b T)) with (<[row_key b := b]> (buckets_table T)).
  - apply (qo_apps T HT).
  - intros k c [[<- <-]|[_ Hc]]%lookup_insert_Some; [|by apply (qo_buckets T HT)].
    split; [done|]. split; [done|]. by rewrite Ha.
  - intros k a Hk. destruct (decide (k = b_app_id b)) as [->|Hne].
    + rewrite Ha in Hk. injection Hk as <-. split; [|by apply (qo_sums T HT _ _ Ha)].
      rewrite app_buckets_insert. destruct (buckets_table T !! row_key b) as [c|] eqn:Ec; cbn in Hsum.
      * rewrite (map_sum_update _ _ _ c); [lia|]. apply map_lookup_filter_Some. split; [done|]. cbn.
        destruct (qo_buckets T HT _ c Ec) as (E & _). injection E as -> _. by apply bool_decide_true.
      * rewrite map_sum_insert; [lia|]. apply map_lookup_filter_None. by left.
    + unfold app_buckets, row_insert. cbn [buckets_table set_table table Bucket_row].
      rewrite app_buckets_other; [by apply (qo_sums T HT)| |done].
      intros [k1 k2] <-. apply lookup_insert_ne. intros E. by injection E as ?.
Qed.

Lemma quotas_delete_bucket : quotas_ok (row_delete Bucket (row_key b) T).
Proof.
  split; change (apps_table (row_delete Bucket (row_key b) T)) with (apps_table T);
    try change (buckets_table (row_delete Bucket (row_key b) T)) with (delete (row_key b) (buckets_table T)).
  - apply (qo_apps T HT).
  - intros k c [_ Hc]%lookup_delete_Some. by apply (qo_buckets T HT).
  - intros k a Hk. destruct (qo_sums T HT k a Hk) as [Hs Hlt]. split; [|done].
    unfold app_buckets, row_delete. cbn [buckets_table set_table table Bucket_row]. rewrite map_filter_delete. fold (app_buckets T k).
    destruct (app_buckets T k !! row_key b) as [c|] eqn:Ec.
    + rewrite (map_sum_delete _ _ _ c Ec). apply map_lookup_filter_Some in Ec as [Ec _].
      pose proof (qo_buckets T HT _ c Ec). lia.
    + by rewrite map_sum_delete_none.
Qed.
End bucket_changes.

(** ** What the handlers leave *)
Section handlers.
  Context {D : Type} `{DatabaseLaws D}.
  Implicit Types (T : Tables) (user : UserRow).

Lemma reads_permission T user app requested scope :
  reads (D := D) T (has_app_permission user app requested scope) (fun _ => True).
Proof.
  unfold has_app_permission. case_decide; [by apply reads_ret|].
  eapply reads_bind; [apply reads_on_err, reads_find_row|]. intros m _.
  eapply reads_bind; [apply reads_on_err, reads_select|]. intros roles _.
  destruct (existsb _ _); [by apply reads_ret|apply reads_throw].
Qed.

Lemma reads_used_quota T user : reads (D := D) T (get_user_used_quota user) (fun _ => True).
Proof. eapply reads_bind; [apply reads_select|]. intros l _. by apply reads_ret. Qed.

Lemma reads_used_app_quota T app :
  quotas_ok T -> apps_table T !! a_id app = Some app ->
  reads (D := D) T (get_user_used_app_quota app) (fun q => q = map_sum b_quota (app_buckets T (a_id app))).
Proof.
  intros HT Ha. eapply reads_bind; [apply reads_select|]. intros l Hl. apply reads_ret.
  by apply (scanned_sum T HT (a_id app) app).
Qed.

(** The tables after a request: the quotas still fit, and no other application appeared. *)
Definition quotas_after T (r : Request) (T' : Tables) : Prop :=
  quotas_ok T' /\ forall k, is_Some (apps_table T' !! k) -> is_Some (apps_table T !! k) \/ k ∈ new_apps r.

Lemma quotas_after_refl T r : quotas_ok T -> quotas_after T r T.
Proof. intros HT. split; auto. Qed.

(** A statement on other tables. *)
Lemma quotas_after_same T r T' :
  quotas_ok T -> apps_table T' = apps_table T -> buckets_table T' = buckets_table T -> quotas_after T r T'.
Proof. intros HT Ea Eb. split; [by apply (quotas_same T)|]. intros k. rewrite Ea. auto. Qed.

Lemma leaves_read {E F A B} (f : E -> F) T (m : effect D E A) (k : A -> effect D F B) Q P :
  P T -> reads T m Q -> (forall a, Q a -> leaves T (k a) P) -> leaves T (on_err f m ≫= k) P.
Proof. intros HP Hm. apply leaves_bind; [done|]. by apply reads_on_err. Qed.

Lemma leaves_permission {B} T user app requested scope (k : unit -> effect D NodeClientError B) P :
  P T -> leaves T (k tt) P -> leaves T (has_app_permission user app requested scope ≫= k) P.
Proof. intros HP Hk. eapply leaves_bind; [done|apply reads_permission|]. by intros []. Qed.

Lemma leaves_throw {E A} T (e : E) P : P T -> leaves (D := D) T (throw (A := A) e) P.
Proof. intros HP d Hd. cbn. by rewrite Hd. Qed.

Lemma leaves_ret {E A} T (a : A) P : P T -> leaves (D := D) (E := E) T (mret a) P.
Proof. intros HP d Hd. cbn. by rewrite Hd. Qed.

(** A statement and the answer after it. *)
Lemma leaves_answer {E A B} T (m : effect D E A) (a : B) P :
  leaves T m P -> leaves T (m;; mret a) P.
Proof. intros Hm. eapply leaves_then; [done|done|]. intros T' _ HP. by apply leaves_ret. Qed.

Lemma leaves_silent {E A} T (m : effect D E A) P : leaves T m P -> leaves T (silent m) P.
Proof. apply leaves_answer. Qed.

Lemma create_app_leaves T user id now req :
  quotas_ok T -> apps_table T !! id = None -> 0 <= ca_quota req < 2 ^ 62 ->
  leaves (D := D) T (create_application id now req user) (quotas_after T (CreateApp id now req)).
Proof.
  intros HT Hid Hq. pose proof (quotas_after_refl T (CreateApp id now req) HT) as Hsafe.
  eapply leaves_bind; [done|by apply (reads_of_result _ _ (fun _ => True))|]. intros [] _.
  eapply leaves_read; [done|apply reads_used_quota|]. intros used _.
  case_decide; [by apply leaves_throw|]. apply leaves_answer, leaves_on_err, leaves_execute; [done|].
  rewrite as_i64_sensible by done. split.
  - apply quotas_set_app; [done|]. cbn. split; [|lia].
    enough (E : app_buckets T id = ∅) by (rewrite E, map_sum_empty; lia).
    apply map_empty. intros k. apply map_lookup_filter_None. right. intros b Hb. cbn.
    rewrite bool_decide_eq_true. intros E. destruct (qo_buckets T HT k b Hb) as (_ & _ & Ha).
    rewrite E, Hid in Ha. by destruct Ha.
  - intros k [->|Hk]%apps_after_insert; [right; by left|by left].
Qed.

Lemma edit_app_leaves T user id quota :
  quotas_ok T -> 0 <= quota < 2 ^ 62 ->
  leaves (D := D) T (do_edit_app id quota user) (quotas_after T (EditApp id quota)).
Proof.
  intros HT Hq. pose proof (quotas_after_refl T (EditApp id quota) HT) as Hsafe. unfold do_edit_app.
  eapply leaves_read; [done|apply reads_used_quota|]. intros used _.
  eapply leaves_read; [done|apply reads_find_row|]. intros app Ha.
  change (apps_table T !! id = Some app) in Ha. pose proof (qo_apps T HT id app Ha) as <-.
  eapply leaves_read; [done|by apply reads_used_app_quota|]. intros app_min ->.
  rewrite as_i64_sensible by done. case_decide as Hmin; [by apply leaves_throw|].
  case_decide; [by apply leaves_throw|]. apply leaves_on_err, leaves_execute; [done|].
  rewrite (row_update_insert (a_id app) _ app) by done. split.
  - apply quotas_set_app; [done|]. cbn. lia.
  - intros k [->|Hk]%apps_after_insert; left; [by exists app|done].
Qed.

Lemma leaves_partition {R K} `{Row R K} (p : R -> bool) T (P : Tables -> Prop) :
  P T -> (forall m : gmap K R, P (set_table m T)) -> leaves (D := D) T (delete_partition p) P.
Proof. intros HP Hset. by apply leaves_execute. Qed.

Lemma delete_app_leaves T user id :
  quotas_ok T -> leaves (D := D) T (do_delete_app id user) (quotas_after T (DeleteApp id)).
Proof.
  intros HT. pose proof (quotas_after_refl T (DeleteApp id) HT) as Hsafe. unfold do_delete_app.
  eapply leaves_read; [done|apply reads_find_row|]. intros app Ha.
  change (apps_table T !! id = Some app) in Ha. pose proof (qo_apps T HT id app Ha) as <-.
  case_decide; [by apply leaves_throw|].
  eapply leaves_read; [done|apply reads_maybe_find_first|]. intros [b|] Hno; [by apply leaves_throw|].
  apply leaves_on_err. unfold delete_app.
  set (same := fun T' => apps_table T' = apps_table T /\ buckets_table T' = buckets_table T).
  assert (Hsame : forall T', same T' -> quotas_after T (DeleteApp (a_id app)) T')
    by (intros T' [? ?]; by apply quotas_after_same).
  eapply leaves_then; [by apply (leaves_partition _ _ same)|done|]. intros T1 _ S1.
  eapply leaves_then; [by apply (leaves_partition _ _ same)|done|]. intros T2 _ S2.
  eapply leaves_then; [by apply (leaves_partition _ _ same)|done|]. intros T3 _ S3.
  apply leaves_execute; [by apply Hsame|]. destruct (Hsame T3 S3) as [HT3 _]. split.
  - apply (quotas_delete_app T3 app); [done|]. intros k b Hb. destruct S3 as [_ E]. rewrite E in Hb.
    specialize (Hno k b Hb). cbn in Hno. by apply bool_decide_eq_false in Hno.
  - intros k Hk%apps_after_delete. left. by destruct S3 as [<- _].
Qed.

Lemma create_bucket_leaves T user id now req :
  quotas_ok T -> 0 <= cb_quota req < 2 ^ 62 ->
  leaves (D := D) T (create_bucket id now req user) (quotas_after T (CreateBucketIn id now req)).
Proof.
  intros HT Hq. pose proof (quotas_after_refl T (CreateBucketIn id now req) HT) as Hsafe.
  eapply leaves_bind; [done|by apply (reads_of_result _ _ (fun _ => True))|]. intros [] _.
  unfold do_create_bucket. eapply leaves_read; [done|apply reads_find_row|]. intros app Ha.
  apply leaves_permission; [done|]. eapply leaves_read; [done|apply reads_select|]. intros l Hl.
  rewrite (scanned_sum T HT (cb_app_id req) app l Ha Hl), as_i64_sensible by done.
  pose proof (bucket_sum_nonneg T HT (cb_app_id req)). pose proof (qo_sums T HT _ _ Ha).
  rewrite i64_add_small by lia. case_decide; [by apply leaves_throw|].
  apply leaves_answer, leaves_on_err, leaves_execute; [done|]. split; [|by left].
  apply (quotas_set_bucket _ _ HT app); [done|cbn [b_quota]; lia|]. cbn [b_app_id b_quota].
  destruct (buckets_table T !! row_key _) as [c|] eqn:Ec; cbn [from_option]; [|lia].
  pose proof (qo_buckets T HT _ c Ec). lia.
Qed.

Lemma edit_bucket_leaves T user quota app_id bucket_id :
  quotas_ok T -> 0 <= quota < 2 ^ 62 ->
  leaves (D := D) T (do_edit_bucket quota app_id bucket_id user)
    (quotas_after T (EditBucket quota app_id bucket_id)).
Proof.
  intros HT Hq. pose proof (quotas_after_refl T (EditBucket quota app_id bucket_id) HT) as Hsafe.
  unfold do_edit_bucket. eapply leaves_read; [done|apply reads_find_row|]. intros b Hb.
  eapply leaves_read; [done|apply reads_find_row|]. intros app Ha.
  change (buckets_table T !! (app_id, bucket_id) = Some b) in Hb.
  change (apps_table T !! app_id = Some app) in Ha. pose proof (qo_apps T HT _ _ Ha) as <-.
  destruct (qo_buckets T HT _ b Hb) as (Hkey & Hb0 & _).
  apply leaves_permission; [done|]. eapply leaves_read; [done|apply reads_select|]. intros l _.
  eapply leaves_read; [done|by apply reads_used_app_quota|]. intros sum ->.
  pose proof (qo_sums T HT _ _ Ha). assert (Hle : b_quota b <= map_sum b_quota (app_buckets T (a_id app))).
  { apply (map_sum_lookup_le b_quota _ (a_id app, bucket_id)).
    - intros k c [Hc _]%map_lookup_filter_Some. by apply (qo_buckets T HT k).
    - apply map_lookup_filter_Some. split; [done|]. cbn. injection Hkey as -> _. by apply bool_decide_true. }
  rewrite as_i64_sensible by done. rewrite (i64_add_small _ (- b_quota b)), (i64_add_small _ quota) by lia.
  case_decide; [by apply leaves_throw|]. case_decide; [by apply leaves_throw|].
  apply leaves_on_err, leaves_execute; [done|]. split; [|by left].
  rewrite (row_update_insert _ _ b) by (change (row_key (with_quota quota b)) with (row_key b); by rewrite ?Hkey).
  injection Hkey as Hid Hbid.
  apply (quotas_set_bucket _ _ HT app); cbn [b_app_id b_quota with_quota]; rewrite ?Hid; [done|lia|].
  cbn [row_key Bucket_row b_app_id b_id with_quota]. rewrite ?Hid, Hbid, Hb. cbn [from_option]. lia.
Qed.

Lemma delete_bucket_leaves T user app_id bucket_id :
  quotas_ok T ->
  leaves (D := D) T (do_delete_bucket app_id bucket_id user)
    (quotas_after T (DeleteBucketOf app_id bucket_id)).
Proof.
  intros HT. pose proof (quotas_after_refl T (DeleteBucketOf app_id bucket_id) HT) as Hsafe.
  unfold do_delete_bucket. eapply leaves_read; [done|apply reads_find_row|]. intros b Hb.
  eapply leaves_read; [done|apply reads_find_row|]. intros app Ha. apply leaves_permission; [done|].
  eapply leaves_read; [done|apply reads_maybe_find_first|]. intros [f|] _; [by apply leaves_throw|].
  eapply leaves_read; [done|apply reads_maybe_find_first|]. intros [c|] _; [by apply leaves_throw|].
  apply leaves_on_err, leaves_execute; [done|]. split; [by apply quotas_delete_bucket|by left].
Qed.

(** A handler that writes neither applications nor buckets: its reads one after the other, and
    the statement at the end. *)
Ltac leaves_same HT := repeat first
  [ eapply leaves_read; [done|first [apply reads_find_row|apply reads_maybe_find|apply reads_select]|intros ? _]
  | apply leaves_permission; [done|]
  | by apply leaves_throw
  | apply leaves_on_err, leaves_execute; [done|by apply (quotas_after_same _ _ _ HT)]
  | case_match ].

Lemma serve_leaves T user r :
  quotas_ok T -> sensible_quota r -> Forall (fun id => apps_table T !! id = None) (new_apps r) ->
  leaves (D := D) T (serve user r) (quotas_after T r).
Proof.
  intros HT Hq Hnew. pose proof (quotas_after_refl T r HT) as Hsafe. destruct r; cbn [serve sensible_quota new_apps] in *.
  - apply Forall_cons in Hnew as [? _]. by apply leaves_silent, create_app_leaves.
  - by apply edit_app_leaves.
  - by apply delete_app_leaves.
  - unfold do_add_member. leaves_same HT.
  - unfold do_delete_member. leaves_same HT.
  - by apply leaves_silent, create_bucket_leaves.
  - by apply edit_bucket_leaves.
  - by apply delete_bucket_leaves.
  - unfold do_create_role. leaves_same HT.
  - unfold do_delete_role. leaves_same HT.
  - unfold do_patch_role. leaves_same HT.
  - unfold do_patch_member_roles. leaves_same HT.
Qed.

(** C17: the buckets of an application never promise more than the application may use.  If
    their quotas add up to at most its quota, they still do after any sequence of dashboard
    requests by any users, answered or failed, as long as the quotas asked for are below 2^62
    and the ids drawn for new applications are unused. *)
Theorem bucket_quotas_within_app (reqs : list (UserRow * Request)) (d : D) :
  quotas_ok (tables d) ->
  Forall (fun ur => sensible_quota ur.2) reqs ->
  NoDup (concat (map (fun ur => new_apps ur.2) reqs)) ->
  Forall (fun id => apps_table (tables d) !! id = None) (concat (map (fun ur => new_apps ur.2) reqs)) ->
  quotas_ok (tables (serve_all reqs d)).
Proof.
  revert d. induction reqs as [|[user r] reqs IH]; intros d HT Hq Hnd Hnew; [done|].
  cbn [serve_all map concat snd] in *. apply Forall_cons in Hq as [Hq Hqs].
  apply NoDup_app in Hnd as (_ & Hdisj & Hnd). apply Forall_app in Hnew as [Hnew Hnews].
  destruct (serve_leaves _ user r HT Hq Hnew d eq_refl) as [HT' Happs].
  apply IH; [done..|]. rewrite Forall_forall in Hnews |- *. intros id Hid.
  apply eq_None_not_Some. intros [Hs|Hs]%Happs; [rewrite Hnews in Hs by done; by destruct Hs|].
  by apply (Hdisj id).
Qed.
End handlers.

(** ** Examples *)
Definition user_with (id : Uuid) (quota : i64) : UserRow := mkUserRow id 0 (str "user") [] quota 1 0 0.
Definition app1 : App := mkApp 1 (str "app") 1 10 0 0.
Definition bucket_in_app1 : Bucket := mkBucket 1 7 (str "bucket") false false 1 0 0 0 0.
Definition role1 : UserRole := mkUserRole 1 (str "role") (Some [(0, 1); (7, 3)]) 0 0.
Definition member3 : AppMember := mkMember 1 3 (Some [str "role"]).

(** User 1 owns the application 1, and user 3 has a role in it. *)
Definition tables1 : Tables :=
  row_insert app1 (row_insert bucket_in_app1 (row_insert role1 (row_insert member3 no_rows))).

Lemma tables1_keyed : roles_keyed tables1.
Proof.
  split.
  - change (user_roles_table tables1) with (<[(1, str "role") := role1]> (∅ : gmap (Uuid * Text) UserRole)).
    intros k r [[<- <-]|[_ E]]%lookup_insert_Some; [done|]. by rewrite lookup_empty in E.
  - change (app_members_table tables1) with (<[(1, 3) := member3]> (∅ : gmap (Uuid * Uuid) AppMember)).
    intros k r [[<- <-]|[_ E]]%lookup_insert_Some; [done|]. by rewrite lookup_empty in E.
Qed.

Lemma has_app_permission_spec_witness :
  allowed tables1 (user_with 3 0) app1 Application CREATE_BUCKET_ALLOWANCE.
Proof.
  destruct (has_app_permission_spec (D := Tables) (user_with 3 0) app1 CREATE_BUCKET_ALLOWANCE Application
              tables1) as (d & r & E & _ & Hr); [exact tables1_keyed|].
  assert (Hok : snd (has_app_permission (D := Tables) (user_with 3 0) app1 CREATE_BUCKET_ALLOWANCE Application
                       tables1) = Ok tt) by (vm_compute; reflexivity).
  rewrite E in Hok. cbn in Hok. rewrite Hok in Hr. exact Hr.
Defined.

Lemma tables1_quotas : quotas_ok tables1.
Proof.
  assert (Ea : apps_table tables1 = <[1 := app1]> ∅) by reflexivity.
  assert (Eb : buckets_table tables1 = <[(1, 7) := bucket_in_app1]> ∅) by reflexivity.
  split; rewrite ?Ea, ?Eb.
  - intros k a [[<- <-]|[_ E]]%lookup_insert_Some; [done|]. by rewrite lookup_empty in E.
  - intros k b [[<- <-]|[_ E]]%lookup_insert_Some; [|by rewrite lookup_empty in E].
    split; [done|]. split; [done|]. by exists app1.
  - intros k a [[<- <-]|[_ E]]%lookup_insert_Some; [|by rewrite lookup_empty in E].
    vm_compute. split; [discriminate|reflexivity].
Qed.

Definition sample_requests : list (UserRow * Request) :=
  [(user_with 1 100, CreateApp 2 5 (mkCreateApp (str "other") 20));
   (user_with 3 0, CreateBucketIn 8 5 (mkCreateBucket (str "big") 1 9 false));
   (user_with 1 100, EditBucket 0 1 7)].

Lemma bucket_quotas_within_app_witness : quotas_ok (tables (serve_all (D := Tables) sample_requests tables1)).
Proof.
  refine (bucket_quotas_within_app (D := Tables) sample_requests tables1 _ _ _ _).
  - exact tables1_quotas.
  - repeat constructor; vm_compute; discriminate.
  - repeat constructor. intros E. apply elem_of_nil in E. exact E.
  - repeat constructor.
Defined.

(** A quota close to 2^63 escapes the check.  The sum with the bucket that exists already
    overflows to a negative number, and a bucket of 2^63 - 1 bytes is created in an
    application that may use 10. *)
Theorem quota_overflow_accepted :
  exists T b, create_bucket (D := Tables) 8 5 (mkCreateBucket (str "big") 1 (2 ^ 63 - 1) false) (user_with 1 100)
      tables1 = (T, Ok b)
    /\ buckets_table T !! (1, 8) = Some b /\ b_quota b = 2 ^ 63 - 1.
Proof. eexists _, _. vm_compute. repeat split; reflexivity. Qed.

(** Anyone may change the quota of any application.  User 2 is neither the owner nor a
    member of the application, and raises its quota beyond what the owner, who may use 10, can
    give it. *)
Theorem anyone_edits_quota :
  exists T a, do_edit_app (D := Tables) 1 500 (user_with 2 500) tables1 = (T, Ok tt)
    /\ app_members_table tables1 !! (1, 2) = None
    /\ apps_table T !! 1 = Some a /\ a_owner_id a = 1 /\ a_quota a = 500.
Proof. eexists _, _. vm_compute. repeat split; reflexivity. Qed.

(** Creating a role that exists takes its permits away. *)
Lemma create_role_resets :
  exists T r, do_create_role (D := Tables) 5 (mkRolePath (str "role") 1) (user_with 1 100) tables1 = (T, Ok tt)
    /\ user_roles_table T !! (1, str "role") = Some r /\ r_scopes r = None.
Proof. eexists _, _. vm_compute. repeat split; reflexivity. Qed.

(** Adding a member again takes their roles away. *)
Lemma add_member_resets :
  exists T m, do_add_member (D := Tables) 3 1 (user_with 1 100) (row_insert (user_with 3 0) tables1) = (T, Ok tt)
    /\ app_members_table T !! (1, 3) = Some m /\ m_member_roles m = Some [].
Proof. eexists _, _. vm_compute. repeat split; reflexivity. Qed.

Lemma delete_bucket_spec_witness :
  exists T, do_delete_bucket (D := Tables) 1 7 (user_with 1 100) tables1 = (T, Ok tt)
    /\ bucket_empty tables1 7.
Proof.
  destruct (delete_bucket_spec (D := Tables) 1 7 (user_with 1 100) tables1) as (T & r & E & Hr).
  - exact tables1_keyed.
  - intros b p x row Hrow. change (directories_table (tables tables1)) with (∅ : gmap (Uuid * Text * Text) Directory) in Hrow.
    rewrite lookup_empty in Hrow. discriminate.
  - intros k f Hf. change (files_table (tables tables1)) with (∅ : gmap (Uuid * Uuid * Text) File) in Hf.
    rewrite lookup_empty in Hf. discriminate.
  - assert (Hok : snd (do_delete_bucket (D := Tables) 1 7 (user_with 1 100) tables1) = Ok tt)
      by (vm_compute; reflexivity).
    rewrite E in Hok. cbn in Hok. rewrite Hok in E, Hr. exists T. split; [exact E|].
    destruct Hr as (b & a & _ & _ & _ & Hempty & _). exact Hempty.
Defined.
