(* ===== verification/Tokens.v ===== *)
(** * Access tokens

    Tokens from their issue by the dashboard to their use at a node:
    [dashboard/src/public/service/token_service.rs], [commons/src/access_token_service.rs],
    the cached check of a token in [node/src/caching], its invalidation, and the middleware in
    front of the node's routes, [node/src/public/middleware/user_middleware.rs].

    The encoding and signature of JSON web tokens, the encodings of [serde], the parsing of
    UUIDs and the timed cache are parameters.  Times are seconds. *)
From Stdlib Require Import ZArith Lia List Ascii.
From stdpp Require Import base numbers list strings gmap relations.
From S2P Require Import Prelude Errors MetaStore Placement FileAccess Paths Permissions Database.
From S2P Require Import Directories Listing Dashboard.
Local Open Scope Z_scope.

(** ** Data *)
Record AppTokenData : Type := mkTokenData {
  td_app_id : Uuid;
  td_issuer_id : Uuid;
  td_name : Text;
  td_nonce : Uuid;
  td_perms : list AppTokenPermit
}.

Definition AppTokenPermit_of (p : ScopedPermission) : AppTokenPermit :=
  mkPermit (sp_bucket_id p) (sp_allowance p).

Record ClaimKey : Type := mkClaimKey {
  ck_app_id : Uuid;
  ck_issuer_id : Uuid;
  ck_name : Text;
  ck_nonce : Uuid
}.

#[global] Instance ClaimKey_eq_dec : EqDecision ClaimKey.
Proof. solve_decision. Defined.

#[global] Instance ClaimKey_countable : Countable ClaimKey.
Proof.
  refine (inj_countable' (fun k => (ck_app_id k, ck_issuer_id k, ck_name k, ck_nonce k))
            (fun t => let '(a, i, n, x) := t in mkClaimKey a i n x) _).
  by intros [].
Defined.

Definition ClaimKey_of (claims : AppTokenData) : ClaimKey :=
  mkClaimKey (td_app_id claims) (td_issuer_id claims) (td_name claims) (td_nonce claims).

Record Claims : Type := mkClaims { cl_sub : Text; cl_exp : u64 }.

Inductive CacheId : Type := ValidateNonce | NodeStorageMap.
Definition u8_of_CacheId (c : CacheId) : u8 := match c with ValidateNonce => 0 | NodeStorageMap => 1 end.

Inductive MGPPPacket : Type := InvalidateCache (cache_id : u32) (cache_key : list u8).

Record TokenIssueRequest : Type := mkIssue { ti_app_id : Uuid; ti_name : Text; ti_perms : list ScopedPermission }.
Record TokenListRequest : Type := mkListTokens { tl_app_id : Uuid; tl_issuer : Text }.
Record TokenDeleteRequest : Type := mkDeleteToken { tx_app_id : Uuid; tx_issuer_id : Uuid; tx_name : Text }.

(** The nonce is not shown. *)
Record AppTokenDTO : Type := mkTokenDto {
  dt_created : Z;
  dt_last_modified : Z;
  dt_issuer_id : Uuid;
  dt_name : Text
}.
Definition AppTokenDTO_of (t : AppToken) : AppTokenDTO :=
  mkTokenDto (t_created t) (t_last_modified t) (t_issuer_id t) (t_name t).

(** ** Signed tokens *)
(** [jsonwebtoken] with the service's key, and [serde_json] for the subject. *)
Class TokenCodec := {
  jwt_encode : Claims -> option Text;
  jwt_decode : Z -> Text -> option Claims;
  json_of_data : AppTokenData -> option Text;
  data_of_json : Text -> option AppTokenData
}.

(** A token decodes to its claims until it expires, and to no others. *)
Class TokenCodecLaws `{TokenCodec} : Prop := {
  jwt_roundtrip : forall now c t, jwt_encode c = Some t -> now <= cl_exp c -> jwt_decode now t = Some c;
  jwt_genuine : forall now c t c', jwt_encode c = Some t -> jwt_decode now t = Some c' -> c' = c;
  json_roundtrip : forall d t, json_of_data d = Some t -> data_of_json t = Some d
}.

Section jwt.
  Context `{TokenCodec}.
  Variable token_validity : u64.

Definition generate_token (now : Z) (token_data : AppTokenData) : option Text :=
  sub ← json_of_data token_data;
  jwt_encode (mkClaims sub (u64_add now token_validity)).

Definition verify_token (now : Z) (token : Text) : option AppTokenData :=
  claims ← jwt_decode now token; data_of_json (cl_sub claims).
End jwt.

(** ** Issue, listing and deletion *)
(** The dashboard's session and the packets it wrote to the controller. *)
Record DashState (D : Type) : Type := mkDash { ds_session : D; ds_sent : list MGPPPacket }.
Arguments mkDash {D}.
Arguments ds_session {D}.
Arguments ds_sent {D}.

Section token_service.
  Context {D : Type} `{Database D} `{TokenCodec}.
  Variable token_validity : u64.
  (** [Uuid::try_parse] and [serde_cbor::to_vec] *)
  Variable try_parse : Text -> option Uuid.
  Variable to_vec : ClaimKey -> list u8.

Abbreviation Service A := (effect D NodeClientError A).
Abbreviation db m := (on_err client_of_data m).

Definition check_perms (user : UserRow) (app : App) (perms : list ScopedPermission) : Service unit :=
  for_each (fun perm => has_app_permission user app (sp_allowance perm) (Buckets (sp_bucket_id perm))) perms.

Definition do_issue_app_token (nonce : Uuid) (now : Z) (req : TokenIssueRequest) (user : UserRow)
    : Service Text :=
  app ← db (get_app_by_id (ti_app_id req));
  check_perms user app (ti_perms req);;
  let token := mkAppToken (a_id app) (u_id user) (ti_name req) nonce now now in
  let token_data := mkTokenData (a_id app) (u_id user) (ti_name req) nonce
                      (map AppTokenPermit_of (ti_perms req)) in
  db (insert_app_token token);;
  of_result (ok_or (generate_token token_validity now token_data) NcInternalError).

Definition do_list_tokens (req : TokenListRequest) (user : UserRow) : Service (list AppTokenDTO) :=
  app ← db (get_app_by_id (tl_app_id req));
  tokens ← match try_parse (tl_issuer req) with
           | Some issuer =>
               has_app_permission user app NO_ALLOWANCE Application;;
               db (get_app_tokens_by_issuer (a_id app) issuer)
           | None =>
               has_app_permission user app LIST_ALL_TOKEN_ALLOWANCE Application;;
               db (get_app_tokens (a_id app))
           end;
  mret (map AppTokenDTO_of tokens).

Definition on_session {A} (m : Service A) : effect (DashState D) NodeClientError A := fun s =>
  let '(d, r) := m (ds_session s) in (mkDash d (ds_sent s), r).

(** [write_packet] of the client, which may fail. *)
Definition write_packet (written : bool) (p : MGPPPacket) : effect (DashState D) NodeClientError unit := fun s =>
  if written then (mkDash (ds_session s) (ds_sent s ++ [p]), Ok tt) else (s, Err NcProtocolError).

Definition do_delete_token (written : bool) (req : TokenDeleteRequest) (user : UserRow)
    : effect (DashState D) NodeClientError unit :=
  on_session
    (if decide (tx_issuer_id req <> u_id user) then
       app ← db (get_app_by_id (tx_app_id req));
       has_app_permission user app DELETE_ALL_TOKEN_ALLOWANCE Application
     else mret tt);;
  token ← on_session (db (get_app_token (tx_app_id req) (tx_issuer_id req) (tx_name req)));
  on_session (db (delete_app_token token));;
  write_packet written (InvalidateCache (u8_of_CacheId ValidateNonce)
    (to_vec (mkClaimKey (t_app_id token) (t_issuer_id token) (t_name token) (t_nonce token)))).
End token_service.

(** ** The node's cache of checked tokens *)
Definition LIFESPAN : Z := 60.

(** [cached::TimedCache] of the answers by claim key. *)
Class NonceCache (C : Type) := {
  cache_new : C;
  cache_get : Z -> ClaimKey -> C -> C * option bool;
  cache_set : Z -> ClaimKey -> bool -> C -> C;
  cache_remove : ClaimKey -> C -> C;
  cache_clear : C -> C;
  (** What is stored, with the time it was. *)
  entries : C -> gmap ClaimKey (bool * Z)
}.

(** An answer is found while it is younger than the lifespan; looking it up changes nothing
    but entries that are too old. *)
Class NonceCacheLaws (C : Type) `{NonceCache C} : Prop := {
  entries_new : entries (cache_new (C := C)) = ∅;
  entries_set : forall now k v (c : C), entries (cache_set now k v c) = <[k := (v, now)]> (entries c);
  entries_remove : forall k (c : C), entries (cache_remove k c) = delete k (entries c);
  entries_clear : forall c : C, entries (cache_clear c) = ∅;
  get_answer : forall now k (c : C),
    (cache_get now k c).2 = match entries c !! k with
                            | Some (v, s) => if decide (now - s < LIFESPAN) then Some v else None
                            | None => None
                            end;
  get_entries : forall now k (c : C) k' e,
    entries (cache_get now k c).1 !! k' = Some e -> entries c !! k' = Some e
}.

(** An implementation: a map that drops an entry found too old. *)
#[global] Instance map_cache : NonceCache (gmap ClaimKey (bool * Z)) := {
  cache_new := ∅;
  cache_get now k c :=
    match c !! k with
    | Some (v, s) => if decide (now - s < LIFESPAN) then (c, Some v) else (delete k c, None)
    | None => (c, None)
    end;
  cache_set now k v c := <[k := (v, now)]> c;
  cache_remove k c := delete k c;
  cache_clear _ := ∅;
  entries c := c
}.

#[global] Instance map_cache_laws : NonceCacheLaws (gmap ClaimKey (bool * Z)).
Proof.
  split; try done; cbn.
  - intros now k c. destruct (c !! k) as [[v s]|]; [|done]. by case_decide.
  - intros now k c k' e. destruct (c !! k) as [[v s]|]; [|done]. case_decide; [done|].
    cbn. by intros [_ ?]%lookup_delete_Some.
Qed.

(** ** The node *)
Record Node (C D : Type) : Type := mkAuthNode { nd_cache : C; nd_session : D }.
Arguments mkAuthNode {C D}.
Arguments nd_cache {C D}.
Arguments nd_session {C D}.

Definition nonce_valid (claims : AppTokenData) (r : result MeowithDataError AppToken) : bool :=
  match r with
  | Ok token => bool_decide (t_nonce token = td_nonce claims)
  | Err _ => false
  end.

Definition remove_bearer_prefix (token : Text) : Text :=
  let prefix := str "Bearer " in
  if decide (take (length prefix) token = prefix) then drop (length prefix) token else token.

Section node.
  Context {C D : Type} `{NonceCache C} `{Database D} `{TokenCodec}.
  (** [serde_cbor::from_slice] *)
  Variable from_slice : list u8 -> option ClaimKey.

Definition validate_nonce (now : Z) (claims : AppTokenData) (n : Node C D) : Node C D * bool :=
  let '(c, hit) := cache_get now (ClaimKey_of claims) (nd_cache n) in
  match hit with
  | Some v => (mkAuthNode c (nd_session n), v)
  | None =>
      let '(d, r) := get_app_token (td_app_id claims) (td_issuer_id claims) (td_name claims) (nd_session n) in
      let v := nonce_valid claims r in
      (mkAuthNode (cache_set now (ClaimKey_of claims) v c) d, v)
  end.

(** [UserAuthenticate]: the header as a string, if there is one. *)
Definition authenticate (now : Z) (header : option Text) (n : Node C D)
    : Node C D * NodeClientResponse BucketAccessor :=
  match header with
  | None => (n, Err NcBadAuth)
  | Some token_str =>
      match verify_token now (remove_bearer_prefix token_str) with
      | None => (n, Err NcBadAuth)
      | Some claim_data =>
          let '(n, valid) := validate_nonce now claim_data n in
          if valid then (n, Ok (mkAccessor (td_perms claim_data) (td_app_id claim_data)))
          else (n, Err NcBadAuth)
      end
  end.

(** [ValidateNonceInvalidator]; the other invalidator fetches the peers anew and is not
    concerned with tokens. *)
Definition invalidate_nonce (cache_key : list u8) (c : C) : C :=
  match from_slice cache_key with Some k => cache_remove k c | None => c end.

Definition handle_invalidate (p : MGPPPacket) (n : Node C D) : Node C D :=
  let '(InvalidateCache cache_id cache_key) := p in
  if decide (wrap 8 cache_id = u8_of_CacheId ValidateNonce)
  then mkAuthNode (invalidate_nonce cache_key (nd_cache n)) (nd_session n)
  else n.

Definition clear_caches (n : Node C D) : Node C D := mkAuthNode (cache_clear (nd_cache n)) (nd_session n).
End node.

(** ** From the issue of a token to its use *)
Lemma check_permission_trans a b c :
  check_permission a b = true -> check_permission b c = true -> check_permission a c = true.
Proof.
  unfold check_permission. rewrite !bool_decide_eq_true. intros Hab Hbc.
  rewrite <- Hbc at 1. by rewrite Z.land_assoc, Hab.
Qed.

Lemma permit_covers_bucket bucket requested permit :
  permit_covers (Buckets bucket) requested permit
  = bool_decide (to_u128_le permit.1 <> 0) && bool_decide (bucket = permit.1)
      && check_permission (wrap 64 permit.2) requested.
Proof. reflexivity. Qed.

Lemma allowed_weaken T user app bucket allowance requested :
  check_permission allowance requested = true ->
  allowed T user app (Buckets bucket) allowance -> allowed T user app (Buckets bucket) requested.
Proof.
  intros Hc [Hp|(m & Hm & name & role & permit & Hn & Hr & Hin & Hcov)]; [by left|]. right.
  exists m. split; [done|]. exists name, role, permit. split; [done|]. split; [done|]. split; [done|].
  rewrite permit_covers_bucket in Hcov |- *. apply andb_true_iff in Hcov as [Hin' Hcov].
  apply andb_true_iff. split; [exact Hin'|]. exact (check_permission_trans _ _ _ Hcov Hc).
Qed.

Lemma remove_bearer tok : remove_bearer_prefix (str "Bearer " ++ tok) = tok.
Proof. unfold remove_bearer_prefix. rewrite decide_True by by rewrite take_app_length. apply drop_app_length. Qed.

Section issue.
  Context {D : Type} `{ReliableDatabase D} `{TokenCodec}.
  Variable token_validity : u64.
  Implicit Types (d : D) (user : UserRow) (req : TokenIssueRequest).

Lemma run_check_perms user app perms : forall d,
  roles_keyed (tables d) ->
  exists d' r, check_perms user app perms d = (d', r) /\ tables d' = tables d
    /\ (r = Ok tt -> Forall (fun p => allowed (tables d) user app (Buckets (sp_bucket_id p)) (sp_allowance p)) perms).
Proof.
  induction perms as [|p perms IH]; intros d Hk; [by eexists d, _|].
  unfold check_perms. cbn [for_each]. unfold mbind, effect_bind.
  destruct (run_permission user app (sp_allowance p) (Buckets (sp_bucket_id p)) d Hk) as (d1 & r & -> & Hd1 & Hr).
  destruct r as [[]|e]; [|by eexists d1, _].
  destruct (IH d1) as (d2 & r & E2 & Hd2 & Hr2); [by rewrite Hd1|]. rewrite Hd1 in Hd2, Hr2.
  exists d2, r. split; [exact E2|]. split; [done|]. intros ->. constructor; [done|by apply Hr2].
Qed.

(** The data a token carries. *)
Definition issued_data (nonce : Uuid) (app : App) user req : AppTokenData :=
  mkTokenData (a_id app) (u_id user) (ti_name req) nonce (map AppTokenPermit_of (ti_perms req)).

Lemma run_issue nonce now req user d :
  roles_keyed (tables d) ->
  exists d' r, do_issue_app_token token_validity nonce now req user d = (d', r)
    /\ forall tok, r = Ok tok -> exists app, apps_table (tables d) !! ti_app_id req = Some app
       /\ Forall (fun p => allowed (tables d) user app (Buckets (sp_bucket_id p)) (sp_allowance p)) (ti_perms req)
       /\ tables d' = row_insert (mkAppToken (a_id app) (u_id user) (ti_name req) nonce now now) (tables d)
       /\ generate_token token_validity now (issued_data nonce app user req) = Some tok.
Proof.
  intros Hk. unfold do_issue_app_token, get_app_by_id.
  destruct (run_find_row (R := App) (ti_app_id req) d) as (d1 & E1 & Hd1).
  unfold mbind at 1, effect_bind at 1, on_err at 1. rewrite E1.
  change (table (R := App) (tables d)) with (apps_table (tables d)).
  destruct (apps_table (tables d) !! ti_app_id req) as [app|]; cbn [ok_or map_err]; [|by eexists d1, _].
  destruct (run_check_perms user app (ti_perms req) d1) as (d2 & r & E2 & Hd2 & Hr); [by rewrite Hd1|].
  unfold mbind at 1, effect_bind at 1. rewrite E2. destruct r as [[]|e]; [|by eexists d2, _].
  rewrite Hd1 in Hd2, Hr. specialize (Hr eq_refl). unfold insert_app_token.
  destruct (run_insert_row (mkAppToken (a_id app) (u_id user) (ti_name req) nonce now now) d2) as (d3 & E3 & Hd3).
  unfold mbind, effect_bind, on_err. rewrite E3. cbn [map_err]. rewrite Hd2 in Hd3.
  eexists d3, _. split; [done|]. intros tok Htok. exists app. fold (issued_data nonce app user req) in Htok.
  destruct (generate_token _ _ _); [by injection Htok as ->|done].
Qed.
End issue.

Lemma has_permission_sound acc app_id bucket requested :
  has_permission acc app_id bucket requested = Ok tt ->
  acc_app_id acc = app_id
  /\ exists p, p ∈ permits acc /\ permit_bucket_id p = bucket /\ check_permission (allowance p) requested = true.
Proof.
  unfold has_permission. case_decide as Ha; [done|].
  destruct (find _ _) as [p|] eqn:Ef; [|done]. destruct (check_permission _ _) eqn:Ec; [|done]. intros _.
  split; [destruct (decide (acc_app_id acc = app_id)); [done|by destruct Ha]|]. apply find_some in Ef as [Hin Hb]. exists p.
  split; [by apply list_elem_of_In|]. split; [by apply bool_decide_eq_true in Hb|done].
Qed.

Section use.
  Context {C D : Type} `{NonceCacheLaws C} `{ReliableDatabase D} `{TokenCodecLaws}.
  Variable token_validity : u64.
  Implicit Types (d : D) (n : Node C D) (user : UserRow) (req : TokenIssueRequest).

Lemma authenticate_issued t now data tok n :
  generate_token token_validity now data = Some tok ->
  verify_token t tok = Some data \/ verify_token t tok = None.
Proof.
  unfold generate_token, verify_token. destruct (json_of_data data) as [sub|] eqn:Ej; [|done]. cbn. intros Et.
  destruct (jwt_decode t tok) as [c|] eqn:Ed; [|by right]. left. cbn.
  pose proof (jwt_genuine t _ _ _ Et Ed) as ->. cbn. by apply json_roundtrip.
Qed.


Lemma run_accept nonce now t req user d d' tok c :
  roles_keyed (tables d) -> (forall k a, apps_table (tables d) !! k = Some a -> a_id a = k) ->
  0 <= now + token_validity < 2 ^ 64 -> t <= now + token_validity ->
  do_issue_app_token token_validity nonce now req user d = (d', Ok tok) ->
  entries c !! mkClaimKey (ti_app_id req) (u_id user) (ti_name req) nonce = None ->
  exists n', authenticate t (Some (str "Bearer " ++ tok)) (mkAuthNode c d')
    = (n', Ok (mkAccessor (map AppTokenPermit_of (ti_perms req)) (ti_app_id req))).
Proof.
  intros Hk Happs Hexp Ht Hissue Hmiss.
  destruct (run_issue token_validity nonce now req user d Hk) as (d1 & r & E & Hr).
  rewrite Hissue in E. injection E as -> <-. destruct (Hr tok eq_refl) as (app & Ha & _ & Hd1 & Hgen).
  pose proof (Happs _ _ Ha) as Hid. set (data := issued_data nonce app user req) in Hgen.
  assert (Ev : verify_token t tok = Some data).
  { unfold generate_token, verify_token in *. destruct (json_of_data data) as [sub|] eqn:Ej; [|done]. cbn in Hgen.
    rewrite (jwt_roundtrip t _ _ Hgen); [by apply json_roundtrip|]. cbn. unfold u64_add.
    rewrite wrap_small by (unfold in_width; lia). lia. }
  unfold authenticate. rewrite remove_bearer, Ev. unfold validate_nonce. cbn [nd_cache nd_session].
  pose proof (get_answer t (ClaimKey_of data) c) as Hget. cbn in Hmiss. rewrite <- Hid in Hmiss.
  change (mkClaimKey (a_id app) (u_id user) (ti_name req) nonce) with (ClaimKey_of data) in Hmiss.
  rewrite Hmiss in Hget. destruct (cache_get t (ClaimKey_of data) c) as [c1 hit]. cbn in Hget. subst hit.
  unfold get_app_token.
  destruct (run_find_row (R := AppToken) (td_app_id data, td_issuer_id data, td_name data) d1) as (d2 & E2 & _).
  rewrite E2, Hd1. change (table (R := AppToken) (row_insert ?r ?T)) with (<[row_key r := r]> (app_tokens_table T)).
  cbn [row_key AppToken_row t_app_id t_issuer_id t_name]. rewrite lookup_insert_eq. cbn [ok_or nonce_valid t_nonce].
  rewrite bool_decide_true by done. eexists. by rewrite <- Hid.
Qed.
(** An issued token is accepted, with the permits it was issued for, by a node that reads
    the same database and has not checked it before, until it expires. *)
Theorem issued_token_accepted nonce now t req user d d' tok c :
  roles_keyed (tables d) -> (forall k a, apps_table (tables d) !! k = Some a -> a_id a = k) ->
  0 <= now + token_validity < 2 ^ 64 -> t <= now + token_validity ->
  do_issue_app_token token_validity nonce now req user d = (d', Ok tok) ->
  entries c !! mkClaimKey (ti_app_id req) (u_id user) (ti_name req) nonce = None ->
  exists n', authenticate t (Some (str "Bearer " ++ tok)) (mkAuthNode c d')
    = (n', Ok (mkAccessor (map AppTokenPermit_of (ti_perms req)) (ti_app_id req))).
Proof. apply run_accept. Qed.
End use.

(** ** Revocation *)
(** The database still knows the token with this nonce. *)
Definition backed (tokens : gmap (Uuid * Uuid * Text) AppToken) (k : ClaimKey) : bool :=
  match tokens !! (ck_app_id k, ck_issuer_id k, ck_name k) with
  | Some t => bool_decide (t_nonce t = ck_nonce k)
  | None => false
  end.

Section revocation.
  Context {C D : Type} `{NonceCacheLaws C} `{ReliableDatabase D}.
  Variable to_vec : ClaimKey -> list u8.
  Variable from_slice : list u8 -> option ClaimKey.
  Implicit Types (d : D) (n : Node C D) (s : DashState D) (user : UserRow).

(** The check of a token that is not in the cache. *)
Lemma run_validate_uncached now claims n :
  entries (nd_cache n) !! ClaimKey_of claims = None ->
  (validate_nonce now claims n).2 = backed (app_tokens_table (tables (nd_session n))) (ClaimKey_of claims).
Proof.
  intros Hmiss. unfold validate_nonce. pose proof (get_answer now (ClaimKey_of claims) (nd_cache n)) as Hget.
  rewrite Hmiss in Hget. destruct (cache_get _ _ _) as [c hit]. cbn in Hget. subst hit. unfold get_app_token.
  destruct (run_find_row (R := AppToken) (td_app_id claims, td_issuer_id claims, td_name claims) (nd_session n))
    as (d & -> & _).
  unfold backed. cbn. by destruct (app_tokens_table (tables (nd_session n)) !! _).
Qed.

Lemma run_delete_token req user s s' :
  roles_keyed (tables (ds_session s)) ->
  do_delete_token to_vec true req user s = (s', Ok tt) ->
  exists token, app_tokens_table (tables (ds_session s)) !! (tx_app_id req, tx_issuer_id req, tx_name req) = Some token
    /\ tables (ds_session s') = row_delete AppToken (row_key token) (tables (ds_session s))
    /\ ds_sent s' = ds_sent s ++ [InvalidateCache 0
         (to_vec (mkClaimKey (t_app_id token) (t_issuer_id token) (t_name token) (t_nonce token)))].
Proof.
  intros Hk. unfold do_delete_token.
  set (check := if decide (tx_issuer_id req <> u_id user) then _ else _).
  assert (Hcheck : exists d r, check (ds_session s) = (d, r) /\ tables d = tables (ds_session s)).
  { unfold check. case_decide; [|by eexists _, _]. unfold get_app_by_id, mbind, effect_bind, on_err.
    edestruct (run_find_row (D := D) (R := App)) as (d1 & -> & Hd1).
    destruct (table _ !! _) as [app|]; cbn [ok_or map_err]; [|by eexists d1, _].
    destruct (run_permission user app DELETE_ALL_TOKEN_ALLOWANCE Application d1) as (d2 & r & -> & Hd2 & _);
      [by rewrite Hd1|]. exists d2, r. by rewrite Hd2. }
  destruct Hcheck as (d1 & r & E1 & Hd1). unfold mbind, effect_bind, on_session at 1. rewrite E1.
  destruct r as [[]|e]; [|done]. unfold on_session at 1, get_app_token, on_err at 1. cbn [ds_session ds_sent].
  edestruct (run_find_row (D := D) (R := AppToken)) as (d2 & -> & Hd2). rewrite Hd1 in Hd2.
  change (table (R := AppToken) (tables d1)) with (app_tokens_table (tables d1)). rewrite Hd1.
  destruct (app_tokens_table (tables (ds_session s)) !! _) as [token|] eqn:Et; cbn [ok_or map_err]; [|done].
  unfold on_session, delete_app_token, on_err. cbn [ds_session ds_sent].
  destruct (run_delete_row token d2) as (d3 & -> & Hd3). cbn [map_err write_packet ds_session ds_sent].
  intros [= <-]. exists token. cbn. by rewrite Hd3, Hd2.
Qed.

(** A deleted token is refused.  Once the deletion has succeeded and the packet it sent
    has reached a node, the node refuses the token, whatever it had in its cache. *)
Theorem deleted_token_refused req user s s' :
  (forall k, from_slice (to_vec k) = Some k) ->
  roles_keyed (tables (ds_session s)) ->
  (forall k t, app_tokens_table (tables (ds_session s)) !! k = Some t -> row_key t = k) ->
  do_delete_token to_vec true req user s = (s', Ok tt) ->
  exists token p,
    app_tokens_table (tables (ds_session s)) !! (tx_app_id req, tx_issuer_id req, tx_name req) = Some token
    /\ ds_sent s' = ds_sent s ++ [p]
    /\ forall now claims n, tables (nd_session n) = tables (ds_session s') ->
         ClaimKey_of claims = mkClaimKey (tx_app_id req) (tx_issuer_id req) (tx_name req) (t_nonce token) ->
         (validate_nonce now claims (handle_invalidate from_slice p n)).2 = false.
Proof.
  intros Hcodec Hk Hkeys Hdel. destruct (run_delete_token req user s s' Hk Hdel) as (token & Ht & Htab & Hsent).
  pose proof (Hkeys _ _ Ht) as Hkey. injection Hkey as Ea Ei En. rewrite Ea, Ei, En in Hsent.
  eexists token, _. split; [done|]. split; [exact Hsent|]. intros now claims n Hn Hc.
  unfold handle_invalidate, invalidate_nonce. rewrite decide_True by done. rewrite Hcodec, <- Hc.
  rewrite run_validate_uncached; cbn [nd_cache nd_session]; [|by rewrite entries_remove, lookup_delete_eq].
  unfold backed. rewrite Hc, Hn, Htab. cbn [ck_app_id ck_issuer_id ck_name].
  rewrite <- (Hkeys _ _ Ht). change (app_tokens_table (row_delete AppToken ?k ?T)) with (delete k (app_tokens_table T)).
  by rewrite lookup_delete_eq.
Qed.
End revocation.

(** ** Checks in flight *)
(** [validate_nonce] holds the cache only to look up and to store: between them, while the
    database answers, anything may happen.  A check in flight is its key, the answer it got
    and when it read. *)
Record Checks (C : Type) : Type := mkChecks {
  ch_clock : Z;
  ch_tokens : gmap (Uuid * Uuid * Text) AppToken;
  ch_cache : C;
  ch_pending : list (ClaimKey * bool * Z)
}.
Arguments mkChecks {C}.
Arguments ch_clock {C}.
Arguments ch_tokens {C}.
Arguments ch_cache {C}.
Arguments ch_pending {C}.

(** No check takes longer than [delay] from its read on. *)
Inductive check_step {C} `{NonceCache C} (delay : Z) : Checks C -> Checks C -> Prop :=
| TimePasses dt clock tokens c ps :
    0 <= dt -> Forall (fun p => clock + dt <= p.2 + delay) ps ->
    check_step delay (mkChecks clock tokens c ps) (mkChecks (clock + dt) tokens c ps)
| LookUp k clock tokens c ps :
    check_step delay (mkChecks clock tokens c ps) (mkChecks clock tokens (cache_get clock k c).1 ps)
| ReadToken k v clock tokens c ps :
    (cache_get clock k c).2 = None -> (v = true -> backed tokens k = true) ->
    check_step delay (mkChecks clock tokens c ps)
      (mkChecks clock tokens (cache_get clock k c).1 (ps ++ [(k, v, clock)]))
| StoreAnswer ps1 k v s ps2 clock tokens c :
    check_step delay (mkChecks clock tokens c (ps1 ++ (k, v, s) :: ps2))
      (mkChecks clock tokens (cache_set clock k v c) (ps1 ++ ps2))
| TokensChange tokens' clock tokens c ps :
    check_step delay (mkChecks clock tokens c ps) (mkChecks clock tokens' c ps)
| Invalidated k clock tokens c ps :
    check_step delay (mkChecks clock tokens c ps) (mkChecks clock tokens (cache_remove k c) ps)
| Cleared clock tokens c ps :
    check_step delay (mkChecks clock tokens c ps) (mkChecks clock tokens (cache_clear c) ps).

(** A request with these claims would be let in now, or is about to be. *)
Definition admits {C} `{NonceCache C} (s : Checks C) (k : ClaimKey) : Prop :=
  (cache_get (ch_clock s) k (ch_cache s)).2 = Some true \/ exists r, (k, true, r) ∈ ch_pending s.

Section checks.
  Context {C : Type} `{NonceCacheLaws C}.
  Variables (delay : Z) (k : ClaimKey).
  Implicit Types s : Checks C.

(** Steps while the database does not know the token. *)
Definition revoked_step s s' : Prop := check_step delay s s' /\ backed (ch_tokens s') k = false.

(** Entries and reads are not from the future, and no check is overdue. *)
Definition timely s : Prop :=
  (forall k' v t, entries (ch_cache s) !! k' = Some (v, t) -> t <= ch_clock s)
  /\ Forall (fun p => p.2 <= ch_clock s <= p.2 + delay) (ch_pending s).

Record revoked_inv (t0 : Z) s : Prop := {
  ri_clock : t0 <= ch_clock s;
  ri_unknown : backed (ch_tokens s) k = false;
  ri_entry : forall t, entries (ch_cache s) !! k = Some (true, t) -> t <= t0 + delay;
  ri_pending : Forall (fun p => ch_clock s <= p.2 + delay /\ (p.1 = (k, true) -> p.2 <= t0)) (ch_pending s)
}.

Lemma revoked_inv_step t0 s s' : 0 <= delay -> revoked_inv t0 s -> revoked_step s s' -> revoked_inv t0 s'.
Proof.
  intros Hdelay [H1 H2 H3 H4] [Hstep Hback].
  destruct Hstep; cbn [ch_clock ch_tokens ch_cache ch_pending] in *; split; cbn [ch_clock ch_tokens ch_cache ch_pending]; try done.
  - lia.
  - rewrite Forall_forall in *. intros p Hp. split; [by auto|]. by apply H4.
  - intros t Ht%get_entries. by apply H3.
  - intros t Ht%get_entries. by apply H3.
  - apply Forall_app. split; [done|]. apply Forall_singleton. cbn. split; [lia|]. intros [= -> ->].
    match goal with Hv : true = true -> _ |- _ => by rewrite (Hv eq_refl) in H2 end.
  - intros t. rewrite entries_set. intros [[-> [= -> <-]]|[_ Ht]]%lookup_insert_Some; [|by apply H3].
    rewrite Forall_forall in H4. destruct (H4 (k, true, s)) as [Hs Hr]; [set_solver|]. cbn in *.
    specialize (Hr eq_refl). lia.
  - apply Forall_app in H4 as [H4 [_ H5]%Forall_cons]. by apply Forall_app.
  - intros t. rewrite entries_remove. intros [_ Ht]%lookup_delete_Some. by apply H3.
  - intros t. by rewrite entries_clear, lookup_empty.
Qed.

Lemma revoked_inv_run t0 s s' : 0 <= delay -> rtc revoked_step s s' -> revoked_inv t0 s -> revoked_inv t0 s'.
Proof. induction 2 as [|x y z Hxy _ IH]; [done|]. intros Hx. by apply IH, (revoked_inv_step t0 x). Qed.

(** A revoked token is refused everywhere soon, even if no invalidation arrives.  From the
    moment the database no longer knows a token, whatever checks were in flight, nobody is let
    in with it once the longest check and the 60 seconds of the cache have passed. *)
Theorem revocation_takes_effect s0 s :
  0 <= delay -> timely s0 -> backed (ch_tokens s0) k = false ->
  rtc revoked_step s0 s -> ch_clock s0 + delay + LIFESPAN <= ch_clock s -> ~ admits s k.
Proof.
  intros Hdelay [He Hp] Hback Hsteps Hclock.
  assert (Hinv : revoked_inv (ch_clock s0) s).
  { apply (revoked_inv_run _ s0); [done|done|]. split; [lia|done| |].
    - intros t Ht. specialize (He _ _ _ Ht). lia.
    - rewrite Forall_forall in *. intros p Hin. specialize (Hp p Hin). split; [lia|]. lia. }
  destruct Hinv as [H1 _ H3 H4]. unfold LIFESPAN in Hclock. intros [Hhit|(r & Hr)].
  - rewrite get_answer in Hhit. destruct (entries (ch_cache s) !! k) as [[v t]|] eqn:Ek; [|done].
    unfold LIFESPAN in Hhit. case_decide; [|done]. injection Hhit as ->. specialize (H3 t eq_refl). lia.
  - rewrite Forall_forall in H4. destruct (H4 _ Hr) as [Hs Hle]. cbn in *. specialize (Hle eq_refl). lia.
Qed.
End checks.

(** One check without interruption is a run of these steps. *)
Lemma validate_nonce_checks {C D : Type} `{NonceCacheLaws C} `{ReliableDatabase D} delay now claims (n : Node C D) :
  let tokens := app_tokens_table (tables (nd_session n)) in
  rtc (check_step delay) (mkChecks now tokens (nd_cache n) [])
    (mkChecks now tokens (nd_cache (validate_nonce now claims n).1) []).
Proof.
  cbn. unfold validate_nonce. destruct (cache_get now (ClaimKey_of claims) (nd_cache n)) as [c hit] eqn:Ec.
  assert (E1 : c = (cache_get now (ClaimKey_of claims) (nd_cache n)).1) by by rewrite Ec.
  assert (E2 : (cache_get now (ClaimKey_of claims) (nd_cache n)).2 = hit) by by rewrite Ec.
  rewrite E1. destruct hit as [v|]; cbn; [apply rtc_once, LookUp|]. unfold get_app_token.
  destruct (run_find_row (R := AppToken) (td_app_id claims, td_issuer_id claims, td_name claims) (nd_session n))
    as (d & -> & _).
  set (v := nonce_valid claims _). eapply rtc_l; [apply (ReadToken _ (ClaimKey_of claims) v); [done|]|].
  - unfold v, backed. cbn. by destruct (app_tokens_table (tables (nd_session n)) !! _).
  - apply rtc_once. apply (StoreAnswer delay [] (ClaimKey_of claims) v now []).
Qed.

(** ** Examples *)
(** An encoding of any countable type by bits, and with it a codec for tokens. *)
Fixpoint bits_of (p : positive) : list bool :=
  match p with xH => [] | xO p => false :: bits_of p | xI p => true :: bits_of p end.
Fixpoint of_bits (l : list bool) : positive :=
  match l with [] => xH | false :: l => xO (of_bits l) | true :: l => xI (of_bits l) end.

Lemma of_bits_of p : of_bits (bits_of p) = p.
Proof. induction p; simpl; congruence. Qed.

Definition DIGIT0 : ascii := Ascii false false false false true true false false.
Definition DIGIT1 : ascii := Ascii true false false false true true false false.

Definition to_text {A} `{Countable A} (a : A) : Text :=
  map (fun b : bool => if b then DIGIT1 else DIGIT0) (bits_of (encode a)).
Definition of_text {A} `{Countable A} (t : Text) : option A :=
  decode (of_bits (map (fun c => bool_decide (c = DIGIT1)) t)).

Definition to_bytes {A} `{Countable A} (a : A) : list u8 :=
  map (fun b : bool => if b then 1 else 0) (bits_of (encode a)).
Definition of_bytes {A} `{Countable A} (t : list u8) : option A :=
  decode (of_bits (map (fun c => bool_decide (c = 1)) t)).

Lemma of_to_text {A} `{Countable A} (a : A) : of_text (to_text a) = Some a.
Proof.
  unfold of_text, to_text. rewrite map_map. rewrite (map_ext _ (fun b => b)) by by intros [].
  by rewrite map_id, of_bits_of, decode_encode.
Qed.

Lemma of_to_bytes {A} `{Countable A} (a : A) : of_bytes (to_bytes a) = Some a.
Proof.
  unfold of_bytes, to_bytes. rewrite map_map. rewrite (map_ext _ (fun b => b)) by by intros [].
  by rewrite map_id, of_bits_of, decode_encode.
Qed.

#[global] Instance AppTokenPermit_eq_dec : EqDecision AppTokenPermit.
Proof. solve_decision. Defined.
#[global] Instance AppTokenPermit_countable : Countable AppTokenPermit.
Proof.
  refine (inj_countable' (fun p => (permit_bucket_id p, allowance p)) (fun t => mkPermit t.1 t.2) _). by intros [].
Defined.
#[global] Instance AppTokenData_eq_dec : EqDecision AppTokenData.
Proof. solve_decision. Defined.
#[global] Instance AppTokenData_countable : Countable AppTokenData.
Proof.
  refine (inj_countable' (fun d => (td_app_id d, td_issuer_id d, td_name d, td_nonce d, td_perms d))
            (fun t => let '(a, i, n, x, ps) := t in mkTokenData a i n x ps) _). by intros [].
Defined.
(** A token that is the time of its expiry, a point and the subject. *)
Definition POINT : ascii := Ascii false true true true false true false false.

Fixpoint split_point (t : Text) : option (Text * Text) :=
  match t with
  | [] => None
  | c :: t => if decide (c = POINT) then Some ([], t) else '(l, r) ← split_point t; Some (c :: l, r)
  end.

Lemma split_point_app l r : Forall (fun c => c <> POINT) l -> split_point (l ++ POINT :: r) = Some (l, r).
Proof.
  induction 1 as [|c l Hc _ IH]; [done|]. cbn [app split_point]. rewrite decide_False, IH by done. done.
Qed.

Lemma to_text_point {A} `{Countable A} (a : A) : Forall (fun c => c <> POINT) (to_text a).
Proof. unfold to_text. apply Forall_fmap, Forall_true. by intros []. Qed.

#[local] Instance plain_codec : TokenCodec := {
  jwt_encode c := Some (to_text (cl_exp c) ++ POINT :: cl_sub c);
  jwt_decode now t :=
    '(e, sub) ← split_point t;
    exp ← of_text e;
    if decide (now <= exp) then Some (mkClaims sub exp) else None;
  json_of_data d := Some (to_text d);
  data_of_json t := of_text t
}.

#[local] Instance plain_codec_laws : TokenCodecLaws.
Proof.
  assert (Hdec : forall now c, jwt_decode now (to_text (cl_exp c) ++ POINT :: cl_sub c)
    = if decide (now <= cl_exp c) then Some c else None).
  { intros now [sub e]. cbn [jwt_decode plain_codec cl_exp cl_sub]. rewrite split_point_app by apply to_text_point.
    cbn [mbind option_bind]. by rewrite of_to_text. }
  split.
  - intros now c t [= <-] Hexp. by rewrite Hdec, decide_True.
  - intros now c t c' [= <-]. rewrite Hdec. case_decide; [|done]. by intros [= ->].
  - intros d t [= <-]. apply of_to_text.
Qed.

Abbreviation MapCache := (gmap ClaimKey (bool * Z)).

(** User 2 owns the application 2 with the bucket 9, in which there is a file. *)
Definition app2 : App := mkApp 2 (str "app") 2 10 0 0.
Definition bucket9 : Bucket := mkBucket 2 9 (str "bucket") false false 1 1 3 0 0.
Definition secret : File := mkFile 9 ROOT_DIR (str "secret") 20 3 [mkFileChunk 1 500 3 0] 0 0.
Definition tables2 : Tables := row_insert secret (row_insert bucket9 (row_insert app2 tables1)).

Lemma tables2_keyed : roles_keyed (tables tables2).
Proof. exact tables1_keyed. Qed.

Lemma tables2_apps : forall k a, apps_table (tables tables2) !! k = Some a -> a_id a = k.
Proof.
  intros k a. change (apps_table (tables tables2)) with (<[2 := app2]> (<[1 := app1]> (∅ : gmap Uuid App))).
  intros [[<- <-]|[_ [[<- <-]|[_ E]]%lookup_insert_Some]]%lookup_insert_Some; [done|done|].
  rewrite lookup_empty in E. discriminate.
Qed.

Definition issue_for_bucket (bucket : Uuid) (name : Text) : TokenIssueRequest :=
  mkIssue 1 name [mkScoped bucket (Z.lor LIST_BUCKET_ALLOWANCE DOWNLOAD_ALLOWANCE)].

Definition token_of (r : Tables * NodeClientResponse Text) : Text := match r.2 with Ok tok => tok | Err _ => [] end.

(** User 1, the owner of the application 1, asks for a token on the bucket 9. *)
Definition foreign_issue : Tables * NodeClientResponse Text :=
  do_issue_app_token (D := Tables) 3600 77 0 (issue_for_bucket 9 (str "t")) (user_with 1 100) tables2.

(** Tokens reach into the buckets of other applications.  The check of the permits of a
    token does not look whether the bucket belongs to the application.  User 1, who has nothing
    to do with application 2, gets a token of their own application 1 for a bucket of
    application 2, and with it lists and downloads its files at a node. *)
Theorem foreign_bucket_token :
  exists T tok n acc,
    do_issue_app_token (D := Tables) 3600 77 0 (issue_for_bucket 9 (str "t")) (user_with 1 100) tables2 = (T, Ok tok)
    /\ buckets_table tables2 !! (1, 9) = None /\ buckets_table tables2 !! (2, 9) = Some bucket9
    /\ authenticate (C := MapCache) (D := Tables) 5 (Some (str "Bearer " ++ tok)) (mkAuthNode ∅ T) = (n, Ok acc)
    /\ (do_list_bucket_files (D := Tables) 1 9 acc (mkPagination None None) T).2 = Ok [file_entity true secret]
    /\ (download_file (D := Tables) content500 (mkEntryPath 1 9 (Some (str "secret")) (Some (str "secret"))) acc None T).2
       = Ok (mkDlInfo 3 (str "secret"), [1; 2; 3]).
Proof.
  assert (E : do_issue_app_token (D := Tables) 3600 77 0 (issue_for_bucket 9 (str "t")) (user_with 1 100) tables2
    = (foreign_issue.1, Ok (token_of foreign_issue))) by (vm_compute; reflexivity).
  destruct (run_accept (C := MapCache) (D := Tables) 3600 77 0 5 _ _ _ _ _ ∅ tables2_keyed tables2_apps
              ltac:(lia) ltac:(lia) E (lookup_empty _)) as [n Hn].
  eexists _, _, n, _. split; [exact E|]. split; [vm_compute; reflexivity|]. split; [vm_compute; reflexivity|].
  split; [exact Hn|]. split; vm_compute; reflexivity.
Qed.

Definition own_issue : Tables * NodeClientResponse Text :=
  do_issue_app_token (D := Tables) 3600 77 0 (issue_for_bucket 7 (str "t")) (user_with 1 100) tables2.

Lemma own_issue_ok :
  do_issue_app_token (D := Tables) 3600 77 0 (issue_for_bucket 7 (str "t")) (user_with 1 100) tables2
  = (own_issue.1, Ok (token_of own_issue)).
Proof. vm_compute. reflexivity. Qed.

Lemma issued_token_accepted_witness :
  exists n, authenticate (C := MapCache) (D := Tables) 5 (Some (str "Bearer " ++ token_of own_issue))
      (mkAuthNode ∅ own_issue.1)
    = (n, Ok (mkAccessor [mkPermit 7 (Z.lor LIST_BUCKET_ALLOWANCE DOWNLOAD_ALLOWANCE)] 1)).
Proof.
  exact (issued_token_accepted (C := MapCache) (D := Tables) 3600 77 0 5 _ _ _ _ _ ∅ tables2_keyed tables2_apps
           ltac:(lia) ltac:(lia) own_issue_ok (lookup_empty _)).
Defined.


Definition delete_t : TokenDeleteRequest := mkDeleteToken 1 1 (str "t").

Definition after_delete : DashState Tables :=
  (do_delete_token (D := Tables) to_bytes true delete_t (user_with 1 100) (mkDash own_issue.1 [])).1.

Lemma deleted_token_refused_witness :
  exists p, ds_sent after_delete = [p]
    /\ (validate_nonce (C := MapCache) 5 (issued_data 77 app1 (user_with 1 100) (issue_for_bucket 7 (str "t")))
         (handle_invalidate of_bytes p (mkAuthNode ∅ (ds_session after_delete)))).2 = false.
Proof.
  destruct (deleted_token_refused (C := MapCache) (D := Tables) to_bytes of_bytes delete_t (user_with 1 100)
              (mkDash own_issue.1 []) after_delete of_to_bytes) as (token & p & Ht & Hp & Hall).
  - exact tables1_keyed.
  - intros k t. change (app_tokens_table (tables (ds_session (mkDash own_issue.1 []))))
      with (<[(1, 1, str "t") := mkAppToken 1 1 (str "t") 77 0 0]> (∅ : gmap (Uuid * Uuid * Text) AppToken)).
    intros [[<- <-]|[_ Hk]]%lookup_insert_Some; [reflexivity|]. rewrite lookup_empty in Hk. discriminate.
  - vm_compute. reflexivity.
  - exists p. split; [exact Hp|]. apply Hall; [reflexivity|].
    assert (Et : app_tokens_table own_issue.1 !! (1, 1, str "t") = Some (mkAppToken 1 1 (str "t") 77 0 0))
      by (vm_compute; reflexivity).
    change (app_tokens_table own_issue.1 !! (1, 1, str "t") = Some token) in Ht. rewrite Et in Ht.
    injection Ht as <-. reflexivity.
Defined.

(** A key the database knows, and the tables with it. *)
Definition key_t : ClaimKey := mkClaimKey 1 1 (str "t") 77.
Definition tokens_t : gmap (Uuid * Uuid * Text) AppToken :=
  <[(1, 1, str "t") := mkAppToken 1 1 (str "t") 77 0 0]> ∅.

Lemma revocation_takes_effect_witness :
  ~ admits (C := MapCache) (mkChecks 70 ∅ (<[key_t := (true, 3)]> ∅) []) key_t.
Proof.
  apply (revocation_takes_effect (C := MapCache) 5 key_t (mkChecks 3 ∅ ∅ [(key_t, true, 0)])).
  - lia.
  - split; [|repeat constructor; cbn; lia]. intros k v t Hk.
    change (entries (ch_cache (mkChecks 3 ∅ ∅ [(key_t, true, 0)]))) with (∅ : MapCache) in Hk.
    rewrite lookup_empty in Hk. discriminate.
  - reflexivity.
  - apply (rtc_l _ _ (mkChecks 3 ∅ (<[key_t := (true, 3)]> (∅ : MapCache)) [])).
    + split; [exact (StoreAnswer 5 [] key_t true 0 [] 3 ∅ (∅ : MapCache))|reflexivity].
    + apply rtc_once. split; [apply (TimePasses 5 67); [lia|constructor]|reflexivity].
  - cbn. unfold LIFESPAN. lia.
Defined.

(** The invalidation of a deleted token can come too early.  A check that read the token
    before its deletion stores its answer after the invalidation was handled, and the node
    lets the deleted token in for another minute. *)
Theorem invalidation_overtaken :
  exists s1 s2 s3 s4 : Checks MapCache,
    check_step 5 (mkChecks 0 tokens_t ∅ []) s1
    /\ check_step 5 s1 s2 /\ ch_tokens s2 = ∅
    /\ check_step 5 s2 s3 /\ ch_cache s3 = cache_remove key_t (ch_cache s2)
    /\ check_step 5 s3 s4
    /\ admits (mkChecks 59 (ch_tokens s4) (ch_cache s4) []) key_t.
Proof.
  exists (mkChecks 0 tokens_t ∅ [(key_t, true, 0)]), (mkChecks 0 ∅ ∅ [(key_t, true, 0)]),
    (mkChecks 0 ∅ (cache_remove key_t ∅) [(key_t, true, 0)]), (mkChecks 0 ∅ (cache_set 0 key_t true (cache_remove key_t ∅)) []).
  split; [exact (ReadToken 5 key_t true 0 tokens_t (∅ : MapCache) [] eq_refl (fun _ => eq_refl))|].
  split; [apply TokensChange|]. split; [reflexivity|]. split; [apply Invalidated|]. split; [reflexivity|].
  split; [apply (StoreAnswer 5 [] key_t true 0 [])|]. left. reflexivity.
Qed.

(** A failed read locks a valid token out.  The answer of a check whose query failed is
    cached like any other: the node refuses the token for a minute although the database
    answers again and knows it. *)
Theorem failed_check_cached :
  let claims := issued_data 77 app1 (user_with 1 100) (issue_for_bucket 7 (str "t")) in
  let first := validate_nonce (C := MapCache) (D := Faulty) 0 claims (mkAuthNode ∅ (mkFaulty own_issue.1 [Some false])) in
  first.2 = false /\ ft_faults (nd_session first.1) = []
  /\ backed (app_tokens_table (tables (nd_session first.1))) (ClaimKey_of claims) = true
  /\ (validate_nonce 59 claims first.1).2 = false /\ (validate_nonce 60 claims first.1).2 = true.
Proof.
  cbn zeta. split; [vm_compute; reflexivity|]. split; [vm_compute; reflexivity|].
  split; [vm_compute; reflexivity|]. split; vm_compute; reflexivity.
Qed.
