(* ===== verification/ProtocolMacro.v ===== *)
(** * The derived packet codec

    [protocol_macro/src]: the macro [Protocol] derives from an enum of packets their numbers
    ([traits/from.rs]), the check of their lengths ([traits/validator.rs]), the serializer
    ([structs/serializer.rs]) and the dispatcher ([structs/dispatcher.rs]).

    A packet enum is the list of its variants, a variant the list of the types of its fields.
    The generated functions are functions of that list.  Out of range slices panic; that is
    [None]. *)
From stdpp Require Import base list strings.
From S2P Require Import Prelude Errors MdsftpWire.
Open Scope Z_scope.

(** ** Field types *)
(** Integers with their size in bytes. *)
Inductive FieldType : Type :=
| FUnsigned (size : nat)
| FSigned (size : nat)
| FUuid
| FVec
| FString.

#[global] Instance FieldType_eq_dec : EqDecision FieldType.
Proof. solve_decision. Defined.

(** The types for which the macro expands; for any other one of its parts panics. *)
Definition FieldType_of_name (type_name : string) : option FieldType :=
  if decide (type_name ∈ ["i8"; "i16"; "i32"; "i64"; "i128"; "u8"; "u16"; "u32"; "u64"; "u128";
                          "Uuid"; "Vec<u8>"; "String"]%string)
  then match type_name with
       | "i8" => Some (FSigned 1) | "i16" => Some (FSigned 2) | "i32" => Some (FSigned 4)
       | "i64" => Some (FSigned 8) | "i128" => Some (FSigned 16)
       | "u8" => Some (FUnsigned 1) | "u16" => Some (FUnsigned 2) | "u32" => Some (FUnsigned 4)
       | "u64" => Some (FUnsigned 8) | "u128" => Some (FUnsigned 16)
       | "Uuid" => Some FUuid | "Vec<u8>" => Some FVec | _ => Some FString
       end%string
  else None.

(** An integer or [Uuid], or the bytes of a vector or a string. *)
Inductive FieldValue : Type :=
| VInt (x : Z)
| VBytes (bs : list u8).

#[global] Instance FieldValue_eq_dec : EqDecision FieldValue.
Proof. solve_decision. Defined.

(** ** [String::from_utf8_lossy] *)
Definition byte_at (i : nat) (bs : list u8) : u8 := default 0 (bs !! i).
Definition between (lo hi b : u8) : bool := bool_decide (lo <= b <= hi).
Definition is_continuation (b : u8) : bool := bool_decide (Z.land b 192 = 128).

(** The number of bytes of the next character, and whether it is a valid one; of an invalid
    one, the bytes that are replaced together. *)
Definition utf8_next (bs : list u8) : nat * bool :=
  let b := byte_at 0 bs in
  let second := byte_at 1 bs in
  if decide (b < 128) then (1%nat, true)
  else if between 194 223 b then
    if is_continuation second then (2%nat, true) else (1%nat, false)
  else if between 224 239 b then
    if between (if decide (b = 224) then 160 else 128) (if decide (b = 237) then 159 else 191) second then
      if is_continuation (byte_at 2 bs) then (3%nat, true) else (2%nat, false)
    else (1%nat, false)
  else if between 240 244 b then
    if between (if decide (b = 240) then 144 else 128) (if decide (b = 244) then 143 else 191) second then
      if is_continuation (byte_at 2 bs) then
        if is_continuation (byte_at 3 bs) then (4%nat, true) else (3%nat, false)
      else (2%nat, false)
    else (1%nat, false)
  else (1%nat, false).

(** U+FFFD *)
Definition REPLACEMENT : list u8 := [239; 191; 189].

(** Every character takes a byte, so the length is enough fuel. *)
Fixpoint lossy (fuel : nat) (bs : list u8) : list u8 :=
  match fuel with
  | O => []
  | S fuel =>
      match bs with
      | [] => []
      | _ :: _ =>
          let '(n, valid) := utf8_next bs in
          (if (valid : bool) then take n bs else REPLACEMENT) ++ lossy fuel (drop n bs)
      end
  end.

Definition from_utf8_lossy (bs : list u8) : list u8 := lossy (length bs) bs.

(** ** The serializer *)
(** A vector or string that is not the last field is preceded by its length. *)
Definition serialize_field (last : bool) (t : FieldType) (v : FieldValue) : list u8 :=
  match t, v with
  | FUnsigned size, VInt x | FSigned size, VInt x => be_encode size x
  | FUuid, VInt x => uuid_bytes x
  | FVec, VBytes bs | FString, VBytes bs => if last then bs else u32_be (Z.of_nat (length bs)) ++ bs
  | _, _ => []
  end.

Definition is_nil {A} (l : list A) : bool := match l with [] => true | _ => false end.

Fixpoint serialize_steps (ts : list FieldType) (vs : list FieldValue) : list u8 :=
  match ts, vs with
  | t :: ts, v :: vs => serialize_field (is_nil ts) t v ++ serialize_steps ts vs
  | _, _ => []
  end.

Definition PROTOCOL_HEADER_SIZE : nat := 5.

(** The variants of an enum in their order; a packet is the index of its variant and its
    values. *)
Abbreviation Protocol := (list (list FieldType)) (only parsing).
Abbreviation PacketOf := (nat * list FieldValue)%type (only parsing).

(** [u8::from(&packet)] and [try_from(u8)]: variants are numbered from one. *)
Definition u8_of_variant (k : nat) : u8 := Z.of_nat k + 1.

Definition variant_of_u8 (proto : Protocol) (value : u8) : result ProtocolError nat :=
  if decide (1 <= value <= Z.of_nat (length proto)) then Ok (Z.to_nat (value - 1)) else Err PInvalidFormat.

Definition serialize_packet (proto : Protocol) (packet : PacketOf) : list u8 :=
  let fields := default [] (proto !! packet.1) in
  let res := u8_of_variant packet.1 :: [0; 0; 0; 0] ++ serialize_steps fields packet.2 in
  list_inserts 1 (u32_be (wrap 32 (Z.of_nat (length res - PROTOCOL_HEADER_SIZE)))) res.

(** ** The check of lengths *)
Definition is_variable (t : FieldType) : bool :=
  match t with FVec | FString => true | _ => false end.

(** The least size of a field, as the validator adds it up. *)
Definition min_size (last : bool) (t : FieldType) : u32 :=
  match t with
  | FUnsigned size | FSigned size => Z.of_nat size
  | FUuid => 16
  | FVec | FString => if last then 0 else 4
  end.

Fixpoint packet_size (ts : list FieldType) : u32 :=
  match ts with
  | [] => 0
  | t :: ts => min_size (is_nil ts) t + packet_size ts
  end.

Definition validate_length (ts : list FieldType) (len : u32) : bool :=
  if existsb is_variable ts then bool_decide (packet_size ts <= len)
  else bool_decide (len = packet_size ts).

(** ** The dispatcher *)
(** [&payload[i..i+size]] *)
Definition range_at (i size : nat) (payload : list u8) : option (list u8) :=
  if decide (i + size <= length payload)%nat then Some (slice i (i + size) payload) else None.

(** One field: its value, the variable [size] and the position after it.  [size] is the size
    of the field before; the last field takes [payload.len() - size] bytes, or all of them if
    it is the only one. *)
Definition deserialize_field (first last : bool) (t : FieldType) (size i : nat) (payload : list u8)
    : option (FieldValue * nat * nat) :=
  match t with
  | FUnsigned n =>
      bs ← range_at i n payload; Some (VInt (be_decode bs), n, (i + n)%nat)
  | FSigned n =>
      bs ← range_at i n payload;
      Some (VInt (as_signed (8 * Z.of_nat n) (be_decode bs)), n, (i + n)%nat)
  | FUuid => bs ← range_at i 16 payload; Some (VInt (be_decode bs), 16%nat, (i + 16)%nat)
  | FVec | FString =>
      let text bs := if decide (t = FString) then from_utf8_lossy bs else bs in
      if last then
        let size := if (first : bool) then length payload else (length payload - size)%nat in
        bs ← range_at i size payload; Some (VBytes (text bs), size, i)
      else
        len ← range_at i 4 payload;
        let size := Z.to_nat (be_decode len) in
        bs ← range_at (i + 4) size payload; Some (VBytes (text bs), size, (i + 4 + size)%nat)
  end.

Fixpoint deserialize_steps (first : bool) (ts : list FieldType) (size i : nat) (payload : list u8)
    : option (list FieldValue) :=
  match ts with
  | [] => Some []
  | t :: ts =>
      '(v, size, i) ← deserialize_field first (is_nil ts) t size i payload;
      vs ← deserialize_steps false ts size i payload;
      Some (v :: vs)
  end.

Inductive Dispatch : Type :=
| Dispatched (packet : PacketOf) (rest : list u8)
| Ignored (rest : list u8)
| DispatchErr (e : ProtocolError)
| DispatchPanic.

(** [parse_and_dispatch_packet] up to the call of the handler, on the bytes the stream holds
    until it ends.  [cancelled]: the token of the reader; [writer]: whether the connection's
    writer still exists, without which packets are skipped. *)
Definition parse_packet (proto : Protocol) (cancelled writer : bool) (stream : list u8) : Dispatch :=
  if cancelled then DispatchErr PCustom
  else
    match read_exact PROTOCOL_HEADER_SIZE stream with
    | None => DispatchErr PAmbiguous
    | Some (header, stream) =>
        match variant_of_u8 proto (byte_at 0 header) with
        | Err e => DispatchErr e
        | Ok k =>
            let fields := default [] (proto !! k) in
            let payload_length := be_decode (slice 1 5 header) in
            if validate_length fields payload_length then
              match read_exact (Z.to_nat payload_length) stream with
              | None => DispatchErr PAmbiguous
              | Some (payload, stream) =>
                  if writer then
                    match deserialize_steps true fields 0 0 payload with
                    | Some vs => Dispatched (k, vs) stream
                    | None => DispatchPanic
                    end
                  else Ignored stream
              end
            else DispatchErr PCustom
        end
    end.

(** ** What the derived code promises *)
(** Values of a type; a string is text that decodes to itself. *)
Definition has_type (t : FieldType) (v : FieldValue) : Prop :=
  match t, v with
  | FUnsigned n, VInt x => in_width (8 * Z.of_nat n) x
  | FSigned n, VInt x => - 2 ^ (8 * Z.of_nat n - 1) <= x < 2 ^ (8 * Z.of_nat n - 1)
  | FUuid, VInt x => in_width 128 x
  | FVec, VBytes bs => is_bytes bs /\ in_width 32 (Z.of_nat (length bs))
  | FString, VBytes bs => is_bytes bs /\ in_width 32 (Z.of_nat (length bs)) /\ from_utf8_lossy bs = bs
  | _, _ => False
  end.

(** Integers are never empty. *)
Definition sized (t : FieldType) : Prop :=
  match t with FUnsigned n | FSigned n => (0 < n)%nat | _ => True end.

(** A vector or string at the end is read back only if it is the only field or comes after a
    single field of fixed size. *)
Definition readable (ts : list FieldType) : bool :=
  match ts with
  | [] | [_] => true
  | [t; t'] => negb (is_variable t && is_variable t')
  | _ => negb (from_option is_variable false (last ts))
  end.

(** The bytes the dispatcher takes for the size of a field. *)
Definition field_size (t : FieldType) (v : FieldValue) : nat :=
  match t, v with
  | FUnsigned n, _ | FSigned n, _ => n
  | FUuid, _ => 16
  | _, VBytes bs => length bs
  | _, _ => 0
  end.

(** Whether the last field is read where it is. *)
Fixpoint fits (first : bool) (size i : nat) (ts : list FieldType) (vs : list FieldValue) : bool :=
  match ts, vs with
  | t :: [], _ => negb (is_variable t) || first || bool_decide (i = size)
  | t :: ts, v :: vs =>
      fits false (field_size t v) (i + length (serialize_field false t v)) ts vs
  | _, _ => true
  end.

Lemma range_at_app i n pre bs rest :
  length pre = i -> length bs = n -> range_at i n (pre ++ bs ++ rest) = Some bs.
Proof.
  intros <- <-. unfold range_at. rewrite decide_True by (rewrite !length_app; lia). f_equal.
  apply slice_app_exact; lia.
Qed.

Lemma range_at_end i n pre bs : length pre = i -> length bs = n -> range_at i n (pre ++ bs) = Some bs.
Proof. intros. rewrite <- (app_nil_r bs) at 1. by apply range_at_app. Qed.

Lemma range_at_over i size payload : (length payload < i + size)%nat -> range_at i size payload = None.
Proof. intros. unfold range_at. rewrite decide_False by lia. done. Qed.

Lemma be_decode_encode_mod n x : be_decode (be_encode n x) = x mod 256 ^ Z.of_nat n.
Proof.
  revert x. induction n as [|n IH]; intros x; [by rewrite Z.mod_1_r|].
  cbn [be_encode]. rewrite be_decode_app, IH. cbn [be_decode fold_left length].
  change (256 ^ Z.of_nat 1) with 256. rewrite (Nat2Z.inj_succ n), (Z.pow_succ_r 256) by lia.
  rewrite (Z.rem_mul_r x 256 (256 ^ Z.of_nat n)) by lia. lia.
Qed.

Lemma pow_256 n : 256 ^ Z.of_nat n = 2 ^ (8 * Z.of_nat n).
Proof. change 256 with (2 ^ 8). rewrite <- Z.pow_mul_r by lia. done. Qed.

Lemma as_signed_mod w x : as_signed w (x mod 2 ^ w) = as_signed w x.
Proof. unfold as_signed. by rewrite Zmod_mod. Qed.

(** Bytes that are preceded by their length. *)
Lemma deserialize_prefixed {A} (f : list u8 -> nat -> A) bs pre rest :
  in_width 32 (Z.of_nat (length bs)) ->
  (len ← range_at (length pre) 4 (pre ++ (u32_be (Z.of_nat (length bs)) ++ bs) ++ rest);
   bs' ← range_at (length pre + 4) (Z.to_nat (be_decode len))
           (pre ++ (u32_be (Z.of_nat (length bs)) ++ bs) ++ rest);
   Some (f bs' (Z.to_nat (be_decode len)))) = Some (f bs (length bs)).
Proof.
  intros Hw. rewrite <- (app_assoc (u32_be _)), range_at_app by done. cbn [mbind option_bind].
  rewrite u32_be_roundtrip, Nat2Z.id by done. rewrite (app_assoc pre), range_at_app; [done| |done].
  by rewrite length_app.
Qed.

(** A field of fixed size, and one preceded by its length, are read back. *)
Lemma deserialize_field_inner first t v size pre rest :
  has_type t v -> sized t ->
  deserialize_field first false t size (length pre) (pre ++ serialize_field false t v ++ rest)
  = Some (v, field_size t v, (length pre + length (serialize_field false t v))%nat).
Proof.
  intros Ht Hs. destruct t, v; cbn in Ht; try done; cbn [deserialize_field serialize_field field_size].
  - rewrite range_at_app by (by rewrite ?be_encode_length). cbn [mbind option_bind].
    rewrite be_decode_encode by (by rewrite pow_256). by rewrite be_encode_length.
  - rewrite range_at_app by (by rewrite ?be_encode_length). cbn [mbind option_bind].
    rewrite be_decode_encode_mod, pow_256, as_signed_mod, as_signed_small, be_encode_length; [done|cbn in Hs; lia|done].
  - rewrite range_at_app by (by rewrite ?be_encode_length). cbn [mbind option_bind].
    by rewrite uuid_bytes_roundtrip.
  - destruct Ht as [_ Hw].
    rewrite (deserialize_prefixed (fun b n => (VBytes b, n, length pre + 4 + n)%nat)) by done.
    by rewrite length_app, Nat.add_assoc.
  - destruct Ht as (_ & Hw & Hu).
    rewrite (deserialize_prefixed (fun b n => (VBytes (from_utf8_lossy b), n, length pre + 4 + n)%nat)) by done.
    by rewrite Hu, length_app, Nat.add_assoc.
Qed.

(** The last field, a vector or string. *)
Lemma deserialize_field_last first t v size pre :
  has_type t v -> is_variable t = true -> (size <= length pre)%nat -> (first = true -> pre = []) ->
  (vs ← deserialize_field first true t size (length pre) (pre ++ serialize_field true t v); Some vs.1.1)
  = if first || bool_decide (length pre = size) then Some v else None.
Proof.
  intros Ht Hv Hsize Hfirst.
  assert (Hbs : exists bs, v = VBytes bs /\ serialize_field true t v = bs
    /\ (if decide (t = FString) then from_utf8_lossy bs else bs) = bs).
  { destruct t, v; cbn in Ht, Hv; try done; eexists; (split; [done|split; [done|]]).
    - done.
    - by destruct Ht as (_ & _ & ->). }
  destruct Hbs as (bs & -> & -> & Hb).
  assert (E : deserialize_field first true t size (length pre) (pre ++ bs)
    = (let size := if first then length (pre ++ bs) else (length (pre ++ bs) - size)%nat in
       b ← range_at (length pre) size (pre ++ bs);
       Some (VBytes (if decide (t = FString) then from_utf8_lossy b else b), size, length pre))).
  { by destruct t. }
  rewrite E. clear E. destruct first; cbn [orb].
  - rewrite (Hfirst eq_refl). pose proof (range_at_end 0 (length bs) [] bs eq_refl eq_refl) as R.
    cbn [app length] in *. rewrite R. cbn. by rewrite Hb.
  - case_bool_decide as Hl.
    + rewrite range_at_end by (rewrite ?length_app; lia). cbn. by rewrite Hb.
    + rewrite range_at_over by (rewrite length_app; lia). done.
Qed.

Lemma serialize_field_fixed last t v :
  is_variable t = false -> serialize_field last t v = serialize_field false t v.
Proof. by destruct t. Qed.

Lemma deserialize_field_fixed first last t size i payload :
  is_variable t = false ->
  deserialize_field first last t size i payload = deserialize_field first false t size i payload.
Proof. by destruct t. Qed.

Lemma field_length t v :
  has_type t v ->
  length (serialize_field false t v) = (field_size t v + if is_variable t then 4 else 0)%nat.
Proof.
  intros Ht. destruct t, v; cbn in Ht; try done; cbn [serialize_field field_size is_variable];
    rewrite ?length_app; unfold u32_be, uuid_bytes; rewrite ?be_encode_length; lia.
Qed.

Lemma field_nonempty t v :
  has_type t v -> sized t -> (0 < length (serialize_field false t v))%nat.
Proof.
  intros Ht Hs. rewrite field_length by done. destruct t, v; cbn in *; try done; lia.
Qed.

Lemma deserialize_serialized ts vs first size pre :
  Forall2 has_type ts vs -> Forall sized ts -> (size <= length pre)%nat -> (first = true -> pre = []) ->
  deserialize_steps first ts size (length pre) (pre ++ serialize_steps ts vs)
  = if fits first size (length pre) ts vs then Some vs else None.
Proof.
  intros Hty. revert first size pre. induction Hty as [|t v ts vs Htv Hts IH]; intros first size pre Hs Hsz Hf; [done|].
  inversion Hs as [|? ? Hst Hsts]; subst.
  cbn [deserialize_steps serialize_steps].
  destruct (decide (ts = [])) as [->|Hne].
  - inversion Hts; subst. cbn [is_nil serialize_steps fits deserialize_steps]. rewrite app_nil_r.
    destruct (is_variable t) eqn:Ev.
    + pose proof (deserialize_field_last first t v size pre Htv Ev Hsz Hf) as E. cbn [negb orb].
      destruct (deserialize_field _ _ _ _ _ _) as [[[w n] i]|]; cbn in E |- *; destruct (first || _); by simplify_eq.
    + cbn [negb orb]. rewrite (serialize_field_fixed true), deserialize_field_fixed by done.
      pose proof (deserialize_field_inner first t v size pre [] Htv Hst) as E. rewrite app_nil_r in E. by rewrite E.
  - assert (Hn : is_nil ts = false) by (by destruct ts). rewrite Hn.
    assert (Hfit : fits first size (length pre) (t :: ts) (v :: vs)
      = fits false (field_size t v) (length pre + length (serialize_field false t v)) ts vs) by (by destruct ts).
    rewrite Hfit, deserialize_field_inner by done. cbn [mbind option_bind].
    rewrite (app_assoc pre), <- length_app, IH; [|done| |done].
    + clear Hfit. by destruct (fits false _ _ ts vs).
    + rewrite length_app. pose proof (field_length t v Htv). lia.
Qed.

(** Beyond the first field the position is past the size of the last one read. *)
Lemma fits_past size i ts vs :
  Forall2 has_type ts vs -> Forall sized ts -> (size < i)%nat ->
  fits false size i ts vs = negb (from_option is_variable false (last ts)).
Proof.
  intros Hty. revert size i. induction Hty as [|t v ts vs Htv Hts IH]; intros size i Hs Hi; [done|].
  inversion Hs as [|? ? Hst Hsts]; subst. destruct ts as [|t' ts].
  - cbn. rewrite bool_decide_false by lia. by rewrite !orb_false_r.
  - change (last (t :: t' :: ts)) with (last (t' :: ts)). cbn [fits]. apply IH; [done|].
    pose proof (field_length t v Htv). lia.
Qed.

Lemma fits_readable ts vs :
  Forall2 has_type ts vs -> Forall sized ts -> fits true 0 0 ts vs = readable ts.
Proof.
  intros Hty Hs. inversion Hty as [|t v ts' vs' Htv Hts]; subst; [done|].
  inversion Hs as [|? ? Hst Hsts]; subst. destruct ts' as [|t' ts']; [cbn; by rewrite orb_true_r|].
  inversion Hts as [|? v' ? vs'' Htv' Hts']; subst. inversion Hsts; subst.
  pose proof (field_length t v Htv) as Hl. pose proof (field_nonempty t v Htv Hst) as Hp.
  destruct ts' as [|t'' ts'].
  - cbn [fits readable]. rewrite Nat.add_0_l, orb_false_r, Hl.
    destruct (is_variable t), (is_variable t'); cbn [negb orb andb]; try done;
      [apply bool_decide_false | apply bool_decide_true]; lia.
  - change (readable _) with (negb (from_option is_variable false (last (t'' :: ts')))).
    rewrite <- (fits_past (field_size t' v') (length (serialize_field false t v) + length (serialize_field false t' v'))
      (t'' :: ts') vs'') by (try done; pose proof (field_length t' v' Htv'); lia).
    done.
Qed.

(** ** The whole packet *)
Lemma serialize_packet_bytes proto k vs :
  let fields := default [] (proto !! k) in
  serialize_packet proto (k, vs)
  = u8_of_variant k :: u32_be (wrap 32 (Z.of_nat (length (serialize_steps fields vs)))) ++ serialize_steps fields vs.
Proof.
  cbn zeta. unfold serialize_packet. cbn [fst snd]. set (steps := serialize_steps _ _).
  change (length (u8_of_variant k :: [0; 0; 0; 0] ++ steps)) with (5 + length steps)%nat.
  rewrite (Nat.add_comm 5), Nat.add_sub. unfold u32_be. cbn [be_encode app list_inserts].
  done.
Qed.

(** What a variable field has beyond its least size. *)
Definition excess (t : FieldType) (v : FieldValue) : nat :=
  match t, v with FVec, VBytes bs | FString, VBytes bs => length bs | _, _ => 0 end.

Lemma field_min_size last t v :
  has_type t v -> Z.of_nat (length (serialize_field last t v)) = min_size last t + Z.of_nat (excess t v).
Proof.
  intros Ht. destruct t, v, last; cbn in Ht; try done; cbn [serialize_field min_size excess];
    rewrite ?length_app; unfold u32_be, uuid_bytes; rewrite ?be_encode_length; lia.
Qed.

Lemma steps_length ts vs :
  Forall2 has_type ts vs ->
  packet_size ts <= Z.of_nat (length (serialize_steps ts vs))
  /\ (existsb is_variable ts = false -> Z.of_nat (length (serialize_steps ts vs)) = packet_size ts).
Proof.
  induction 1 as [|t v ts vs Htv Hts IH]; [done|]. cbn [packet_size serialize_steps existsb].
  rewrite length_app, Nat2Z.inj_add, field_min_size by done. split; [lia|].
  intros [Hv Hvs]%orb_false_elim. assert (excess t v = 0%nat) as -> by (by destruct t, v). 
  destruct IH as [_ IH]. rewrite IH by done. lia.
Qed.

Lemma validate_serialized ts vs :
  Forall2 has_type ts vs -> validate_length ts (Z.of_nat (length (serialize_steps ts vs))) = true.
Proof.
  intros Hty. destruct (steps_length ts vs Hty) as [Hle Heq]. unfold validate_length.
  destruct (existsb is_variable ts); apply bool_decide_true; auto.
Qed.

Lemma variant_of_u8_of proto k :
  (k < length proto)%nat -> variant_of_u8 proto (u8_of_variant k) = Ok k.
Proof.
  intros Hk. unfold variant_of_u8, u8_of_variant. rewrite decide_True by lia. f_equal. lia.
Qed.

(** A packet of the enum with values of the types of its fields, and a payload whose length
    fits its header. *)
Definition wf_packet (proto : Protocol) (packet : PacketOf) : Prop :=
  exists ts, proto !! packet.1 = Some ts /\ Forall2 has_type ts packet.2 /\ Forall sized ts
    /\ in_width 32 (Z.of_nat (length (serialize_steps ts packet.2))).

Lemma parse_serialized proto packet rest :
  wf_packet proto packet ->
  parse_packet proto false true (serialize_packet proto packet ++ rest)
  = if readable (default [] (proto !! packet.1)) then Dispatched packet rest else DispatchPanic.
Proof.
  destruct packet as [k vs]. intros (ts & Hk & Hty & Hs & Hw). cbn [fst snd] in *.
  pose proof (lookup_lt_Some _ _ _ Hk) as Hlt.
  rewrite serialize_packet_bytes, Hk. cbn [default from_option].
  rewrite wrap_small by done. unfold id. set (steps := serialize_steps ts vs) in *.
  set (len := u32_be (Z.of_nat (length steps))).
  unfold parse_packet. unfold read_exact at 1. rewrite <- app_comm_cons, <- app_assoc.
  assert (Hlen : length len = 4%nat) by done.
  rewrite decide_True by (cbn [length]; rewrite !length_app, Hlen; unfold PROTOCOL_HEADER_SIZE; lia).
  change (u8_of_variant k :: len ++ steps ++ rest) with ((u8_of_variant k :: len) ++ steps ++ rest).
  rewrite take_app_length', drop_app_length' by (cbn [length]; by rewrite Hlen).
  change (byte_at 0 (u8_of_variant k :: len)) with (u8_of_variant k).
  rewrite variant_of_u8_of, Hk by done. cbn [default from_option]. unfold id.
  change (slice 1 5 (u8_of_variant k :: len)) with len. unfold len at 1 2. rewrite u32_be_roundtrip by done.
  unfold steps at 1. rewrite validate_serialized by done.
  unfold read_exact. rewrite Nat2Z.id, decide_True by (rewrite length_app; lia).
  rewrite take_app_length, drop_app_length.
  pose proof (deserialize_serialized ts vs true 0 [] Hty Hs (Nat.le_refl 0) (fun _ => eq_refl)) as E.
  cbn [length app] in E. fold steps in E. rewrite E, fits_readable by done. by destruct (readable ts).
Qed.

(** Layouts whose packets cannot make the dispatcher panic, whatever a peer sends: fields of
    fixed size, and at most one vector or string, alone or after one of them. *)
Definition steady (ts : list FieldType) : bool :=
  negb (existsb is_variable ts)
  || match ts with [_] => true | [t; _] => negb (is_variable t) | _ => false end.

Lemma deserialize_fixed_total first last t size i payload :
  is_variable t = false -> Z.of_nat i + min_size last t <= Z.of_nat (length payload) ->
  exists v n, deserialize_field first last t size i payload
    = Some (v, n, (i + Z.to_nat (min_size last t))%nat) /\ n = Z.to_nat (min_size last t).
Proof.
  intros Hv Hl. destruct t; cbn in Hv, Hl; try done; cbn [deserialize_field min_size]; unfold range_at;
    rewrite decide_True by lia; cbn [mbind option_bind]; eexists _, _; split; try done; rewrite ?Nat2Z.id; done.
Qed.

Lemma deserialize_steps_total ts first size i payload :
  existsb is_variable ts = false -> Z.of_nat i + packet_size ts <= Z.of_nat (length payload) ->
  is_Some (deserialize_steps first ts size i payload).
Proof.
  revert first size i. induction ts as [|t ts IH]; intros first size i Hv Hl; [by eexists|].
  cbn [existsb packet_size deserialize_steps] in *. apply orb_false_elim in Hv as [Hv Hvs].
  assert (Hpos : 0 <= packet_size ts).
  { clear. induction ts as [|t ts IH]; cbn [packet_size]; [lia|]. destruct t, (is_nil ts); cbn; lia. }
  assert (Hm : 0 <= min_size (is_nil ts) t) by (destruct t, (is_nil ts); cbn; lia).
  destruct (deserialize_fixed_total first (is_nil ts) t size i payload Hv ltac:(lia)) as (v & n & -> & _).
  cbn [mbind option_bind].
  destruct (IH false n (i + Z.to_nat (min_size (is_nil ts) t))%nat Hvs ltac:(lia)) as [vs ->].
  by eexists.
Qed.

Lemma deserialize_last_total t size i payload first :
  is_variable t = true -> i = (if first : bool then 0 else size)%nat -> (i <= length payload)%nat ->
  is_Some (deserialize_steps first [t] size i payload).
Proof.
  intros Hv -> Hl. cbn [deserialize_steps is_nil].
  assert (E : is_Some (range_at (if first then 0 else size)%nat
    (if first then length payload else length payload - size)%nat payload)).
  { unfold range_at. rewrite decide_True; [by eexists|]. destruct first; lia. }
  destruct E as [bs E]. destruct t; try done; cbn [deserialize_field]; rewrite E; by eexists.
Qed.

Lemma steady_no_panic ts payload :
  steady ts = true -> validate_length ts (Z.of_nat (length payload)) = true ->
  is_Some (deserialize_steps true ts 0 0 payload).
Proof.
  intros Hs Hv. unfold validate_length in Hv.
  destruct (existsb is_variable ts) eqn:Ev; apply bool_decide_eq_true in Hv.
  2: { apply deserialize_steps_total; [done|]. cbn. lia. }
  unfold steady in Hs. rewrite Ev in Hs. cbn [negb orb] in Hs.
  destruct ts as [|t [|t' [|? ?]]]; try done; cbn [existsb] in Ev.
  - rewrite orb_false_r in Ev. by apply deserialize_last_total; [| |lia].
  - apply negb_true_iff in Hs. rewrite Hs, orb_false_r in Ev. cbn [orb] in Ev.
    cbn [packet_size is_nil] in Hv.
    change (is_Some ('(v, size, i) ← deserialize_field true false t 0 0 payload;
      vs ← deserialize_steps false [t'] size i payload; Some (v :: vs))).
    assert (0 <= min_size true t') by (destruct t'; cbn; lia).
    destruct (deserialize_fixed_total true false t 0 0 payload Hs ltac:(cbn; lia)) as (v & n & E & Hn).
    rewrite E. cbn [mbind option_bind].
    assert (Hl : is_Some (deserialize_steps false [t'] n (0 + Z.to_nat (min_size false t)) payload)).
    { apply deserialize_last_total; [done|lia|]. assert (0 <= min_size false t) by (destruct t; cbn; lia). lia. }
    destruct Hl as [vs ->]. by eexists.
Qed.

Lemma parse_no_panic proto cancelled writer stream :
  is_bytes stream -> Forall (fun ts => steady ts = true) proto ->
  parse_packet proto cancelled writer stream <> DispatchPanic.
Proof.
  intros Hb Hall. unfold parse_packet. destruct cancelled; [done|].
  unfold read_exact at 1. case_decide as Hh; [|done].
  destruct (variant_of_u8 _ _) as [k|] eqn:Ek; [|done].
  assert (Hst : steady (default [] (proto !! k)) = true).
  { destruct (proto !! k) as [ts|] eqn:E; [|done]. by apply (Forall_lookup_1 _ _ _ _ Hall E). }
  destruct (validate_length _ _) eqn:Ev; [|done].
  unfold read_exact. case_decide as Hp; [|done]. destruct writer; [|done].
  set (n := be_decode _) in *.
  assert (0 <= n).
  { apply be_decode_range. unfold slice. by apply Forall_take, Forall_drop, Forall_take. }
  destruct (steady_no_panic (default [] (proto !! k)) (take (Z.to_nat n) (drop PROTOCOL_HEADER_SIZE stream)) Hst) as [vs ->]; [|done].
  rewrite length_take_le by done. rewrite Z2Nat.id by done. exact Ev.
Qed.

(** ** Text *)
Definition ascii_bytes (bs : list u8) : Prop := Forall (fun b => 0 <= b < 128) bs.

Lemma utf8_next_ascii b bs : b < 128 -> utf8_next (b :: bs) = (1%nat, true).
Proof. intros Hb. unfold utf8_next. cbn [byte_at]. unfold byte_at. cbn. by rewrite decide_True. Qed.

Lemma utf8_next_pos bs : (1 <= (utf8_next bs).1)%nat.
Proof. unfold utf8_next. repeat case_match; cbn; lia. Qed.

Lemma from_utf8_lossy_ascii bs : ascii_bytes bs -> from_utf8_lossy bs = bs.
Proof.
  unfold from_utf8_lossy. induction bs as [|b bs IH]; intros Hb; [done|].
  inversion Hb; subst. cbn [length lossy]. rewrite utf8_next_ascii by lia. cbn.
  by rewrite drop_0, IH.
Qed.

(** Text without replacements comes from the same bytes. *)
Lemma lossy_ascii_inv fuel bs t :
  ascii_bytes t -> (length bs <= fuel)%nat -> lossy fuel bs = t -> bs = t.
Proof.
  revert bs t. induction fuel as [|fuel IH]; intros bs t Ht Hl E.
  { destruct bs; cbn in Hl, E; [done|lia]. }
  destruct bs as [|b bs]; [done|]. cbn [lossy] in E.
  destruct (decide (b < 128)) as [Hb|Hb].
  - rewrite utf8_next_ascii in E by done. cbn in E. rewrite drop_0 in E.
    destruct t as [|c t]; [done|]. inversion Ht; subst. injection E as -> E. f_equal.
    apply IH; [done| |done]. cbn in Hl. lia.
  - exfalso. destruct (utf8_next (b :: bs)) as [n valid] eqn:En.
    pose proof (utf8_next_pos (b :: bs)) as Hn. rewrite En in Hn. cbn in Hn.
    destruct n as [|n]; [lia|]. destruct valid; cbn in E; subst t;
      inversion Ht; lia.
Qed.

Lemma from_utf8_lossy_inv bs t : ascii_bytes t -> from_utf8_lossy bs = t -> bs = t.
Proof. intros Ht. by apply lossy_ascii_inv. Qed.

(** C20: the code derived for a packet enum.  Any packet, serialized and followed by whatever
    else is on the stream, is given back unchanged to the handler, with the rest untouched, if
    the layout of its variant is readable: its last field is of fixed size, or is the only
    one, or follows a single field of fixed size.  For every other layout the dispatcher
    panics on each packet of the variant, whatever its values. *)
Theorem derived_codec_exact proto packet rest :
  wf_packet proto packet ->
  parse_packet proto false true (serialize_packet proto packet ++ rest)
  = if readable (default [] (proto !! packet.1)) then Dispatched packet rest else DispatchPanic.
Proof. apply parse_serialized. Qed.

(** An enum with a variant of two fields and one of three. *)
Definition two_variants : Protocol := [[FUnsigned 4; FVec]; [FUnsigned 4; FUnsigned 8; FVec]].

Lemma derived_codec_exact_witness :
  parse_packet two_variants false true (serialize_packet two_variants (0%nat, [VInt 7; VBytes [1; 2; 3]]) ++ [9])
  = Dispatched (0%nat, [VInt 7; VBytes [1; 2; 3]]) [9]
  /\ parse_packet two_variants false true
       (serialize_packet two_variants (1%nat, [VInt 7; VInt 8; VBytes []]) ++ [9]) = DispatchPanic.
Proof.
  assert (W1 : wf_packet two_variants (0%nat, [VInt 7; VBytes [1; 2; 3]])).
  { eexists. split; [reflexivity|]. split; [|split; [|vm_compute; split; congruence]].
    - repeat constructor; vm_compute; congruence.
    - repeat constructor. }
  assert (W2 : wf_packet two_variants (1%nat, [VInt 7; VInt 8; VBytes []])).
  { eexists. split; [reflexivity|]. split; [|split; [|vm_compute; split; congruence]].
    - repeat constructor; vm_compute; congruence.
    - repeat constructor. }
  split.
  - exact (derived_codec_exact two_variants (0%nat, [VInt 7; VBytes [1; 2; 3]]) [9] W1).
  - exact (derived_codec_exact two_variants (1%nat, [VInt 7; VInt 8; VBytes []]) [9] W2).
Defined.
