(* ===== verification/Mgpp.v ===== *)
(** * MGPP

    [protocol/src/framework], the connections of a derived protocol, and [protocol/src/mgpp],
    the protocol by which the controller spreads the invalidation of caches: clients connect
    to its server, and an invalidation that one of them sends goes to all.

    The flag [is_closing] of a connection is shared with its reader.  A call that waits for a
    lock that is never released does not return: its result is [None].  [write_packet] calls
    [shutdown] in an arm of a [match] whose scrutinee still holds the lock of the writer. *)
From stdpp Require Import base gmap list strings.
From S2P Require Import Prelude Errors MdsftpWire MetaStore FragmentLedger Paths Permissions Database Dashboard Tokens ProtocolMacro.
Open Scope Z_scope.

(** ** Connections *)
Record ProtocolConnection : Type := mkConn {
  pc_stream : WriteStream;
  pc_writer_held : bool;
  pc_is_closing : bool;
  pc_read_cancelled : bool;
  pc_notified : nat
}.

Definition conn_new (stream : WriteStream) : ProtocolConnection := mkConn stream false false false 0.

(** [PacketReader::close] *)
Definition reader_close (notify : bool) (c : ProtocolConnection) : ProtocolConnection :=
  if pc_is_closing c then c
  else mkConn (pc_stream c) (pc_writer_held c) true true (if notify then S (pc_notified c) else pc_notified c).

(** [closed]: whether the shutdown of the stream succeeds. *)
Definition conn_shutdown (closed notify : bool) (c : ProtocolConnection)
    : ProtocolConnection * option (result ProtocolError unit) :=
  let c := mkConn (pc_stream c) (pc_writer_held c) true (pc_read_cancelled c) (pc_notified c) in
  let c := reader_close notify c in
  if pc_writer_held c then (c, None)
  else
    (mkConn (mkWriteStream (ws_sent (pc_stream c)) false) false (pc_is_closing c) (pc_read_cancelled c) (pc_notified c),
     Some (if closed then Ok tt else Err PShuttingDown)).

(** [write_packet] and [write] of the connection differ in nothing but the bytes: the writer
    maps every failure of the stream to [WriteError]. *)
Definition conn_write (closed : bool) (payload : list u8) (c : ProtocolConnection)
    : ProtocolConnection * option (result ProtocolError unit) :=
  if pc_is_closing c then (c, Some (Err PShuttingDown))
  else if pc_writer_held c then (c, None)
  else
    match write_all payload (pc_stream c) with
    | (s, Ok _) =>
        (mkConn s false (pc_is_closing c) (pc_read_cancelled c) (pc_notified c), Some (Ok tt))
    | (s, Err _) =>
        conn_shutdown closed true (mkConn s true (pc_is_closing c) (pc_read_cancelled c) (pc_notified c))
    end.

Definition is_closed (c : ProtocolConnection) : bool := pc_is_closing c.

(** The error branches of the reader: [shutting_down] is set and the keeper notified. *)
Definition reader_fail (c : ProtocolConnection) : ProtocolConnection :=
  mkConn (pc_stream c) (pc_writer_held c) true (pc_read_cancelled c) (S (pc_notified c)).

(** ** The reader *)
(** A reader works on a state that has its connection and its handler's state in it. *)
Record Reader (S : Type) : Type := mkReader {
  rd_connection : S -> ProtocolConnection;
  rd_update : (ProtocolConnection -> ProtocolConnection) -> S -> S;
  rd_handle : nat * list FieldValue -> S -> S * option (result ProtocolError unit)
}.
Arguments mkReader {S}.
Arguments rd_connection {S}.
Arguments rd_update {S}.
Arguments rd_handle {S}.

Inductive ReaderEnd : Type := ReaderStopped | ReaderFailed | ReaderPanicked | ReaderHangs | NoFuel.

(** [PacketReader::start] on the bytes that arrive until the stream ends. *)
Fixpoint read_loop {S} (proto : list (list FieldType)) (rd : Reader S) (fuel : nat) (stream : list u8) (s : S)
    : S * ReaderEnd :=
  match fuel with
  | O => (s, NoFuel)
  | Datatypes.S fuel =>
      if pc_is_closing (rd_connection rd s) then (s, ReaderStopped)
      else
        match parse_packet proto (pc_read_cancelled (rd_connection rd s)) true stream with
        | Dispatched packet rest =>
            match rd_handle rd packet s with
            | (s, None) => (s, ReaderHangs)
            | (s, Some (Ok _)) => read_loop proto rd fuel rest s
            | (s, Some (Err _)) => (rd_update rd reader_fail s, ReaderFailed)
            end
        | Ignored rest => read_loop proto rd fuel rest s
        | DispatchErr _ => (rd_update rd reader_fail s, ReaderFailed)
        | DispatchPanic => (s, ReaderPanicked)
        end
  end.

(** ** Packets *)
Definition mgpp_layout : list (list FieldType) := [[FUnsigned 4; FVec]].

Definition mgpp_packet (p : MGPPPacket) : nat * list FieldValue :=
  let '(InvalidateCache cache_id cache_key) := p in (0%nat, [VInt cache_id; VBytes cache_key]).

Definition mgpp_bytes (p : MGPPPacket) : list u8 := serialize_packet mgpp_layout (mgpp_packet p).

(** [MGPPHandlersMapper] *)
Definition mgpp_dispatch {S} (invalidate_cache : MGPPPacket -> S -> S * option unit)
    (packet : nat * list FieldValue) (s : S) : S * option (result ProtocolError unit) :=
  match packet with
  | (O, [VInt cache_id; VBytes cache_key]) =>
      let '(s, r) := invalidate_cache (InvalidateCache cache_id cache_key) s in
      (s, (fun _ => Ok tt) <$> r)
  | _ => (s, Some (Ok tt))
  end.

(** ** The server *)
Inductive MGPPError : Type :=
| MgConnectionError | MgSSLError | MgAddressResolutionError | MgConnectionAuthenticationError | MgShuttingDown.

(** The connections are shared with their readers; the list holds them in the order of their
    arrival, behind a lock. *)
Record MGPPServer : Type := mkServer {
  sv_running : bool;
  sv_connections : list nat;
  sv_store : gmap nat ProtocolConnection;
  sv_held : bool
}.

Definition set_store (f : gmap nat ProtocolConnection -> gmap nat ProtocolConnection) (sv : MGPPServer) : MGPPServer :=
  mkServer (sv_running sv) (sv_connections sv) (f (sv_store sv)) (sv_held sv).

Definition hold (sv : MGPPServer) : MGPPServer :=
  mkServer (sv_running sv) (sv_connections sv) (sv_store sv) true.

Section server.
  (** Whether shutdowns of streams succeed. *)
  Variable closed : bool.

(** A write to each of the connections while the list is locked; with [stop], up to the first
    one that fails. *)
Fixpoint write_each (stop : bool) (payload : list u8) (cs : list nat) (sv : MGPPServer)
    : MGPPServer * option (result MGPPError unit) :=
  match cs with
  | [] => (sv, Some (Ok tt))
  | c :: cs =>
      match sv_store sv !! c with
      | None => write_each stop payload cs sv
      | Some conn =>
          let '(conn, r) := conn_write closed payload conn in
          let sv := set_store <[c := conn]> sv in
          match r with
          | None => (hold sv, None)
          | Some (Err _) => if stop then (sv, Some (Err MgConnectionError)) else write_each stop payload cs sv
          | Some (Ok _) => write_each stop payload cs sv
          end
      end
  end.

Definition broadcast_packet (p : MGPPPacket) (sv : MGPPServer) : MGPPServer * option (result MGPPError unit) :=
  if sv_held sv then (sv, None) else write_each true (mgpp_bytes p) (sv_connections sv) sv.

(** [MGPPServerCacheInvalidateHandler] *)
Definition server_invalidate (p : MGPPPacket) (sv : MGPPServer) : MGPPServer * option unit :=
  if sv_held sv then (sv, None)
  else let '(sv, r) := write_each false (mgpp_bytes p) (sv_connections sv) sv in (sv, (fun _ => tt) <$> r).

(** The reader of one of the connections. *)
Definition server_reader (c : nat) : Reader MGPPServer :=
  mkReader (fun sv => default (conn_new (mkWriteStream [] false)) (sv_store sv !! c))
    (fun f => set_store (alter f c)) (mgpp_dispatch server_invalidate).

(** Connections that are shut down one after the other, up to one that hangs. *)
Fixpoint shutdown_each (cs : list nat) (sv : MGPPServer) : MGPPServer * option unit :=
  match cs with
  | [] => (sv, Some tt)
  | c :: cs =>
      match sv_store sv !! c with
      | None => shutdown_each cs sv
      | Some conn =>
          let '(conn, r) := conn_shutdown closed false conn in
          let sv := set_store <[c := conn]> sv in
          match r with
          | None => (hold sv, None)
          | Some _ => shutdown_each cs sv
          end
      end
  end.

(** What the listener yields: a signal, a failure of the connection or of its TLS handshake,
    or a stream by the bytes that arrive on it, with the identity of its connection. *)
Inductive Arrival : Type :=
| ShutdownSignal
| ConnectFailed
| Connected (bytes : list u8) (c : nat).

(** One round of the accept loop.  The reader of the new connection starts on the returned
    bytes. *)
Definition accept_connection (authenticator : option (list u8 -> Uuid -> result ProtocolError (bool * list u8)))
    (e : Arrival) (sv : MGPPServer) : MGPPServer * option (result MGPPError (list u8)) :=
  match e with
  | ShutdownSignal => (sv, Some (Err MgShuttingDown))
  | ConnectFailed => (sv, Some (Err MgConnectionError))
  | Connected bytes c =>
      match read_exact 16 bytes with
      | None => (sv, Some (Err MgConnectionError))
      | Some (auth_header, stream) =>
          let microservice_id := be_decode auth_header in
          match match authenticator with
                | None => Ok (true, stream)
                | Some authenticate_incoming => authenticate_incoming stream microservice_id
                end with
          | Err _ | Ok (false, _) => (sv, Some (Err MgConnectionAuthenticationError))
          | Ok (true, stream) =>
              if sv_held sv then (sv, None)
              else
                (mkServer (sv_running sv) (sv_connections sv ++ [c])
                   (<[c := conn_new (mkWriteStream [] true)]> (sv_store sv)) false, Some (Ok stream))
          end
      end
  end.

(** The loop of [start_server], with the result of each round. *)
Definition accept_round (authenticator : option (list u8 -> Uuid -> result ProtocolError (bool * list u8)))
    (e : Arrival) (sv : MGPPServer) : MGPPServer * option bool :=
  if sv_running sv then
    match accept_connection authenticator e sv with
    | (sv, None) => (sv, None)
    | (sv, Some (Err MgShuttingDown)) =>
        let sv := mkServer false (sv_connections sv) (sv_store sv) (sv_held sv) in
        if sv_held sv then (sv, None)
        else
          match shutdown_each (sv_connections sv) sv with
          | (sv, None) => (sv, None)
          | (sv, Some _) => (mkServer false [] (sv_store sv) false, Some false)
          end
    | (sv, Some _) => (sv, Some true)
    end
  else (sv, Some false).

(** A tick of the task that removes dead connections; a removed connection is dropped, which
    shuts it down. *)
Definition sweep_closed (sv : MGPPServer) : MGPPServer * option unit :=
  if sv_held sv then (sv, None)
  else
    let dead c := from_option is_closed false (sv_store sv !! c) in
    (mkServer (sv_running sv) (filter (fun c => dead c = false) (sv_connections sv))
       (fold_left (fun st c => alter (fun conn => (conn_shutdown closed false conn).1) c st)
          (filter (fun c => dead c = true) (sv_connections sv)) (sv_store sv)) false, Some tt).
End server.

(** [String::as_bytes], and the string of bytes that are valid text. *)
Definition bytes_of_text (t : Text) : list u8 := map (fun c => Z.of_N (Ascii.N_of_ascii c)) t.
Definition text_of_bytes (bs : list u8) : Text := map (fun b => Ascii.ascii_of_N (Z.to_N b)) bs.

(** [ControllerAuthenticator]: the controller's map of the nodes' tokens. *)
Definition validate_token (node_token : gmap Uuid Text) (node_id : Uuid) (req_token : Text) : bool :=
  match node_token !! node_id with
  | Some token => bool_decide (token = req_token)
  | None => false
  end.

Definition controller_authenticate (node_token : gmap Uuid Text) (stream : list u8) (conn_id : Uuid)
    : result ProtocolError (bool * list u8) :=
  match read_exact 64 stream with
  | None => Err PAuthenticationFailed
  | Some (token_buffer, stream) =>
      Ok (validate_token node_token conn_id (text_of_bytes (from_utf8_lossy token_buffer)), stream)
  end.

(** ** The client *)
(** What [create_connection] writes before any packet. *)
Definition client_hello (microservice_id : Uuid) (token : option Text) : list u8 :=
  uuid_bytes microservice_id ++ from_option bytes_of_text [] token.

(** The connection and the number of reconnects, behind a lock. *)
Record MGPPClient : Type := mkClient {
  cl_connection : ProtocolConnection;
  cl_reconnects : nat;
  cl_held : bool
}.

Definition client_write_packet (closed : bool) (p : MGPPPacket) (cl : MGPPClient)
    : MGPPClient * option (result ProtocolError unit) :=
  if cl_held cl then (cl, None)
  else
    let '(c, r) := conn_write closed (mgpp_bytes p) (cl_connection cl) in
    (mkClient c (cl_reconnects cl) (match r with None => true | Some _ => false end), r).

Definition client_shutdown (closed : bool) (cl : MGPPClient) : MGPPClient * option (result ProtocolError unit) :=
  if cl_held cl then (cl, None)
  else
    let '(c, r) := conn_shutdown closed false (cl_connection cl) in
    (mkClient c (cl_reconnects cl) (match r with None => true | Some _ => false end), r).

(** [ApplicationPauseHandle] *)
Class PauseHandle (A : Type) := { app_pause : A -> A; app_resume : A -> A }.

(** An attempt to reconnect: whether the client was dropped before it, the connection it made,
    and whether the client was dropped by then. *)
Record Attempt : Type := mkAttempt {
  at_dropped : bool;
  at_connection : option ProtocolConnection;
  at_dropped_after : bool
}.

Inductive WatchEnd : Type := Reconnected | ClientDropped | WatchHangs | StillTrying.

(** The inner loop of [set_up_auto_reconnect], after a notification. *)
Fixpoint reconnect {A} `{PauseHandle A} (attempts : list Attempt) (cl : MGPPClient) (app : A)
    : MGPPClient * A * WatchEnd :=
  match attempts with
  | [] => (cl, app, StillTrying)
  | a :: attempts =>
      let app := app_pause app in
      if at_dropped a then (cl, app, ClientDropped)
      else
        match at_connection a with
        | None => reconnect attempts cl app
        | Some new_connection =>
            if at_dropped_after a then (cl, app, ClientDropped)
            else if cl_held cl then (cl, app, WatchHangs)
            else (mkClient new_connection (S (cl_reconnects cl)) false, app_resume app, Reconnected)
        end
  end.

(** [AppState] of a node with the parts that pausing touches: whether its HTTP server accepts
    connections, its ledger, and its cache of checked tokens with the session. *)
Record NodeApp (M C D : Type) : Type := mkNodeApp {
  na_accepting : bool;
  na_ledger : Ledger M;
  na_auth : Node C D
}.
Arguments mkNodeApp {M C D}.
Arguments na_accepting {M C D}.
Arguments na_ledger {M C D}.
Arguments na_auth {M C D}.

Definition node_pause {M C D} `{NonceCache C} (a : NodeApp M C D) : NodeApp M C D :=
  mkNodeApp false (pause (na_ledger a)) (clear_caches (na_auth a)).

Definition node_resume {M C D} `{NonceCache C} (a : NodeApp M C D) : NodeApp M C D :=
  mkNodeApp true (resume (na_ledger a)) (clear_caches (na_auth a)).

#[global] Instance node_pause_handle {M C D} `{NonceCache C} : PauseHandle (NodeApp M C D) :=
  { app_pause := node_pause; app_resume := node_resume }.

(** The reader of a node: its connection and its cache. *)
Definition node_reader {C D} `{NonceCache C} (from_slice : list u8 -> option ClaimKey)
    : Reader (ProtocolConnection * Node C D) :=
  mkReader fst (fun f s => (f s.1, s.2))
    (mgpp_dispatch (fun p s => ((s.1, handle_invalidate from_slice p s.2), Some tt))).

(** ** Packets on a stream *)
Definition wf_mgpp (p : MGPPPacket) : Prop :=
  let '(InvalidateCache cache_id cache_key) := p in
  in_width 32 cache_id /\ is_bytes cache_key /\ 4 + Z.of_nat (length cache_key) < 2 ^ 32.

Lemma wf_mgpp_packet p : wf_mgpp p -> wf_packet mgpp_layout (mgpp_packet p).
Proof.
  destruct p as [id key]. intros (Hid & Hkey & Hlen). exists [FUnsigned 4; FVec].
  split; [done|]. split; [|split; [by repeat constructor; cbn; lia|]].
  - repeat constructor; cbn; [by apply Hid..|done| |]; unfold in_width; lia.
  - cbn [mgpp_packet snd serialize_steps serialize_field is_nil]. rewrite app_nil_r, length_app, be_encode_length.
    unfold in_width. lia.
Qed.

Lemma parse_mgpp p rest :
  wf_mgpp p -> parse_packet mgpp_layout false true (mgpp_bytes p ++ rest) = Dispatched (mgpp_packet p) rest.
Proof.
  intros Hp. unfold mgpp_bytes. rewrite parse_serialized by (by apply wf_mgpp_packet). by destruct p.
Qed.

(** A reader whose handler goes through takes in all packets, one after the other. *)
Lemma read_loop_packets {S} (rd : Reader S) (I : S -> Prop) (step : MGPPPacket -> S -> S) ps fuel rest :
  (forall s, I s -> pc_is_closing (rd_connection rd s) = false /\ pc_read_cancelled (rd_connection rd s) = false) ->
  (forall p s, wf_mgpp p -> I s ->
     rd_handle rd (mgpp_packet p) s = (step p s, Some (Ok tt)) /\ I (step p s)) ->
  Forall wf_mgpp ps -> forall s, I s ->
  read_loop mgpp_layout rd (length ps + fuel) (concat (map mgpp_bytes ps) ++ rest) s
  = read_loop mgpp_layout rd fuel rest (fold_left (fun s p => step p s) ps s)
  /\ I (fold_left (fun s p => step p s) ps s).
Proof.
  intros Hopen Hstep Hps. induction Hps as [|p ps Hp Hps IH]; intros s Hs; [done|].
  cbn [length Nat.add read_loop map concat fold_left]. destruct (Hopen s Hs) as [-> ->].
  rewrite <- app_assoc, parse_mgpp by done. destruct (Hstep p s Hp Hs) as [-> Hs']. by apply IH.
Qed.

(** A reader at the end of its stream closes its connection and notifies its keeper. *)
Lemma read_loop_end {S} (rd : Reader S) fuel s :
  pc_is_closing (rd_connection rd s) = false -> pc_read_cancelled (rd_connection rd s) = false ->
  read_loop mgpp_layout rd (Datatypes.S fuel) [] s = (rd_update rd reader_fail s, ReaderFailed).
Proof. intros Hc Hr. cbn [read_loop]. by rewrite Hc, Hr. Qed.

(** ** Writing to the connections *)
Definition healthy (c : ProtocolConnection) : Prop :=
  ws_open (pc_stream c) = true /\ pc_writer_held c = false /\ pc_is_closing c = false /\ pc_read_cancelled c = false.

(** What a write leaves of a connection that is not broken. *)
Definition deliver (payload : list u8) (c : ProtocolConnection) : ProtocolConnection :=
  if pc_is_closing c then c
  else mkConn (mkWriteStream (ws_sent (pc_stream c) ++ payload) true) false false (pc_read_cancelled c) (pc_notified c).

Lemma conn_write_healthy closed payload c :
  healthy c -> conn_write closed payload c = (deliver payload c, Some (Ok tt)).
Proof. intros (Ho & Hh & Hc & Hr). unfold conn_write, deliver, write_all. by rewrite Hc, Hh, Ho. Qed.

Lemma conn_write_closing closed payload c :
  pc_is_closing c = true -> conn_write closed payload c = (deliver payload c, Some (Err PShuttingDown)).
Proof. intros Hc. unfold conn_write, deliver. by rewrite Hc. Qed.

Lemma deliver_healthy payload c : healthy c -> healthy (deliver payload c).
Proof. intros (Ho & Hh & Hc & Hr). unfold deliver. rewrite Hc. done. Qed.

Lemma deliver_closing payload c : pc_is_closing (deliver payload c) = pc_is_closing c.
Proof. unfold deliver. by destruct (pc_is_closing c) eqn:E. Qed.

(** Connections are working or known to be closing. *)
Definition settled (sv : MGPPServer) (c : nat) : Prop :=
  exists conn, sv_store sv !! c = Some conn /\ (healthy conn \/ pc_is_closing conn = true).

Definition deliver_all (payload : list u8) (cs : list nat) (st : gmap nat ProtocolConnection)
    : gmap nat ProtocolConnection :=
  fold_left (fun st c => alter (deliver payload) c st) cs st.

Lemma settled_deliver payload c c' sv :
  settled sv c' -> settled (set_store (alter (deliver payload) c) sv) c'.
Proof.
  intros (conn & Hc & Hs). destruct (decide (c = c')) as [->|Hne].
  - exists (deliver payload conn). cbn. rewrite lookup_alter_eq, Hc. split; [done|].
    rewrite deliver_closing. destruct Hs; [left; by apply deliver_healthy|by right].
  - exists conn. cbn. by rewrite lookup_alter_ne.
Qed.

Lemma write_each_app closed payload pre post : forall sv,
  Forall (settled sv) pre ->
  write_each closed false payload (pre ++ post) sv
  = write_each closed false payload post (set_store (deliver_all payload pre) sv).
Proof.
  induction pre as [|c pre IH]; intros sv Hall; [by destruct sv|].
  inversion Hall as [|? ? (conn & Hc & Hs) Hcs]; subst. cbn [app write_each deliver_all fold_left]. rewrite Hc.
  assert (Hrest : write_each closed false payload (pre ++ post) (set_store <[c := deliver payload conn]> sv)
    = write_each closed false payload post
        (set_store (fun st => deliver_all payload pre (alter (deliver payload) c st)) sv)).
  { unfold set_store at 1. rewrite (insert_alter (deliver payload) _ _ _ Hc).
    fold (set_store (alter (deliver payload) c) sv). rewrite IH; [done|].
    eapply Forall_impl; [exact Hcs|]. intros c' Hc'. by apply settled_deliver. }
  destruct Hs as [Hh|Hcl].
  - rewrite conn_write_healthy by done. exact Hrest.
  - rewrite conn_write_closing by done. exact Hrest.
Qed.

Lemma write_each_settled closed payload cs sv :
  Forall (settled sv) cs ->
  write_each closed false payload cs sv = (set_store (deliver_all payload cs) sv, Some (Ok tt)).
Proof. intros Hall. by rewrite <- (app_nil_r cs) at 1; rewrite write_each_app. Qed.

Lemma deliver_all_lookup payload cs st c :
  NoDup cs -> deliver_all payload cs st !! c = if decide (c ∈ cs) then deliver payload <$> st !! c else st !! c.
Proof.
  intros Hnd. revert st. induction Hnd as [|x cs Hx Hnd IH]; intros st; [done|].
  cbn [deliver_all fold_left]. change (fold_left _ cs ?m) with (deliver_all payload cs m). rewrite IH.
  destruct (decide (x = c)) as [->|Hne].
  - rewrite decide_False by done. rewrite decide_True by (by left). by rewrite lookup_alter_eq.
  - rewrite lookup_alter_ne by done. destruct (decide (c ∈ cs)) as [Hc|Hc].
    + by rewrite decide_True by (by right).
    + rewrite decide_False; [done|]. intros [->|?]%elem_of_cons; done.
Qed.

Lemma deliver_many ps : forall c,
  healthy c ->
  let c' := fold_left (fun c p => deliver (mgpp_bytes p) c) ps c in
  healthy c' /\ ws_sent (pc_stream c') = ws_sent (pc_stream c) ++ concat (map mgpp_bytes ps).
Proof.
  induction ps as [|p ps IH]; intros c Hc; cbn [fold_left map concat]; [by rewrite app_nil_r|].
  destruct (IH (deliver (mgpp_bytes p) c) (deliver_healthy _ _ Hc)) as [Hh Hs]. split; [done|].
  rewrite Hs. destruct Hc as (_ & _ & Hcl & _). unfold deliver. rewrite Hcl. cbn [pc_stream ws_sent]. by rewrite app_assoc.
Qed.

(** A packet at the server goes to all its connections. *)
Definition spread (p : MGPPPacket) (sv : MGPPServer) : MGPPServer :=
  set_store (deliver_all (mgpp_bytes p) (sv_connections sv)) sv.

(** The server as the reader of connection [k] finds it. *)
Definition server_ready (k : nat) (sv : MGPPServer) : Prop :=
  sv_held sv = false /\ NoDup (sv_connections sv) /\ Forall (settled sv) (sv_connections sv)
  /\ exists conn, sv_store sv !! k = Some conn /\ healthy conn.

Lemma spread_ready k p sv : server_ready k sv -> server_ready k (spread p sv).
Proof.
  intros (Hh & Hnd & Hs & conn & Hk & Hc). split; [done|]. split; [done|]. split.
  - eapply Forall_impl; [exact Hs|]. intros c (conn' & Hc' & Hset). unfold settled, spread. cbn.
    rewrite deliver_all_lookup, Hc' by done. case_decide; [|by exists conn'].
    exists (deliver (mgpp_bytes p) conn'). split; [done|]. rewrite deliver_closing.
    destruct Hset; [left; by apply deliver_healthy|by right].
  - unfold spread. cbn. rewrite deliver_all_lookup, Hk by done. case_decide; [|by exists conn].
    eexists. split; [done|]. by apply deliver_healthy.
Qed.

Lemma server_invalidate_ready closed k p sv :
  server_ready k sv -> server_invalidate closed p sv = (spread p sv, Some tt).
Proof.
  intros (Hh & _ & Hs & _). unfold server_invalidate. by rewrite Hh, write_each_settled.
Qed.

Lemma spread_many ps c : forall sv,
  NoDup (sv_connections sv) -> c ∈ sv_connections sv ->
  sv_store (fold_left (fun sv p => spread p sv) ps sv) !! c
  = (fun conn => fold_left (fun conn p => deliver (mgpp_bytes p) conn) ps conn) <$> sv_store sv !! c
  /\ sv_connections (fold_left (fun sv p => spread p sv) ps sv) = sv_connections sv.
Proof.
  induction ps as [|p ps IH]; intros sv Hnd Hc; cbn [fold_left]; [by rewrite option_fmap_id|].
  destruct (IH (spread p sv) Hnd Hc) as [-> ->]. split; [|done].
  unfold spread. cbn. rewrite deliver_all_lookup, decide_True by done. by destruct (sv_store sv !! c).
Qed.

(** What the reader of connection [k] does with the packets that arrive on it. *)
Lemma run_server_reader closed k ps fuel rest sv :
  Forall wf_mgpp ps -> server_ready k sv ->
  read_loop mgpp_layout (server_reader closed k) (length ps + fuel) (concat (map mgpp_bytes ps) ++ rest) sv
  = read_loop mgpp_layout (server_reader closed k) fuel rest (fold_left (fun sv p => spread p sv) ps sv)
  /\ server_ready k (fold_left (fun sv p => spread p sv) ps sv).
Proof.
  intros Hps Hr. apply read_loop_packets; [| |done|done].
  - intros s (_ & _ & _ & conn & Hk & Hh). unfold server_reader. cbn. rewrite Hk. cbn.
    by destruct Hh as (_ & _ & -> & ->).
  - intros p s Hp Hs. split; [|by apply spread_ready].
    destruct p as [id key]. cbn [rd_handle server_reader mgpp_packet mgpp_dispatch].
    by rewrite (server_invalidate_ready closed k _ s Hs).
Qed.

(** What the reader of a node does with them. *)
Lemma run_node_reader {C D} `{NonceCache C} from_slice ps fuel rest nc (n : Node C D) :
  Forall wf_mgpp ps -> pc_is_closing nc = false -> pc_read_cancelled nc = false ->
  read_loop mgpp_layout (node_reader from_slice) (length ps + fuel) (concat (map mgpp_bytes ps) ++ rest) (nc, n)
  = read_loop mgpp_layout (node_reader from_slice) fuel rest
      (nc, fold_left (fun n p => handle_invalidate from_slice p n) ps n).
Proof.
  intros Hps Hc Hr.
  destruct (read_loop_packets (node_reader (C := C) (D := D) from_slice) (fun s => s.1 = nc)
    (fun p s => (s.1, handle_invalidate from_slice p s.2)) ps fuel rest) with (s := (nc, n)) as [-> _]; [| |done|done|].
  - intros [c n'] Hs. cbn in Hs. by subst c.
  - intros [id key] [c n'] Hp Hs. done.
  - f_equal. clear. revert n. induction ps as [|p ps IH]; intros n; [done|]. apply IH.
Qed.

(** Packets a client writes one after the other, as long as it succeeds. *)
Fixpoint client_write_all (closed : bool) (ps : list MGPPPacket) (cl : MGPPClient) : option MGPPClient :=
  match ps with
  | [] => Some cl
  | p :: ps =>
      match client_write_packet closed p cl with
      | (cl, Some (Ok _)) => client_write_all closed ps cl
      | _ => None
      end
  end.

Lemma run_client_writes closed ps : forall cl,
  cl_held cl = false -> healthy (cl_connection cl) ->
  exists cl', client_write_all closed ps cl = Some cl'
    /\ ws_sent (pc_stream (cl_connection cl'))
       = ws_sent (pc_stream (cl_connection cl)) ++ concat (map mgpp_bytes ps).
Proof.
  induction ps as [|p ps IH]; intros cl Hh Hc; [exists cl; by rewrite app_nil_r|].
  cbn [client_write_all map concat]. unfold client_write_packet. rewrite Hh, conn_write_healthy by done.
  destruct (IH (mkClient (deliver (mgpp_bytes p) (cl_connection cl)) (cl_reconnects cl) false)) as (cl' & -> & Hs);
    [done|by apply deliver_healthy|].
  exists cl'. split; [done|]. rewrite Hs. cbn [cl_connection].
  destruct Hc as (_ & _ & Hcl & _). unfold deliver. rewrite Hcl. cbn [pc_stream ws_sent]. by rewrite app_assoc.
Qed.

Lemma spread_connections ps : forall sv,
  sv_connections (fold_left (fun sv p => spread p sv) ps sv) = sv_connections sv.
Proof. induction ps as [|p ps IH]; intros sv; [done|]. cbn [fold_left]. by rewrite IH. Qed.

(** What arrives at the nodes after the reader of connection [k] took in packets. *)
Lemma run_spread {C D} `{NonceCache C} from_slice closed k ps sv :
  Forall wf_mgpp ps -> server_ready k sv ->
  exists sv', read_loop mgpp_layout (server_reader closed k) (S (length ps)) (concat (map mgpp_bytes ps)) sv
      = (sv', ReaderFailed)
    /\ sv_held sv' = false /\ sv_connections sv' = sv_connections sv
    /\ forall c conn, c ∈ sv_connections sv -> sv_store sv !! c = Some conn -> healthy conn ->
       exists conn', sv_store sv' !! c = Some conn'
         /\ forall nc (n : Node C D), pc_is_closing nc = false -> pc_read_cancelled nc = false ->
            read_loop mgpp_layout (node_reader from_slice) (S (length ps))
              (drop (length (ws_sent (pc_stream conn))) (ws_sent (pc_stream conn'))) (nc, n)
            = ((reader_fail nc, fold_left (fun n p => handle_invalidate from_slice p n) ps n), ReaderFailed).
Proof.
  intros Hps Hr. destruct (run_server_reader closed k ps 1 [] sv Hps Hr) as [E Hr'].
  rewrite app_nil_r, Nat.add_comm in E. cbn [Nat.add] in E.
  destruct Hr as (_ & Hnd & _ & _). destruct Hr' as (Hh & _ & _ & kc & Hk & Ho & _ & Hcl & Hca).
  rewrite read_loop_end in E; [| unfold server_reader; cbn; rewrite Hk; done..].
  eexists. split; [exact E|]. split; [done|]. split; [apply spread_connections|].
  intros c conn Hc Hconn Hhc. destruct (spread_many ps c sv Hnd Hc) as [Hl _]. rewrite Hconn in Hl. cbn in Hl.
  destruct (deliver_many ps conn Hhc) as [_ Hsent].
  cbn [rd_update server_reader set_store sv_store].
  assert (Hsame : exists conn', alter reader_fail k (sv_store (fold_left (fun sv p => spread p sv) ps sv)) !! c = Some conn'
    /\ ws_sent (pc_stream conn') = ws_sent (pc_stream conn) ++ concat (map mgpp_bytes ps)).
  { destruct (decide (k = c)) as [->|Hne].
    - rewrite lookup_alter_eq, Hl. by eexists.
    - rewrite lookup_alter_ne, Hl by done. by eexists. }
  destruct Hsame as (conn' & Hc' & Hs'). exists conn'. split; [done|]. intros nc n Hnc Hnr.
  rewrite Hs', drop_app_length. pose proof (run_node_reader from_slice ps 1 [] nc n Hps Hnc Hnr) as En.
  rewrite app_nil_r, Nat.add_comm in En. cbn [Nat.add] in En. rewrite En. by apply read_loop_end.
Qed.


(** ** A broken connection *)
(** The operations of the server that need the list of its connections. *)
Inductive ServerOp : Type :=
| OpInvalidate (p : MGPPPacket)
| OpBroadcast (p : MGPPPacket)
| OpAccept (authenticator : option (list u8 -> Uuid -> result ProtocolError (bool * list u8))) (e : Arrival)
| OpSweep.

Definition run_op (closed : bool) (op : ServerOp) (sv : MGPPServer) : MGPPServer :=
  match op with
  | OpInvalidate p => (server_invalidate closed p sv).1
  | OpBroadcast p => (broadcast_packet closed p sv).1
  | OpAccept authenticator e => (accept_round closed authenticator e sv).1
  | OpSweep => (sweep_closed closed sv).1
  end.

(** Once the list stays locked, nothing changes any connection again. *)
Lemma held_op closed op sv :
  sv_held sv = true ->
  sv_held (run_op closed op sv) = true /\ sv_store (run_op closed op sv) = sv_store sv
  /\ sv_connections (run_op closed op sv) = sv_connections sv.
Proof.
  intros Hh. destruct op as [p|p|auth e|]; cbn [run_op].
  - unfold server_invalidate. by rewrite Hh.
  - unfold broadcast_packet. by rewrite Hh.
  - unfold accept_round. destruct (sv_running sv); [|done].
    unfold accept_connection. rewrite Hh. repeat case_match; simplify_eq; cbn in *; rewrite ?Hh in *; simplify_eq; done.
  - unfold sweep_closed. by rewrite Hh.
Qed.

Lemma held_ops closed ops : forall sv,
  sv_held sv = true ->
  sv_store (fold_left (fun sv op => run_op closed op sv) ops sv) = sv_store sv
  /\ sv_connections (fold_left (fun sv op => run_op closed op sv) ops sv) = sv_connections sv.
Proof.
  induction ops as [|op ops IH]; intros sv Hh; [done|]. cbn [fold_left].
  destruct (held_op closed op sv Hh) as (Hh' & Hs & Hc). destruct (IH _ Hh') as [-> ->]. done.
Qed.

Lemma deliver_all_unlisted payload cs st c : c ∉ cs -> deliver_all payload cs st !! c = st !! c.
Proof.
  revert st. induction cs as [|x cs IH]; intros st Hc; [done|]. apply not_elem_of_cons in Hc as [Hne Hc].
  cbn [deliver_all fold_left]. change (fold_left _ cs ?m) with (deliver_all payload cs m).
  by rewrite IH, lookup_alter_ne.
Qed.

Lemma write_each_broken closed payload pre c post sv conn :
  Forall (settled sv) pre -> c ∉ pre -> sv_store sv !! c = Some conn ->
  pc_is_closing conn = false -> pc_writer_held conn = false -> ws_open (pc_stream conn) = false ->
  exists conn', write_each closed false payload (pre ++ c :: post) sv
    = (hold (set_store (fun st => <[c := conn']> (deliver_all payload pre st)) sv), None).
Proof.
  intros Hpre Hc Hconn Hcl Hh Ho. rewrite write_each_app by done. cbn [write_each set_store sv_store].
  rewrite deliver_all_unlisted, Hconn by done.
  unfold conn_write, write_all. rewrite Hcl, Hh, Ho. by eexists.
Qed.

(** One broken connection stops all invalidations.  If a stream in the list of connections
    is broken and its reader has not noticed yet, the next invalidation never returns: the
    failed write waits for the writer's lock that it holds itself, with the list of
    connections locked.  The connections after the broken one get neither this packet nor,
    whatever else happens at the server, any later one. *)
Theorem broken_connection_blocks_server closed p pre c post sv conn :
  sv_held sv = false -> sv_connections sv = pre ++ c :: post -> NoDup (sv_connections sv) ->
  Forall (settled sv) pre -> sv_store sv !! c = Some conn ->
  pc_is_closing conn = false -> pc_writer_held conn = false -> ws_open (pc_stream conn) = false ->
  exists sv', server_invalidate closed p sv = (sv', None)
    /\ forall ops x, x ∈ post ->
       sv_store (fold_left (fun sv op => run_op closed op sv) ops sv') !! x = sv_store sv !! x.
Proof.
  intros Hheld Hlist Hnd Hpre Hconn Hcl Hh Ho.
  rewrite Hlist in Hnd. apply NoDup_app in Hnd as (_ & Hdis & Hnd2).
  assert (Hc : c ∉ pre) by (intros Hin; apply (Hdis c Hin); by left).
  destruct (write_each_broken closed (mgpp_bytes p) pre c post sv conn Hpre Hc Hconn Hcl Hh Ho) as [conn' E].
  unfold server_invalidate. rewrite Hheld, Hlist, E. eexists. split; [done|]. intros ops x Hx.
  edestruct (held_ops closed ops) as [-> _]; [done|]. cbn [hold set_store sv_store].
  assert (Hxc : c <> x) by (intros ->; by apply NoDup_cons in Hnd2 as [? _]).
  rewrite lookup_insert_ne by done. apply deliver_all_unlisted. intros Hin. apply (Hdis x Hin). by right.
Qed.

(** ** Deletion of a token, from the dashboard to the nodes *)
Section deletion.
  Context {C D : Type} `{NonceCacheLaws C} `{ReliableDatabase D}.
  Variable to_vec : ClaimKey -> list u8.
  Variable from_slice : list u8 -> option ClaimKey.

End deletion.

(** ** Any input *)
Lemma parse_shorter proto cancelled writer stream packet rest :
  parse_packet proto cancelled writer stream = Dispatched packet rest
  \/ parse_packet proto cancelled writer stream = Ignored rest -> (length rest < length stream)%nat.
Proof.
  unfold parse_packet. intros Hp. destruct cancelled; [destruct Hp; discriminate|].
  unfold read_exact in Hp. case_decide as Hh; [|destruct Hp; discriminate].
  destruct (variant_of_u8 _ _); [|destruct Hp; discriminate].
  destruct (validate_length _ _); [|destruct Hp; discriminate].
  case_decide as Hl; [|destruct Hp; discriminate].
  assert (E : rest = drop (Z.to_nat (be_decode (slice 1 5 (take PROTOCOL_HEADER_SIZE stream)))) (drop PROTOCOL_HEADER_SIZE stream)).
  { destruct writer; [destruct (deserialize_steps _ _ _ _ _)|]; destruct Hp as [Hp|Hp]; by inversion Hp. }
  rewrite E, !length_drop. unfold PROTOCOL_HEADER_SIZE in *. lia.
Qed.

Lemma parse_rest_bytes proto cancelled writer stream packet rest :
  is_bytes stream -> parse_packet proto cancelled writer stream = Dispatched packet rest -> is_bytes rest.
Proof.
  intros Hb. unfold parse_packet, read_exact. intros Hp. repeat case_match; simplify_eq; by apply Forall_drop, Forall_drop.
Qed.

Lemma parse_not_ignored proto cancelled stream rest : parse_packet proto cancelled true stream <> Ignored rest.
Proof. unfold parse_packet. repeat case_match; congruence. Qed.

(** A reader of a node survives any input.  Whatever bytes the controller, or whoever is
    on its connection, sends, the reader neither panics nor stops short: it ends with the
    stream or at the first malformed packet, closes the connection and wakes the task that
    reconnects. *)
Theorem node_reader_total {C D} `{NonceCache C} from_slice fuel stream nc (n : Node C D) :
  is_bytes stream -> pc_is_closing nc = false -> pc_read_cancelled nc = false -> (length stream < fuel)%nat ->
  exists n', read_loop mgpp_layout (node_reader from_slice) fuel stream (nc, n) = ((reader_fail nc, n'), ReaderFailed).
Proof.
  intros Hb Hc Hr. revert stream Hb n. induction fuel as [|fuel IH]; intros stream Hb n Hf; [lia|].
  cbn [read_loop rd_connection node_reader fst]. rewrite Hc, Hr.
  destruct (parse_packet mgpp_layout false true stream) as [packet rest|rest|e|] eqn:E.
  - pose proof (parse_shorter _ _ _ _ _ _ (or_introl E)) as Hl. pose proof (parse_rest_bytes _ _ _ _ _ _ Hb E) as Hbr.
    assert (Hh : exists n1, rd_handle (node_reader from_slice) packet (nc, n) = ((nc, n1), Some (Ok tt))).
    { cbn [rd_handle node_reader]. unfold mgpp_dispatch. repeat case_match; simplify_eq/=; by eexists. }
    destruct Hh as [n1 ->]. apply IH; [done|lia].
  - by apply parse_not_ignored in E.
  - by exists n.
  - exfalso. revert E. apply parse_no_panic; [done|]. by repeat constructor.
Qed.

(** ** Connecting to the controller *)
Lemma bytes_text_roundtrip t : text_of_bytes (bytes_of_text t) = t.
Proof.
  unfold text_of_bytes, bytes_of_text. rewrite map_map. rewrite <- (map_id t) at 2. apply map_ext.
  intros c. by rewrite N2Z.id, Ascii.ascii_N_embedding.
Qed.

Lemma text_bytes_roundtrip bs : is_bytes bs -> bytes_of_text (text_of_bytes bs) = bs.
Proof.
  intros Hb. unfold text_of_bytes, bytes_of_text. rewrite map_map. rewrite <- (map_id bs) at 2.
  apply map_ext_in. intros b Hin. apply list_elem_of_In in Hin.
  pose proof (proj1 (Forall_forall _ _) Hb b Hin) as Hw. unfold in_width in Hw. change (2 ^ 8) with 256 in Hw.
  rewrite Ascii.N_ascii_embedding by lia. lia.
Qed.

(** Tokens of the controller are 64 letters and digits. *)
Definition wf_token (t : Text) : Prop := length t = 64%nat /\ ascii_bytes (bytes_of_text t).

Lemma lossy_bytes fuel : forall bs, is_bytes bs -> is_bytes (lossy fuel bs).
Proof.
  induction fuel as [|fuel IH]; intros bs Hb; [constructor|]. destruct bs as [|b bs]; [constructor|].
  cbn [lossy]. destruct (utf8_next (b :: bs)) as [n valid]. apply Forall_app. split.
  - destruct valid; [by apply Forall_take|]. repeat constructor; cbn; lia.
  - apply IH. by apply Forall_drop.
Qed.

(** A token is accepted only as the very bytes of the one on record. *)
Lemma validate_token_bytes node_token id token buffer :
  is_bytes buffer -> node_token !! id = Some token -> wf_token token ->
  validate_token node_token id (text_of_bytes (from_utf8_lossy buffer)) = true <-> buffer = bytes_of_text token.
Proof.
  intros Hb Ht [_ Ha]. unfold validate_token. rewrite Ht, bool_decide_eq_true. split.
  - intros E. apply from_utf8_lossy_inv; [done|]. rewrite E, text_bytes_roundtrip; [done|]. by apply lossy_bytes.
  - intros ->. by rewrite from_utf8_lossy_ascii, bytes_text_roundtrip.
Qed.

(** C39: who may connect to the controller.  With tokens of 64 letters and digits on record, a
    stream becomes a connection of the server exactly if it starts with what a client writes
    that has the id of a node and the token the controller issued to it last; what follows is
    left to the reader of the connection.  Everyone else is refused, and nothing changes. *)
Theorem controller_accepts_exactly node_token bytes c sv :
  is_bytes bytes -> sv_held sv = false -> (forall id t, node_token !! id = Some t -> wf_token t) ->
  (forall rest, (exists sv', accept_connection (Some (controller_authenticate node_token)) (Connected bytes c) sv
       = (sv', Some (Ok rest)))
     <-> exists id token, in_width 128 id /\ node_token !! id = Some token
         /\ bytes = client_hello id (Some token) ++ rest)
  /\ forall sv' e, accept_connection (Some (controller_authenticate node_token)) (Connected bytes c) sv
       = (sv', Some (Err e)) -> sv' = sv.
Proof.
  intros Hb Hh Htok. unfold accept_connection, controller_authenticate, client_hello. split.
  2: { intros sv' e. repeat case_match; intros E; simplify_eq; done. }
  intros rest. split.
  - intros [sv' E]. destruct (read_exact 16 bytes) as [[header stream]|] eqn:Eh; [|done].
    destruct (read_exact 64 stream) as [[buffer stream']|] eqn:Et; [|done].
    apply read_exact_Some in Eh as [-> Hlh], Et as [-> Hlt].
    apply Forall_app in Hb as [Hbh [Hbt Hbr]%Forall_app].
    destruct (validate_token _ _ _) eqn:Ev; [|done]. rewrite Hh in E. injection E as _ <-.
    destruct (node_token !! be_decode header) as [token|] eqn:En; [|by unfold validate_token in Ev; rewrite En in Ev].
    exists (be_decode header), token. pose proof (be_decode_range header Hbh) as Hrange.
    rewrite Hlh in Hrange. split; [exact Hrange|]. split; [done|]. cbn [from_option].
    unfold uuid_bytes. rewrite <- Hlh, be_encode_decode by done. rewrite <- app_assoc.
    apply (validate_token_bytes node_token (be_decode header) token buffer) in Ev as <-; [done|done|done|by eapply Htok].
  - intros (id & token & Hid & Hn & ->). pose proof (Htok id token Hn) as Hw. cbn [from_option] in *.
    rewrite <- app_assoc in *. apply Forall_app in Hb as [_ [Hbt _]%Forall_app].
    assert (Hl : length (bytes_of_text token) = 64%nat) by (unfold bytes_of_text; rewrite length_map; apply Hw).
    rewrite (read_exact_app 16 (uuid_bytes id)) by apply be_encode_length.
    rewrite (read_exact_app 64 (bytes_of_text token)) by done. rewrite uuid_bytes_roundtrip by done.
    rewrite (proj2 (validate_token_bytes node_token id token _ Hbt Hn Hw) eq_refl), Hh. by eexists.
Qed.

(** ** Reconnecting *)
(** What the watchdog leaves of a node: its client connected again and the node serving, or
    the node paused; in both cases its cache is empty. *)
Definition watched {M C D} `{NonceCache C} (attempts : list Attempt) (cl cl' : MGPPClient)
    (app app' : NodeApp M C D) (r : WatchEnd) : Prop :=
  entries (nd_cache (na_auth app')) = ∅ /\ nd_session (na_auth app') = nd_session (na_auth app)
  /\ match r with
     | Reconnected =>
         cl_held cl = false /\ na_accepting app' = true /\ na_ledger app' = resume (pause (na_ledger app))
         /\ exists nc, mkAttempt false (Some nc) false ∈ attempts
            /\ cl' = mkClient nc (S (cl_reconnects cl)) false
     | _ => cl' = cl /\ na_accepting app' = false /\ na_ledger app' = pause (na_ledger app)
     end.

Lemma pause_idem {M} (L : Ledger M) : pause (pause L) = pause L.
Proof. by destruct L. Qed.

(** What the watchdog does after a notification: it keeps the node paused until it is
    connected again, and a node that serves again has forgotten every cached answer, so that
    invalidations it missed do not matter. *)
Lemma reconnect_spec {M C D} `{NonceCacheLaws C} attempts cl (app : NodeApp M C D) cl' app' r :
  attempts <> [] -> reconnect attempts cl app = (cl', app', r) -> watched attempts cl cl' app app' r.
Proof.
  revert app. induction attempts as [|a attempts IH]; intros app Hne E; [done|]. cbn [reconnect] in E.
  assert (Hpause : entries (nd_cache (na_auth (node_pause app))) = ∅) by apply entries_clear.
  destruct a as [dropped conn after]. cbn [at_dropped at_connection at_dropped_after app_pause node_pause_handle] in E.
  destruct dropped; [by simplify_eq|].
  destruct conn as [nc|].
  - destruct after; [by simplify_eq|]. destruct (cl_held cl) eqn:Eh; simplify_eq; [done|].
    split; [apply entries_clear|]. split; [done|]. split; [done|]. split; [done|]. split; [done|].
    exists nc. split; [by left|done].
  - destruct (decide (attempts = [])) as [->|Hne']; [cbn in E; by simplify_eq|].
    destruct (IH (node_pause app) Hne' E) as (He & Hs & Hr). split; [done|]. split; [done|].
    destruct r; cbn [node_pause na_ledger] in Hr; rewrite pause_idem in Hr; try done.
    destruct Hr as (Hh & Ha & Hl & nc' & Hin & Hcl). do 3 (split; [done|]). exists nc'. split; [by right|done].
Qed.

(** A client whose write failed can never connect again: the failed write keeps the lock of
    the connection, and the watchdog waits for it with the node paused. *)
Lemma failed_write_blocks_reconnect {M C D} `{NonceCacheLaws C} closed p cl cl1 r1 attempts (app : NodeApp M C D) cl' app' r :
  cl_held cl = false -> pc_is_closing (cl_connection cl) = false -> pc_writer_held (cl_connection cl) = false ->
  ws_open (pc_stream (cl_connection cl)) = false ->
  client_write_packet closed p cl = (cl1, r1) ->
  reconnect attempts cl1 app = (cl', app', r) -> attempts <> [] ->
  r1 = None /\ r <> Reconnected /\ na_accepting app' = false.
Proof.
  intros Hh Hc Hw Ho Ew Er Hne.
  unfold client_write_packet, conn_write, write_all in Ew. rewrite Hh, Hc, Hw, Ho in Ew. cbn in Ew.
  injection Ew as <- <-. split; [done|].
  destruct (reconnect_spec attempts _ app cl' app' r Hne Er) as (_ & _ & Hr).
  destruct r; [destruct Hr as [Hheld _]; discriminate|..]; destruct Hr as (_ & Ha & _); done.
Qed.

(** [shutdown] never tells the reader: the flag that [close] tests first has just been set, so
    the read is not cancelled and nobody is notified. *)
Lemma shutdown_silent closed notify c :
  pc_notified (conn_shutdown closed notify c).1 = pc_notified c
  /\ pc_read_cancelled (conn_shutdown closed notify c).1 = pc_read_cancelled c
  /\ pc_is_closing (conn_shutdown closed notify c).1 = true.
Proof. unfold conn_shutdown, reader_close. cbn. by destruct (pc_writer_held c). Qed.

(** A broadcast ends at the first connection that is closing; those after it get nothing. *)
Lemma broadcast_stops closed p pre c post sv conn :
  sv_held sv = false -> sv_connections sv = pre ++ c :: post -> c ∉ pre ->
  Forall (fun x => exists conn, sv_store sv !! x = Some conn /\ healthy conn) pre ->
  sv_store sv !! c = Some conn -> pc_is_closing conn = true ->
  exists sv', broadcast_packet closed p sv = (sv', Some (Err MgConnectionError))
    /\ forall x, x ∉ pre -> sv_store sv' !! x = sv_store sv !! x.
Proof.
  intros Hh Hlist Hc Hpre Hconn Hcl. unfold broadcast_packet. rewrite Hh, Hlist. clear Hlist Hh.
  revert sv Hpre Hconn. induction pre as [|y pre IH]; intros sv Hpre Hconn.
  - cbn [app write_each]. rewrite Hconn, conn_write_closing by done. eexists. split; [done|].
    intros x _. cbn [set_store sv_store]. assert (deliver (mgpp_bytes p) conn = conn) as -> by (unfold deliver; by rewrite Hcl).
    by rewrite insert_id.
  - apply not_elem_of_cons in Hc as [Hcy Hc]. inversion Hpre as [|? ? (cy & Hy & Hhy) Hpre']; subst.
    cbn [app write_each]. rewrite Hy, conn_write_healthy by done.
    destruct (IH Hc (set_store <[y := deliver (mgpp_bytes p) cy]> sv)) as (sv' & -> & Hsv').
    + eapply Forall_impl; [exact Hpre'|]. intros x (cx & Hx & Hhx). cbn.
      destruct (decide (x = y)) as [->|Hne].
      * rewrite lookup_insert_eq. eexists. split; [done|]. by apply deliver_healthy.
      * rewrite lookup_insert_ne by done. by exists cx.
    + cbn. by rewrite lookup_insert_ne.
    + eexists. split; [done|]. intros x [Hxy Hx]%not_elem_of_cons. rewrite Hsv' by done. cbn.
      by rewrite lookup_insert_ne.
Qed.

(** ** Witnesses *)
Definition open_conn : ProtocolConnection := conn_new (mkWriteStream [] true).
Definition broken_conn : ProtocolConnection := conn_new (mkWriteStream [] false).
Definition server_of (cs : list ProtocolConnection) : MGPPServer :=
  mkServer true (seq 0 (length cs)) (list_to_map (zip (seq 0 (length cs)) cs)) false.
Definition one_invalidation : list MGPPPacket := [InvalidateCache 0 [1; 2]; InvalidateCache 1 []].

Lemma wf_one_invalidation : Forall wf_mgpp one_invalidation.
Proof. repeat constructor; cbn; try lia; repeat constructor; cbn; lia. Qed.

Lemma two_nodes_ready : server_ready 0 (server_of [open_conn; open_conn]).
Proof.
  split; [reflexivity|]. split; [apply (bool_decide_unpack _); vm_compute; exact I|]. split.
  - repeat constructor; (exists open_conn; split; [reflexivity|left; repeat split]).
  - exists open_conn. split; [reflexivity|repeat split].
Qed.


Lemma broken_connection_blocks_server_witness :
  exists sv', server_invalidate true (InvalidateCache 0 []) (server_of [open_conn; broken_conn; open_conn]) = (sv', None)
    /\ sv_store (run_op true OpSweep sv') !! 2%nat = Some open_conn.
Proof.
  destruct (broken_connection_blocks_server true (InvalidateCache 0 []) [0%nat] 1%nat [2%nat]
    (server_of [open_conn; broken_conn; open_conn]) broken_conn) as (sv' & E & Hall); try reflexivity.
  - apply (bool_decide_unpack _). vm_compute. exact I.
  - repeat constructor. exists open_conn. split; [reflexivity|left; repeat split].
  - exists sv'. split; [exact E|]. exact (Hall [OpSweep] 2%nat ltac:(set_solver)).
Defined.

Lemma node_reader_total_witness :
  exists n', read_loop mgpp_layout (node_reader (C := MapCache) (D := Tables) (fun _ => None)) 10 [1; 0; 0; 255; 9]
    (open_conn, mkAuthNode ∅ tables2) = ((reader_fail open_conn, n'), ReaderFailed).
Proof.
  apply node_reader_total; [|reflexivity|reflexivity|cbn; lia]. repeat constructor; cbn; lia.
Defined.

Definition token64 : Text := replicate 64 (Ascii.ascii_of_N 97).

Lemma controller_accepts_exactly_witness :
  exists sv', accept_connection (Some (controller_authenticate {[ 7 := token64 ]}))
    (Connected (client_hello 7 (Some token64) ++ [1]) 5) (server_of []) = (sv', Some (Ok [1])).
Proof.
  destruct (controller_accepts_exactly {[ 7 := token64 ]} (client_hello 7 (Some token64) ++ [1]) 5 (server_of []))
    as [Hiff _].
  - apply (bool_decide_unpack _). vm_compute. exact I.
  - reflexivity.
  - intros id t [<- <-]%lookup_singleton_Some. split; [reflexivity|].
    apply (bool_decide_unpack _). vm_compute. exact I.
  - apply Hiff. exists 7, token64. split; [split; lia|]. split; reflexivity.
Defined.

