(* ===== verification/Controller.v ===== *)
(** * The controller

    [controller/src] with its maps of nodes and tokens in
    [commons/src/context/controller_request_context.rs]: registration of nodes, their tokens,
    their health and storage, and their removal.

    Drawn ids and tokens and the time are arguments.  The locks on the maps matter only where
    a handler keeps them while it waits for ever for the broadcast of [Mgpp]: from then on
    every handler that needs them waits too. *)
From stdpp Require Import base gmap list strings.
From S2P Require Import Prelude Errors MdsftpWire MetaStore FragmentLedger Paths Permissions Database Directories Dashboard Tokens ProtocolMacro Mgpp.
Open Scope Z_scope.

(** ** Requests and answers *)
Inductive NodeError : Type := NeInternalError | NeBadRequest | NeBadAuth.

Inductive MicroserviceType : Type := StorageNode | DashboardService.

Definition i8_of_MicroserviceType (t : MicroserviceType) : i8 :=
  match t with StorageNode => 1 | DashboardService => 2 end.

Record NodeRegisterRequest : Type := mkRegister { nr_code : Text; nr_service_type : MicroserviceType }.

Record UpdateStorageNodeProperties : Type := mkStorageInfo {
  si_max_space : u64;
  si_used_space : u64;
  si_reserved : u64;
  si_commited : u64;
  si_uncommitted : u64;
  si_paused : bool
}.

Record PeerStorage : Type := mkPeer { pe_storage : u64; pe_addr : Text }.

(** ** Tokens *)
Definition CHARSET : Text :=
  str "abcdefghijklmnopqrstuvwxyzABCDEFGHIJKLMNOPQRSTUVWXYZ0123456789"%string.

(** [draws]: the indices drawn by [gen_range], one per character. *)
Definition controller_token (draws : list nat) : Text := omap (fun index => CHARSET !! index) draws.

(** The regular expression [^[a-zA-Z0-9]{64}$] *)
Definition is_renewal_token_valid (token : Text) : bool :=
  bool_decide (length token = 64%nat) && forallb (fun c => bool_decide (c ∈ CHARSET)) token.

(** ** The controller's state *)
Record NodeHealth : Type := mkHealth { nh_last_beat : Z; nh_info : option UpdateStorageNodeProperties }.

Record RequestContext : Type := mkCtx {
  rc_node_addr : gmap Uuid Text;
  rc_node_token : gmap Uuid Text;
  rc_token_node : gmap Text MicroserviceNode;
  rc_node_health : gmap Uuid NodeHealth;
  rc_nodes : list MicroserviceNode
}.

(** [ct_maps_held]: the locks of [nodes], [token_node] and [node_token] are never released;
    [ct_health_held]: that of [node_health]. *)
Record Controller (D : Type) : Type := mkController {
  ct_session : D;
  ct_ctx : RequestContext;
  ct_mgpp : MGPPServer;
  ct_maps_held : bool;
  ct_health_held : bool
}.
Arguments mkController {D}.
Arguments ct_session {D}.
Arguments ct_ctx {D}.
Arguments ct_mgpp {D}.
Arguments ct_maps_held {D}.
Arguments ct_health_held {D}.

(** How a handler ends without its result: with an answer, or not at all. *)
Inductive Stop (E : Type) : Type := Answered (e : E) | Hangs.
Arguments Answered {E} e.
Arguments Hangs {E}.

Definition with_token (token : option Text) (n : MicroserviceNode) : MicroserviceNode :=
  mkMicroserviceNode (ms_type n) (ms_id n) (ms_max_space n) (ms_used_space n) token
    (ms_access_token_issued_at n) (ms_renewal_token n) (ms_address n) (ms_created n) (ms_register_code n).

(** The maps as [start_controller] fills them from the rows of the database. *)
Definition load_node (ctx : RequestContext) (node : MicroserviceNode) : RequestContext :=
  let addr := <[ms_id node := ms_address node]> (rc_node_addr ctx) in
  match ms_access_token node with
  | Some token =>
      mkCtx addr (<[ms_id node := token]> (rc_node_token ctx)) (<[token := node]> (rc_token_node ctx))
        (rc_node_health ctx) (rc_nodes ctx)
  | None => mkCtx addr (rc_node_token ctx) (rc_token_node ctx) (rc_node_health ctx) (rc_nodes ctx)
  end.

Definition load_context (nodes : list MicroserviceNode) : RequestContext :=
  fold_left load_node nodes (mkCtx ∅ ∅ ∅ ∅ nodes).

Definition remove_node_from_maps (id : Uuid) (ctx : RequestContext) : RequestContext :=
  mkCtx (delete id (rc_node_addr ctx)) (delete id (rc_node_token ctx))
    match rc_node_token ctx !! id with
    | Some token => delete token (rc_token_node ctx)
    | None => rc_token_node ctx
    end (delete id (rc_node_health ctx))
    (filter (fun n => ms_id n <> id) (rc_nodes ctx)).

Section handlers.
  Context {D : Type} `{Database D}.
  (** Whether shutdowns of streams succeed. *)
  Variable closed : bool.

Abbreviation Handler E A := (effect (Controller D) (Stop E) A).

Definition ct_db {E A} (f : MeowithDataError -> E) (m : effect D MeowithDataError A) : Handler E A := fun c =>
  let '(d, r) := m (ct_session c) in
  (mkController d (ct_ctx c) (ct_mgpp c) (ct_maps_held c) (ct_health_held c), map_err (fun e => Answered (f e)) r).

Definition lock_maps {E} : Handler E unit := fun c =>
  if ct_maps_held c then (c, Err Hangs) else (c, Ok tt).
Definition lock_health {E} : Handler E unit := fun c =>
  if ct_health_held c then (c, Err Hangs) else (c, Ok tt).

Definition set_ctx {E} (f : RequestContext -> RequestContext) : Handler E unit := modify (fun c =>
  mkController (ct_session c) (f (ct_ctx c)) (ct_mgpp c) (ct_maps_held c) (ct_health_held c)).

(** [broadcast_packet] of the invalidation of the storage maps; its errors are only logged.
    [held]: the locks the caller has meanwhile. *)
Definition broadcast_storage {E} (maps_held health_held : bool) : Handler E unit := fun c =>
  match broadcast_packet closed (InvalidateCache (u8_of_CacheId NodeStorageMap) []) (ct_mgpp c) with
  | (sv, None) =>
      (mkController (ct_session c) (ct_ctx c) sv (maps_held || ct_maps_held c) (health_held || ct_health_held c), Err Hangs)
  | (sv, Some _) => (mkController (ct_session c) (ct_ctx c) sv (ct_maps_held c) (ct_health_held c), Ok tt)
  end.

Definition internal (_ : MeowithDataError) : NodeError := NeInternalError.

(** ** Discovery *)
(** The code a node registers with; [perform_register_node] up to its first change. *)
Definition usable_code (code : Text) : Handler NodeError ServiceRegisterCode :=
  code ← ct_db (fun e => match e with DataNotFound => NeBadRequest | _ => NeInternalError end)
           (get_service_register_code code);
  if rc_valid code then mret code else throw (Answered NeBadRequest).

(** The rest of it. *)
Definition register_with (code : ServiceRegisterCode) (req : NodeRegisterRequest) (node_addr : Text)
    (id : Uuid) (token : Text) (now : Z) : Handler NodeError Text :=
  let service := mkMicroserviceNode (i8_of_MicroserviceType (nr_service_type req)) id None None None 0
                   token node_addr now (rc_code code) in
  ct_db internal (update_service_register_code (mkRegisterCode (rc_code code) (rc_created code) false));;
  ct_db internal (insert_microservice_node service);;
  lock_maps;;
  set_ctx (fun ctx => mkCtx (rc_node_addr ctx) (rc_node_token ctx) (rc_token_node ctx) (rc_node_health ctx)
                        (rc_nodes ctx ++ [service]));;
  mret token.

Definition perform_register_node (req : NodeRegisterRequest) (node_addr : Text) (id : Uuid) (token : Text) (now : Z)
    : Handler NodeError Text :=
  code ← usable_code (nr_code req); register_with code req node_addr id token now.

Definition perform_token_creation (access_token : Text) (now : Z) (renewal_token : Text)
    : Handler NodeError (Text * Uuid) :=
  lock_maps;;
  nodes ← gets (fun c => rc_nodes (ct_ctx c));
  match list_find (fun n => ms_renewal_token n = renewal_token) nodes with
  | None => throw (Answered NeBadAuth)
  | Some (i, node) =>
      let old_token := ms_access_token node in
      let node := with_token (Some access_token) node in
      set_ctx (fun ctx => mkCtx (rc_node_addr ctx) (rc_node_token ctx) (rc_token_node ctx) (rc_node_health ctx)
                            (<[i := node]> (rc_nodes ctx)));;
      ct_db internal (update_service_access_token node now);;
      set_ctx (fun ctx => mkCtx (rc_node_addr ctx) (<[ms_id node := access_token]> (rc_node_token ctx))
        (<[access_token := node]> match old_token with
                                  | Some token => delete token (rc_token_node ctx)
                                  | None => rc_token_node ctx
                                  end) (rc_node_health ctx) (rc_nodes ctx));;
      broadcast_storage true false;;
      mret (access_token, ms_id node)
  end.

(** [renewal_token]: the header, if there is one, as text if it is text; [sign]: the
    certificate that signing yields. *)
Definition sign_node_csr {Cert} (renewal_token : option (option Text)) (node : MicroserviceNode) (sign : option Cert)
    : result NodeError Cert :=
  match renewal_token with
  | None => Err NeBadAuth
  | Some None => Err NeBadRequest
  | Some (Some token) =>
      if decide (ms_renewal_token node = token) then ok_or sign NeInternalError else Err NeBadAuth
  end.

(** [NodeVerify]: the node whose token is in the header. *)
Definition verify_node (header : option Text) : Handler NodeError MicroserviceNode :=
  match header with
  | None => throw (Answered NeBadAuth)
  | Some token_str =>
      lock_maps;;
      c ← gets (fun c => c);
      of_result (ok_or (rc_token_node (ct_ctx c) !! remove_bearer_prefix token_str) (Answered NeBadAuth))
  end.

Definition validate_peer (node_id : Uuid) (node_token : Text) : Handler NodeError bool :=
  lock_maps;;
  c ← gets (fun c => c);
  mret (validate_token (rc_node_token (ct_ctx c)) node_id node_token).

(** ** Health *)
Definition update_storage_node_properties (node : MicroserviceNode) (info : UpdateStorageNodeProperties) (now : Z)
    : Handler NodeError unit :=
  ct_db internal (update_microservice_node node (si_max_space info) (si_used_space info));;
  lock_health;;
  set_ctx (fun ctx => mkCtx (rc_node_addr ctx) (rc_node_token ctx) (rc_token_node ctx)
    (<[ms_id node := mkHealth now (Some info)]> (rc_node_health ctx)) (rc_nodes ctx));;
  broadcast_storage false true.

Definition microservice_heart_beat (node : MicroserviceNode) (now : Z) : Handler NodeError unit :=
  lock_health;;
  set_ctx (fun ctx => mkCtx (rc_node_addr ctx) (rc_node_token ctx) (rc_token_node ctx)
    (<[ms_id node := mkHealth now (rc_node_health ctx !! ms_id node ≫= nh_info)]> (rc_node_health ctx))
    (rc_nodes ctx)).

(** The storage nodes with the space they reported free. *)
Definition free_storage (ctx : RequestContext) : gmap Uuid PeerStorage :=
  let peers := fold_left (fun peers node =>
    if decide (ms_type node = i8_of_MicroserviceType StorageNode)
    then <[ms_id node := mkPeer 0 (ms_address node)]> peers else peers) (rc_nodes ctx) ∅ in
  map_imap (fun id peer => Some
    match rc_node_health ctx !! id with
    | Some (mkHealth _ (Some info)) => mkPeer (u64_sub (si_max_space info) (si_used_space info)) (pe_addr peer)
    | _ => peer
    end) peers.

Definition fetch_free_storage : Handler NodeError (gmap Uuid PeerStorage) :=
  lock_health;; lock_maps;; gets (fun c => free_storage (ct_ctx c)).

(** ** Management *)
Definition do_create_register_code (code : Text) (now : Z) : Handler NodeClientError Text :=
  ct_db client_of_data (insert_service_register_code (mkRegisterCode code now true));; mret code.

Definition do_delete_register_code (code : Text) : Handler NodeClientError unit :=
  code ← ct_db client_of_data (get_service_register_code code);
  ct_db client_of_data (remove_service_register_code code).

Definition do_list_register_codes : Handler NodeClientError (list ServiceRegisterCode) :=
  ct_db client_of_data get_service_register_codes.

Definition do_delete_node (id : Uuid) (node_type : i8) : Handler NodeClientError unit :=
  node ← ct_db client_of_data (get_microservice_node id node_type);
  ct_db client_of_data (remove_microservice_node node);;
  lock_maps;;
  set_ctx (fun ctx => mkCtx (rc_node_addr ctx) (rc_node_token ctx) (rc_token_node ctx) (rc_node_health ctx)
                        (filter (fun n => ms_id n <> id) (rc_nodes ctx)));;
  lock_health;; set_ctx (remove_node_from_maps id).

(** [start_controller]: the maps are filled from the database, and the server of MGPP is new. *)
Definition restart : effect (Controller D) MeowithDataError unit := fun c =>
  let '(d, r) := get_microservices (ct_session c) in
  match r with
  | Ok nodes => (mkController d (load_context nodes) (mkServer true [] ∅ false) false false, Ok tt)
  | Err e => (mkController d (ct_ctx c) (ct_mgpp c) (ct_maps_held c) (ct_health_held c), Err e)
  end.
End handlers.

(** ** Requests *)
Inductive Request : Type :=
| ReqRegister (req : NodeRegisterRequest) (node_addr : Text) (id : Uuid) (token : Text) (now : Z)
| ReqToken (access_token : Text) (now : Z) (renewal_token : Text)
| ReqStorage (header : option Text) (info : UpdateStorageNodeProperties) (now : Z)
| ReqBeat (header : option Text) (now : Z)
| ReqCreateCode (code : Text) (now : Z)
| ReqDeleteCode (code : Text)
| ReqDeleteNode (id : Uuid) (node_type : i8)
| ReqRestart.

(** What a request did, as far as tokens go. *)
Inductive Answer : Type :=
| Issued (id : Uuid) (token : Text)
| Removed (id : Uuid)
| OtherAnswer
| NoAnswer.

Section requests.
  Context {D : Type} `{Database D}.
  Variable closed : bool.

Definition answer {E A} (f : A -> Answer) (r : result (Stop E) A) : Answer :=
  match r with Ok a => f a | Err (Answered _) => OtherAnswer | Err Hangs => NoAnswer end.

Definition serve (req : Request) (c : Controller D) : Controller D * Answer :=
  match req with
  | ReqRegister req node_addr id token now =>
      let '(c, r) := perform_register_node req node_addr id token now c in (c, answer (fun _ => OtherAnswer) r)
  | ReqToken access_token now renewal_token =>
      let '(c, r) := perform_token_creation closed access_token now renewal_token c in
      (c, answer (fun x => Issued x.2 x.1) r)
  | ReqStorage header info now =>
      let '(c, r) := (node ← verify_node header; update_storage_node_properties closed node info now) c in
      (c, answer (fun _ => OtherAnswer) r)
  | ReqBeat header now =>
      let '(c, r) := (node ← verify_node header; microservice_heart_beat node now) c in
      (c, answer (fun _ => OtherAnswer) r)
  | ReqCreateCode code now =>
      let '(c, r) := do_create_register_code code now c in (c, answer (fun _ => OtherAnswer) r)
  | ReqDeleteCode code =>
      let '(c, r) := do_delete_register_code code c in (c, answer (fun _ => OtherAnswer) r)
  | ReqDeleteNode id node_type =>
      let '(c, r) := do_delete_node id node_type c in (c, answer (fun _ => Removed id) r)
  | ReqRestart => let '(c, r) := restart c in (c, OtherAnswer)
  end.

(** ** The last token of each node *)
Definition record_answer (a : Answer) (issued : gmap Uuid Text) : gmap Uuid Text :=
  match a with
  | Issued id token => <[id := token]> issued
  | Removed id => delete id issued
  | _ => issued
  end.

(** Drawn ids and tokens are not in use. *)
Definition unused (req : Request) (issued : gmap Uuid Text) (c : Controller D) : Prop :=
  match req with
  | ReqRegister _ _ id _ _ => forall t, nodes_table (tables (ct_session c)) !! (t, id) = None
  | ReqToken access_token _ _ => forall id, issued !! id <> Some access_token
  | _ => True
  end.

(** A request that is answered, with the tokens issued so far beside the state. *)
Definition answered_step (s s' : gmap Uuid Text * Controller D) : Prop :=
  exists req a, serve req s.2 = (s'.2, a) /\ a <> NoAnswer /\ unused req s.1 s.2 /\ s'.1 = record_answer a s.1.

(** ** The invariant *)
(** A node in memory and its row agree in what its token depends on. *)
Definition same_node (n row : MicroserviceNode) : Prop :=
  ms_type n = ms_type row /\ ms_id n = ms_id row /\ ms_access_token n = ms_access_token row
  /\ ms_renewal_token n = ms_renewal_token row.

Record nodes_agree (issued : gmap Uuid Text) (nodes : list MicroserviceNode)
    (rows : gmap (i8 * Uuid) MicroserviceNode) : Prop := {
  na_nodup : NoDup (map ms_id nodes);
  na_row : forall n, n ∈ nodes -> exists row, rows !! (ms_type n, ms_id n) = Some row /\ same_node n row;
  na_node : forall k row, rows !! k = Some row -> k = row_key row /\ exists n, n ∈ nodes /\ same_node n row;
  na_issued : forall n, n ∈ nodes -> issued !! ms_id n = ms_access_token n;
  na_live : forall id t, issued !! id = Some t -> exists n, n ∈ nodes /\ ms_id n = id
}.

Record tokens_agree (issued : gmap Uuid Text) (ctx : RequestContext) : Prop := {
  ta_node_token : rc_node_token ctx = issued;
  ta_sound : forall t n, rc_token_node ctx !! t = Some n -> issued !! ms_id n = Some t;
  ta_complete : forall id t, issued !! id = Some t -> exists n, rc_token_node ctx !! t = Some n /\ ms_id n = id
}.

Definition coherent (issued : gmap Uuid Text) (c : Controller D) : Prop :=
  nodes_agree issued (rc_nodes (ct_ctx c)) (nodes_table (tables (ct_session c)))
  /\ tokens_agree issued (ct_ctx c).
End requests.

(** ** Changes of the nodes *)
Section nodes.
  Implicit Types (issued : gmap Uuid Text) (nodes : list MicroserviceNode).
  Implicit Types (rows : gmap (i8 * Uuid) MicroserviceNode) (n row : MicroserviceNode).

Lemma same_node_refl n : same_node n n.
Proof. done. Qed.

Lemma node_by_id nodes n n' :
  NoDup (map ms_id nodes) -> n ∈ nodes -> n' ∈ nodes -> ms_id n = ms_id n' -> n = n'.
Proof.
  intros Hnd Hn Hn' Hid. apply list_elem_of_lookup in Hn as [i Hi], Hn' as [j Hj].
  assert (i = j) as ->; [|congruence].
  apply (NoDup_lookup (map ms_id nodes) i j (ms_id n) Hnd).
  - by rewrite list_lookup_fmap, Hi.
  - rewrite list_lookup_fmap, Hj. cbn. by rewrite Hid.
Qed.

(** A registered node has no token yet. *)
Lemma nodes_agree_add issued nodes rows n :
  nodes_agree issued nodes rows -> (forall t, rows !! (t, ms_id n) = None) -> ms_access_token n = None ->
  nodes_agree issued (nodes ++ [n]) (<[row_key n := n]> rows).
Proof.
  intros [Hnd Hrow Hnode His Hlive] Hfresh Hnone.
  assert (Hnew : forall m, m ∈ nodes -> ms_id m <> ms_id n).
  { intros m Hm E. destruct (Hrow m Hm) as (row & Hr & _). rewrite E, Hfresh in Hr. done. }
  split.
  - rewrite map_app. apply NoDup_app. split; [done|]. split; [|apply NoDup_singleton].
    intros x (m & -> & Hm)%list_elem_of_fmap ?%list_elem_of_singleton. by apply (Hnew m Hm).
  - intros m [Hm| ->%list_elem_of_singleton]%elem_of_app.
    + destruct (Hrow m Hm) as (row & Hr & Hs). exists row. split; [|done].
      rewrite lookup_insert_ne; [done|]. intros [= _ E]. by apply (Hnew m Hm).
    + exists n. split; [by rewrite lookup_insert_eq|done].
  - intros k row [[<- <-]|[Hk Hr]]%lookup_insert_Some.
    + split; [done|]. exists n. split; [apply elem_of_app; right; by left|done].
    + destruct (Hnode k row Hr) as [-> (m & Hm & Hs)]. split; [done|]. exists m.
      split; [apply elem_of_app; by left|done].
  - intros m [Hm| ->%list_elem_of_singleton]%elem_of_app; [by apply His|]. rewrite Hnone.
    destruct (issued !! ms_id n) as [t|] eqn:E; [|done]. destruct (Hlive _ _ E) as (m & Hm & Hid).
    by apply Hnew in Hm.
  - intros id t Ht. destruct (Hlive id t Ht) as (m & Hm & Hid). exists m. split; [apply elem_of_app; by left|done].
Qed.

Lemma nodes_agree_remove issued nodes rows row :
  nodes_agree issued nodes rows -> rows !! row_key row = Some row ->
  nodes_agree (delete (ms_id row) issued) (filter (fun n => ms_id n <> ms_id row) nodes) (delete (row_key row) rows).
Proof.
  intros [Hnd Hrow Hnode His Hlive] Hr.
  assert (Hids : forall k r, rows !! k = Some r -> ms_id r = ms_id row -> k = row_key row).
  { intros k r Hk E. destruct (Hnode k r Hk) as [-> (m & Hm & Ht & Hi & _)].
    destruct (Hnode _ row Hr) as [_ (m' & Hm' & Ht' & Hi' & _)].
    assert (m = m') as -> by (eapply node_by_id; [done|done|done|congruence]). cbn. congruence. }
  split.
  - clear -Hnd. induction nodes as [|n nodes IH]; [constructor|]. apply NoDup_cons in Hnd as [Hn Hnd].
    rewrite filter_cons. case_decide; [|by apply IH]. cbn [map]. apply NoDup_cons. split; [|by apply IH].
    intros (m & E & Hm)%list_elem_of_fmap. apply Hn. rewrite E. apply list_elem_of_fmap_2.
    by apply list_elem_of_filter in Hm as [_ ?].
  - intros n [Hne Hn]%list_elem_of_filter. destruct (Hrow n Hn) as (r & Hr' & Hs). exists r. split; [|done].
    rewrite lookup_delete_ne; [done|]. intros [= _ E]. done.
  - intros k r [Hk Hr']%lookup_delete_Some. destruct (Hnode k r Hr') as [-> (m & Hm & Hs)]. split; [done|].
    exists m. split; [|done]. apply list_elem_of_filter. split; [|done]. intros E. apply Hk. symmetry.
    apply (Hids _ r Hr'). destruct Hs as (_ & <- & _). done.
  - intros n [Hne Hn]%list_elem_of_filter. rewrite lookup_delete_ne by done. by apply His.
  - intros id t [Hne Ht]%lookup_delete_Some. destruct (Hlive id t Ht) as (n & Hn & Hid). exists n.
    split; [|done]. apply list_elem_of_filter. split; [congruence|done].
Qed.

(** Columns of a row that its token does not depend on. *)
Lemma nodes_agree_alter issued nodes rows k (f : MicroserviceNode -> MicroserviceNode) :
  (forall row, same_node row (f row)) -> nodes_agree issued nodes rows -> nodes_agree issued nodes (alter f k rows).
Proof.
  intros Hf [Hnd Hrow Hnode His Hlive].
  assert (Htrans : forall n row, same_node n row -> same_node n (f row)).
  { intros n row (E1 & E2 & E3 & E4). destruct (Hf row) as (F1 & F2 & F3 & F4).
    unfold same_node. split_ands; congruence. }
  split; [done| | |done|done].
  - intros n Hn. destruct (Hrow n Hn) as (row & Hr & Hs). destruct (decide (k = (ms_type n, ms_id n))) as [->|Hne].
    + exists (f row). rewrite lookup_alter_eq, Hr. split; [done|by apply Htrans].
    + exists row. by rewrite lookup_alter_ne.
  - intros k' row [[<- (r & Hr & ->)]|[Hne Hr]]%lookup_alter_Some.
    + destruct (Hnode k r Hr) as [Hk (n & Hn & Hs)]. split.
      * rewrite Hk. cbn. destruct (Hf r) as (-> & -> & _). done.
      * exists n. split; [done|by apply Htrans].
    + by apply Hnode.
Qed.

(** The row with a new token. *)
Definition row_with_token (token : option Text) (issued_at : Z) (r : MicroserviceNode) : MicroserviceNode :=
  mkMicroserviceNode (ms_type r) (ms_id r) (ms_max_space r) (ms_used_space r) token issued_at
    (ms_renewal_token r) (ms_address r) (ms_created r) (ms_register_code r).

Lemma nodes_agree_token issued nodes rows i node t now :
  nodes_agree issued nodes rows -> nodes !! i = Some node ->
  nodes_agree (<[ms_id node := t]> issued) (<[i := with_token (Some t) node]> nodes)
    (alter (row_with_token (Some t) now) (row_key node) rows).
Proof.
  intros [Hnd Hrow Hnode His Hlive] Hi.
  assert (Hin : node ∈ nodes) by (by eapply list_elem_of_lookup_2).
  pose proof (lookup_lt_Some _ _ _ Hi) as Hlt.
  assert (Helem : forall n, n ∈ <[i := with_token (Some t) node]> nodes ->
    n = with_token (Some t) node \/ (n ∈ nodes /\ ms_id n <> ms_id node)).
  { intros n (j & Hj)%list_elem_of_lookup. apply list_lookup_insert_Some in Hj as [(<- & <- & _)|[Hne Hj]]; [by left|].
    right. assert (Hn : n ∈ nodes) by (by eapply list_elem_of_lookup_2). split; [done|]. intros E. apply Hne.
    apply (NoDup_lookup (map ms_id nodes) i j (ms_id node) Hnd).
    - by rewrite list_lookup_fmap, Hi.
    - rewrite list_lookup_fmap, Hj. cbn. by rewrite E. }
  assert (Hnew : with_token (Some t) node ∈ <[i := with_token (Some t) node]> nodes).
  { apply list_elem_of_lookup. exists i. by apply list_lookup_insert_eq. }
  assert (Hold : forall n, n ∈ nodes -> ms_id n <> ms_id node -> n ∈ <[i := with_token (Some t) node]> nodes).
  { intros n (j & Hj)%list_elem_of_lookup Hne. apply list_elem_of_lookup. exists j.
    rewrite list_lookup_insert_ne; [done|]. intros ->. congruence. }
  split.
  - rewrite <- (list_insert_id (map ms_id nodes) i (ms_id node)) in Hnd by (by rewrite list_lookup_fmap, Hi).
    by rewrite list_fmap_insert.
  - intros n Hn. destruct (Helem n Hn) as [->|[Hn' Hne]].
    + destruct (Hrow node Hin) as (row & Hr & Hs). exists (row_with_token (Some t) now row).
      change (ms_type (with_token (Some t) node), ms_id (with_token (Some t) node)) with (row_key node).
      rewrite lookup_alter_eq. change (row_key node) with (ms_type node, ms_id node). rewrite Hr.
      destruct Hs as (? & ? & _ & ?). done.
    + destruct (Hrow n Hn') as (row & Hr & Hs). exists row. split; [|done].
      rewrite lookup_alter_ne; [done|]. intros [= _ E]. by apply Hne.
  - intros k row [[<- (r & Hr & ->)]|[Hne Hr]]%lookup_alter_Some.
    + destruct (Hnode _ r Hr) as [Hk (n & Hn & Hs)]. split; [done|]. exists (with_token (Some t) node).
      split; [done|]. injection Hk as E1 E2. destruct (Hrow node Hin) as (r' & Hr' & _ & _ & _ & E4).
      change (row_key node) with (ms_type node, ms_id node) in Hr. assert (r' = r) as -> by congruence. done.
    + destruct (Hnode k row Hr) as [-> (n & Hn & Hs)]. split; [done|].
      exists n. split; [|done]. apply Hold; [done|]. intros E. apply Hne.
      assert (n = node) as -> by (by apply (node_by_id nodes n node)). destruct Hs as (E1 & E2 & _).
      change ((ms_type node, ms_id node) = (ms_type row, ms_id row)). congruence.
  - intros n Hn. destruct (Helem n Hn) as [->|[Hn' Hne]]; [by rewrite lookup_insert_eq|].
    rewrite lookup_insert_ne by done. by apply His.
  - intros id u [[<- <-]|[Hne Hu]]%lookup_insert_Some; [by eexists|].
    destruct (Hlive id u Hu) as (n & Hn & Hid). exists n. split; [|done]. apply Hold; [done|congruence].
Qed.
End nodes.

(** ** Changes of the token maps *)
Lemma tokens_agree_unique issued ctx id id' t :
  tokens_agree issued ctx -> issued !! id = Some t -> issued !! id' = Some t -> id = id'.
Proof.
  intros [_ _ Hc] H1 H2. destruct (Hc _ _ H1) as (n & Hn & <-), (Hc _ _ H2) as (n' & Hn' & <-). congruence.
Qed.

Lemma tokens_agree_issue issued ctx addr health nodes node t :
  tokens_agree issued ctx -> (forall id, issued !! id <> Some t) -> issued !! ms_id node = ms_access_token node ->
  tokens_agree (<[ms_id node := t]> issued)
    (mkCtx addr (<[ms_id node := t]> (rc_node_token ctx))
       (<[t := with_token (Some t) node]> match ms_access_token node with
                                          | Some token => delete token (rc_token_node ctx)
                                          | None => rc_token_node ctx
                                          end) health nodes).
Proof.
  intros Hag Hfresh Hold. pose proof Hag as [Hnt Hs Hc].
  assert (Hdel : forall u n, match ms_access_token node with
      | Some token => delete token (rc_token_node ctx) | None => rc_token_node ctx end !! u = Some n
    <-> rc_token_node ctx !! u = Some n /\ ms_id n <> ms_id node).
  { intros u n. destruct (ms_access_token node) as [old|] eqn:Eo.
    - rewrite lookup_delete_Some. split.
      + intros [Hne Hu]. split; [done|]. intros E. apply Hne. pose proof (Hs u n Hu) as Hi. rewrite E in Hi. congruence.
      + intros [Hu Hne]. split; [|done]. intros ->. apply Hne. eapply tokens_agree_unique; [done|by apply Hs|done].
    - split; [|by intros [? _]]. intros Hu. split; [done|]. intros E. pose proof (Hs u n Hu) as Hi. congruence. }
  split; cbn [rc_node_token rc_token_node].
  - by rewrite Hnt.
  - intros u n [[<- <-]|[Hne Hu]]%lookup_insert_Some; [by rewrite lookup_insert_eq|].
    apply Hdel in Hu as [Hu Hid]. rewrite lookup_insert_ne by done. by apply Hs.
  - intros id u [[<- <-]|[Hne Hu]]%lookup_insert_Some; [eexists; by rewrite lookup_insert_eq|].
    destruct (Hc id u Hu) as (n & Hn & Hid). exists n. split; [|done].
    rewrite lookup_insert_ne; [apply Hdel; split; [done|congruence]|]. intros ->. by apply (Hfresh id).
Qed.

Lemma tokens_agree_remove issued ctx nodes id :
  tokens_agree issued ctx ->
  tokens_agree (delete id issued) (remove_node_from_maps id
    (mkCtx (rc_node_addr ctx) (rc_node_token ctx) (rc_token_node ctx) (rc_node_health ctx) nodes)).
Proof.
  intros Hag. pose proof Hag as [Hnt Hs Hc].
  assert (Hdel : forall u n, match rc_node_token ctx !! id with
      | Some token => delete token (rc_token_node ctx) | None => rc_token_node ctx end !! u = Some n
    <-> rc_token_node ctx !! u = Some n /\ ms_id n <> id).
  { intros u n. rewrite Hnt. destruct (issued !! id) as [old|] eqn:Eo.
    - rewrite lookup_delete_Some. split.
      + intros [Hne Hu]. split; [done|]. intros E. apply Hne. pose proof (Hs u n Hu) as Hi. congruence.
      + intros [Hu Hne]. split; [|done]. intros ->. apply Hne. eapply tokens_agree_unique; [done|by apply Hs|done].
    - split; [|by intros [? _]]. intros Hu. split; [done|]. intros E. pose proof (Hs u n Hu) as Hi. congruence. }
  split; cbn [remove_node_from_maps rc_node_token rc_token_node].
  - by rewrite Hnt.
  - intros u n Hu. apply Hdel in Hu as [Hu Hid]. rewrite lookup_delete_ne by done. by apply Hs.
  - intros id' u [Hne Hu]%lookup_delete_Some. destruct (Hc id' u Hu) as (n & Hn & Hid). exists n. split; [|done].
    apply Hdel. split; [done|congruence].
Qed.

(** The maps after loading nodes. *)
Lemma load_nodes l nodes :
  NoDup (map ms_id l) ->
  (forall n n' t, n ∈ l -> n' ∈ l -> ms_access_token n = Some t -> ms_access_token n' = Some t -> n = n') ->
  let ctx := fold_left load_node l (mkCtx ∅ ∅ ∅ ∅ nodes) in
  rc_nodes ctx = nodes
  /\ (forall id t, rc_node_token ctx !! id = Some t <-> exists n, n ∈ l /\ ms_id n = id /\ ms_access_token n = Some t)
  /\ (forall t n, rc_token_node ctx !! t = Some n <-> n ∈ l /\ ms_access_token n = Some t).
Proof.
  induction l as [|m l IH] using rev_ind; intros Hnd Htok.
  { cbn [fold_left rc_nodes rc_node_token rc_token_node]. split; [done|]. split.
    - intros id t. split; [by rewrite lookup_empty|]. by intros (n & ?%elem_of_nil & _).
    - intros t n. split; [by rewrite lookup_empty|]. by intros [?%elem_of_nil _]. }
  rewrite map_app in Hnd. apply NoDup_app in Hnd as (Hnd & Hdis & _).
  assert (Hm : forall n, n ∈ l -> ms_id n <> ms_id m).
  { intros n Hn E. apply (Hdis (ms_id n)); [by apply list_elem_of_fmap_2|]. rewrite E. by left. }
  destruct IH as (Hns & Hnt & Htn); [done|intros; eapply Htok; by try (apply elem_of_app; left)|].
  rewrite fold_left_app. cbn [fold_left]. set (ctx := fold_left _ l _) in *.
  assert (Hsnoc : forall n, n ∈ l ++ [m] <-> n ∈ l \/ n = m) by (intros; rewrite elem_of_app, list_elem_of_singleton; done).
  unfold load_node. destruct (ms_access_token m) as [u|] eqn:Eu; cbn [rc_nodes rc_node_token rc_token_node];
    (split; [done|]); split.
  - intros id t. rewrite lookup_insert_Some, Hnt. split.
    + intros [[<- <-]|[Hne (n & Hn & ? & ?)]]; [exists m|exists n]; rewrite Hsnoc; auto.
    + intros (n & [Hn| ->]%Hsnoc & <- & Ht); [right|left; split; congruence]. split; [symmetry; by apply Hm|by exists n].
  - intros t n. rewrite lookup_insert_Some, Htn, Hsnoc. split.
    + intros [[<- <-]|[Hne [Hn Ht]]]; auto.
    + intros [[Hn| ->] Ht]; [right|left; split; congruence]. split; [|done]. intros <-.
      assert (n = m) as -> by (eapply Htok; [apply Hsnoc; by left|apply Hsnoc; by right|done|done]). by apply (Hm m Hn).
  - intros id t. rewrite Hnt. split; intros (n & Hn & Hid & Ht); exists n.
    + rewrite Hsnoc. auto.
    + apply Hsnoc in Hn as [Hn| ->]; [auto|congruence].
  - intros t n. rewrite Htn, Hsnoc. split; [intros [? ?]; auto|]. intros [[Hn| ->] Ht]; [auto|congruence].
Qed.

Lemma NoDup_snd_rows (rows : gmap (i8 * Uuid) MicroserviceNode) :
  (forall k r, rows !! k = Some r -> k = row_key r) -> NoDup (map snd (map_to_list rows)).
Proof.
  intros Hk. apply NoDup_fmap_2_strong; [|apply NoDup_map_to_list].
  intros [k r] [k' r'] Hr%elem_of_map_to_list Hr'%elem_of_map_to_list E. cbn in E. subst r'.
  by rewrite (Hk k r Hr), (Hk k' r Hr').
Qed.

(** A restart finds in the database what the controller had in memory. *)
Lemma reload_agrees issued ctx0 nodes rows l :
  nodes_agree issued nodes rows -> tokens_agree issued ctx0 -> l ≡ₚ map snd (map_to_list rows) ->
  nodes_agree issued l rows /\ tokens_agree issued (load_context l).
Proof.
  intros [Hnd Hrow Hnode His Hlive] Hag Hl.
  assert (Hin : forall r, r ∈ l <-> rows !! row_key r = Some r).
  { intros r. rewrite Hl, list_elem_of_fmap. split.
    - intros ([k r'] & -> & Hr%elem_of_map_to_list). cbn. by destruct (Hnode k r' Hr) as [-> _].
    - intros Hr. exists (row_key r, r). split; [done|by apply elem_of_map_to_list]. }
  assert (Hkey : forall r r', r ∈ l -> r' ∈ l -> ms_id r = ms_id r' -> r = r').
  { intros r r' Hr%Hin Hr'%Hin E. destruct (Hnode _ r Hr) as [_ (n & Hn & Ht & Hi & _)].
    destruct (Hnode _ r' Hr') as [_ (n' & Hn' & Ht' & Hi' & _)].
    assert (n = n') as -> by (apply (node_by_id nodes n n' Hnd Hn Hn'); congruence).
    assert (Ek : row_key r = row_key r').
    { change ((ms_type r, ms_id r) = (ms_type r', ms_id r')). congruence. }
    rewrite Ek, Hr' in Hr. congruence. }
  assert (Hiss : forall r, r ∈ l -> issued !! ms_id r = ms_access_token r).
  { intros r Hr%Hin. destruct (Hnode _ r Hr) as [_ (n & Hn & _ & Hi & Ha & _)]. rewrite <- Hi, His by done. done. }
  assert (Hids : NoDup (map ms_id l)).
  { apply NoDup_fmap_2_strong.
    - intros x y Hx Hy E. by apply Hkey.
    - rewrite Hl. apply NoDup_snd_rows. intros k r. by apply Hnode. }
  split.
  - split; [done| | |done|].
    + intros r Hr. exists r. split; [by apply Hin|done].
    + intros k r Hr. destruct (Hnode k r Hr) as [-> _]. split; [done|]. exists r. split; [by apply Hin|done].
    + intros id t Ht. destruct (Hlive id t Ht) as (n & Hn & Hid). destruct (Hrow n Hn) as (r & Hr & _ & E & _).
      exists r. destruct (Hnode _ r Hr) as [Hk _]. rewrite Hk in Hr. split; [by apply Hin|congruence].
  - destruct (load_nodes l l Hids) as (_ & Hnt & Htn).
    { intros n n' t Hn Hn' Ht Ht'. apply Hkey; [done|done|].
      apply (tokens_agree_unique issued ctx0 _ _ t Hag); by rewrite Hiss. }
    split.
    + apply map_eq. intros id. destruct (issued !! id) as [t|] eqn:E.
      * apply Hnt. destruct (Hlive id t E) as (n & Hn & Hid). destruct (Hrow n Hn) as (r & Hr & Hs).
        destruct (Hnode _ r Hr) as [Hk _]. rewrite Hk in Hr. apply Hin in Hr. destruct Hs as (_ & Ei & _).
        exists r. split; [done|]. split; [congruence|]. rewrite <- Hiss by done. congruence.
      * destruct (rc_node_token _ !! id) as [t|] eqn:E'; [|done]. apply Hnt in E' as (r & Hr & <- & Ht).
        rewrite Hiss in E by done. congruence.
    + intros t n [Hn Ht]%Htn. by rewrite Hiss.
    + intros id t Ht. destruct (Hlive id t Ht) as (n & Hn & Hid). destruct (Hrow n Hn) as (r & Hr & Hs).
      destruct (Hnode _ r Hr) as [Hk _]. rewrite Hk in Hr. apply Hin in Hr. destruct Hs as (_ & Ei & _).
      exists r. split; [|congruence]. apply Htn. split; [done|]. rewrite <- Hiss by done. congruence.
Qed.

(** ** Handlers keep the maps coherent *)
Section ctx_keeps.
  Context {D : Type} `{ReliableDatabase D}.

Definition ctx_keeps {E A} (m : effect (Controller D) E A) : Prop :=
  forall issued c, coherent issued c -> coherent issued (m c).1.

Lemma ctx_keeps_ret {E A} (a : A) : ctx_keeps (E := E) (mret a).
Proof. by intros issued c. Qed.

Lemma ctx_keeps_throw {E A} (e : E) : ctx_keeps (A := A) (throw e).
Proof. by intros issued c. Qed.

Lemma ctx_keeps_gets {E A} (f : Controller D -> A) : ctx_keeps (E := E) (gets f).
Proof. by intros issued c. Qed.

Lemma ctx_keeps_of_result {E A} (r : result E A) : ctx_keeps (of_result r).
Proof. by intros issued c. Qed.

Lemma ctx_keeps_bind {E A B} (m : effect (Controller D) E A) (f : A -> effect (Controller D) E B) :
  ctx_keeps m -> (forall a, ctx_keeps (f a)) -> ctx_keeps (m ≫= f).
Proof.
  intros Hm Hf issued c Hc. specialize (Hm issued c Hc). unfold mbind, effect_bind.
  destruct (m c) as [c' [a|e]]; [by apply Hf|done].
Qed.

Lemma ctx_keeps_lock_maps {E} : ctx_keeps (E := Stop E) lock_maps.
Proof. intros issued c Hc. unfold lock_maps. by destruct (ct_maps_held c). Qed.

Lemma ctx_keeps_lock_health {E} : ctx_keeps (E := Stop E) lock_health.
Proof. intros issued c Hc. unfold lock_health. by destruct (ct_health_held c). Qed.

Lemma ctx_keeps_broadcast {E} closed mh hh : ctx_keeps (E := Stop E) (broadcast_storage closed mh hh).
Proof. intros issued c Hc. unfold broadcast_storage. by destruct (broadcast_packet _ _ _) as [sv [r|]]. Qed.

(** Only the health of a node changes. *)
Lemma ctx_keeps_health {E} (g : RequestContext -> gmap Uuid NodeHealth) :
  ctx_keeps (E := Stop E) (set_ctx (fun ctx =>
    mkCtx (rc_node_addr ctx) (rc_node_token ctx) (rc_token_node ctx) (g ctx) (rc_nodes ctx))).
Proof. intros issued c [Hn [H1 H2 H3]]. by split. Qed.

Lemma ctx_keeps_db {E A} (f : MeowithDataError -> E) (m : effect D MeowithDataError A) :
  (forall issued nodes d, nodes_agree issued nodes (nodes_table (tables d)) ->
     nodes_agree issued nodes (nodes_table (tables (m d).1))) ->
  ctx_keeps (ct_db f m).
Proof.
  intros Hm issued c [Hn Ht]. unfold ct_db. specialize (Hm issued _ _ Hn). by destruct (m (ct_session c)) as [d r].
Qed.

(** Reads, and statements on other tables. *)
Lemma ctx_keeps_find {E R K} `{Row R K} (f : MeowithDataError -> E) (k : K) : ctx_keeps (ct_db f (find_row (R := R) k)).
Proof.
  apply ctx_keeps_db. intros issued nodes d Hn. destruct (run_find_row (R := R) k d) as (d' & -> & Hd'). cbn. by rewrite Hd'.
Qed.

Lemma ctx_keeps_execute {E} (f : MeowithDataError -> E) (g : Tables -> Tables) :
  (forall T, nodes_table (g T) = nodes_table T) -> ctx_keeps (ct_db f (execute g)).
Proof.
  intros Hg. apply ctx_keeps_db. intros issued nodes d Hn. destruct (run_execute g d) as (d' & -> & Hd'). cbn. by rewrite Hd', Hg.
Qed.

Lemma ctx_keeps_verify_node header : ctx_keeps (verify_node (D := D) header).
Proof.
  unfold verify_node. destruct header as [h|]; [|apply ctx_keeps_throw].
  apply ctx_keeps_bind; [apply ctx_keeps_lock_maps|intros _]. apply ctx_keeps_bind; [apply ctx_keeps_gets|intros c]. apply ctx_keeps_of_result.
Qed.

Lemma ctx_keeps_storage closed node info now : ctx_keeps (update_storage_node_properties (D := D) closed node info now).
Proof.
  unfold update_storage_node_properties, update_microservice_node.
  apply ctx_keeps_bind; [|intros _; apply ctx_keeps_bind; [apply ctx_keeps_lock_health|intros _];
    apply ctx_keeps_bind; [apply ctx_keeps_health|intros _]; apply ctx_keeps_broadcast].
  apply ctx_keeps_db. intros issued nodes d Hn.
  edestruct (run_execute (D := D)) as (d' & -> & Hd'). cbn [fst]. rewrite Hd'.
  apply nodes_agree_alter; [|done]. intros row. done.
Qed.

Lemma ctx_keeps_beat node now : ctx_keeps (microservice_heart_beat (D := D) node now).
Proof. apply ctx_keeps_bind; [apply ctx_keeps_lock_health|intros _]. apply ctx_keeps_health. Qed.

Lemma ctx_keeps_create_code code now : ctx_keeps (do_create_register_code (D := D) code now).
Proof. apply ctx_keeps_bind; [by apply ctx_keeps_execute|intros _]. apply ctx_keeps_ret. Qed.

Lemma ctx_keeps_delete_code code : ctx_keeps (do_delete_register_code (D := D) code).
Proof. apply ctx_keeps_bind; [apply ctx_keeps_find|intros row]. by apply ctx_keeps_execute. Qed.

Lemma ctx_keeps_usable_code code : ctx_keeps (usable_code (D := D) code).
Proof.
  apply ctx_keeps_bind; [apply ctx_keeps_find|intros row]. destruct (rc_valid row); [apply ctx_keeps_ret|apply ctx_keeps_throw].
Qed.
End ctx_keeps.

Lemma filter_all {A} (l : list A) : filter (fun _ => true = true) l = l.
Proof. induction l as [|x l IH]; [done|]. rewrite filter_cons_True by done. by rewrite IH. Qed.

Lemma load_keeps_nodes l : rc_nodes (load_context l) = l.
Proof.
  unfold load_context. assert (E : forall l ctx, rc_nodes (fold_left load_node l ctx) = rc_nodes ctx); [|by rewrite E].
  clear. induction l as [|n l IH]; intros ctx; [done|]. cbn [fold_left]. rewrite IH. unfold load_node.
  by destruct (ms_access_token n).
Qed.

Section steps.
  Context {D : Type} `{ReliableDatabase D}.
  Implicit Types (c : Controller D) (issued : gmap Uuid Text).

Lemma ct_db_run {E A} (f : MeowithDataError -> E) (m : effect D MeowithDataError A) c d r :
  m (ct_session c) = (d, r) ->
  ct_db f m c = (mkController d (ct_ctx c) (ct_mgpp c) (ct_maps_held c) (ct_health_held c),
                 map_err (fun e => Answered (f e)) r).
Proof. intros E1. unfold ct_db. by rewrite E1. Qed.

Lemma usable_code_run code c :
  exists c' r, usable_code code c = (c', r) /\ ct_ctx c' = ct_ctx c
    /\ tables (ct_session c') = tables (ct_session c).
Proof.
  unfold usable_code, mbind, effect_bind.
  destruct (run_find_row (R := ServiceRegisterCode) code (ct_session c)) as (d & E & Hd).
  unfold get_service_register_code. rewrite (ct_db_run _ _ _ _ _ E).
  destruct (table _ !! code) as [row|]; cbn [ok_or map_err]; [|by eexists _, _].
  destruct (rc_valid row); by eexists _, _.
Qed.

Lemma register_coherent issued req node_addr id token now c c' r :
  coherent issued c -> (forall t, nodes_table (tables (ct_session c)) !! (t, id) = None) ->
  perform_register_node req node_addr id token now c = (c', r) -> answer (fun _ => OtherAnswer) r <> NoAnswer ->
  coherent issued c'.
Proof.
  intros [Hn [H1 H2 H3]] Hfresh E Hans. unfold perform_register_node, mbind at 1, effect_bind at 1 in E.
  destruct (usable_code_run (nr_code req) c) as (c1 & r1 & E1 & Hctx & Htab). rewrite E1 in E.
  destruct r1 as [code|e]; [|injection E as <- <-; split; rewrite ?Hctx, ?Htab; done].
  unfold register_with, mbind at 1, effect_bind at 1, update_service_register_code in E.
  set (node := mkMicroserviceNode _ _ _ _ _ _ _ _ _ _) in E.
  edestruct (run_execute (D := D)) as (d2 & E2 & Hd2) in E. rewrite (ct_db_run _ _ _ _ _ E2) in E. cbn [map_err] in E.
  unfold mbind at 1, effect_bind at 1, insert_microservice_node in E.
  destruct (run_insert_row node d2) as (d3 & E3 & Hd3). erewrite ct_db_run in E by exact E3. cbn [map_err] in E.
  unfold mbind at 1, effect_bind at 1, lock_maps in E. cbn [ct_maps_held] in E.
  destruct (ct_maps_held c1); [injection E as <- <-; done|].
  injection E as <- <-. split; cbn; rewrite ?Hctx, ?Hd3, ?Hd2; [|done].
  apply nodes_agree_add; [|cbn; by rewrite ?Htab|done]. cbn. by rewrite Htab.
Qed.

Lemma token_coherent closed issued access_token now renewal_token c c' r :
  coherent issued c -> (forall id, issued !! id <> Some access_token) ->
  perform_token_creation closed access_token now renewal_token c = (c', r) ->
  answer (fun x => Issued x.2 x.1) r <> NoAnswer ->
  coherent (record_answer (answer (fun x => Issued x.2 x.1) r) issued) c'.
Proof.
  intros [Hn Ht] Hfresh E Hans. unfold perform_token_creation, mbind at 1, effect_bind at 1, lock_maps in E.
  destruct (ct_maps_held c); [injection E as <- <-; done|].
  unfold mbind at 1, effect_bind at 1, gets in E.
  destruct (list_find _ _) as [[i node]|] eqn:Ef; [|injection E as <- <-; by split].
  apply list_find_Some in Ef as (Hi & _ & _).
  unfold mbind at 1, effect_bind at 1, set_ctx at 1, modify at 1 in E.
  unfold mbind at 1, effect_bind at 1, update_service_access_token in E.
  edestruct (run_execute (D := D)) as (d2 & E2 & Hd2) in E. erewrite ct_db_run in E by exact E2. cbn [map_err] in E.
  unfold mbind at 1, effect_bind at 1, set_ctx, modify in E. cbn [ct_session ct_ctx ct_mgpp ct_maps_held ct_health_held] in E.
  unfold mbind, effect_bind, broadcast_storage in E. cbn [ct_session ct_ctx ct_mgpp] in E.
  destruct (broadcast_packet _ _ _) as [sv [b|]]; injection E as <- <-; [|done].
  cbn [answer record_answer fst snd]. change (ms_id (with_token (Some access_token) node)) with (ms_id node).
  assert (Hin : node ∈ rc_nodes (ct_ctx c)) by (by eapply list_elem_of_lookup_2).
  split; cbn [ct_session ct_ctx rc_nodes].
  - rewrite Hd2. exact (nodes_agree_token _ _ _ i node access_token now Hn Hi).
  - apply (tokens_agree_issue issued (ct_ctx c)); [done|done|]. by apply Hn.
Qed.

Lemma delete_coherent issued id node_type c c' r :
  coherent issued c -> do_delete_node id node_type c = (c', r) -> answer (fun _ => Removed id) r <> NoAnswer ->
  coherent (record_answer (answer (fun _ => Removed id) r) issued) c'.
Proof.
  intros [Hn Ht] E Hans. unfold do_delete_node, mbind at 1, effect_bind at 1, get_microservice_node in E.
  destruct (run_find_row (R := MicroserviceNode) (node_type, id) (ct_session c)) as (d1 & E1 & Hd1).
  erewrite ct_db_run in E by exact E1.
  change (table (R := MicroserviceNode) (tables (ct_session c))) with (nodes_table (tables (ct_session c))) in E.
  destruct (nodes_table _ !! _) as [row|] eqn:Er; cbn [ok_or map_err] in E;
    [|injection E as <- <-; split; cbn; by rewrite ?Hd1].
  destruct (na_node _ _ _ Hn _ _ Er) as [Hk _]. injection Hk as Hkt Hki.
  unfold mbind at 1, effect_bind at 1, remove_microservice_node in E.
  destruct (run_delete_row row d1) as (d2 & E2 & Hd2). erewrite ct_db_run in E by exact E2. cbn [map_err] in E.
  unfold mbind at 1, effect_bind at 1, lock_maps in E. cbn [ct_maps_held] in E.
  destruct (ct_maps_held c); [injection E as <- <-; done|].
  unfold mbind at 1, effect_bind at 1, set_ctx at 1, modify at 1, mbind, effect_bind, lock_health in E.
  cbn [ct_session ct_ctx ct_mgpp ct_maps_held ct_health_held] in E.
  destruct (ct_health_held c); injection E as <- <-; [done|].
  cbn [answer record_answer]. split; cbn [ct_session ct_ctx].
  - rewrite Hd2, Hd1, Hki.
    change (nodes_table (row_delete MicroserviceNode ?k ?T)) with (delete k (nodes_table T)).
    cbn [remove_node_from_maps rc_nodes]. rewrite list_filter_filter_l by done.
    apply nodes_agree_remove; [done|]. change (row_key row) with (ms_type row, ms_id row). by rewrite <- Hkt, <- Hki.
  - by apply tokens_agree_remove.
Qed.

Lemma restart_coherent issued c : coherent issued c -> coherent issued (restart c).1.
Proof.
  intros [Hn Ht]. unfold restart, get_microservices.
  destruct (run_select (R := MicroserviceNode) (fun _ => true) (ct_session c)) as (d & l & -> & Hd & Hl).
  cbn [fst]. destruct (reload_agrees issued (ct_ctx c) _ _ l Hn Ht) as [Hn' Ht'].
  { rewrite Hl. unfold rows_where. by rewrite filter_all. }
  split; cbn [ct_session ct_ctx]; [|done]. rewrite Hd, load_keeps_nodes. done.
Qed.

Lemma serve_coherent closed issued req c c' a :
  coherent issued c -> serve closed req c = (c', a) -> a <> NoAnswer -> unused req issued c ->
  coherent (record_answer a issued) c'.
Proof.
  intros Hc E Hans Hun. destruct req as [req addr id token now|token now renewal|header info now|header now|code now|code|id ty|];
    cbn [serve unused] in *.
  - destruct (perform_register_node _ _ _ _ _ c) as [c1 r] eqn:Er. injection E as <- <-.
    assert (record_answer (answer (fun _ => OtherAnswer) r) issued = issued) as -> by (by destruct r as [?|[]]).
    by eapply register_coherent.
  - destruct (perform_token_creation _ _ _ _ c) as [c1 r] eqn:Er. injection E as <- <-. by eapply token_coherent.
  - pose proof (ctx_keeps_bind _ _ (ctx_keeps_verify_node header) (fun node => ctx_keeps_storage closed node info now) issued c Hc) as Hk.
    match type of Hk with coherent _ (fst ?x) => destruct x as [c1 r] end. injection E as <- <-. by destruct r as [?|[]].
  - pose proof (ctx_keeps_bind _ _ (ctx_keeps_verify_node header) (fun node => ctx_keeps_beat node now) issued c Hc) as Hk.
    match type of Hk with coherent _ (fst ?x) => destruct x as [c1 r] end. injection E as <- <-. by destruct r as [?|[]].
  - pose proof (ctx_keeps_create_code code now issued c Hc) as Hk.
    destruct (do_create_register_code _ _ c) as [c1 r]. injection E as <- <-. by destruct r as [?|[]].
  - pose proof (ctx_keeps_delete_code code issued c Hc) as Hk.
    destruct (do_delete_register_code _ c) as [c1 r]. injection E as <- <-. by destruct r as [?|[]].
  - destruct (do_delete_node _ _ c) as [c1 r] eqn:Er. injection E as <- <-. by eapply delete_coherent.
  - pose proof (restart_coherent issued c Hc) as Hk. destruct (restart c) as [c1 r]. by injection E as <- <-.
Qed.

Lemma steps_coherent closed s s' :
  rtc (answered_step closed) s s' -> coherent s.1 s.2 -> coherent s'.1 s'.2.
Proof.
  induction 1 as [s|s s1 s2 (req & a & E & Hans & Hun & ->) _ IH]; [done|]. intros Hc. apply IH.
  by eapply serve_coherent.
Qed.

(** The answers to the questions that depend on tokens. *)
Lemma coherent_verify issued c t n :
  coherent issued c -> ct_maps_held c = false ->
  verify_node (Some (str "Bearer "%string ++ t)) c = (c, Ok n) -> issued !! ms_id n = Some t.
Proof.
  intros [_ Ht] Hh. unfold verify_node, mbind, effect_bind, lock_maps. rewrite Hh, remove_bearer. cbn.
  destruct (rc_token_node _ !! t) as [m|] eqn:E; [|done]. intros [= ->]. by apply Ht.
Qed.

Lemma coherent_accepts issued c id t :
  coherent issued c -> ct_maps_held c = false -> issued !! id = Some t ->
  exists n, ms_id n = id /\ verify_node (Some (str "Bearer "%string ++ t)) c = (c, Ok n).
Proof.
  intros [_ Ht] Hh Hi. destruct (ta_complete _ _ Ht _ _ Hi) as (n & Hn & Hid). exists n. split; [done|].
  unfold verify_node, mbind, effect_bind, lock_maps. rewrite Hh, remove_bearer. cbn. by rewrite Hn.
Qed.

Lemma coherent_peer issued c id t :
  coherent issued c -> ct_maps_held c = false ->
  validate_peer id t c = (c, Ok (bool_decide (issued !! id = Some t))).
Proof.
  intros [_ Ht] Hh. unfold validate_peer, mbind, effect_bind, lock_maps. rewrite Hh. cbn.
  unfold validate_token. rewrite (ta_node_token _ _ Ht). unfold mret, effect_ret. do 2 f_equal.
  destruct (issued !! id) as [u|]; [|by rewrite bool_decide_false]. apply bool_decide_ext. split; congruence.
Qed.

(** A controller whose database knows no nodes. *)
Definition no_nodes c : Prop :=
  nodes_table (tables (ct_session c)) = ∅ /\ ct_ctx c = load_context [].

Lemma no_nodes_coherent c : no_nodes c -> coherent ∅ c.
Proof.
  intros [Hn Hc]. split; [rewrite Hn, Hc|rewrite Hc]; split; cbn; try done; try constructor.
  - intros n ?%elem_of_nil. done.
  - intros n ?%elem_of_nil. done.
Qed.

End steps.

(** ** Storage *)
Definition storage_info_of (i : u64 * u64 * Z * Z * Z * bool) : UpdateStorageNodeProperties :=
  let '(max_space, used_space, reserved, commited, uncommitted, paused) := i in
  mkStorageInfo max_space used_space reserved commited uncommitted paused.

Definition storage_peers (nodes : list MicroserviceNode) (peers : gmap Uuid PeerStorage) : gmap Uuid PeerStorage :=
  fold_left (fun peers node =>
    if decide (ms_type node = i8_of_MicroserviceType StorageNode)
    then <[ms_id node := mkPeer 0 (ms_address node)]> peers else peers) nodes peers.

Lemma storage_peers_other nodes : forall peers id,
  id ∉ map ms_id nodes -> storage_peers nodes peers !! id = peers !! id.
Proof.
  induction nodes as [|n nodes IH]; intros peers id Hid; [done|]. cbn [map] in Hid.
  apply not_elem_of_cons in Hid as [Hne Hid]. cbn [storage_peers fold_left].
  change (fold_left _ nodes ?m) with (storage_peers nodes m). rewrite IH by done.
  case_decide; [by rewrite lookup_insert_ne|done].
Qed.

Lemma storage_peers_lookup nodes node : forall peers,
  NoDup (map ms_id nodes) -> node ∈ nodes ->
  storage_peers nodes peers !! ms_id node
  = if decide (ms_type node = i8_of_MicroserviceType StorageNode) then Some (mkPeer 0 (ms_address node))
    else peers !! ms_id node.
Proof.
  induction nodes as [|n nodes IH]; intros peers Hnd Hin; [by apply elem_of_nil in Hin|]. cbn [map] in Hnd.
  apply NoDup_cons in Hnd as [Hn Hnd]. cbn [storage_peers fold_left].
  change (fold_left _ nodes ?m) with (storage_peers nodes m).
  apply elem_of_cons in Hin as [->|Hin].
  - rewrite storage_peers_other by done. case_decide; [by rewrite lookup_insert_eq|done].
  - rewrite IH by done. case_decide; [done|].
    assert (ms_id n <> ms_id node) by (intros E; apply Hn; rewrite E; by apply list_elem_of_fmap_2).
    case_decide; [by rewrite lookup_insert_ne|done].
Qed.

Lemma free_storage_lookup ctx node :
  NoDup (map ms_id (rc_nodes ctx)) -> node ∈ rc_nodes ctx ->
  ms_type node = i8_of_MicroserviceType StorageNode ->
  free_storage ctx !! ms_id node
  = Some (mkPeer match rc_node_health ctx !! ms_id node with
                 | Some (mkHealth _ (Some info)) => u64_sub (si_max_space info) (si_used_space info)
                 | _ => 0
                 end (ms_address node)).
Proof.
  intros Hnd Hin Hty. unfold free_storage.
  change (fold_left _ (rc_nodes ctx) ∅) with (storage_peers (rc_nodes ctx) ∅).
  rewrite map_lookup_imap, storage_peers_lookup, decide_True by done. cbn.
  by destruct (rc_node_health ctx !! ms_id node) as [[beat [info|]]|].
Qed.

Lemma storage_update_ok {D} `{ReliableDatabase D} closed node info now (c c' : Controller D) :
  update_storage_node_properties closed node info now c = (c', Ok tt) ->
  rc_nodes (ct_ctx c') = rc_nodes (ct_ctx c)
  /\ rc_node_health (ct_ctx c') = <[ms_id node := mkHealth now (Some info)]> (rc_node_health (ct_ctx c))
  /\ ct_maps_held c' = ct_maps_held c /\ ct_health_held c' = false.
Proof.
  intros E. unfold update_storage_node_properties, mbind at 1, effect_bind at 1 in E.
  edestruct (run_execute (D := D)) as (d & E1 & _) in E. unfold update_microservice_node in E.
  erewrite ct_db_run in E by exact E1. cbn [map_err] in E.
  unfold mbind at 1, effect_bind at 1, lock_health in E. cbn [ct_health_held] in E.
  destruct (ct_health_held c) eqn:Hh; [done|].
  unfold mbind, effect_bind, set_ctx, modify, broadcast_storage in E. cbn [ct_session ct_ctx ct_mgpp ct_maps_held ct_health_held] in E.
  destruct (broadcast_packet _ _ _) as [sv [b|]]; [|done]. by injection E as <-.
Qed.

(** What others compute from a report is what the ledger has available. *)
Lemma reported_space_exact {M} (L : Ledger M) :
  in_width 64 (max_physical_size L) ->
  let info := storage_info_of (get_storage_info L) in
  u64_sub (si_max_space info) (si_used_space info) = get_available_space L.
Proof.
  intros Hmax. cbn. unfold get_available_space, saturating_sub. cbn zeta. unfold in_width in Hmax.
  pose proof (wrap_range 64 (disk_physical_size L + disk_reserved_size L) ltac:(lia)) as [Ha _].
  change (wrap 64 _) with (u64_add (disk_physical_size L) (disk_reserved_size L)) in Ha.
  set (a := Z.max 0 _). assert (0 <= a <= max_physical_size L) by lia.
  rewrite (u64_sub_small (max_physical_size L) a) by (unfold in_width; lia).
  rewrite u64_sub_small by (unfold in_width; lia). lia.
Qed.

(** ** Drawn tokens *)
Lemma CHARSET_ascii : ascii_bytes (bytes_of_text CHARSET).
Proof. apply (bool_decide_unpack _). vm_compute. exact I. Qed.

(** Tokens of 64 drawn characters pass the nodes' check. *)
Lemma controller_token_valid draws :
  length draws = 64%nat -> Forall (fun index => index < length CHARSET)%nat draws ->
  is_renewal_token_valid (controller_token draws) = true.
Proof.
  intros Hl Hall. unfold is_renewal_token_valid, controller_token.
  assert (E : length (omap (fun index => CHARSET !! index) draws) = length draws
    /\ Forall (fun c => c ∈ CHARSET) (omap (fun index => CHARSET !! index) draws)).
  { clear Hl. induction Hall as [|i draws Hi Hall IH]; [split; constructor|]. cbn [omap list_omap].
    destruct (lookup_lt_is_Some_2 CHARSET i Hi) as [ch E]. rewrite E. destruct IH as [IHl IHf].
    split; [cbn [length]; by f_equal|]. constructor; [by eapply list_elem_of_lookup_2|done]. }
  destruct E as [E1 E2]. rewrite bool_decide_true by congruence. cbn [andb].
  apply forallb_forall. intros ch Hch. apply bool_decide_true.
  by apply (proj1 (Forall_forall _ _) E2), list_elem_of_In.
Qed.

(** And they are what the controller's server expects. *)
Lemma valid_token_wf token : is_renewal_token_valid token = true -> wf_token token.
Proof.
  unfold is_renewal_token_valid. rewrite andb_true_iff, bool_decide_eq_true, forallb_forall.
  intros [Hl Hall]. split; [done|]. unfold ascii_bytes, bytes_of_text. apply Forall_forall.
  intros b (ch & -> & Hch)%list_elem_of_fmap. apply list_elem_of_In, Hall, bool_decide_eq_true in Hch.
  apply (proj1 (Forall_forall _ _) CHARSET_ascii). apply list_elem_of_fmap. by exists ch.
Qed.

(** ** Where the controller falls short *)
Definition node5 (token : option Text) : MicroserviceNode :=
  mkMicroserviceNode 1 5 None None token 0 (str "r"%string) (str "h"%string) 0 (str "k"%string).

Definition controller5 {D} (d : D) (sv : MGPPServer) : Controller D :=
  mkController d (load_context [node5 (Some (str "a"%string))]) sv false false.

Definition tables5 : Tables := row_insert (node5 (Some (str "a"%string))) no_rows.


(** A code can be used twice.  Two registrations that both read the code before either of them
    marks it as used both succeed. *)
Lemma code_used_twice :
  let code := mkRegisterCode (str "k"%string) 0 true in
  let req := mkRegister (str "k"%string) StorageNode in
  let c0 := mkController (row_insert code no_rows) (load_context []) (mkServer true [] ∅ false) false false in
  usable_code (str "k"%string) c0 = (c0, Ok code)
  /\ let '(c1, r1) := register_with code req (str "h"%string) 1 (str "s"%string) 0 c0 in
     let '(c2, r2) := register_with code req (str "i"%string) 2 (str "t"%string) 0 c1 in
     r1 = Ok (str "s"%string) /\ r2 = Ok (str "t"%string) /\ length (rc_nodes (ct_ctx c2)) = 2%nat.
Proof.
  vm_compute. split; [reflexivity|]. split; [reflexivity|]. split; reflexivity.
Qed.

(** A broken connection of MGPP stops the controller.  The request of a node for its token
    waits for ever for the broadcast, and holds the maps of tokens; from then on no request of
    any node gets past the check of its token. *)
Theorem broken_connection_blocks_controller {D} `{ReliableDatabase D} closed access_token now renewal_token c conn x post node i :
  ct_maps_held c = false -> list_find (fun n => ms_renewal_token n = renewal_token) (rc_nodes (ct_ctx c)) = Some (i, node) ->
  sv_held (ct_mgpp c) = false -> sv_connections (ct_mgpp c) = x :: post -> sv_store (ct_mgpp c) !! x = Some conn ->
  pc_is_closing conn = false -> pc_writer_held conn = false -> ws_open (pc_stream conn) = false ->
  exists c', perform_token_creation closed access_token now renewal_token c = (c', Err Hangs)
    /\ forall header, header <> None -> verify_node header c' = (c', Err Hangs).
Proof.
  intros Hm Hf Hsv Hlist Hx Hcl Hw Ho. unfold perform_token_creation, mbind at 1, effect_bind at 1, lock_maps.
  rewrite Hm. unfold mbind at 1, effect_bind at 1, gets. rewrite Hf.
  unfold mbind at 1, effect_bind at 1, set_ctx at 1, modify at 1.
  unfold mbind at 1, effect_bind at 1, update_service_access_token.
  edestruct (run_execute (D := D)) as (d2 & E2 & _). erewrite ct_db_run by exact E2. cbn [map_err].
  unfold mbind at 1, effect_bind at 1, set_ctx, modify. cbn [ct_session ct_ctx ct_mgpp ct_maps_held ct_health_held].
  unfold mbind, effect_bind, broadcast_storage, broadcast_packet. cbn [ct_session ct_ctx ct_mgpp].
  rewrite Hsv, Hlist. cbn [write_each]. rewrite Hx. unfold conn_write, write_all, conn_shutdown, reader_close.
  rewrite Hcl, Hw, Ho. cbn. eexists. split; [done|]. intros [h|] Hh; [|done]. reflexivity.
Qed.

(** ** Witnesses *)
Definition c_empty : Controller Tables :=
  mkController no_rows (load_context []) (mkServer true [] ∅ false) false false.
Definition c_code : Controller Tables := (serve true (ReqCreateCode (str "k"%string) 0) c_empty).1.
Definition c_node : Controller Tables :=
  (serve true (ReqRegister (mkRegister (str "k"%string) StorageNode) (str "h"%string) 5 (str "r"%string) 1) c_code).1.
Definition c_token : Controller Tables := (serve true (ReqToken (str "t"%string) 2 (str "r"%string)) c_node).1.

Lemma empty_steps : rtc (answered_step true) (∅, c_empty) ({[ 5 := str "t"%string ]}, c_token).
Proof.
  apply (rtc_l _ _ (∅, c_code)).
  { exists (ReqCreateCode (str "k"%string) 0), OtherAnswer. split; [vm_compute; reflexivity|]. split; [done|]. done. }
  apply (rtc_l _ _ (∅, c_node)).
  { exists (ReqRegister (mkRegister (str "k"%string) StorageNode) (str "h"%string) 5 (str "r"%string) 1), OtherAnswer.
    split; [vm_compute; reflexivity|]. split; [done|]. split; [|done].
    intros t. reflexivity. }
  apply rtc_once. exists (ReqToken (str "t"%string) 2 (str "r"%string)), (Issued 5 (str "t"%string)).
  split; [vm_compute; reflexivity|]. split; [done|]. split; [intros id; cbn [fst]; by rewrite lookup_empty|done].
Qed.


Lemma c_token_coherent : coherent {[ 5 := str "t"%string ]} c_token.
Proof.
  exact (steps_coherent true _ _ empty_steps (no_nodes_coherent c_empty (conj eq_refl eq_refl))).
Qed.

Definition c_broken : Controller Tables :=
  controller5 tables5 (mkServer true [0%nat] {[ 0%nat := broken_conn ]} false).

Lemma broken_connection_blocks_controller_witness :
  exists c', perform_token_creation true (str "b"%string) 1 (str "r"%string) c_broken = (c', Err Hangs)
    /\ verify_node (Some (str "Bearer a"%string)) c' = (c', Err Hangs).
Proof.
  destruct (broken_connection_blocks_controller (D := Tables) true (str "b"%string) 1 (str "r"%string) c_broken
    broken_conn 0 [] (node5 (Some (str "a"%string))) 0) as (c' & E & Hall); try reflexivity.
  exists c'. split; [exact E|]. by apply Hall.
Defined.
