(* ===== verification/Addresses.v ===== *)
(** * Addresses

    [commons/src/autoconfigure/addr_header.rs]: the header in which a node names the addresses
    and domains of its certificate, over the text of an [IpAddr] as the standard library prints
    and parses it.

    A parser takes the text that is left and returns a value with the rest; a failed parser
    consumes nothing, as [read_atomically] has it. *)
From Stdlib Require Import ZArith Lia List Ascii.
From stdpp Require Import base numbers list strings.
From S2P Require Import Prelude Errors Paths.
Local Open Scope Z_scope.

(** ** Digits *)
Definition code (c : ascii) : Z := Z.of_N (N_of_ascii c).

(** [char::to_digit] *)
Definition to_digit (radix : Z) (c : ascii) : option Z :=
  let d := if decide (48 <= code c <= 57) then code c - 48
           else if decide (97 <= code c <= 122) then code c - 87
           else if decide (65 <= code c <= 90) then code c - 55 else radix in
  if decide (d < radix) then Some d else None.

Definition digit_char (d : Z) : ascii := ascii_of_N (Z.to_N (if decide (d < 10) then 48 + d else 87 + d)).

(** The number in a base with at most [fuel] digits, lower case, without leading zeros. *)
Fixpoint digits (fuel : nat) (base n : Z) : Text :=
  match fuel with
  | O => []
  | S fuel => if decide (n < base) then [digit_char n] else digits fuel base (n / base) ++ [digit_char (n mod base)]
  end.

Fixpoint read_digits (radix acc : Z) (count : nat) (p : Text) : Z * nat * Text :=
  match p with
  | [] => (acc, count, [])
  | c :: p' =>
      match to_digit radix c with
      | Some d => read_digits radix (acc * radix + d) (S count) p'
      | None => (acc, count, p)
      end
  end.

(** [Parser::read_number] for a type with values below [limit] *)
Definition read_number (radix : Z) (max_digits : nat) (allow_zero_prefix : bool) (limit : Z) (p : Text)
    : option (Z * Text) :=
  let has_leading_zero := bool_decide (head p = Some "0"%char) in
  let '(result, digit_count, rest) := read_digits radix 0 0 p in
  if decide (max_digits < digit_count)%nat then None
  else if decide (digit_count = 0)%nat then None
  else if negb allow_zero_prefix && has_leading_zero && bool_decide (1 < digit_count)%nat then None
  else if decide (result < limit) then Some (result, rest) else None.

(** ** [std::net::IpAddr] *)
Inductive IpAddr : Type := V4 (octets : list u8) | V6 (segments : list u16).

#[global] Instance IpAddr_eq_dec : EqDecision IpAddr.
Proof. solve_decision. Defined.

Definition wf_ip (ip : IpAddr) : Prop :=
  match ip with
  | V4 octets => length octets = 4%nat /\ Forall (in_width 8) octets
  | V6 segments => length segments = 8%nat /\ Forall (in_width 16) segments
  end.

Definition read_given_char (c : ascii) (p : Text) : option Text :=
  match p with d :: p => if decide (c = d) then Some p else None | [] => None end.

Definition read_separator {A} (sep : ascii) (first : bool) (inner : Text -> option (A * Text)) (p : Text)
    : option (A * Text) :=
  if first then inner p else p ← read_given_char sep p; inner p.

Fixpoint read_octets (n : nat) (first : bool) (p : Text) : option (list u8 * Text) :=
  match n with
  | O => Some ([], p)
  | S n =>
      '(o, p) ← read_separator "."%char first (read_number 10 3 false 256) p;
      '(os, p) ← read_octets n false p;
      Some (o :: os, p)
  end.
Definition read_ipv4_addr (p : Text) : option (list u8 * Text) := read_octets 4 true p.

(** The groups read, and whether the last two of them were written as an IPv4 address. *)
Fixpoint read_groups (limit : nat) (first : bool) (p : Text) : list u16 * bool * Text :=
  match limit with
  | O => ([], false, p)
  | S limit =>
      match (if decide (limit = 0)%nat then None else read_separator ":"%char first read_ipv4_addr p) with
      | Some ([one; two; three; four], rest) => ([one * 256 + two; three * 256 + four], true, rest)
      | _ =>
          match read_separator ":"%char first (read_number 16 4 true 65536) p with
          | Some (g, rest) => let '(gs, ipv4, rest) := read_groups limit false rest in (g :: gs, ipv4, rest)
          | None => ([], false, p)
          end
      end
  end.

Definition read_ipv6_addr (p : Text) : option (list u16 * Text) :=
  let '(front, front_ipv4, p) := read_groups 8 true p in
  if decide (length front = 8)%nat then Some (front, p)
  else if (front_ipv4 : bool) then None
  else
    p ← read_given_char ":"%char p;
    p ← read_given_char ":"%char p;
    let '(back, _, p) := read_groups (7 - length front) true p in
    Some (front ++ replicate (8 - length front - length back) 0 ++ back, p).

(** [IpAddr::from_str] *)
Definition IpAddr_from_str (p : Text) : option IpAddr :=
  match read_ipv4_addr p with
  | Some (octets, rest) => if decide (rest = []) then Some (V4 octets) else None
  | None =>
      match read_ipv6_addr p with
      | Some (segments, rest) => if decide (rest = []) then Some (V6 segments) else None
      | None => None
      end
  end.

Fixpoint join_with (sep : ascii) (ss : list Text) : Text :=
  match ss with
  | [] => []
  | s :: ss => match ss with [] => s | _ => s ++ sep :: join_with sep ss end
  end.

Definition ipv4_to_string (octets : list u8) : Text := join_with "."%char (map (digits 3 10) octets).

(** The first of the longest runs of zeros, as its start and length. *)
Fixpoint longest_zeroes (i : nat) (current longest : nat * nat) (segments : list u16) : nat * nat :=
  match segments with
  | [] => longest
  | s :: segments =>
      if decide (s = 0) then
        let current := if decide (current.2 = 0)%nat then (i, 1%nat) else (current.1, S current.2) in
        longest_zeroes (S i) current (if decide (longest.2 < current.2)%nat then current else longest) segments
      else longest_zeroes (S i) (0, 0)%nat longest segments
  end.

Definition fmt_subslice (chunk : list u16) : Text := join_with ":"%char (map (digits 4 16) chunk).

Definition to_ipv4_mapped (segments : list u16) : option (list u8) :=
  match segments with
  | [a; b; c; d; e; f; ab; cd] =>
      if decide ([a; b; c; d; e] = replicate 5 0 /\ f = 65535) then Some [ab / 256; ab mod 256; cd / 256; cd mod 256]
      else None
  | _ => None
  end.

Definition ipv6_to_string (segments : list u16) : Text :=
  match to_ipv4_mapped segments with
  | Some ipv4 => str "::ffff:" ++ ipv4_to_string ipv4
  | None =>
      let '(start, len) := longest_zeroes 0 (0, 0)%nat (0, 0)%nat segments in
      if decide (1 < len)%nat
      then fmt_subslice (take start segments) ++ str "::" ++ fmt_subslice (drop (start + len) segments)
      else fmt_subslice segments
  end.

Definition IpAddr_to_string (ip : IpAddr) : Text :=
  match ip with V4 octets => ipv4_to_string octets | V6 segments => ipv6_to_string segments end.

(** ** The header *)
Definition COMMA : ascii := ","%char.

Definition serialize_header (ip_addrs : list IpAddr) (domains : list Text) : Text :=
  join_with COMMA (map IpAddr_to_string ip_addrs ++ domains).

Definition push_item (acc : list IpAddr * list Text) (item : Text) : list IpAddr * list Text :=
  let '(ip_addrs, domains) := acc in
  match IpAddr_from_str item with
  | Some ip => (ip_addrs ++ [ip], domains)
  | None => (ip_addrs, domains ++ [item])
  end.

Definition deserialize_header (header : Text) : list IpAddr * list Text :=
  fold_left push_item (split_on (fun c => bool_decide (c = COMMA)) header) ([], []).

(** ** Numbers read back *)
Lemma code_digit d : 0 <= d < 16 -> code (digit_char d) = if decide (d < 10) then 48 + d else 87 + d.
Proof. intros Hd. unfold code, digit_char. case_decide; rewrite N_ascii_embedding; lia. Qed.

Lemma to_digit_char radix d : 0 <= d < radix -> radix <= 16 -> to_digit radix (digit_char d) = Some d.
Proof.
  intros Hd Hr. unfold to_digit. rewrite code_digit by lia.
  repeat case_decide; try lia; f_equal; lia.
Qed.

(** A digit of any base is neither a separator nor, unless it is zero, the zero. *)
Lemma digit_char_ne d c : 0 <= d < 16 -> (d = 0 -> c <> "0"%char) -> to_digit 16 c = None \/ c = "0"%char -> digit_char d <> c.
Proof.
  intros Hd H0 Hc E. rewrite <- E in Hc, H0. destruct Hc as [Hc|Hc].
  - rewrite to_digit_char in Hc by lia. done.
  - assert (Hcode := f_equal code Hc). rewrite code_digit in Hcode by done.
    change (code "0"%char) with 48 in Hcode. case_decide; [|lia]. apply H0; [lia|done].
Qed.

Lemma div_pow_lt n base fuel : 2 <= base -> n < base ^ Z.of_nat (S fuel) -> n / base < base ^ Z.of_nat fuel.
Proof.
  intros Hb Hn. apply Z.div_lt_upper_bound; [lia|]. by rewrite <- Z.pow_succ_r, <- Nat2Z.inj_succ by lia.
Qed.

Section Digits.
  Context (base : Z) (Hbase : 2 <= base <= 16).

Lemma read_digits_app fuel n acc count p :
  0 <= n < base ^ Z.of_nat fuel ->
  let k := length (digits fuel base n) in
  read_digits base acc count (digits fuel base n ++ p)
  = read_digits base (acc * base ^ Z.of_nat k + n) (count + k) p.
Proof.
  revert n acc count p. induction fuel as [|fuel IH]; intros n acc count p Hn; cbn [digits].
  { change (base ^ Z.of_nat 0) with 1 in *. simpl. f_equal; lia. }
  case_decide.
  - simpl. rewrite to_digit_char by lia. f_equal; [lia|lia].
  - assert (Hd := div_pow_lt n base fuel ltac:(lia) ltac:(lia)).
    assert (0 <= n / base) by (apply Z.div_pos; lia).
    assert (Hm := Z.mod_pos_bound n base ltac:(lia)).
    rewrite length_app, <- app_assoc. simpl. rewrite IH by lia. simpl.
    rewrite to_digit_char by lia. f_equal; [|lia].
    rewrite Nat2Z.inj_add, Z.pow_add_r by lia. change (base ^ Z.of_nat 1) with (base ^ 1). rewrite Z.pow_1_r.
    pose proof (Z.div_mod n base). lia.
Qed.

Lemma digits_length fuel m n :
  0 <= n < base ^ Z.of_nat m -> (0 < m)%nat -> (length (digits fuel base n) <= m)%nat.
Proof.
  revert m n. induction fuel as [|fuel IH]; intros m n Hn Hm; cbn [digits]; [simpl; lia|].
  case_decide; [simpl; lia|]. destruct m as [|[|m]]; [lia|simpl in Hn; lia|].
  assert (Hd := div_pow_lt n base (S m) ltac:(lia) ltac:(lia)).
  assert (0 <= n / base) by (apply Z.div_pos; lia).
  rewrite length_app. specialize (IH (S m) (n / base) ltac:(lia) ltac:(lia)). simpl in *. lia.
Qed.

Lemma digits_cons fuel n : (0 < fuel)%nat -> exists c t, digits fuel base n = c :: t.
Proof.
  destruct fuel as [|fuel]; [lia|]. intros _. cbn [digits]. case_decide; [eauto|].
  destruct (digits fuel base (n / base)); simpl; eauto.
Qed.

Lemma digits_head fuel n :
  1 <= n < base ^ Z.of_nat fuel -> head (digits fuel base n) <> Some "0"%char.
Proof.
  revert n. induction fuel as [|fuel IH]; intros n Hn; cbn [digits]; [done|].
  case_decide.
  - simpl. intros E. injection E as E. revert E. apply digit_char_ne; [lia|lia|by right].
  - assert (Hd := div_pow_lt n base fuel ltac:(lia) ltac:(lia)).
    assert (1 <= n / base) by (apply Z.div_le_lower_bound; lia).
    destruct fuel as [|fuel]; [simpl in *; lia|].
    destruct (digits_cons (S fuel) (n / base) ltac:(lia)) as (c & t & E).
    specialize (IH (n / base) ltac:(lia)). by rewrite E in *.
Qed.

Lemma digits_chars fuel n :
  0 <= n -> Forall (fun c => exists d, 0 <= d < 16 /\ c = digit_char d) (digits fuel base n).
Proof.
  revert n. induction fuel as [|fuel IH]; intros n Hn; cbn [digits]; [done|].
  case_decide; [repeat constructor; exists n; split; [lia|done]|].
  apply Forall_app. split; [apply IH, Z.div_pos; lia|]. repeat constructor.
  eexists. split; [|done]. pose proof (Z.mod_pos_bound n base). lia.
Qed.

(** The text does not go on with a digit. *)
Definition stops (p : Text) : Prop := match p with c :: _ => to_digit base c = None | [] => True end.

Lemma read_digits_stops acc count p : stops p -> read_digits base acc count p = (acc, count, p).
Proof. destruct p; simpl; [done|]. by intros ->. Qed.

Lemma read_number_digits fuel allow limit n p :
  (0 < fuel)%nat -> 0 <= n < base ^ Z.of_nat fuel -> n < limit -> stops p ->
  read_number base fuel allow limit (digits fuel base n ++ p) = Some (n, p).
Proof.
  intros Hf Hn Hl Hp. unfold read_number. rewrite read_digits_app, read_digits_stops by done.
  assert (Hlen := digits_length fuel fuel n Hn Hf).
  destruct (digits_cons fuel n Hf) as (c & t & E).
  rewrite decide_False by lia. rewrite decide_False by (rewrite E; simpl; lia).
  rewrite Z.mul_0_l, Z.add_0_l, Nat.add_0_l. rewrite (decide_True (P := n < limit)) by done.
  assert (bool_decide (head (digits fuel base n ++ p) = Some "0"%char)
    && bool_decide (1 < length (digits fuel base n))%nat = false) as Hz.
  { destruct (decide (n = 0)) as [->|Hn0].
    - destruct fuel; [lia|]. cbn [digits]. rewrite decide_True by lia. by rewrite andb_false_r.
    - rewrite bool_decide_false; [done|]. assert (Hh := digits_head fuel n ltac:(lia)). by rewrite E in *. }
  by rewrite <- andb_assoc, Hz, andb_false_r.
Qed.
End Digits.

(** ** Addresses read back *)
Definition tail_text (sep : ascii) (ss : list Text) : Text := concat (map (cons sep) ss).

Lemma join_with_cons sep s ss : join_with sep (s :: ss) = s ++ tail_text sep ss.
Proof.
  revert s. induction ss as [|t ss IH]; intros s; [by rewrite app_nil_r|].
  change (join_with sep (s :: t :: ss)) with (s ++ sep :: join_with sep (t :: ss)). by rewrite IH.
Qed.

Lemma in_width_octet o : in_width 8 o -> 0 <= o < 10 ^ Z.of_nat 3 /\ o < 256.
Proof. unfold in_width. lia. Qed.
Lemma in_width_group g : in_width 16 g -> 0 <= g < 16 ^ Z.of_nat 4 /\ g < 65536.
Proof. unfold in_width. lia. Qed.

Lemma read_given_char_same c p : read_given_char c (c :: p) = Some p.
Proof. unfold read_given_char. by rewrite decide_True. Qed.

Lemma read_separator_next {A} sep (inner : Text -> option (A * Text)) p :
  read_separator sep false inner (sep :: p) = inner p.
Proof. unfold read_separator. by rewrite read_given_char_same. Qed.

Lemma read_octets_tail os p :
  Forall (in_width 8) os -> stops 10 p ->
  read_octets (length os) false (tail_text "."%char (map (digits 3 10) os) ++ p) = Some (os, p).
Proof.
  intros Hos Hp. induction Hos as [|o os Ho Hos IH]; [done|]. apply in_width_octet in Ho as [Ho1 Ho2].
  unfold tail_text in *. cbn [length map read_octets concat]. rewrite <- app_assoc, <- app_comm_cons, read_separator_next.
  rewrite read_number_digits; [|lia|lia|done|done|by destruct os].
  cbn [mbind option_bind]. by rewrite IH.
Qed.

Lemma read_ipv4_text os p :
  wf_ip (V4 os) -> stops 10 p -> read_ipv4_addr (ipv4_to_string os ++ p) = Some (os, p).
Proof.
  intros [Hl Hos] Hp. unfold read_ipv4_addr, ipv4_to_string. rewrite <- Hl.
  destruct Hos as [|o os Ho Hos]; [done|]. apply in_width_octet in Ho as [Ho1 Ho2].
  cbn [map]. rewrite join_with_cons, <- app_assoc. cbn [length read_octets]. unfold read_separator at 1.
  rewrite read_number_digits; [|lia|lia|done|done|by destruct os].
  cbn [mbind option_bind]. by rewrite read_octets_tail.
Qed.

(** The text ends or goes on with a colon. *)
Definition colon_next (p : Text) : Prop := match p with c :: _ => c = ":"%char | [] => True end.

(** A colon before any dot keeps the text from being read as an IPv4 address. *)
Lemma read_digits_no_dot radix acc count h x :
  radix <= 16 -> Forall (fun c => c <> "."%char) h -> colon_next x ->
  head (read_digits radix acc count (h ++ x)).2 <> Some "."%char.
Proof.
  intros Hr Hh Hx. revert acc count. induction Hh as [|c h Hc Hh IH]; intros acc count; simpl.
  - destruct x as [|c x]; [done|]. simpl in *. subst c. unfold to_digit.
    change (code ":"%char) with 58. repeat case_decide; (lia || done).
  - destruct (to_digit radix c); [apply IH|]. simpl. congruence.
Qed.

Lemma read_octets_no_dot n p : head p <> Some "."%char -> read_octets (S n) false p = None.
Proof.
  intros Hp. cbn [read_octets]. destruct p as [|c p]; [done|].
  unfold read_separator, read_given_char. rewrite decide_False; [done|]. simpl in Hp. congruence.
Qed.

Lemma read_ipv4_none h x :
  Forall (fun c => c <> "."%char) h -> colon_next x -> read_ipv4_addr (h ++ x) = None.
Proof.
  intros Hh Hx. unfold read_ipv4_addr.
  change (read_octets 4 true (h ++ x))
    with ('(o, p) ← read_number 10 3 false 256 (h ++ x); '(os, p) ← read_octets 3 false p; Some (o :: os, p)).
  assert (H := read_digits_no_dot 10 0 0 h x ltac:(lia) Hh Hx). unfold read_number.
  destruct (read_digits 10 0 0 (h ++ x)) as [[v k] r]. simpl in H.
  repeat (case_decide || case_match); simplify_eq; try done;
    cbn [mbind option_bind]; by rewrite read_octets_no_dot.
Qed.

(** No further group can be read: the text ends, or has the two colons of the omitted zeros. *)
Definition blocked (p : Text) : Prop := p = [] \/ exists r, p = ":"%char :: ":"%char :: r.

Lemma blocked_colon p : blocked p -> colon_next p.
Proof. by intros [->|[r ->]]. Qed.

Lemma blocked_number first p : blocked p -> read_separator ":"%char first (read_number 16 4 true 65536) p = None.
Proof. by intros [->|[r ->]]; destruct first. Qed.

Lemma blocked_ipv4 first p : blocked p -> read_separator ":"%char first read_ipv4_addr p = None.
Proof. by intros [->|[r ->]]; destruct first. Qed.

Lemma hex_no_dot g : 0 <= g -> Forall (fun c => c <> "."%char) (digits 4 16 g).
Proof.
  intros Hg. eapply Forall_impl; [by apply digits_chars|]. intros c (d & Hd & ->).
  apply digit_char_ne; [done|done|by left].
Qed.

Lemma read_groups_blocked limit first p : blocked p -> read_groups limit first p = ([], false, p).
Proof.
  intros Hp. destruct limit as [|limit]; [done|]. cbn [read_groups].
  rewrite blocked_ipv4, blocked_number by done. by case_decide.
Qed.

Lemma tail_colon_next gs p : colon_next p -> colon_next (tail_text ":"%char gs ++ p).
Proof. by destruct gs. Qed.

Lemma colon_stops p : colon_next p -> stops 16 p.
Proof. destruct p; simpl; [done|]. by intros ->. Qed.

(** One group, read by the body of the loop. *)
Lemma read_groups_one limit first g p :
  in_width 16 g -> colon_next p ->
  read_groups (S limit) first ((if first then [] else [":"%char]) ++ digits 4 16 g ++ p)
  = let '(gs, ipv4, rest) := read_groups limit false p in (g :: gs, ipv4, rest).
Proof.
  intros Hg Hp. apply in_width_group in Hg as [Hg1 Hg2]. cbn [read_groups].
  assert (forall A (inner : Text -> option (A * Text)) q,
    read_separator ":"%char first inner ((if first then [] else [":"%char]) ++ q) = inner q) as Hsep
    by (intros; destruct first; [done|apply read_separator_next]).
  rewrite !Hsep, read_ipv4_none by (done || apply hex_no_dot; lia).
  rewrite read_number_digits by (lia || done || by apply colon_stops). by case_decide.
Qed.

Lemma read_groups_tail limit gs p :
  Forall (in_width 16) gs -> (length gs <= limit)%nat -> blocked p ->
  read_groups limit false (tail_text ":"%char (map (digits 4 16) gs) ++ p) = (gs, false, p).
Proof.
  intros Hgs. revert limit. induction Hgs as [|g gs Hg Hgs IH]; intros limit Hl Hp.
  { by apply read_groups_blocked. }
  destruct limit as [|limit]; [simpl in Hl; lia|]. unfold tail_text in *. cbn [map concat].
  rewrite <- app_assoc, <- app_comm_cons. etransitivity; [apply (read_groups_one limit false g); [done|]|].
  - apply tail_colon_next. by apply blocked_colon.
  - rewrite IH; [done| |done]. simpl in Hl. lia.
Qed.

Lemma read_groups_text limit gs p :
  Forall (in_width 16) gs -> (length gs <= limit)%nat -> blocked p ->
  read_groups limit true (fmt_subslice gs ++ p) = (gs, false, p).
Proof.
  intros Hgs Hl Hp. destruct Hgs as [|g gs Hg Hgs]; [by apply read_groups_blocked|].
  destruct limit as [|limit]; [simpl in Hl; lia|]. unfold fmt_subslice. cbn [map].
  rewrite join_with_cons, <- app_assoc. etransitivity; [apply (read_groups_one limit true g); [done|]|].
  - apply tail_colon_next. by apply blocked_colon.
  - rewrite read_groups_tail; [done|done| |done]. simpl in Hl. lia.
Qed.

Lemma fmt_not_ipv4 gs p :
  Forall (in_width 16) gs -> colon_next p -> read_ipv4_addr (fmt_subslice gs ++ p) = None.
Proof.
  intros Hgs Hp. destruct Hgs as [|g gs Hg Hgs]; [by apply (read_ipv4_none [])|].
  unfold fmt_subslice. cbn [map]. rewrite join_with_cons, <- app_assoc.
  apply read_ipv4_none; [|by apply tail_colon_next]. apply hex_no_dot. unfold in_width in Hg. lia.
Qed.

(** ** The run of zeros that is left out *)
Definition zero_span (segments : list u16) (span : nat * nat) : Prop :=
  exists pre post, segments = pre ++ replicate span.2 0 ++ post /\ (0 < span.2 -> length pre = span.1)%nat.

Lemma zero_span_app segments s span : zero_span segments span -> zero_span (segments ++ [s]) span.
Proof.
  intros (pre & post & -> & Hl). exists pre, (post ++ [s]). by rewrite <- !app_assoc.
Qed.

Lemma longest_zeroes_span done current longest segments :
  (exists pre, done = pre ++ replicate current.2 0 /\ (0 < current.2 -> length pre = current.1)%nat) ->
  zero_span done longest ->
  zero_span (done ++ segments) (longest_zeroes (length done) current longest segments).
Proof.
  revert done current longest. induction segments as [|s segments IH]; intros done current longest Hc Hl;
    cbn [longest_zeroes]; [by rewrite app_nil_r|].
  replace (S (length done)) with (length (done ++ [s])) by (rewrite length_app; simpl; lia).
  replace (done ++ s :: segments) with ((done ++ [s]) ++ segments) by by rewrite <- app_assoc.
  case_decide as Hs; [subst s|].
  - set (current' := if decide (current.2 = 0)%nat then _ else _).
    assert (exists pre, done ++ [0] = pre ++ replicate current'.2 0
      /\ (0 < current'.2 -> length pre = current'.1)%nat) as Hc'.
    { destruct Hc as (pre & -> & Hpre). exists pre. subst current'. case_decide as H0.
      - rewrite H0 in *. simpl. rewrite length_app. simpl. split; [by rewrite app_nil_r|lia].
      - rewrite <- app_assoc. simpl snd. rewrite replicate_S_end. split; [done|]. intros _. apply Hpre. lia. }
    apply IH; [done|]. case_decide; [|by apply zero_span_app].
    destruct Hc' as (pre & E & Hpre). exists pre, []. by rewrite app_nil_r.
  - apply IH; [|by apply zero_span_app]. exists (done ++ [s]). simpl. split; [by rewrite app_nil_r|lia].
Qed.

Lemma longest_zeroes_split segments start len :
  longest_zeroes 0 (0, 0)%nat (0, 0)%nat segments = (start, len) -> (1 < len)%nat ->
  segments = take start segments ++ replicate len 0 ++ drop (start + len) segments
  /\ (start + len <= length segments)%nat.
Proof.
  intros E Hlen. destruct (longest_zeroes_span [] (0, 0)%nat (0, 0)%nat segments) as (pre & post & Es & Hp).
  { by exists []. }
  { by exists [], []. }
  simpl in *. rewrite E in *. simpl in *. specialize (Hp ltac:(lia)). subst segments start.
  rewrite take_app_length, <- drop_drop, drop_app_length, drop_app_length' by by rewrite length_replicate.
  split; [done|]. rewrite !length_app, length_replicate. lia.
Qed.

Lemma read_ipv6_mapped octets :
  wf_ip (V4 octets) ->
  read_ipv6_addr (str "::ffff:" ++ ipv4_to_string octets)
  = match octets with
    | [one; two; three; four] => Some (replicate 5 0 ++ [65535; one * 256 + two; three * 256 + four], [])
    | _ => None
    end.
Proof.
  intros Hw. unfold read_ipv6_addr. rewrite (read_groups_blocked 8 true) by (right; by eexists).
  rewrite decide_False by done.
  change (str "::ffff:" ++ ipv4_to_string octets)
    with (":"%char :: ":"%char :: digits 4 16 65535 ++ ":"%char :: ipv4_to_string octets).
  rewrite read_given_char_same. cbn [mbind option_bind]. rewrite read_given_char_same. cbn [mbind option_bind].
  assert (E := read_groups_one 6 true 65535 (":"%char :: ipv4_to_string octets) ltac:(done) eq_refl).
  change ((if true then [] else [":"%char]) ++ ?p) with p in E. change (7 - length [])%nat with 7%nat. rewrite E. clear E.
  change (read_groups 6 false (":"%char :: ipv4_to_string octets))
    with (match read_separator ":"%char false read_ipv4_addr (":"%char :: ipv4_to_string octets) with
      | Some ([one; two; three; four], rest) => ([one * 256 + two; three * 256 + four], true, rest)
      | _ =>
          match read_separator ":"%char false (read_number 16 4 true 65536) (":"%char :: ipv4_to_string octets) with
          | Some (g, rest) => let '(gs, ipv4, rest) := read_groups 5 false rest in (g :: gs, ipv4, rest)
          | None => ([], false, ":"%char :: ipv4_to_string octets)
          end
      end).
  rewrite read_separator_next.
  assert (E := read_ipv4_text octets [] Hw I). rewrite app_nil_r in E. rewrite E.
  destruct Hw as [Hl _]. by destruct octets as [|a [|b [|c [|d [|]]]]].
Qed.

Lemma div_mod_octets ab : in_width 16 ab -> in_width 8 (ab / 256) /\ in_width 8 (ab mod 256) /\ ab / 256 * 256 + ab mod 256 = ab.
Proof.
  unfold in_width. intros H. pose proof (Z.mod_pos_bound ab 256). pose proof (Z.div_mod ab 256).
  assert (0 <= ab / 256 < 256) by (split; [apply Z.div_pos|apply Z.div_lt_upper_bound]; lia). lia.
Qed.

Lemma to_ipv4_mapped_Some segments ipv4 :
  wf_ip (V6 segments) -> to_ipv4_mapped segments = Some ipv4 ->
  exists ab cd, segments = replicate 5 0 ++ [65535; ab; cd] /\ in_width 16 ab /\ in_width 16 cd
    /\ ipv4 = [ab / 256; ab mod 256; cd / 256; cd mod 256].
Proof.
  intros [Hl Hw] E. destruct segments as [|a [|b [|c [|d [|e [|f [|ab [|cd [|]]]]]]]]]; try done.
  unfold to_ipv4_mapped in E. case_decide as H; [|done]. destruct H as [H ->]. simpl in H. simplify_eq.
  exists ab, cd. decompose_Forall_hyps. done.
Qed.

Lemma read_ipv6_text segments : wf_ip (V6 segments) -> IpAddr_from_str (ipv6_to_string segments) = Some (V6 segments).
Proof.
  intros Hw. unfold IpAddr_from_str, ipv6_to_string. destruct (to_ipv4_mapped segments) as [ipv4|] eqn:Em.
  - destruct (to_ipv4_mapped_Some _ _ Hw Em) as (ab & cd & -> & Hab & Hcd & ->).
    apply div_mod_octets in Hab as (? & ? & Hab). apply div_mod_octets in Hcd as (? & ? & Hcd).
    rewrite read_ipv6_mapped, Hab, Hcd by (split; [done|by rewrite !Forall_cons]).
    assert (read_ipv4_addr (str "::ffff:" ++ ipv4_to_string [ab / 256; ab mod 256; cd / 256; cd mod 256]) = None) as ->
      by (apply (read_ipv4_none []); done).
    by rewrite decide_True.
  - destruct Hw as [Hl Hw]. destruct (longest_zeroes 0 _ _ segments) as [start len] eqn:Ez.
    case_decide as Hlen.
    + destruct (longest_zeroes_split _ _ _ Ez Hlen) as [Es Hle].
      assert (Forall (in_width 16) (take start segments)) as Ht by by apply Forall_take.
      assert (Forall (in_width 16) (drop (start + len) segments)) as Hd by by apply Forall_drop.
      rewrite fmt_not_ipv4 by done. unfold read_ipv6_addr.
      rewrite read_groups_text; [|done|rewrite length_take; lia|right; by eexists].
      rewrite decide_False by (rewrite length_take; lia). unfold read_given_char. simpl.
      assert (E := read_groups_text (7 - length (take start segments)) _ [] Hd
        ltac:(rewrite length_take, length_drop; lia) ltac:(by left)).
      rewrite app_nil_r in E. rewrite E. rewrite decide_True by done. do 2 f_equal.
      rewrite length_take, length_drop. by replace (8 - _ - _)%nat with len by lia.
    + assert (E := fmt_not_ipv4 segments [] Hw I). rewrite app_nil_r in E. rewrite E. unfold read_ipv6_addr.
      assert (E' := read_groups_text 8 segments [] Hw ltac:(lia) ltac:(by left)). rewrite app_nil_r in E'.
      by rewrite E', decide_True.
Qed.

Lemma IpAddr_text ip : wf_ip ip -> IpAddr_from_str (IpAddr_to_string ip) = Some ip.
Proof.
  destruct ip as [octets|segments]; intros Hw; [|by apply read_ipv6_text]. unfold IpAddr_from_str. cbn [IpAddr_to_string].
  assert (E := read_ipv4_text octets [] Hw I). rewrite app_nil_r in E. by rewrite E, decide_True.
Qed.

(** ** What parses is an address *)
Lemma to_digit_range radix c d : to_digit radix c = Some d -> 0 <= d < radix.
Proof. unfold to_digit. repeat case_decide; intros; simplify_eq; lia. Qed.

Lemma read_digits_nonneg radix acc count p : 0 <= radix -> 0 <= acc -> 0 <= (read_digits radix acc count p).1.1.
Proof.
  intros Hr. revert acc count. induction p as [|c p IH]; intros acc count Ha; simpl; [done|].
  destruct (to_digit radix c) as [d|] eqn:E; [|done]. apply to_digit_range in E. apply IH. nia.
Qed.

Lemma read_number_range radix m allow limit p v r :
  0 <= radix -> read_number radix m allow limit p = Some (v, r) -> 0 <= v < limit.
Proof.
  intros Hr. unfold read_number. assert (H := read_digits_nonneg radix 0 0 p Hr ltac:(lia)).
  destruct (read_digits radix 0 0 p) as [[v' k] r']. repeat (case_decide || case_match); intros; simplify_eq/=; lia.
Qed.

Lemma read_separator_inv {A} sep first (inner : Text -> option (A * Text)) p x :
  read_separator sep first inner p = Some x -> exists q, inner q = Some x.
Proof. unfold read_separator. destruct first; [eauto|]. destruct (read_given_char sep p); simpl; [eauto|done]. Qed.

Lemma read_octets_wf n first p os r :
  read_octets n first p = Some (os, r) -> length os = n /\ Forall (in_width 8) os.
Proof.
  revert first p os r. induction n as [|n IH]; intros first p os r E; cbn [read_octets] in E; [by simplify_eq|].
  destruct (read_separator _ _ _ _) as [[o q]|] eqn:Eo; [|done]. cbn [mbind option_bind] in E.
  destruct (read_octets n false q) as [[os' q']|] eqn:Eos; [|done]. simplify_eq/=.
  apply read_separator_inv in Eo as [q'' Eo]. apply read_number_range in Eo; [|lia].
  destruct (IH _ _ _ _ Eos) as [-> Hos]. split; [done|]. constructor; [done|done].
Qed.

Lemma read_groups_wf limit first p :
  (length (read_groups limit first p).1.1 <= limit)%nat /\ Forall (in_width 16) (read_groups limit first p).1.1.
Proof.
  revert first p. induction limit as [|limit IH]; intros first p; cbn [read_groups]; [by split|].
  assert (Hnum : let r := match read_separator ":"%char first (read_number 16 4 true 65536) p with
      | Some (g, rest) => let '(gs, ipv4, rest) := read_groups limit false rest in (g :: gs, ipv4, rest)
      | None => ([], false, p)
      end in (length r.1.1 <= S limit)%nat /\ Forall (in_width 16) r.1.1).
  { destruct (read_separator _ _ _ _) as [[g rest]|] eqn:Eg; simpl; [|split; [lia|constructor]].
    apply read_separator_inv in Eg as [q Eg]. apply read_number_range in Eg; [|lia]. specialize (IH false rest).
    destruct (read_groups limit false rest) as [[gs v4] r]. simpl in *. split; [lia|]. constructor; [unfold in_width; lia|apply IH]. }
  case_decide as Hl; [done|]. destruct (read_separator _ _ read_ipv4_addr _) as [[os rest]|] eqn:Eo; [|done].
  apply read_separator_inv in Eo as [q Eo]. apply read_octets_wf in Eo as [Hlen Hos].
  destruct os as [|a [|b [|c [|d [|]]]]]; try done. simpl. split; [lia|]. decompose_Forall_hyps.
  unfold in_width in *. repeat constructor; lia.
Qed.

Lemma IpAddr_from_str_wf p ip : IpAddr_from_str p = Some ip -> wf_ip ip.
Proof.
  unfold IpAddr_from_str. destruct (read_ipv4_addr p) as [[os r]|] eqn:E4.
  { case_decide; [|done]. intros; simplify_eq. by eapply read_octets_wf. }
  unfold read_ipv6_addr. assert (Hf := read_groups_wf 8 true p).
  destruct (read_groups 8 true p) as [[front v4] r]. simpl in Hf. destruct Hf as [Hfl Hf].
  case_decide as Hl.
  { case_decide; [|done]. intros; by simplify_eq. }
  destruct v4; [done|]. destruct (read_given_char _ r) as [r1|]; simpl; [|done].
  destruct (read_given_char _ r1) as [r2|]; simpl; [|done].
  assert (Hb := read_groups_wf (7 - length front) true r2).
  destruct (read_groups (7 - length front) true r2) as [[back v4] r3]. simpl in Hb. destruct Hb as [Hbl Hb].
  case_decide; [|done]. intros; simplify_eq. split.
  - rewrite !length_app, length_replicate. lia.
  - rewrite !Forall_app. split_and!; [done| |done]. by apply Forall_replicate.
Qed.

(** ** The header read back *)
Lemma split_on_join_with f sep ss :
  f sep = true -> ss <> [] -> Forall (Forall (fun c => f c = false)) ss -> split_on f (join_with sep ss) = ss.
Proof.
  intros Hf Hne Hss. induction Hss as [|s ss Hs Hss IH]; [done|].
  destruct ss as [|t ss]; [by apply split_on_clean|].
  change (join_with sep (s :: t :: ss)) with (s ++ sep :: join_with sep (t :: ss)).
  rewrite split_on_app by done. f_equal. by apply IH.
Qed.

Definition not_comma (c : ascii) : Prop := bool_decide (c = COMMA) = false.

Lemma join_with_chars sep ss (P : ascii -> Prop) : P sep -> Forall (Forall P) ss -> Forall P (join_with sep ss).
Proof.
  intros Hsep Hss. induction Hss as [|s ss Hs Hss IH]; [constructor|]. rewrite join_with_cons.
  apply Forall_app. split; [done|]. destruct ss as [|t ss]; [constructor|].
  rewrite join_with_cons in IH. by constructor.
Qed.

(** The characters of an address are digits, dots and colons. *)
Section Chars.
  Context (P : ascii -> Prop) (Hdot : P "."%char) (Hcolon : P ":"%char) (Hdigit : forall d, 0 <= d < 16 -> P (digit_char d)).

Lemma joined_chars sep fuel base w ns :
  P sep -> 2 <= base <= 16 -> Forall (in_width w) ns -> Forall P (join_with sep (map (digits fuel base) ns)).
Proof using Hdigit.
  intros Hs Hb Hns. apply join_with_chars; [done|]. apply Forall_map. eapply Forall_impl; [exact Hns|].
  intros n Hn. unfold in_width in Hn. eapply Forall_impl; [apply digits_chars; [done|lia]|].
  intros c (d & Hd & ->). by apply Hdigit.
Qed.

Lemma IpAddr_chars ip : wf_ip ip -> Forall P (IpAddr_to_string ip).
Proof using Type*.
  assert (Hf : P "f"%char) by exact (Hdigit 15 ltac:(lia)).
  destruct ip as [octets|segments]; intros [Hl Hw]; [by eapply joined_chars|].
  cbn [IpAddr_to_string]. unfold ipv6_to_string. destruct (to_ipv4_mapped segments) as [ipv4|] eqn:Em.
  - destruct (to_ipv4_mapped_Some _ _ (conj Hl Hw) Em) as (ab & cd & -> & Hab & Hcd & ->).
    apply div_mod_octets in Hab as (? & ? & _). apply div_mod_octets in Hcd as (? & ? & _).
    apply Forall_app. split; [by repeat constructor|].
    apply (joined_chars _ _ _ 8); [done|done|by rewrite !Forall_cons].
  - destruct (longest_zeroes 0 _ _ segments) as [start len]. case_decide; [|by eapply joined_chars].
    rewrite !Forall_app. split; [|split; [by repeat constructor|]];
      eapply joined_chars; [done|done|by apply Forall_take|done|done|by apply Forall_drop].
Qed.
End Chars.

Lemma IpAddr_not_comma ip : wf_ip ip -> Forall not_comma (IpAddr_to_string ip).
Proof.
  apply IpAddr_chars; [done|done|]. intros d Hd. apply bool_decide_eq_false, digit_char_ne; [done|done|by left].
Qed.

(** A name that the header can carry. *)
Definition header_domain (d : Text) : Prop := Forall not_comma d /\ IpAddr_from_str d = None.

Lemma deserialize_domains ips ds ds' :
  Forall header_domain ds' ->
  fold_left push_item ds' (ips, ds) = (ips, ds ++ ds').
Proof.
  intros H. revert ds. induction H as [|d ds' [_ Hd] H IH]; intros ds; simpl; [by rewrite app_nil_r|].
  rewrite Hd, IH. by rewrite <- app_assoc.
Qed.

Lemma deserialize_ips ips ips' rest :
  Forall wf_ip ips' ->
  fold_left push_item (map IpAddr_to_string ips' ++ rest) (ips, [] : list Text)
  = fold_left push_item rest (ips ++ ips', []).
Proof.
  intros H. revert ips. induction H as [|ip ips' Hip H IH]; intros ips; simpl; [by rewrite app_nil_r|].
  rewrite IpAddr_text, IH by done. by rewrite <- app_assoc.
Qed.

Lemma run_header ip_addrs domains :
  Forall wf_ip ip_addrs -> Forall header_domain domains -> ip_addrs <> [] \/ domains <> [] ->
  deserialize_header (serialize_header ip_addrs domains) = (ip_addrs, domains).
Proof.
  intros Hi Hd Hne. unfold deserialize_header, serialize_header. rewrite split_on_join_with.
  - by rewrite deserialize_ips, deserialize_domains.
  - done.
  - destruct ip_addrs; [|done]. destruct Hne; done.
  - apply Forall_app. split; [apply Forall_map|]; (eapply Forall_impl; [eassumption|]); [apply IpAddr_not_comma|by intros d []].
Qed.

(** C36: a header carries the addresses and names of a certificate request; the request with none of
    them is read back as one with the empty name. *)
Theorem header_roundtrip ip_addrs domains :
  Forall wf_ip ip_addrs -> Forall header_domain domains ->
  deserialize_header (serialize_header ip_addrs domains)
  = if decide (ip_addrs = [] /\ domains = []) then ([], [[]]) else (ip_addrs, domains).
Proof.
  intros Hi Hd. case_decide as H; [by destruct H as [-> ->]|].
  apply run_header; [done|done|]. destruct ip_addrs; [|by left]. destruct domains; [|by right]. by destruct H.
Qed.

Lemma header_roundtrip_witness :
  deserialize_header (str "10.0.0.7,fe80::1,::ffff:1.2.3.4,::,node.example.com")
  = ([V4 [10; 0; 0; 7]; V6 [65152; 0; 0; 0; 0; 0; 0; 1]; V6 [0; 0; 0; 0; 0; 65535; 258; 772]; V6 (replicate 8 0)],
     [str "node.example.com"]).
Proof.
  change (str "10.0.0.7,fe80::1,::ffff:1.2.3.4,::,node.example.com")
    with (serialize_header
      [V4 [10; 0; 0; 7]; V6 [65152; 0; 0; 0; 0; 0; 0; 1]; V6 [0; 0; 0; 0; 0; 65535; 258; 772]; V6 (replicate 8 0)]
      [str "node.example.com"]).
  rewrite header_roundtrip.
  - reflexivity.
  - repeat constructor; by apply (bool_decide_unpack _).
  - repeat constructor.
Defined.
