(* ===== verification/Config.v ===== *)
(** * Configuration

    [node/src/config], [controller/src/config] and [dashboard/src/dashboard_config.rs]: sizes
    as text, the files of the three services with their defaults, and the checks of a node's
    configuration before it starts.

    The YAML of [serde_yaml] and the free space that [heim] reports are arguments.  The texts
    are ASCII; the other white space and capitals of Unicode are not modelled. *)
From Stdlib Require Import ZArith Lia List Ascii.
From stdpp Require Import base numbers gmap list strings.
From S2P Require Import Prelude Errors Paths Addresses.
Local Open Scope Z_scope.

Inductive ConfigError : Type :=
| InvalidIpAddress | InvalidPort | CfgInsufficientDiskSpace | InvalidFragmentSize | InvalidSizeNumber | InvalidSizeUnit.

(** How a function ends without its result: it returns an error, or panics. *)
Inductive Abort (E : Type) : Type := Fails (e : E) | Panics.
Arguments Fails {E} e.
Arguments Panics {E}.

(** ** Sizes *)
Inductive SizeUnit : Type := Bytes | Kilobytes | Megabytes | Gigabytes | Terabytes | Petabytes | Exabytes.

(** The letters of ASCII in lower case. *)
Definition to_lower (c : ascii) : ascii :=
  if decide (65 <= code c <= 90) then ascii_of_N (Z.to_N (code c + 32)) else c.

Definition SizeUnit_from_str (input : Text) : option SizeUnit :=
  let input := map to_lower input in
  if decide (input = str "b") then Some Bytes
  else if decide (input = str "kb") then Some Kilobytes
  else if decide (input = str "mb") then Some Megabytes
  else if decide (input = str "gb") then Some Gigabytes
  else if decide (input = str "tb") then Some Terabytes
  else if decide (input = str "pt") then Some Petabytes
  else if decide (input = str "eb") then Some Exabytes
  else None.

Definition is_ascii_digit (c : ascii) : bool := bool_decide (48 <= code c <= 57).
Definition is_space (c : ascii) : bool := bool_decide (9 <= code c <= 13 \/ code c = 32).

Fixpoint drop_spaces (p : Text) : Text :=
  match p with c :: p' => if is_space c then drop_spaces p' else p | [] => [] end.

(** [str::trim] *)
Definition trim (p : Text) : Text := rev (drop_spaces (rev (drop_spaces p))).

(** [u64::from_str]: a sign is allowed, and the number has to fit. *)
Definition u64_from_str (p : Text) : option u64 :=
  let ds := match p with c :: p' => if decide (c = "+"%char) then p' else p | [] => [] end in
  let '(number, _, rest) := read_digits 10 0 0 ds in
  if decide (ds <> [] /\ rest = [] /\ number < 2 ^ 64) then Some number else None.

(** How often the number is multiplied by 1024. *)
Definition unit_power (unit : SizeUnit) : nat :=
  match unit with
  | Bytes => 0 | Kilobytes => 1 | Megabytes => 2 | Gigabytes => 3 | Terabytes => 4 | Petabytes => 5 | Exabytes => 6
  end.

Definition parse_size (size_str : Text) : result ConfigError u64 :=
  let size_str := trim size_str in
  let number_part := filter (fun c => is_ascii_digit c = true) size_str in
  let unit_part := filter (fun c => is_ascii_digit c = false) size_str in
  (number <-? ok_or (u64_from_str number_part) InvalidSizeNumber;
   unit <-? ok_or (SizeUnit_from_str unit_part) InvalidSizeUnit;
   Ok (Nat.iter (unit_power unit) (fun bytes => wrap 64 (bytes * 1024)) number))%meow.

(** ** The configuration of a node *)
Record NodeConfig : Type := mkNodeConfig {
  nc_cnc_addr : Text;
  nc_cnc_port : u16;
  nc_max_space : Text;
  nc_ca_certificate : Text;
  nc_net_fragment_size : u32;
  nc_external_server_bind_address : Text;
  nc_external_server_port : u16;
  nc_internal_server_bind_address : Text;
  nc_renewal_token_path : option Text;
  nc_broadcast_address : Text;
  nc_cert_addresses : list Text;
  nc_cert_domains : list Text;
  nc_ssl_certificate : option Text;
  nc_ssl_private_key : option Text;
  nc_data_save_path : Text;
  nc_database_nodes : list Text;
  nc_db_username : Text;
  nc_db_password : Text;
  nc_keyspace : Text;
  nc_heart_beat_interval_seconds : u64
}.

Record NodeConfigInstance : Type := mkNodeConfigInstance {
  ni_cnc_addr : Text;
  ni_cnc_port : u16;
  ni_max_space : u64;
  ni_ca_certificate : Text;
  ni_external_server_bind_address : Text;
  ni_external_server_port : u16;
  ni_internal_server_bind_address : IpAddr;
  ni_broadcast_address : Text;
  ni_cert_addresses : list IpAddr;
  ni_cert_domains : list Text;
  ni_ssl_certificate : option Text;
  ni_ssl_private_key : option Text;
  ni_renewal_token_path : option Text;
  ni_data_save_path : Text;
  ni_net_fragment_size : u32;
  ni_database_nodes : list Text;
  ni_db_username : Text;
  ni_db_password : Text;
  ni_keyspace : Text;
  ni_heart_beat_interval_seconds : u64
}.

Definition MIN_STORAGE_VALUE : u64 := 100 * 1024 * 1024.
Definition MAX_CHUNK_SIZE : u64 := 16 * 1024 * 1024.

Record SpaceUsage : Type := mkSpaceUsage { su_total : u64; su_used : u64; su_free : u64 }.

(** [IpAddr::from_str(..).unwrap()] *)
Definition unwrap_ip {E} (addr : Text) : result (Abort E) IpAddr := ok_or (IpAddr_from_str addr) Panics.

Fixpoint unwrap_ips {E} (addrs : list Text) : result (Abort E) (list IpAddr) :=
  match addrs with
  | [] => Ok []
  | addr :: addrs => (ip <-? unwrap_ip addr; ips <-? unwrap_ips addrs; Ok (ip :: ips))%meow
  end.

Definition with_slash (path : Text) : Text := if decide (last path = Some SLASH) then path else path ++ [SLASH].

(** [ensure b e]: [if !b { return Err(e) }] *)
Definition ensure {E} (P : Prop) `{Decision P} (e : E) : result (Abort E) unit :=
  if decide P then Ok tt else Err (Fails e).

(** [get_space]: the file system that holds a path, if it can be asked. *)
Definition validate_config (get_space : Text -> option SpaceUsage) (self : NodeConfig)
    : result (Abort ConfigError) NodeConfigInstance :=
  (_ <-? ensure (nc_cnc_port self <> 0) InvalidPort;
   _ <-? ensure (IpAddr_from_str (nc_external_server_bind_address self) <> None) InvalidIpAddress;
   _ <-? ensure (IpAddr_from_str (nc_internal_server_bind_address self) <> None) InvalidIpAddress;
   _ <-? ensure (nc_external_server_port self <> 0) InvalidPort;
   _ <-? ensure (nc_net_fragment_size self <= wrap 32 MAX_CHUNK_SIZE) InvalidFragmentSize;
   max_space_bytes <-? map_err Fails (parse_size (nc_max_space self));
   available_space <-? ok_or (get_space (nc_data_save_path self)) Panics;
   let requested_space := Z.max MIN_STORAGE_VALUE max_space_bytes in
   _ <-? ensure (requested_space <= su_total available_space) CfgInsufficientDiskSpace;
   internal_server_bind_address <-? unwrap_ip (nc_internal_server_bind_address self);
   cert_addresses <-? unwrap_ips (nc_cert_addresses self);
   Ok (mkNodeConfigInstance (nc_cnc_addr self) (nc_cnc_port self) max_space_bytes (nc_ca_certificate self)
         (nc_external_server_bind_address self) (nc_external_server_port self) internal_server_bind_address
         (nc_broadcast_address self) cert_addresses (nc_cert_domains self) (nc_ssl_certificate self)
         (nc_ssl_private_key self) None (with_slash (nc_data_save_path self)) (nc_net_fragment_size self)
         (nc_database_nodes self) (nc_db_username self) (nc_db_password self) (nc_keyspace self)
         (nc_heart_beat_interval_seconds self)))%meow.

(** ** The configuration files *)
Record PortConfiguration : Type := mkPorts {
  pc_internal_server_port : u16; pc_mdsftp_server_port : u16; pc_mgpp_server_port : u16
}.
Record CatIdAppConfiguration : Type := mkCatId { ca_app_id : Text; ca_secret : Text; ca_catid_url : Text }.
Record AccessTokenConfiguration : Type := mkTokenConfig { tc_token_validity : u64; tc_secret : Text }.

Record GeneralConfiguration : Type := mkGeneral {
  gc_port_configuration : PortConfiguration;
  gc_access_token_configuration : AccessTokenConfiguration;
  gc_max_readers : u32;
  gc_default_user_quota : u64;
  gc_login_methods : list Text;
  gc_cat_id_config : option CatIdAppConfiguration;
  gc_fs_limits : FsLimitConfiguration
}.

Definition GeneralConfiguration_new : GeneralConfiguration :=
  mkGeneral (mkPorts 21100 21101 21102) (mkTokenConfig 999999999999 []) 2048 (15 * 1024 * 1024 * 1024)
    [str "BASIC"] None FsLimitConfiguration_new.

Record ControllerConfig : Type := mkControllerConfig {
  cc_discovery_addr : Text;
  cc_discovery_port : u16;
  cc_controller_addr : Text;
  cc_controller_port : u16;
  cc_setup_addr : Text;
  cc_setup_port : u16;
  cc_ssl_certificate : option Text;
  cc_ssl_private_key : option Text;
  cc_ca_certificate : Text;
  cc_ca_private_key : Text;
  cc_ca_private_key_password : option Text;
  cc_autogen_ssl_validity : u32;
  cc_internal_ip_addrs : list IpAddr;
  cc_internal_domains : list Text;
  cc_database_nodes : list Text;
  cc_db_username : Text;
  cc_keyspace : Text;
  cc_db_password : Text;
  cc_general_configuration : GeneralConfiguration
}.

Record DashboardConfig : Type := mkDashboardConfig {
  dc_cnc_addr : Text;
  dc_cnc_port : u16;
  dc_ca_certificate : Text;
  dc_external_server_bind_address : Text;
  dc_external_server_port : u16;
  dc_broadcast_address : Text;
  dc_cert_addresses : list Text;
  dc_cert_domains : list Text;
  dc_renewal_token_path : option Text;
  dc_ssl_certificate : option Text;
  dc_ssl_private_key : option Text;
  dc_database_nodes : list Text;
  dc_db_username : Text;
  dc_db_password : Text;
  dc_keyspace : Text;
  dc_heart_beat_interval_seconds : u64
}.

Definition LOCALHOST : Text := str "127.0.0.1".

Definition NodeConfig_default : NodeConfig :=
  mkNodeConfig LOCALHOST 8090 (str "100mb") (str "ca_cert.pem") (256 * 1024) LOCALHOST 8080 LOCALHOST None LOCALHOST
    [LOCALHOST] [] None None (str "/var/meowith/data/") [LOCALHOST] (str "cassandra") (str "cassandra") (str "meowith") 60.

Definition ControllerConfig_default : ControllerConfig :=
  mkControllerConfig LOCALHOST 8090 LOCALHOST 8080 LOCALHOST 8081 None None (str "ca_cert.pem") (str "ca_key.pem")
    (Some (str "my-password")) 30 [V4 [127; 0; 0; 1]] [] [LOCALHOST] (str "cassandra") (str "meowith") (str "cassandra")
    GeneralConfiguration_new.

Definition DashboardConfig_default : DashboardConfig :=
  mkDashboardConfig LOCALHOST 8090 (str "ca_cert.pem") LOCALHOST 8080 LOCALHOST [LOCALHOST] [] None None None
    [LOCALHOST] (str "cassandra") (str "cassandra") (str "meowith") 60.

(** The files of a machine: their texts, those that may not be opened, and whether there is
    room for more. *)
Record Disk : Type := mkDisk { dk_files : gmap Text Text; dk_denied : gset Text; dk_full : bool }.

Inductive FileError : Type := FileNotFound | FileDenied | YamlError.

(** [File::open] and [read_to_string], [fs::read_to_string] *)
Definition read_file (path : Text) : effect Disk FileError Text := fun dk =>
  if decide (path ∈ dk_denied dk) then (dk, Err FileDenied) else (dk, ok_or (dk_files dk !! path) FileNotFound).

Definition set_file (path contents : Text) (dk : Disk) : Disk :=
  mkDisk (<[path := contents]> (dk_files dk)) (dk_denied dk) (dk_full dk).

(** [OpenOptions] with [create] and [truncate] *)
Definition create_file (path : Text) : effect Disk FileError unit := fun dk =>
  if decide (path ∈ dk_denied dk) then (dk, Err FileDenied) else (set_file path [] dk, Ok tt).

Definition write_all (path contents : Text) : effect Disk FileError unit := fun dk =>
  if dk_full dk then (dk, Err FileDenied) else (set_file path contents dk, Ok tt).

(** [serde_yaml] for a type of configurations *)
Class Yaml (C : Type) := { yaml_to_string : C -> option Text; yaml_from_str : Text -> option C }.

(** [create_default] and [from_file], which the three configurations have alike. *)
Definition create_default {C} `{Yaml C} (default_config : C) (path : Text) : effect Disk FileError C :=
  create_file path;;
  default_config_yaml ← of_result (ok_or (yaml_to_string default_config) YamlError);
  write_all path default_config_yaml;;
  mret default_config.

Definition from_file {C} `{Yaml C} (default_config : C) (path : Text) : effect Disk FileError C :=
  file ← attempt (read_file path);
  match file with
  | Ok contents => of_result (ok_or (yaml_from_str contents) YamlError)
  | Err FileNotFound => create_default default_config path
  | Err e => throw e
  end.

Definition NodeConfig_from_file `{Yaml NodeConfig} := from_file NodeConfig_default.
Definition ControllerConfig_from_file `{Yaml ControllerConfig} := from_file ControllerConfig_default.
Definition DashboardConfig_from_file `{Yaml DashboardConfig} := from_file DashboardConfig_default.

(** ** Sizes mean what they say *)
Definition unit_name (unit : SizeUnit) : Text :=
  match unit with
  | Bytes => str "b" | Kilobytes => str "kb" | Megabytes => str "mb" | Gigabytes => str "gb"
  | Terabytes => str "tb" | Petabytes => str "pt" | Exabytes => str "eb"
  end.

Lemma SizeUnit_from_name unit text : map to_lower text = unit_name unit -> SizeUnit_from_str text = Some unit.
Proof. intros E. unfold SizeUnit_from_str. rewrite E. by destruct unit. Qed.

(** What is a digit or a space in lower case was one before. *)
Lemma to_lower_letter c : 97 <= code (to_lower c) <= 122 -> is_ascii_digit c = false /\ is_space c = false.
Proof.
  unfold to_lower, is_ascii_digit, is_space. intros H. case_decide as Hc.
  - split; apply bool_decide_eq_false; lia.
  - split; apply bool_decide_eq_false; lia.
Qed.

Lemma unit_letters unit text :
  map to_lower text = unit_name unit -> Forall (fun c => is_ascii_digit c = false /\ is_space c = false) text.
Proof.
  intros E. assert (H : Forall (fun c => 97 <= code c <= 122) (map to_lower text)).
  { rewrite E. destruct unit; repeat constructor; by apply (bool_decide_unpack _). }
  apply Forall_map in H. eapply Forall_impl; [exact H|]. intros c. apply to_lower_letter.
Qed.

Lemma digit_is_digit d : 0 <= d < 10 -> is_ascii_digit (digit_char d) = true /\ is_space (digit_char d) = false.
Proof.
  intros Hd. unfold is_ascii_digit, is_space. rewrite code_digit, decide_True by lia.
  split; [apply bool_decide_eq_true|apply bool_decide_eq_false]; lia.
Qed.

Lemma decimal_digits fuel n :
  0 <= n -> Forall (fun c => is_ascii_digit c = true /\ is_space c = false) (digits fuel 10 n).
Proof.
  revert n. induction fuel as [|fuel IH]; intros n Hn; cbn [digits]; [constructor|].
  case_decide; [repeat constructor; apply digit_is_digit; lia|].
  apply Forall_app. split; [apply IH, Z.div_pos; lia|]. repeat constructor; apply digit_is_digit;
    pose proof (Z.mod_pos_bound n 10); lia.
Qed.

Lemma drop_spaces_app ws p : Forall (fun c => is_space c = true) ws -> drop_spaces (ws ++ p) = drop_spaces p.
Proof. induction 1 as [|c ws Hc _ IH]; simpl; [done|]. by rewrite Hc. Qed.

Lemma drop_spaces_none p : Forall (fun c => is_space c = false) p -> drop_spaces p = p.
Proof. destruct 1 as [|c p Hc]; simpl; [done|]. by rewrite Hc. Qed.

Lemma trim_spaces before after p :
  Forall (fun c => is_space c = true) before -> Forall (fun c => is_space c = true) after ->
  Forall (fun c => is_space c = false) p -> p <> [] -> trim (before ++ p ++ after) = p.
Proof.
  intros Hb Ha Hp Hne. unfold trim. rewrite drop_spaces_app by done.
  destruct p as [|c p]; [done|]. assert (Hc := Forall_inv Hp). simpl in *. rewrite Hc.
  change (c :: p ++ after) with ((c :: p) ++ after). rewrite rev_app_distr, drop_spaces_app by by apply Forall_rev.
  rewrite drop_spaces_none by by apply Forall_rev. apply rev_involutive.
Qed.

Lemma filter_bool_all {A} (f : A -> bool) b (l : list A) :
  Forall (fun x => f x = b) l -> filter (fun x => f x = b) l = l.
Proof. induction 1 as [|x l Hx _ IH]; [done|]. by rewrite filter_cons_True, IH. Qed.

Lemma filter_bool_none {A} (f : A -> bool) b (l : list A) :
  Forall (fun x => f x = negb b) l -> filter (fun x => f x = b) l = [].
Proof. induction 1 as [|x l Hx _ IH]; [done|]. rewrite filter_cons_False; [done|]. by destruct (f x), b. Qed.

Lemma u64_from_digits n : in_width 64 n -> u64_from_str (digits 20 10 n) = Some n.
Proof.
  intros Hn. unfold in_width in Hn. unfold u64_from_str.
  destruct (digits_cons 10 20 n ltac:(lia)) as (c & t & E).
  assert (Hd := decimal_digits 20 n ltac:(lia)). rewrite E in Hd. assert (Hc := Forall_inv Hd).
  rewrite E. rewrite decide_False by (intros ->; by destruct Hc). rewrite <- E.
  assert (R := read_digits_app 10 ltac:(lia) 20 n 0 0 [] ltac:(lia)). rewrite app_nil_r in R. rewrite R.
  cbn [read_digits]. rewrite Z.mul_0_l, Z.add_0_l. rewrite decide_True; [done|]. rewrite E. split; [done|]. split; [done|]. lia.
Qed.

Lemma iter_wrap_1024 k n :
  in_width 64 n -> Nat.iter k (fun bytes => wrap 64 (bytes * 1024)) n = wrap 64 (n * 1024 ^ Z.of_nat k).
Proof.
  intros Hn. induction k as [|k IH]; simpl Nat.iter; [by rewrite Z.mul_1_r, wrap_small|].
  rewrite IH, Nat2Z.inj_succ, Z.pow_succ_r by lia. unfold wrap.
  rewrite Z.mul_mod_idemp_l by done. f_equal. lia.
Qed.

Lemma run_parse_size before after n text unit :
  Forall (fun c => is_space c = true) before -> Forall (fun c => is_space c = true) after ->
  in_width 64 n -> map to_lower text = unit_name unit ->
  parse_size (before ++ (digits 20 10 n ++ text) ++ after) = Ok (wrap 64 (n * 1024 ^ Z.of_nat (unit_power unit))).
Proof.
  intros Hb Ha Hn Ht. assert (Hw := Hn). unfold in_width in Hw.
  assert (Hd := decimal_digits 20 n ltac:(lia)). assert (Hl := unit_letters _ _ Ht).
  apply Forall_and in Hd as [Hd Hds]. apply Forall_and in Hl as [Hl Hls].
  destruct (digits_cons 10 20 n ltac:(lia)) as (c & t & E).
  unfold parse_size. rewrite trim_spaces; [|done|done|by apply Forall_app|by rewrite E].
  rewrite !filter_app, (filter_bool_all _ true), (filter_bool_none _ true), (filter_bool_none _ false),
    (filter_bool_all _ false), app_nil_r by done.
  rewrite u64_from_digits by done. cbn [ok_or result_bind app]. rewrite (SizeUnit_from_name unit) by done.
  cbn [ok_or result_bind]. by rewrite iter_wrap_1024.
Qed.


(** C37: a size is read as the number times the power of its unit, kept to 64 bits: it is the size
    that was meant exactly if that fits.  White space around it and capitals do not matter. *)
Theorem size_text_value before after n text unit :
  Forall (fun c => is_space c = true) before -> Forall (fun c => is_space c = true) after ->
  in_width 64 n -> map to_lower text = unit_name unit ->
  exists v, parse_size (before ++ (digits 20 10 n ++ text) ++ after) = Ok v /\ in_width 64 v
    /\ (v = n * 1024 ^ Z.of_nat (unit_power unit) <-> n * 1024 ^ Z.of_nat (unit_power unit) < 2 ^ 64).
Proof.
  intros Hb Ha Hn Ht. eexists. split; [by apply run_parse_size|].
  set (m := n * _). assert (0 <= m) by (subst m; unfold in_width in Hn; nia).
  assert (Hr := wrap_range 64 m ltac:(lia)). split; [done|]. split.
  - intros <-. apply Hr.
  - intros Hm. by apply wrap_small.
Qed.

(** Sixteen exabytes are no bytes at all. *)
Lemma size_text_value_witness :
  parse_size (str " 512GB ") = Ok (512 * 1024 ^ 3) /\ parse_size (str "16eb") = Ok 0.
Proof.
  split.
  - destruct (size_text_value (str " ") (str " ") 512 (str "GB") Gigabytes) as (v & E & _ & Hv).
    + repeat constructor.
    + repeat constructor.
    + done.
    + done.
    + change (str " 512GB ") with (str " " ++ (digits 20 10 512 ++ str "GB") ++ str " "). rewrite E.
      f_equal. by apply Hv.
  - destruct (size_text_value [] [] 16 (str "eb") Exabytes) as (v & E & _ & Hv).
    + constructor.
    + constructor.
    + done.
    + done.
    + vm_compute. reflexivity.
Defined.

(** ** The checks of a configuration *)
Lemma ensure_ok {E A} (P : Prop) `{Decision P} (e : E) (k : result (Abort E) A) a :
  result_bind (ensure P e) (fun _ => k) = Ok a -> P /\ k = Ok a.
Proof. unfold ensure. by case_decide. Qed.

Lemma unwrap_ips_wf {E} addrs ips : unwrap_ips (E := E) addrs = Ok ips -> Forall wf_ip ips.
Proof.
  revert ips. induction addrs as [|a addrs IH]; intros ips H; simpl in H; [by simplify_eq|].
  unfold unwrap_ip in H. destruct (IpAddr_from_str a) as [ip|] eqn:Ea; simpl in H; [|done].
  destruct (unwrap_ips addrs) as [ips'|] eqn:Es; simpl in H; [|done]. simplify_eq.
  constructor; [by eapply IpAddr_from_str_wf|by apply IH].
Qed.

Lemma with_slash_last path : last (with_slash path) = Some SLASH.
Proof. unfold with_slash. case_decide; [done|]. apply last_snoc. Qed.


Definition default_instance : NodeConfigInstance :=
  mkNodeConfigInstance LOCALHOST 8090 (100 * 1024 * 1024) (str "ca_cert.pem") LOCALHOST 8080 (V4 [127; 0; 0; 1]) LOCALHOST
    [V4 [127; 0; 0; 1]] [] None None None (str "/var/meowith/data/") (256 * 1024) [LOCALHOST] (str "cassandra")
    (str "cassandra") (str "meowith") 60.


(** No checks: a chunk size of zero, by which every transfer divides, and certificate addresses
    that are names or a data directory that does not exist yet, with which the node panics. *)
Definition config_with (net_fragment_size : u32) (cert_addresses : list Text) : NodeConfig :=
  mkNodeConfig LOCALHOST 8090 (str "100mb") (str "ca_cert.pem") net_fragment_size LOCALHOST 8080 LOCALHOST
    (Some (str "/etc/token")) LOCALHOST cert_addresses [] None None (str "/data") [LOCALHOST] [] [] [] 60.

Lemma unchecked_config :
  let space := fun path => if decide (path = str "/data") then Some (mkSpaceUsage (2 ^ 40) 0 (2 ^ 40)) else None in
  (exists i, validate_config space (config_with 0 []) = Ok i /\ ni_net_fragment_size i = 0)
  /\ validate_config space (config_with 1024 [str "node.example.com"]) = Err Panics
  /\ validate_config space NodeConfig_default = Err Panics.
Proof. split_and!; [eexists; split|..]; vm_compute; reflexivity. Qed.

(** ** The first start *)
Section Files.
  Context {C : Type} `{Yaml C} (default_config : C) (path : Text).

Lemma run_from_file dk t :
  path ∉ dk_denied dk -> dk_files dk !! path = Some t ->
  from_file default_config path dk = (dk, ok_or (yaml_from_str t) YamlError).
Proof.
  intros Hd Ht. unfold from_file, attempt, read_file, mbind, effect_bind.
  rewrite decide_False, Ht by done. done.
Qed.

(** Without a file the default is written and used, and it is what the next start reads. *)
Theorem default_survives dk t :
  path ∉ dk_denied dk -> dk_files dk !! path = None -> dk_full dk = false ->
  yaml_to_string default_config = Some t -> yaml_from_str t = Some default_config ->
  let dk' := set_file path t dk in
  from_file default_config path dk = (dk', Ok default_config)
  /\ from_file default_config path dk' = (dk', Ok default_config).
Proof.
  intros Hd Hn Hf Ht Hb dk'. split.
  - unfold from_file, attempt, read_file, create_default, create_file, write_all, of_result, mbind, effect_bind.
    rewrite decide_False, Hn by done. cbn [ok_or]. rewrite decide_False by done. rewrite Ht. cbn. rewrite Hf.
    subst dk'. unfold set_file. cbn. by rewrite insert_insert_eq.
  - rewrite (run_from_file _ t); [by rewrite Hb|done|]. apply lookup_insert_eq.
Qed.

(** A start that cannot write it leaves an empty file, and no later start replaces it. *)
Lemma full_disk_spoils dk dk' :
  path ∉ dk_denied dk -> dk_files dk !! path = None -> dk_full dk = true ->
  yaml_to_string default_config <> None -> yaml_from_str [] = None ->
  dk_files dk' !! path = Some [] -> path ∉ dk_denied dk' ->
  from_file default_config path dk = (set_file path [] dk, Err FileDenied)
  /\ from_file default_config path dk' = (dk', Err YamlError).
Proof.
  intros Hd Hn Hf Ht Hb Hdk Hd'. split.
  - unfold from_file, attempt, read_file, create_default, create_file, write_all, of_result, mbind, effect_bind.
    rewrite decide_False, Hn by done. cbn [ok_or]. rewrite decide_False by done.
    destruct (yaml_to_string default_config); [|done]. cbn. by rewrite Hf.
  - rewrite (run_from_file _ []) by done. by rewrite Hb.
Qed.
End Files.
