(* ===== verification/Accounts.v ===== *)
(** * Accounts

    [auth_framework/src], with which users log in by password or by an external service
    (CatId), the login and registration of the dashboard and the controller, the set-up of the
    first user, and the checks in front of their requests.

    Password hashing (the [bcrypt] crate), the external service and the JSON of a session's
    claims are classes; bcrypt takes the first 72 bytes of a password into account.  Sessions
    are signed with the key of the access tokens, since both services are made from one
    configuration.  Drawn ids and the clock are arguments. *)
From Stdlib Require Import Ascii.
From stdpp Require Import base gmap list strings.
From S2P Require Import Prelude Errors Placement Paths Permissions Database Directories Dashboard Tokens Config.
Open Scope Z_scope.

(** ** Requests and credentials *)
(** A header value that is not text is [None]. *)
Record HttpRequest : Type := mkRequest { rq_headers : gmap Text (option Text); rq_query_string : Text }.

Inductive AuthenticateError : Type := AeInvalidCredentials | AeInternalError.
Inductive AuthCredentialsError : Type := AcInvalidCredentialsFormat | AcInternalError.

Record DashboardClaims : Type := mkDashboardClaims { dc_id : Uuid; dc_sid : Uuid }.

(** [dyn AuthenticationCredentials], by what its methods answer. *)
Record Credentials : Type := mkCredentials {
  get_authentication_identifier : Text;
  get_username : option Text;
  is_setup : bool
}.
Definition BasicCredentials (username password : Text) : Credentials := mkCredentials password (Some username) false.
Definition CatIdCredentials (code : Text) : Credentials := mkCredentials code None false.
Definition SetupCredentials (c : Credentials) : Credentials :=
  mkCredentials (get_authentication_identifier c) (get_username c) true.

Definition gc_token_validity (config : GeneralConfiguration) : u64 :=
  tc_token_validity (gc_access_token_configuration config).

Record CatIdUser : Type := mkCatIdUser { cu_id : Text; cu_name : Text }.
Record RegisterRequest : Type := mkRegistration { re_username : Text; re_password : Text }.

(** Drawn and read by a request: two new ids and the time. *)
Record Draw : Type := mkDraw { dr_id : Uuid; dr_session_id : Uuid; dr_now : Z }.

(** ** Foreign code *)
Class Bcrypt := {
  bcrypt_hash : Z -> Text -> option Text;
  bcrypt_verify : Text -> Text -> option bool
}.

Definition nul_free (t : Text) : Prop := Ascii.zero ∉ t.

(** A hash fits the passwords that agree with the hashed one in their first 72 bytes; a zero
    byte ends a password. *)
Class BcryptLaws `{Bcrypt} : Prop := {
  verify_hash : forall salt p h p', bcrypt_hash salt p = Some h -> nul_free p -> nul_free p' ->
    bcrypt_verify p' h = Some (bool_decide (take 72 p' = take 72 p))
}.

(** The two requests to the external service.  The first one fails as [InvalidCredentials]. *)
Class CatIdService := {
  fetch_access_token : CatIdAppConfiguration -> Text -> option Text;
  fetch_cat_user : CatIdAppConfiguration -> Text -> result AuthenticateError CatIdUser
}.

(** [serde_json] on the claims of a session *)
Class SessionCodec := {
  json_of_claims : DashboardClaims -> option Text;
  claims_of_json : Text -> option DashboardClaims
}.
Class SessionCodecLaws `{SessionCodec} : Prop := {
  claims_roundtrip : forall c t, json_of_claims c = Some t -> claims_of_json t = Some c
}.

(** ** Sessions *)
Section sessions.
  Context `{TokenCodec} `{SessionCodec}.

Definition generate_session_token (token_validity : u64) (now : Z) (claims : DashboardClaims) : option Text :=
  sub ← json_of_claims claims; jwt_encode (mkClaims sub (u64_add now token_validity)).

Definition verify_session_token (now : Z) (token : Text) : option DashboardClaims :=
  claims ← jwt_decode now token; claims_of_json (cl_sub claims).
End sessions.

(** ** Authenticators *)
Definition PEPPER : Text := str "x{2G-ki+*"%string.
Definition BASIC_TYPE_IDENTIFIER : Text := str "BASIC"%string.
Definition CATID_TYPE_IDENTIFIER : Text := str "CATID"%string.
Definition USERNAME_HEADER : Text := str "username"%string.
Definition PASSWORD_HEADER : Text := str "password"%string.

(** [dyn AuthFacade] *)
Class AuthFacade (D A : Type) := {
  convert : A -> HttpRequest -> result AuthCredentialsError Credentials;
  facade_authenticate : Draw -> A -> Credentials -> effect D AuthenticateError DashboardClaims;
  get_type : A -> Text
}.
#[global] Arguments convert D {A _}.
#[global] Arguments get_type D {A _}.

Definition text_header (name : Text) (req : HttpRequest) : result AuthCredentialsError Text :=
  ok_or (mjoin (rq_headers req !! name)) AcInvalidCredentialsFormat.

Definition basic_convert (req : HttpRequest) : result AuthCredentialsError Credentials :=
  (username <-? text_header USERNAME_HEADER req;
   password <-? text_header PASSWORD_HEADER req;
   Ok (BasicCredentials username password))%meow.

Definition code_of_param (param : Text) : option Text :=
  match split_on (fun c => bool_decide (c = "="%char)) param with
  | key :: value :: _ => if decide (key = str "code"%string) then Some value else None
  | _ => None
  end.

Definition get_code_from_request (req : HttpRequest) : option Text :=
  head (omap code_of_param (split_on (fun c => bool_decide (c = "&"%char)) (rq_query_string req))).

Definition catid_convert (req : HttpRequest) : result AuthCredentialsError Credentials :=
  (code <-? ok_or (get_code_from_request req) AcInvalidCredentialsFormat; Ok (CatIdCredentials code))%meow.

Definition claims_of (user : UserRow) : DashboardClaims := mkDashboardClaims (u_id user) (u_session_id user).

Section authenticators.
  Context {D : Type} `{Database D} `{Bcrypt} `{CatIdService}.

Definition basic_authenticate (credentials : Credentials) : effect D AuthenticateError DashboardClaims :=
  username ← of_result (ok_or (get_username credentials) AeInvalidCredentials);
  user ← on_err (fun _ => AeInvalidCredentials) (get_user_from_name username);
  match bcrypt_verify (get_authentication_identifier credentials ++ PEPPER) (u_auth_identifier user) with
  | None => throw AeInternalError
  | Some false => throw AeInvalidCredentials
  | Some true => mret (claims_of user)
  end.

Definition catid_authenticate (config : CatIdAppConfiguration) (general_config : GeneralConfiguration)
    (dr : Draw) (credentials : Credentials) : effect D AuthenticateError DashboardClaims :=
  token ← of_result (ok_or (fetch_access_token config (get_authentication_identifier credentials))
                           AeInvalidCredentials);
  cat_user ← of_result (fetch_cat_user config token);
  user ← attempt (get_user_from_auth (cu_id cat_user));
  match user with
  | Ok user =>
      (if decide (cu_name cat_user <> u_name user)
       then on_err (fun _ => AeInternalError) (update_user (u_id user) (cu_name cat_user)) else mret tt);;
      mret (claims_of user)
  | Err _ =>
      let user := mkUserRow (dr_id dr) (dr_session_id dr) (cu_name cat_user) (cu_id cat_user)
                    (as_i64 (gc_default_user_quota general_config))
                    (i32_of_GlobalRole (if is_setup credentials then Admin else User)) (dr_now dr) (dr_now dr) in
      on_err (fun _ => AeInternalError) (insert_user user);;
      mret (claims_of user)
  end.
End authenticators.

Inductive BasicAuthenticator : Type := mkBasicAuthenticator.
Record CatIdAuthenticator : Type := mkCatIdAuthenticator {
  ca_config : CatIdAppConfiguration;
  ca_general_config : GeneralConfiguration
}.

#[global] Instance basic_facade {D} `{Database D} `{Bcrypt} : AuthFacade D BasicAuthenticator := {
  convert _ := basic_convert;
  facade_authenticate _ _ := basic_authenticate;
  get_type _ := BASIC_TYPE_IDENTIFIER
}.
#[global] Instance catid_facade {D} `{Database D} `{CatIdService} : AuthFacade D CatIdAuthenticator := {
  convert _ := catid_convert;
  facade_authenticate dr a := catid_authenticate (ca_config a) (ca_general_config a) dr;
  get_type _ := CATID_TYPE_IDENTIFIER
}.

(** The objects behind [Box<dyn AuthFacade>]. *)
Inductive Facade : Type := Basic (a : BasicAuthenticator) | CatId (a : CatIdAuthenticator).

#[global] Instance dyn_facade {D} `{Database D} `{Bcrypt} `{CatIdService} : AuthFacade D Facade := {
  convert f := match f with Basic a => convert D a | CatId a => convert D a end;
  facade_authenticate dr f := match f with
    | Basic a => facade_authenticate dr a | CatId a => facade_authenticate dr a end;
  get_type f := match f with Basic a => get_type D a | CatId a => get_type D a end
}.

(** ** The methods that are configured *)
Section methods.
  Context {D : Type} `{Database D} `{Bcrypt} `{CatIdService}.

Definition login_facades (config : GeneralConfiguration) : list Facade :=
  Basic mkBasicAuthenticator ::
  match gc_cat_id_config config with Some c => [CatId (mkCatIdAuthenticator c config)] | None => [] end.

Definition add_method (config_login_methods : list Text) (method_map : gmap Text Facade) (facade : Facade)
    : gmap Text Facade :=
  match list_find (fun method => get_type D facade = method) config_login_methods with
  | Some (_, method) => <[method := facade]> method_map
  | None => method_map
  end.

Definition init_authentication_methods (config_login_methods : list Text) (config : GeneralConfiguration)
    : result NodeClientError (gmap Text Facade) :=
  if decide (CATID_TYPE_IDENTIFIER ∈ config_login_methods /\ gc_cat_id_config config = None)
  then Err NcNotFound
  else Ok (fold_left (add_method config_login_methods) (login_facades config) ∅).
End methods.

(** ** Login and registration *)
Section services.
  Context {D : Type} `{Database D} `{Bcrypt} `{CatIdService} `{TokenCodec} `{SessionCodec}.
  (** [AppState::authentication] and the global configuration *)
  Variable methods : gmap Text Facade.
  Variable config : GeneralConfiguration.

Abbreviation Service A := (effect D NodeClientError A).

Definition session_of (now : Z) (claims : DashboardClaims) : Service Text :=
  of_result (ok_or (generate_session_token (gc_token_validity config) now claims) NcInternalError).

(** The controller has the same function in [public/routes/auth.rs]. *)
Definition do_login (dr : Draw) (req : HttpRequest) (method : Text) : Service Text :=
  facade ← of_result (ok_or (methods !! method) NcBadRequest);
  credentials ← of_result (map_err (fun _ => NcBadAuth) (convert D facade req));
  claims ← on_err (fun _ => NcBadAuth) (facade_authenticate dr facade credentials);
  session_of (dr_now dr) claims.

Definition hash_password (salt : Z) (password : Text) : Service Text :=
  of_result (ok_or (bcrypt_hash salt (password ++ PEPPER)) NcInternalError).

Definition do_register (salt : Z) (dr : Draw) (req : RegisterRequest) : Service Text :=
  auth_identifier ← hash_password salt (re_password req);
  let user := mkUserRow (dr_id dr) (dr_session_id dr) (re_username req) auth_identifier
                (as_i64 (gc_default_user_quota config)) (i32_of_GlobalRole User) (dr_now dr) (dr_now dr) in
  on_err client_of_data (insert_user user);;
  session_of (dr_now dr) (claims_of user).

Definition get_methods : list Text := (map_to_list methods).*1.

(** ** The checks in front of requests *)
Definition bearer (now : Z) (header : option (option Text)) : option Uuid :=
  token_str ← mjoin header; dc_id <$> verify_session_token now (remove_bearer_prefix token_str).

(** [UserMiddleware] of the dashboard *)
Definition dashboard_user (now : Z) (header : option (option Text)) : Service UserRow :=
  match bearer now header with
  | None => throw NcBadAuth
  | Some id => on_err (fun _ => NcBadAuth) (get_user_from_id id)
  end.

(** [UserMiddleware] of the controller *)
Definition controller_user (now : Z) (header : option (option Text)) : Service UserRow :=
  match bearer now header with
  | None => throw NcBadAuth
  | Some id =>
      user ← on_err (fun _ => NcBadAuth) (get_user_from_id id);
      if decide (u_global_role user <> i32_of_GlobalRole Admin) then throw NcBadAuth else mret user
  end.

(** ** Users at the controller *)
Definition do_get_all_users : Service (list OwnUserInfo) :=
  users ← on_err client_of_data get_all_users; mret (map OwnUserInfo_of users).
Definition do_update_role (user_id : Uuid) (role : GlobalRole) : Service unit :=
  on_err client_of_data (update_user_role user_id role).
Definition do_update_quota (user_id : Uuid) (quota : u64) : Service unit :=
  on_err client_of_data (update_user_quota user_id quota).

(** ** Set-up *)
(** [start_controller] sets up if there is no user; [None] is the panic of [expect]. *)
Definition setup_needed (d : D) : D * option bool :=
  match maybe_get_first_user d with
  | (d, Ok first) => (d, Some (bool_decide (first = None)))
  | (d, Err _) => (d, None)
  end.
End services.

Definition DEFAULT_USER_QUOTA : i64 := 15 * 1024 * 1024 * 1024.

(** [SetupAppState], with whether its shutdown was requested *)
Record SetupState (D : Type) : Type := mkSetup { su_session : D; su_shutdown : bool }.
Arguments mkSetup {D}.
Arguments su_session {D}.
Arguments su_shutdown {D}.

(** Upper case for the letters of ASCII; no other text becomes a method's name that the map
    of methods has. *)
Definition to_upper (c : ascii) : ascii :=
  if decide (97 <= Ascii.N_of_ascii c <= 122)%N then Ascii.ascii_of_N (Ascii.N_of_ascii c - 32) else c.

Section setup.
  Context {D : Type} `{Database D} `{Bcrypt} `{CatIdService}.
  Variable methods : gmap Text Facade.

Definition in_session {E A} (m : effect D E A) : effect (SetupState D) E A := fun s =>
  let '(d, r) := m (su_session s) in (mkSetup d (su_shutdown s), r).
Definition cancel {E} : effect (SetupState D) E unit := modify (fun s => mkSetup (su_session s) true).

Definition setup_login (dr : Draw) (req : HttpRequest) (method : Text) : effect (SetupState D) NodeClientError unit :=
  if decide (map to_upper method = BASIC_TYPE_IDENTIFIER) then throw NcBadRequest
  else
    facade ← of_result (ok_or (methods !! method) NcBadRequest);
    credentials ← of_result (map_err (fun _ => NcBadAuth) (convert D facade req));
    in_session (on_err (fun _ => NcBadAuth) (facade_authenticate dr facade (SetupCredentials credentials)));;
    cancel.

Definition setup_register (salt : Z) (dr : Draw) (req : RegisterRequest) : effect (SetupState D) NodeClientError unit :=
  auth_identifier ← in_session (hash_password salt (re_password req));
  let user := mkUserRow (dr_id dr) (dr_session_id dr) (re_username req) auth_identifier
                DEFAULT_USER_QUOTA (i32_of_GlobalRole Admin) (dr_now dr) (dr_now dr) in
  in_session (on_err client_of_data (insert_user user));;
  cancel.
End setup.

(** ** Sessions mean their user *)
Lemma session_bearer `{TokenCodecLaws} `{SessionCodecLaws} token_validity now claims token t :
  generate_session_token token_validity now claims = Some token -> t <= u64_add now token_validity ->
  bearer t (Some (Some (str "Bearer "%string ++ token))) = Some (dc_id claims).
Proof.
  unfold generate_session_token. destruct (json_of_claims claims) as [sub|] eqn:Ej; [|done].
  cbn [mbind option_bind]. intros Ee Ht.
  unfold bearer, verify_session_token. cbn [mjoin option_join mbind option_bind]. rewrite remove_bearer.
  erewrite jwt_roundtrip by done. cbn. by erewrite claims_roundtrip by done.
Qed.

Section reliable_users.
  Context {D : Type} `{ReliableDatabase D}.
  Implicit Types (d : D) (user : UserRow).

Lemma run_find_first {R K} `{Row R K} (p : R -> bool) d :
  exists d' r, find_first p d = (d', r) /\ tables d' = tables d
    /\ match r with
       | Ok u => p u = true /\ exists k, table (tables d) !! k = Some u
       | Err _ => forall k u, table (tables d) !! k = Some u -> p u = false
       end.
Proof.
  unfold find_first, mbind, effect_bind. destruct (run_maybe_find_first p d) as (d' & [u|] & -> & Hd & Hu);
    by eexists _, _.
Qed.

(** With a session of a user on record, the dashboard lets this user in. *)
Lemma session_user `{TokenCodecLaws} `{SessionCodecLaws} token_validity now user token t d :
  generate_session_token token_validity now (claims_of user) = Some token -> t <= u64_add now token_validity ->
  users_table (tables d) !! u_id user = Some user ->
  exists d', dashboard_user t (Some (Some (str "Bearer "%string ++ token))) d = (d', Ok user).
Proof.
  intros Hg Ht Hu. unfold dashboard_user. erewrite session_bearer by done. unfold on_err, get_user_from_id.
  destruct (run_find_row (R := UserRow) (u_id user) d) as (d' & E & _). exists d'. cbn [dc_id claims_of]. rewrite E.
  change (table (tables d)) with (users_table (tables d)). by rewrite Hu.
Qed.
End reliable_users.

(** ** Passwords *)
Section passwords.
  Context {D : Type} `{ReliableDatabase D} `{BcryptLaws} `{CatIdService}.
  Context `{TokenCodecLaws} `{SessionCodecLaws}.
  Variable methods : gmap Text Facade.
  Variable config : GeneralConfiguration.
  Hypothesis has_basic : methods !! BASIC_TYPE_IDENTIFIER = Some (Basic mkBasicAuthenticator).

Lemma nul_free_pepper t : nul_free t -> nul_free (t ++ PEPPER).
Proof.
  intros Ht [Hin|Hin]%elem_of_app; [done|]. revert Hin. apply (bool_decide_unpack _). vm_compute. exact I.
Qed.

(** The login by password, for a name that one user has. *)
Lemma run_password_login dr rq username password user salt original d :
  rq_headers rq !! USERNAME_HEADER = Some (Some username) ->
  rq_headers rq !! PASSWORD_HEADER = Some (Some password) ->
  bcrypt_hash salt (original ++ PEPPER) = Some (u_auth_identifier user) ->
  nul_free original -> nul_free password -> u_name user = username ->
  (exists k, users_table (tables d) !! k = Some user) ->
  (forall k u, users_table (tables d) !! k = Some u -> u_name u = username -> u = user) ->
  exists d', tables d' = tables d
    /\ do_login methods config dr rq BASIC_TYPE_IDENTIFIER d
       = (d', if decide (take 72 (password ++ PEPPER) = take 72 (original ++ PEPPER))
              then ok_or (generate_session_token (gc_token_validity config) (dr_now dr) (claims_of user)) NcInternalError
              else Err NcBadAuth).
Proof.
  intros Hu Hp Hh Hn Hn' Hname [k Hk] Honly. unfold do_login. unfold mbind at 1, effect_bind at 1, of_result at 1.
  rewrite has_basic. cbn [ok_or]. unfold mbind at 1, effect_bind at 1, of_result at 1.
  cbn [convert dyn_facade basic_facade]. unfold basic_convert, text_header. rewrite Hu, Hp. cbn [mjoin option_join ok_or result_bind map_err].
  unfold mbind at 1, effect_bind at 1, on_err at 1. cbn [facade_authenticate dyn_facade basic_facade].
  unfold basic_authenticate. cbn [BasicCredentials get_username get_authentication_identifier ok_or].
  unfold mbind at 1, effect_bind at 1, of_result at 1. unfold mbind at 1, effect_bind at 1, on_err at 1, get_user_from_name.
  edestruct (run_find_first (D := D) (R := UserRow)) as (d' & r & -> & Hd & Hr). destruct r as [u|e]; cbn [map_err].
  2: { specialize (Hr k user Hk). by rewrite bool_decide_eq_false in Hr. }
  destruct Hr as [Hr [k' Hk']]. rewrite bool_decide_eq_true in Hr. rewrite (Honly k' u Hk' Hr).
  erewrite verify_hash by eauto using nul_free_pepper. exists d'. split; [done|].
  case_bool_decide; [rewrite decide_True by done|by rewrite decide_False]. done.
Qed.

(** C24: a registered user can log in.  After a registration under a free name the new user is
    on record under the drawn id, without the rights of an administrator.  Whoever logs in under the name is let
    in, as this user, exactly if their password agrees with the registered one, both with the
    pepper, in the first 72 bytes. *)
Theorem register_login_exact salt dr req d d' token :
  nul_free (re_password req) ->
  (forall k u, users_table (tables d) !! k = Some u -> u_name u <> re_username req) ->
  do_register config salt dr req d = (d', Ok token) ->
  exists user, users_table (tables d') = <[dr_id dr := user]> (users_table (tables d))
    /\ u_id user = dr_id dr /\ u_global_role user = i32_of_GlobalRole User
    /\ forall dr' rq password d2, tables d2 = tables d' -> nul_free password ->
       rq_headers rq !! USERNAME_HEADER = Some (Some (re_username req)) ->
       rq_headers rq !! PASSWORD_HEADER = Some (Some password) ->
       exists d3 r, do_login methods config dr' rq BASIC_TYPE_IDENTIFIER d2 = (d3, r)
         /\ tables d3 = tables d2
         /\ (take 72 (password ++ PEPPER) <> take 72 (re_password req ++ PEPPER) -> r = Err NcBadAuth)
         /\ (take 72 (password ++ PEPPER) = take 72 (re_password req ++ PEPPER) ->
             r = ok_or (generate_session_token (gc_token_validity config) (dr_now dr') (claims_of user)) NcInternalError)
         /\ forall session t d4, r = Ok session -> t <= u64_add (dr_now dr') (gc_token_validity config) ->
            tables d4 = tables d3 ->
            exists d5, dashboard_user t (Some (Some (str "Bearer "%string ++ session))) d4 = (d5, Ok user).
Proof.
  intros Hn Hfree E. unfold do_register, hash_password in E. unfold mbind at 1, effect_bind at 1, of_result at 1 in E.
  destruct (bcrypt_hash salt _) as [h|] eqn:Hh; [|done]. cbn [ok_or] in E. set (user := mkUserRow _ _ _ _ _ _ _ _) in E.
  unfold mbind at 1, effect_bind at 1, on_err at 1, insert_user in E.
  destruct (run_insert_row user d) as (d1 & E1 & Hd1). rewrite E1 in E. cbn [map_err] in E.
  injection E as -> Htok. exists user.
  assert (Ht : users_table (tables d') = <[dr_id dr := user]> (users_table (tables d))) by by rewrite Hd1.
  split; [done|]. split; [done|]. split; [done|]. intros dr' rq password d2 Hd2 Hp Hu Hpw. rewrite <- Hd2 in Ht.
  edestruct (run_password_login dr' rq (re_username req) password user salt (re_password req) d2)
    as (d3 & Hd3 & Hlog); try done.
  { exists (dr_id dr). by rewrite Ht, lookup_insert_eq. }
  { intros k u. rewrite Ht. destruct (decide (k = dr_id dr)) as [->|Hne].
    - rewrite lookup_insert_eq. by intros [= <-].
    - rewrite lookup_insert_ne by done. intros Hk Hname. by destruct (Hfree k u Hk). }
  eexists d3, _. split; [exact Hlog|]. split; [done|]. split; [by case_decide|].
  split; [by case_decide|]. intros session t d4. case_decide; [|done].
  clear Hlog Htok. destruct (generate_session_token _ _ _) as [s|] eqn:Hg; [|done]. intros [= <-] Hexp Hd4.
  apply (session_user _ _ _ _ _ _ Hg Hexp). rewrite Hd4, Hd3, Ht. apply lookup_insert_eq.
Qed.
End passwords.

(** ** Who is an administrator *)
(** The requests of users to the dashboard and the controller that concern accounts. *)
Inductive AccountRequest : Type :=
| Register (salt : Z) (dr : Draw) (req : RegisterRequest)
| Login (dr : Draw) (req : HttpRequest) (method : Text)
| ListUsers (now : Z) (header : option (option Text))
| UpdateRole (now : Z) (header : option (option Text)) (user_id : Uuid) (role : GlobalRole)
| UpdateQuota (now : Z) (header : option (option Text)) (user_id : Uuid) (quota : u64).

Section requests.
  Context {D : Type} `{Database D} `{Bcrypt} `{CatIdService} `{TokenCodec} `{SessionCodec}.
  Variable methods : gmap Text Facade.
  Variable config : GeneralConfiguration.

Definition serve_account (r : AccountRequest) : effect D NodeClientError unit :=
  match r with
  | Register salt dr req => do_register config salt dr req;; mret tt
  | Login dr req method => do_login methods config dr req method;; mret tt
  | ListUsers now header => controller_user now header;; do_get_all_users;; mret tt
  | UpdateRole now header user_id role => controller_user now header;; do_update_role user_id role
  | UpdateQuota now header user_id quota => controller_user now header;; do_update_quota user_id quota
  end.

(** The id a request draws, and the user whose session it carries. *)
Definition drawn_id (r : AccountRequest) : option Uuid :=
  match r with Register _ dr _ | Login dr _ _ => Some (dr_id dr) | _ => None end.
Definition requester (r : AccountRequest) : option Uuid :=
  match r with
  | ListUsers now header | UpdateRole now header _ _ | UpdateQuota now header _ _ => bearer now header
  | _ => None
  end.

Definition is_admin (T : Tables) (id : Uuid) : Prop :=
  exists u, users_table T !! id = Some u /\ u_global_role u = i32_of_GlobalRole Admin.

(** A request with a new id that no administrator made. *)
Definition ordinary_step (d d' : D) : Prop :=
  exists r, (forall id, drawn_id r = Some id -> users_table (tables d) !! id = None)
    /\ (forall id, requester r = Some id -> ~ is_admin (tables d) id)
    /\ d' = (serve_account r d).1.
End requests.

Section escalation.
  Context {D : Type} `{DatabaseLaws D} `{Bcrypt} `{CatIdService} `{TokenCodec} `{SessionCodec}.
  Variable methods : gmap Text Facade.
  Variable config : GeneralConfiguration.

Definition same_admins (T T' : Tables) : Prop := forall id, is_admin T' id <-> is_admin T id.

Lemma same_admins_refl T : same_admins T T.
Proof. done. Qed.

Lemma same_admins_insert T u :
  users_table T !! u_id u = None -> u_global_role u <> i32_of_GlobalRole Admin -> same_admins T (row_insert u T).
Proof.
  intros Hnone Hrole id. unfold is_admin. change (users_table (row_insert u T)) with (<[u_id u := u]> (users_table T)).
  destruct (decide (u_id u = id)) as [<-|Hne].
  - rewrite lookup_insert_eq, Hnone. split; [intros (? & [= <-] & ?)|intros (? & ? & ?)]; done.
  - by rewrite lookup_insert_ne.
Qed.

Lemma same_admins_update T id (f : UserRow -> UserRow) :
  (forall u, u_global_role (f u) = u_global_role u) -> same_admins T (row_update id f T).
Proof.
  intros Hf id'. unfold is_admin. change (users_table (row_update id f T)) with (alter f id (users_table T)).
  destruct (decide (id = id')) as [<-|Hne]; [|by rewrite lookup_alter_ne].
  rewrite lookup_alter_eq. destruct (users_table T !! id) as [u|]; cbn; [|naive_solver]. split.
  - intros (? & [= <-] & E). rewrite Hf in E. eauto.
  - intros (? & [= <-] & E). eexists. by rewrite Hf.
Qed.

Lemma convert_not_setup (f : Facade) req c : convert D f req = Ok c -> is_setup c = false.
Proof.
  destruct f; cbn; unfold basic_convert, catid_convert, text_header; [|destruct (get_code_from_request req); cbn].
  - destruct (mjoin _); cbn; [|done]. destruct (mjoin _); cbn; [|done]. by intros [= <-].
  - by intros [= <-].
  - done.
Qed.

Lemma reads_attempt {E F A} T (m : effect D E A) Q :
  reads T m Q -> reads T (attempt (F := F) m) (fun _ => True).
Proof. intros Hm d Hd. unfold attempt. destruct (Hm d Hd) as [Hr _]. by destruct (m d). Qed.

Lemma reads_find_first {R K} `{Row R K} T (p : R -> bool) : reads (D := D) T (find_first p) (fun _ => True).
Proof. eapply reads_bind; [apply reads_maybe_find_first|]. intros o _. by apply reads_of_result. Qed.

Lemma leaves_pure {E A B} T (r : result E A) (k : A -> effect D E B) (P : Tables -> Prop) :
  P T -> (forall a, r = Ok a -> leaves T (k a) P) -> leaves T (of_result r ≫= k) P.
Proof. intros HP Hk. by eapply leaves_bind; [done|by apply (reads_of_result _ _ (fun a => r = Ok a))|]. Qed.

Lemma leaves_result {E A} T (r : result E A) (P : Tables -> Prop) : P T -> leaves (D := D) T (of_result r) P.
Proof. intros HP d Hd. cbn. by rewrite Hd. Qed.

Lemma authenticate_leaves T (f : Facade) dr c :
  users_table T !! dr_id dr = None -> is_setup c = false ->
  leaves (D := D) T (facade_authenticate dr f c) (same_admins T).
Proof.
  intros Hid Hc. pose proof (same_admins_refl T) as HT. destruct f as [a|a]; cbn [facade_authenticate dyn_facade basic_facade catid_facade].
  - apply leaves_pure; [done|]. intros username _.
    eapply leaves_read; [done|apply reads_find_first|]. intros u _.
    destruct (bcrypt_verify _ _) as [[|]|]; [by apply leaves_ret|by apply leaves_throw..].
  - apply leaves_pure; [done|]. intros token _. apply leaves_pure; [done|]. intros cat_user _.
    eapply leaves_bind; [done|eapply reads_attempt, reads_find_first|]. intros [u|e] _.
    + apply leaves_answer. case_decide; [|by apply leaves_ret].
      apply leaves_on_err, leaves_execute; [done|]. by apply same_admins_update.
    + apply leaves_answer, leaves_on_err, leaves_execute; [done|]. rewrite Hc.
      apply same_admins_insert; [done|]. by cbn.
Qed.

Lemma reads_controller_user T now header :
  reads (D := D) T (controller_user now header) (fun u => exists id, bearer now header = Some id /\ is_admin T id).
Proof.
  unfold controller_user. destruct (bearer now header) as [id|]; [|apply reads_throw].
  eapply reads_bind; [apply reads_on_err, reads_find_row|]. intros u Hu.
  case_decide as Hr; [apply reads_throw|]. apply reads_ret. exists id. split; [done|]. exists u.
  split; [done|]. by destruct (decide (u_global_role u = i32_of_GlobalRole Admin)).
Qed.

Lemma admin_only {A} T now header (k : UserRow -> effect D NodeClientError A) :
  (forall id, bearer now header = Some id -> ~ is_admin T id) ->
  leaves T (controller_user now header ≫= k) (same_admins T).
Proof.
  intros Hno. eapply leaves_bind; [apply same_admins_refl|apply reads_controller_user|].
  intros u (id & Hid & Ha). by destruct (Hno id Hid).
Qed.

Lemma ordinary_leaves T r :
  (forall id, drawn_id r = Some id -> users_table T !! id = None) ->
  (forall id, requester r = Some id -> ~ is_admin T id) ->
  leaves (D := D) T (serve_account methods config r) (same_admins T).
Proof.
  intros Hid Hno. pose proof (same_admins_refl T) as HT. destruct r as [salt dr req|dr req method|now h|now h id role|now h id q];
    cbn [serve_account drawn_id requester] in *; [| |by apply admin_only..].
  - apply leaves_answer, leaves_pure; [done|]. intros h _.
    eapply leaves_then; [apply leaves_on_err, (leaves_execute _ _ (same_admins T)); [done|]|done|].
    + apply same_admins_insert; [by apply Hid|]. by cbn.
    + intros T' _ HT'. by apply leaves_result.
  - apply leaves_answer, leaves_pure; [done|]. intros f _. apply leaves_pure; [done|]. intros c Hc.
    eapply leaves_then; [apply leaves_on_err, (authenticate_leaves T f dr c)|done|].
    + by apply Hid.
    + destruct (convert D f req) eqn:E; [|done]. injection Hc as <-. by eapply convert_not_setup.
    + intros T' a HT'. by apply leaves_result.
Qed.

(** C10: nobody becomes an administrator on their own.  Whatever people register, log in by any
    method or ask of the controller, and whatever statements of the database fail: as long as
    no request carries the session of an administrator, the administrators stay the same. *)
Theorem no_escalation d d' :
  rtc (ordinary_step methods config) d d' ->
  forall id, is_admin (tables d') id <-> is_admin (tables d) id.
Proof.
  induction 1 as [|d1 d2 d3 (r & Hid & Hno & ->) _ IH]; [done|]. intros id. rewrite IH.
  by apply (ordinary_leaves (tables d1) r Hid Hno d1).
Qed.
End escalation.

(** ** The methods of a configuration *)
Section method_map.
  Context {D : Type} `{Database D} `{Bcrypt} `{CatIdService}.

Lemma lookup_add_method (l : list Text) (M : gmap Text Facade) f m :
  add_method (D := D) l M f !! m = if decide (get_type D f = m /\ m ∈ l) then Some f else M !! m.
Proof.
  unfold add_method. destruct (list_find _ l) as [[i x]|] eqn:E.
  - apply list_find_Some in E as (Hi & <- & _). apply list_elem_of_lookup_2 in Hi.
    destruct (decide (get_type D f = m)) as [<-|Hne].
    + by rewrite lookup_insert_eq, decide_True.
    + rewrite lookup_insert_ne, decide_False; [done|tauto|done].
  - rewrite decide_False; [done|]. intros [<- Hm]. apply list_find_None in E.
    by apply (proj1 (Forall_forall _ _) E _ Hm).
Qed.

(** The map has exactly the known methods that are configured, under their names. *)
Lemma init_methods_spec login_methods config methods :
  init_authentication_methods (D := D) login_methods config = Ok methods ->
  forall m f, methods !! m = Some f <-> m ∈ login_methods /\ f ∈ login_facades config /\ get_type D f = m.
Proof.
  unfold init_authentication_methods, login_facades. case_decide as Hcat; [done|]. intros [= <-] m f.
  destruct (gc_cat_id_config config) as [c|]; cbn [fold_left]; rewrite !lookup_add_method, lookup_empty, !elem_of_cons, elem_of_nil;
    repeat case_decide; cbn in *; naive_solver.
Qed.
End method_map.

(** ** The first user *)
Inductive SetupRequest : Type :=
| SetupRegister (salt : Z) (dr : Draw) (req : RegisterRequest)
| SetupLogin (dr : Draw) (req : HttpRequest) (method : Text).

Section first_user.
  Context {D : Type} `{ReliableDatabase D} `{Bcrypt} `{CatIdService}.

Definition serve_setup (methods : gmap Text Facade) (r : SetupRequest) : effect (SetupState D) NodeClientError unit :=
  match r with
  | SetupRegister salt dr req => setup_register salt dr req
  | SetupLogin dr req method => setup_login methods dr req method
  end.

Lemma BASIC_upper : map to_upper BASIC_TYPE_IDENTIFIER = BASIC_TYPE_IDENTIFIER.
Proof. vm_compute. reflexivity. Qed.

Lemma setup_not_needed d u : users_table (tables d) = {[u_id u := u]} -> (setup_needed d).2 = Some false.
Proof.
  intros Hu. unfold setup_needed, maybe_get_first_user.
  destruct (run_maybe_find_first (R := UserRow) (fun _ => true) d) as (d' & [x|] & -> & _ & Hr); [done|].
  specialize (Hr (u_id u) u). change (table (tables d)) with (users_table (tables d)) in Hr.
  rewrite Hu, lookup_singleton_eq in Hr. by specialize (Hr eq_refl).
Qed.

(** The new account of someone the external service knows. *)
Lemma run_catid_first config general dr c (d d' : D) claims :
  users_table (tables d) = ∅ -> catid_authenticate config general dr c d = (d', Ok claims) ->
  exists u, users_table (tables d') = {[u_id u := u]}
    /\ u_global_role u = i32_of_GlobalRole (if is_setup c then Admin else User).
Proof.
  intros Hnone E. unfold catid_authenticate, mbind at 1, effect_bind at 1, of_result at 1 in E.
  destruct (fetch_access_token _ _) as [token|]; [|done]. cbn [ok_or] in E.
  unfold mbind at 1, effect_bind at 1, of_result at 1 in E. destruct (fetch_cat_user _ _) as [cu|]; [|done].
  unfold mbind at 1, effect_bind at 1, attempt, get_user_from_auth in E.
  edestruct (run_find_first (D := D) (R := UserRow)) as (d1 & r & E1 & Hd1 & Hr) in E. rewrite E1 in E.
  destruct r as [u|e].
  { destruct Hr as [_ [k Hk]]. change (table (tables d)) with (users_table (tables d)) in Hk. by rewrite Hnone in Hk. }
  set (u := mkUserRow _ _ _ _ _ _ _ _) in E. unfold mbind, effect_bind, on_err, insert_user in E.
  destruct (run_insert_row u d1) as (d2 & E2 & Hd2). rewrite E2 in E. injection E as <- _.
  exists u. split; [|done]. rewrite Hd2. change (users_table (row_insert u (tables d1))) with (<[u_id u := u]> (users_table (tables d1))).
  by rewrite Hd1, Hnone.
Qed.

Definition one_admin (s : SetupState D) : Prop :=
  su_shutdown s = true /\ exists admin, users_table (tables (su_session s)) = {[u_id admin := admin]}
    /\ u_global_role admin = i32_of_GlobalRole Admin.

Lemma run_setup_register salt dr req (s s' : SetupState D) :
  users_table (tables (su_session s)) = ∅ -> setup_register salt dr req s = (s', Ok tt) -> one_admin s'.
Proof.
  intros Hnone E.
  unfold setup_register, hash_password, in_session, mbind, effect_bind, of_result, on_err, cancel, modify in E.
  destruct (bcrypt_hash _ _) as [h|]; [|done]. cbn [ok_or su_session su_shutdown] in E.
  set (u := mkUserRow _ _ _ _ _ _ _ _) in E. unfold insert_user in E.
  destruct (run_insert_row u (su_session s)) as (d1 & E1 & Hd1). rewrite E1 in E. injection E as <-.
  split; [done|]. exists u. split; [|done]. cbn [su_session]. rewrite Hd1.
  change (users_table (row_insert u (tables (su_session s)))) with (<[u_id u := u]> (users_table (tables (su_session s)))).
  by rewrite Hnone.
Qed.

Lemma run_setup_login methods dr req method (s s' : SetupState D) :
  (forall m f, methods !! m = Some f -> get_type D f = m) ->
  users_table (tables (su_session s)) = ∅ -> setup_login methods dr req method s = (s', Ok tt) -> one_admin s'.
Proof.
  intros Hm Hnone E. unfold setup_login in E. case_decide as Hu; [done|].
  unfold mbind at 1, effect_bind at 1, of_result at 1 in E.
  destruct (methods !! method) as [f|] eqn:Hf; [|done]. cbn [ok_or] in E. apply Hm in Hf as <-.
  destruct f as [a|a]; [by destruct (Hu BASIC_upper)|].
  unfold mbind at 1, effect_bind at 1, of_result at 1 in E. destruct (convert D (CatId a) req) as [c|]; [|done].
  cbn [map_err facade_authenticate dyn_facade catid_facade] in E.
  unfold mbind, effect_bind, in_session, on_err, cancel, modify in E.
  destruct (catid_authenticate _ _ _ _ _) as [d1 [claims|]] eqn:Ea; [|done]. injection E as <-. split; [done|].
  by apply (run_catid_first _ _ _ _ _ _ _ Hnone Ea).
Qed.

(** The set-up makes one administrator.  While there is no user, a set-up request that
    succeeds, whether it registers or logs in with the external service, leaves exactly one
    user, an administrator; the set-up server stops, and the next start does not set up. *)
Theorem setup_creates_admin login_methods config methods r s s' :
  init_authentication_methods (D := D) login_methods config = Ok methods ->
  users_table (tables (su_session s)) = ∅ -> serve_setup methods r s = (s', Ok tt) ->
  su_shutdown s' = true /\ (setup_needed (su_session s')).2 = Some false
  /\ exists admin, users_table (tables (su_session s')) = {[u_id admin := admin]}
       /\ u_global_role admin = i32_of_GlobalRole Admin.
Proof.
  intros Hm Hnone E. assert (one_admin s') as (Hs & admin & Ha & Hr).
  { destruct r as [salt dr req|dr req method]; [by eapply run_setup_register|]. eapply run_setup_login; [|done..].
    intros m f Hf. by apply (init_methods_spec (D := D) _ _ _ Hm) in Hf as (_ & _ & ?). }
  split; [done|]. split; [by eapply setup_not_needed|by exists admin].
Qed.
End first_user.

(** ** Accounts of the external service *)
Section external.
  Context {D : Type} `{ReliableDatabase D} `{Bcrypt} `{CatIdService}.

Record accounts_ok (T : Tables) : Prop := {
  ao_keyed : forall k u, users_table T !! k = Some u -> u_id u = k;
  ao_unique : forall k k' u u', users_table T !! k = Some u -> users_table T !! k' = Some u' ->
    u_auth_identifier u = u_auth_identifier u' -> k = k'
}.

Lemma accounts_ok_set T u :
  accounts_ok T ->
  (forall k u', k <> u_id u -> users_table T !! k = Some u' -> u_auth_identifier u' <> u_auth_identifier u) ->
  accounts_ok (row_insert u T).
Proof.
  intros [Hk Hu] Hnew. change (users_table (row_insert u T)) with (<[u_id u := u]> (users_table T)).
  split; change (users_table (row_insert u T)) with (<[u_id u := u]> (users_table T)).
  - intros k x [[<- <-]|[_ Hx]]%lookup_insert_Some; [done|by apply Hk].
  - intros k k' x x' [[<- <-]|[Hne Hx]]%lookup_insert_Some [[<- <-]|[Hne' Hx']]%lookup_insert_Some E; [done|..].
    + by destruct (Hnew k' x' (not_eq_sym Hne') Hx').
    + by destruct (Hnew k x (not_eq_sym Hne) Hx).
    + by apply (Hu k k' x x').
Qed.

Definition with_name (name : Text) (u : UserRow) : UserRow :=
  mkUserRow (u_id u) (u_session_id u) name (u_auth_identifier u) (u_quota u) (u_global_role u)
    (u_created u) (u_last_modified u).

(** The known user's branch: the record has the name of the service afterwards. *)
Lemma run_take_name {E} (f : MeowithDataError -> E) name u (d : D) :
  users_table (tables d) !! u_id u = Some u ->
  exists d', (if decide (name <> u_name u) then on_err f (update_user (u_id u) name) else mret tt) d = (d', Ok tt)
    /\ tables d' = row_insert (with_name name u) (tables d).
Proof.
  intros Hu. case_decide as Hn.
  - unfold on_err, update_user. edestruct (run_execute (D := D)) as (d' & -> & Hd). exists d'. split; [done|].
    rewrite Hd. exact (row_update_insert (u_id u) (with_name name) u (tables d) Hu eq_refl).
  - exists d. split; [done|]. subst name. change (with_name (u_name u) u) with
      (mkUserRow (u_id u) (u_session_id u) (u_name u) (u_auth_identifier u) (u_quota u) (u_global_role u)
         (u_created u) (u_last_modified u)).
    replace (mkUserRow _ _ _ _ _ _ _ _) with u by by destruct u.
    unfold row_insert. change (table (tables d)) with (users_table (tables d)). rewrite insert_id by done.
    by destruct (tables d).
Qed.

(** A login with the external service is one to the only account with the id there; it takes
    over the name, makes the account when there is none, and touches no other user. *)
Lemma external_login_spec config general dr c (d d' : D) claims :
  accounts_ok (tables d) -> users_table (tables d) !! dr_id dr = None ->
  catid_authenticate config general dr c d = (d', Ok claims) ->
  exists token cu u, fetch_access_token config (get_authentication_identifier c) = Some token
    /\ fetch_cat_user config token = Ok cu
    /\ claims = claims_of u /\ u_auth_identifier u = cu_id cu /\ u_name u = cu_name cu
    /\ users_table (tables d') = <[u_id u := u]> (users_table (tables d))
    /\ accounts_ok (tables d')
    /\ (forall k v, users_table (tables d) !! k = Some v -> u_auth_identifier v = cu_id cu ->
          u_id u = k /\ u_global_role u = u_global_role v).
Proof.
  intros Hok Hid E. unfold catid_authenticate, mbind at 1, effect_bind at 1, of_result at 1 in E.
  destruct (fetch_access_token _ _) as [token|] eqn:Et; [|done]. cbn [ok_or] in E.
  unfold mbind at 1, effect_bind at 1, of_result at 1 in E. destruct (fetch_cat_user _ _) as [cu|] eqn:Ec; [|done].
  unfold mbind at 1, effect_bind at 1, attempt, get_user_from_auth in E.
  edestruct (run_find_first (D := D) (R := UserRow)) as (d1 & r & E1 & Hd1 & Hr) in E. rewrite E1 in E.
  change (table (tables d)) with (users_table (tables d)) in Hr. exists token, cu. destruct r as [u|e].
  - destruct Hr as [Ha%bool_decide_eq_true [k Hk]]. pose proof (ao_keyed _ Hok k u Hk) as Huk. subst k.
    rewrite <- Hd1 in Hk. unfold mbind, effect_bind in E.
    destruct (run_take_name (fun _ => AeInternalError) (cu_name cu) u d1 Hk) as (d2 & E2 & Hd2).
    rewrite E2 in E. injection E as <- <-. rewrite Hd1 in Hd2, Hk.
    exists (with_name (cu_name cu) u). repeat (split; [done|]). split; [by rewrite Hd2|]. split.
    + rewrite Hd2. apply accounts_ok_set; [done|]. intros k u' Hne Hk' E'.
      by apply Hne, (ao_unique _ Hok k (u_id u) u' u).
    + intros k v Hv Hva. assert (k = u_id u) as -> by (apply (ao_unique _ Hok k (u_id u) v u); congruence).
      rewrite Hk in Hv. by injection Hv as <-.
  - set (u := mkUserRow _ _ _ _ _ _ _ _) in E. unfold mbind, effect_bind, on_err, insert_user in E.
    destruct (run_insert_row u d1) as (d2 & E2 & Hd2). rewrite E2 in E. injection E as <- <-. rewrite Hd1 in Hd2.
    assert (Hnew : forall k v, users_table (tables d) !! k = Some v -> u_auth_identifier v <> cu_id cu).
    { intros k v Hv Ha. specialize (Hr k v Hv). by rewrite bool_decide_eq_false in Hr. }
    exists u. repeat (split; [done|]). split; [by rewrite Hd2|]. split.
    + rewrite Hd2. apply accounts_ok_set; [done|]. intros k v _. apply Hnew.
    + intros k v Hv Ha. by destruct (Hnew k v Hv).
Qed.
End external.

(** ** Concrete accounts *)
#[local] Existing Instance plain_codec.
#[local] Existing Instance plain_codec_laws.

(** A hash that is the password it was made of, and a service that takes the code for the id. *)
#[local] Instance plain_bcrypt : Bcrypt := {
  bcrypt_hash _ p := Some (take 72 p);
  bcrypt_verify p h := Some (bool_decide (take 72 p = h))
}.
#[local] Instance plain_bcrypt_laws : BcryptLaws.
Proof. split. by intros salt p h p' [= <-] _ _. Qed.

#[local] Instance plain_session : SessionCodec := {
  json_of_claims c := Some (to_text (dc_id c, dc_sid c));
  claims_of_json t := '(id, sid) ← of_text t; Some (mkDashboardClaims id sid)
}.
#[local] Instance plain_session_laws : SessionCodecLaws.
Proof. split. intros [id sid] t [= <-]. cbn. by rewrite of_to_text. Qed.

#[local] Instance echo_service : CatIdService := {
  fetch_access_token _ code := Some code;
  fetch_cat_user _ token := Ok (mkCatIdUser token (str "ann"%string))
}.

Definition config0 : GeneralConfiguration :=
  mkGeneral (mkPorts 0 1 2) (mkTokenConfig 100 []) 8 1000 [BASIC_TYPE_IDENTIFIER; CATID_TYPE_IDENTIFIER]
    (Some (mkCatId [] [] [])) (mkFsLimit 100 10).
Definition methods0 : gmap Text Facade :=
  match init_authentication_methods (D := Tables) (gc_login_methods config0) config0 with Ok m => m | Err _ => ∅ end.
Definition ann (password : Text) : RegisterRequest := mkRegistration (str "ann"%string) password.
Definition password_request (password : Text) : HttpRequest :=
  mkRequest {[ USERNAME_HEADER := Some (str "ann"%string); PASSWORD_HEADER := Some password ]} [].
Definition code_request : HttpRequest := mkRequest ∅ (str "state=1&code=x"%string).

Definition after_register (id : Uuid) (password : Text) (T : Tables) : Tables :=
  (do_register config0 0 (mkDraw id 7 0) (ann password) T).1.

(** Names are not unique.  Once somebody else has registered under the same name, the first
    one of that name cannot log in any more. *)
Lemma duplicate_name_locks_out :
  let T1 := after_register 1 (str "pw"%string) no_rows in
  let T2 := after_register 2 (str "other"%string) T1 in
  let login := do_login methods0 config0 (mkDraw 9 9 0) (password_request (str "pw"%string)) BASIC_TYPE_IDENTIFIER in
  is_ok (login T1).2 = true /\ (login T2).2 = Err NcBadAuth.
Proof. vm_compute. split; reflexivity. Qed.

(** A failed read makes a second account.  A login with the external service takes every
    failure to read the user for a missing one. *)
Lemma failed_read_duplicates_account :
  let login := do_login (D := Faulty) methods0 config0 (mkDraw 3 7 0) code_request CATID_TYPE_IDENTIFIER in
  let T := (do_login methods0 config0 (mkDraw 2 7 0) code_request CATID_TYPE_IDENTIFIER no_rows).1 in
  map (fun u => (u_id u, u_auth_identifier u)) (rows_where (fun _ => true) (tables (login (mkFaulty T [Some false])).1))
  ≡ₚ [(2, str "x"%string); (3, str "x"%string)]
  /\ is_ok (login (mkFaulty T [Some false])).2 = true.
Proof. vm_compute. split; [|reflexivity]. first [reflexivity | by apply Permutation_swap]. Qed.

Lemma register_login_exact_witness :
  exists user, users_table (after_register 2 (str "pw"%string) no_rows) = {[2 := user]}
    /\ exists T session, do_login methods0 config0 (mkDraw 9 9 0) (password_request (str "pw"%string))
         BASIC_TYPE_IDENTIFIER (after_register 2 (str "pw"%string) no_rows) = (T, Ok session)
       /\ exists T', dashboard_user 50 (Some (Some (str "Bearer "%string ++ session))) T = (T', Ok user).
Proof.
  edestruct (register_login_exact (D := Tables) methods0 config0 ltac:(vm_compute; reflexivity) 0 (mkDraw 2 7 0)
    (ann (str "pw"%string)) no_rows (after_register 2 (str "pw"%string) no_rows)) as (user & Hu & _ & _ & Hlog).
  - apply (bool_decide_unpack _). vm_compute. exact I.
  - intros k u E. vm_compute in E. by destruct k.
  - vm_compute. reflexivity.
  - exists user. split; [exact Hu|].
    edestruct (Hlog (mkDraw 9 9 0) (password_request (str "pw"%string)) (str "pw"%string) _ eq_refl)
      as (T & r & E & _ & _ & Hsame & Huse).
    + apply (bool_decide_unpack _). vm_compute. exact I.
    + vm_compute. reflexivity.
    + vm_compute. reflexivity.
    + specialize (Hsame eq_refl). destruct r as [session|]; [|done]. exists T, session. split; [exact E|].
      apply (Huse session 50 T eq_refl); [vm_compute; congruence|reflexivity].
Defined.

Definition admin1 : UserRow := mkUserRow 1 7 (str "root"%string) [] 0 (i32_of_GlobalRole Admin) 0 0.

Lemma no_escalation_witness :
  is_admin (after_register 2 (str "pw"%string) (row_insert admin1 no_rows)) 1
  /\ ~ is_admin (after_register 2 (str "pw"%string) (row_insert admin1 no_rows)) 2.
Proof.
  pose proof (no_escalation (D := Tables) methods0 config0 (row_insert admin1 no_rows)
    (after_register 2 (str "pw"%string) (row_insert admin1 no_rows))) as Hsame.
  assert (Hs : rtc (ordinary_step methods0 config0) (row_insert admin1 no_rows : Tables)
                 (after_register 2 (str "pw"%string) (row_insert admin1 no_rows))).
  { apply rtc_once. exists (Register 0 (mkDraw 2 7 0) (ann (str "pw"%string))). split; [by intros id [= <-]|].
    split; [done|]. vm_compute. reflexivity. }
  specialize (Hsame Hs). split.
  - apply (Hsame 1). exists admin1. split; [vm_compute; reflexivity|reflexivity].
  - intros Ha. apply (Hsame 2) in Ha as (u & Hu & _). vm_compute in Hu. congruence.
Defined.

Lemma setup_creates_admin_witness :
  exists s', serve_setup methods0 (SetupLogin (mkDraw 2 7 0) code_request CATID_TYPE_IDENTIFIER)
      (mkSetup (no_rows : Tables) false) = (s', Ok tt)
    /\ su_shutdown s' = true /\ (setup_needed (su_session s')).2 = Some false.
Proof.
  eexists. split; [vm_compute; reflexivity|].
  edestruct (setup_creates_admin (D := Tables) (gc_login_methods config0) config0 methods0
    (SetupLogin (mkDraw 2 7 0) code_request CATID_TYPE_IDENTIFIER) (mkSetup no_rows false)) as (Hs & Hn & _).
  - vm_compute. reflexivity.
  - vm_compute. reflexivity.
  - vm_compute. reflexivity.
  - split; [exact Hs|exact Hn].
Defined.
