(* ===== verification/Enrolment.v ===== *)
(** * Enrolment

    How a service joins the cluster: [commons/src/autoconfigure] and the request context of
    [commons/src/context/microservice_request_context.rs] on its side, and the routes of
    [controller/src/discovery/routes.rs] in front of [Controller] on the other; and how a node
    keeps its view of the other nodes ([node/src/peer], [node/src/caching/node_storage_map.rs]
    and the refreshes of [node/src/lib.rs]).

    The state is the disk of the node beside the controller.  An exchange of HTTP may be lost on
    its way there or back.  Keys and certificates are those of a class for OpenSSL; drawn ids
    and tokens, the clock and the environment are arguments. *)
From Stdlib Require Import ZArith Lia List Ascii.
From stdpp Require Import base numbers gmap list strings.
From S2P Require Import Prelude Errors Paths Addresses Config Database Directories Dashboard Tokens Mgpp Controller.
Local Open Scope Z_scope.

(** ** HTTP *)
(** What [HeaderValue::from_str] takes, and what [HeaderValue::to_str] gives back. *)
Definition header_char (c : ascii) : bool := bool_decide (code c = 9 \/ 32 <= code c /\ code c <> 127).
Definition text_char (c : ascii) : bool := bool_decide (code c = 9 \/ 32 <= code c < 127).

(** A header as it arrives: without the white space around it, and as text if it is text;
    [None] if it cannot be sent. *)
Definition send_header (v : Text) : option (option Text) :=
  if forallb header_char v then Some (if forallb text_char (trim v) then Some (trim v) else None) else None.

Inductive Fate : Type := Delivered | RequestLost | ResponseLost.

(** How a procedure of the node ends without a result: with a panic, or never. *)
Inductive Halt : Type := Panic | Waits.

Record Host (D : Type) : Type := mkHost { ho_disk : Disk; ho_controller : Controller D }.
Arguments mkHost {D}.
Arguments ho_disk {D}.
Arguments ho_controller {D}.

(** ** Keys and certificates *)
Inductive GeneralName : Type := IpName (ip : Text) | DnsName (name : Text).

Record SigningData : Type := mkSigning { sd_ip_addrs : list IpAddr; sd_dns_names : list Text; sd_validity_days : u32 }.

(** OpenSSL: [build_cert] signs a certificate for the key of a request, with alternative names
    and a number of days; [alt_names] are the names that a certificate is good for. *)
Class Pki (Key Csr Cert Der : Type) := {
  generate_private_key : option Key;
  generate_csr : Key -> option Csr;
  csr_to_der : Csr -> option Der;
  csr_from_der : Der -> option Csr;
  build_cert : Csr -> list GeneralName -> u32 -> option Cert;
  cert_to_der : Cert -> option Der;
  cert_from_der : Der -> option Cert;
  alt_names : Cert -> list GeneralName
}.

Class PkiLaws Key Csr Cert Der `{Pki Key Csr Cert Der} : Prop := {
  csr_der : forall csr der, csr_to_der csr = Some der -> csr_from_der der = Some csr;
  cert_der : forall cert der, cert_to_der cert = Some der -> cert_from_der der = Some cert;
  build_names : forall csr names days cert, build_cert csr names days = Some cert -> alt_names cert = names
}.

(** The names that [sign_csr] puts into a certificate. *)
Definition subject_alt_names (req_data : SigningData) : list GeneralName :=
  map (fun ip => IpName (IpAddr_to_string ip)) (sd_ip_addrs req_data) ++ map DnsName (sd_dns_names req_data).

(** ** The node *)
Record MicroserviceRequestContext : Type := mkMsContext {
  mc_access_token : Text;
  mc_renewal_token : Text;
  mc_microservice_type : MicroserviceType;
  mc_id : Uuid;
(** The token in the default headers of the client. *)
mc_client : Text
}.

Definition MicroserviceRequestContext_new (microservice_type : MicroserviceType) (id : Uuid) : MicroserviceRequestContext :=
  mkMsContext [] [] microservice_type id [].

(** What a run draws and reads. *)
Record Draws : Type := mkDraws { dw_id : Uuid; dw_renewal : Text; dw_access : Text; dw_now : Z }.
Record Fates : Type := mkFates { fa_register : Fate; fa_authenticate : Fate; fa_csr : Fate; fa_heartbeat : Fate }.

Definition TOKEN_PATH : Text := str "tkn.store".

Section enrolment.
  Context {D : Type} `{Database D} {Key Csr Cert Der : Type} `{Pki Key Csr Cert Der}.
(** Whether shutdowns of streams succeed, and the configuration of the controller. *)
  Variable closed : bool.
  Variable autogen_ssl_validity : u32.

Abbreviation Node := (effect (Host D) Halt).

Definition sign_csr (csr : Csr) (req_data : SigningData) : option Cert :=
  build_cert csr (subject_alt_names req_data) (sd_validity_days req_data).

(** *** The routes of the controller *)
Definition get_address (header : option (option Text)) : option Text := mjoin header.
Definition get_addresses (header : option (option Text)) : option (list IpAddr * list Text) :=
  deserialize_header <$> mjoin header.

Definition register_node (req : NodeRegisterRequest) (x_addr : option (option Text)) (dw : Draws)
    : effect (Controller D) (Stop NodeError) Text :=
  node_addr ← of_result (ok_or (get_address x_addr) (Answered NeBadRequest));
  perform_register_node req node_addr (dw_id dw) (dw_renewal dw) (dw_now dw).

Definition security_csr (authorization sec_authorization x_addr : option (option Text)) (body : Der)
    : effect (Controller D) (Stop NodeError) Der :=
  node ← verify_node (mjoin authorization);
  csr ← of_result (ok_or (csr_from_der body) (Answered NeBadRequest));
  addresses ← of_result (ok_or (get_addresses x_addr) (Answered NeBadRequest));
  let '(ip_addrs, domains) := addresses in
  of_result (map_err Answered (sign_node_csr sec_authorization node
    (sign_csr csr (mkSigning ip_addrs domains autogen_ssl_validity) ≫= cert_to_der))).

(** *** The procedures of the node *)
Definition on_disk {A} (m : effect Disk FileError A) : Node (result FileError A) := fun h =>
  let '(dk, r) := m (ho_disk h) in (mkHost dk (ho_controller h), Ok r).

(** A request and its response; [None] is an error of [send], or of reading the response as
    what was expected. *)
Definition exchange {E A} (fate : Fate) (handler : effect (Controller D) (Stop E) A) : Node (option A) := fun h =>
  match fate with
  | RequestLost => (h, Ok None)
  | _ =>
      let '(c, r) := handler (ho_controller h) in
      let h := mkHost (ho_disk h) c in
      match fate, r with
      | Delivered, Ok a => (h, Ok (Some a))
      | Delivered, Err Hangs => (h, Err Waits)
      | _, _ => (h, Ok None)
      end
  end.

(** [unwrap] and [expect] *)
Definition unwrap {A} (o : option A) : Node A := match o with Some a => mret a | None => throw Panic end.

Definition token_file (path : option Text) : Text := default TOKEN_PATH path.

Definition read_renewal_token (path : option Text) : Node (option Text) :=
  r ← on_disk (read_file (token_file path));
  mret match r with
       | Ok token => if is_renewal_token_valid token then Some token else None
       | Err _ => None
       end.

(** [fs::write] *)
Definition store_renewal_token (path : option Text) (token : Text) : Node (result FileError unit) :=
  on_disk (create_file (token_file path);; write_all (token_file path) token).

(** [register_code]: the variable [REGISTER_CODE] of the environment *)
Definition perform_registration (fate : Fate) (register_code : option Text) (dw : Draws)
    (ctx : MicroserviceRequestContext) (addr : Text) : Node (option Text) :=
  register_code ← unwrap register_code;
  match send_header addr with
  | None => mret None
  | x_addr => exchange fate (register_node (mkRegister register_code (mc_microservice_type ctx)) x_addr dw)
  end.

Definition fetch_access_token (fate : Fate) (dw : Draws) (ctx : MicroserviceRequestContext) : Node (option (Text * Uuid)) :=
  exchange fate (perform_token_creation closed (dw_access dw) (dw_now dw) (mc_renewal_token ctx)).

(** The new client panics on a token that is no header. *)
Definition update_client (ctx : MicroserviceRequestContext) : Node MicroserviceRequestContext :=
  if forallb header_char (mc_access_token ctx)
  then mret (mkMsContext (mc_access_token ctx) (mc_renewal_token ctx) (mc_microservice_type ctx) (mc_id ctx) (mc_access_token ctx))
  else throw Panic.

(** A new key, and the request for its certificate. *)
Definition new_request : option (Key * Der) :=
  pkey ← generate_private_key; csr ← generate_csr pkey; der ← csr_to_der csr; Some (pkey, der).

Definition perform_certificate_request (fate : Fate) (ctx : MicroserviceRequestContext)
    (addrs : list IpAddr) (domains : list Text) : Node (option (Key * Cert)) :=
  match new_request with
  | None => mret None
  | Some (pkey, der) =>
      match send_header (mc_renewal_token ctx), send_header (serialize_header addrs domains) with
      | Some sec_authorization, Some x_addr =>
          response ← exchange fate
            (security_csr (send_header (mc_client ctx)) (Some sec_authorization) (Some x_addr) der);
          mret (cert ← response ≫= cert_from_der; Some (pkey, cert))
      | _, _ => mret None
      end
  end.

Definition heartbeat (fate : Fate) (now : Z) (ctx : MicroserviceRequestContext) : Node (option unit) :=
  exchange fate (node ← verify_node (mjoin (send_header (mc_client ctx))); microservice_heart_beat node now).

(** The first part: the renewal token of the disk, or of a registration. *)
Definition obtain_renewal_token (fates : Fates) (register_code : option Text) (dw : Draws)
    (ctx : MicroserviceRequestContext) (self_addr : Text) (token_path : option Text) : Node Text :=
  token ← read_renewal_token token_path;
  match token with
  | Some token => mret token
  | None =>
      token ← perform_registration (fa_register fates) register_code dw ctx self_addr;
      token ← unwrap token;
      stored ← store_renewal_token token_path token;
      match stored with Ok _ => mret token | Err _ => throw Panic end
  end.

Definition with_renewal (token : Text) (ctx : MicroserviceRequestContext) : MicroserviceRequestContext :=
  mkMsContext (mc_access_token ctx) token (mc_microservice_type ctx) (mc_id ctx) (mc_client ctx).

(** The second part: the access token, and the client that uses it. *)
Definition obtain_access_token (fates : Fates) (dw : Draws) (ctx : MicroserviceRequestContext)
    : Node MicroserviceRequestContext :=
  reg_resp ← fetch_access_token (fa_authenticate fates) dw ctx;
  reg_resp ← unwrap reg_resp;
  update_client (mkMsContext reg_resp.1 (mc_renewal_token ctx) (mc_microservice_type ctx) reg_resp.2 (mc_client ctx)).

Definition register_procedure (fates : Fates) (register_code : option Text) (dw : Draws)
    (ctx : MicroserviceRequestContext) (self_addr : Text) (addrs : list IpAddr) (domains : list Text)
    (token_path : option Text) : Node (MicroserviceRequestContext * (Key * Cert)) :=
  token ← obtain_renewal_token fates register_code dw ctx self_addr token_path;
  ctx ← obtain_access_token fates dw (with_renewal token ctx);
  certificate_pair ← perform_certificate_request (fa_csr fates) ctx addrs domains;
  certificate_pair ← unwrap certificate_pair;
  beat ← heartbeat (fa_heartbeat fates) (dw_now dw) ctx;
  _ ← unwrap beat;
  mret (ctx, certificate_pair).
End enrolment.

(** ** Headers *)
(** The characters of a header that arrives as it was. *)
Definition visible (c : ascii) : Prop := 33 <= code c < 127.

Lemma visible_chars c : visible c -> header_char c = true /\ text_char c = true /\ is_space c = false.
Proof.
  unfold visible, header_char, text_char, is_space. intros Hc.
  split; [|split]; [apply bool_decide_eq_true..|apply bool_decide_eq_false]; lia.
Qed.

Lemma send_visible v : Forall visible v -> send_header v = Some (Some v).
Proof.
  intros Hv. unfold send_header.
  assert (E : trim v = v).
  { destruct v as [|c v]; [done|]. rewrite <- (app_nil_r (c :: v)) at 1.
    apply (trim_spaces [] [] (c :: v)); try done.
    eapply Forall_impl; [exact Hv|]. intros d Hd. by apply visible_chars. }
  rewrite E. rewrite !(proj2 (forallb_forall _ _)); [done|..]; intros c Hc%list_elem_of_In;
    apply visible_chars; by eapply Forall_forall.
Qed.

Lemma CHARSET_visible : Forall visible CHARSET.
Proof. apply (bool_decide_unpack _). vm_compute. exact I. Qed.

Lemma valid_token_visible token : is_renewal_token_valid token = true -> Forall visible token.
Proof.
  unfold is_renewal_token_valid. rewrite andb_true_iff, forallb_forall. intros [_ Hall]. apply Forall_forall.
  intros c Hc%list_elem_of_In. apply Hall, bool_decide_eq_true in Hc. by eapply Forall_forall, Hc; apply CHARSET_visible.
Qed.

Lemma visible_no_bearer token : Forall visible token -> remove_bearer_prefix token = token.
Proof.
  intros Hv. unfold remove_bearer_prefix. rewrite decide_False; [done|]. intros E.
  assert (Hin : " "%char ∈ take (length (str "Bearer ")) token).
  { rewrite E. apply (bool_decide_unpack _). vm_compute. exact I. }
  apply (Forall_take _ (length (str "Bearer "))) in Hv. rewrite Forall_forall in Hv. specialize (Hv _ Hin).
  unfold visible in Hv. change (code " "%char) with 32 in Hv. lia.
Qed.

Lemma digit_visible d : 0 <= d < 16 -> visible (digit_char d).
Proof. intros Hd. unfold visible. rewrite code_digit by done. case_decide; lia. Qed.

Lemma IpAddr_visible ip : wf_ip ip -> Forall visible (IpAddr_to_string ip).
Proof. apply IpAddr_chars; [by vm_compute|by vm_compute|apply digit_visible]. Qed.

(** Names that reach the certificate. *)
Definition cert_domain (d : Text) : Prop := header_domain d /\ Forall visible d.

Lemma send_addresses addrs domains :
  Forall wf_ip addrs -> Forall cert_domain domains -> addrs <> [] \/ domains <> [] ->
  exists x_addr, send_header (serialize_header addrs domains) = Some x_addr
    /\ get_addresses (Some x_addr) = Some (addrs, domains).
Proof.
  intros Ha Hd Hne. eexists. split.
  - apply send_visible, join_with_chars; [by vm_compute|]. apply Forall_app. split; [apply Forall_map|];
      (eapply Forall_impl; [eassumption|]); [apply IpAddr_visible|by intros d []].
  - cbn. f_equal. apply run_header; [done| |done]. eapply Forall_impl; [exact Hd|]. by intros d [].
Qed.

(** ** What a finished enrolment means *)
Section finished.
  Context {D : Type} `{ReliableDatabase D} {Key Csr Cert Der : Type} `{PkiLaws Key Csr Cert Der}.
  Variable closed : bool.
  Variable validity : u32.
  Implicit Types (c : Controller D) (h : Host D) (issued : gmap Uuid Text).

Lemma exchange_Some {E A} fate (m : effect (Controller D) (Stop E) A) h h' a :
  exchange fate m h = (h', Ok (Some a)) ->
  exists c', m (ho_controller h) = (c', Ok a) /\ h' = mkHost (ho_disk h) c'.
Proof.
  unfold exchange. intros Hx. destruct fate; [|congruence|];
    destruct (m (ho_controller h)) as [c' [x|[]]]; simplify_eq; eauto.
Qed.

Lemma unwrap_ok {A} (o : option A) h h' a : unwrap o h = (h', Ok a) -> o = Some a /\ h' = h.
Proof. destruct o; unfold unwrap, mret, effect_ret, throw; intros; by simplify_eq. Qed.

Lemma verify_ok token c c' n :
  Forall visible token -> verify_node (mjoin (send_header token)) c = (c', Ok n) ->
  c' = c /\ ct_maps_held c = false /\ rc_token_node (ct_ctx c) !! token = Some n.
Proof.
  intros Hv. rewrite send_visible by done. cbn [mjoin option_join].
  unfold verify_node, mbind, effect_bind, lock_maps, gets, of_result. rewrite visible_no_bearer by done.
  destruct (ct_maps_held c); [congruence|]. destruct (rc_token_node _ !! token); cbn; intros; by simplify_eq.
Qed.

Lemma verify_run token c n :
  Forall visible token -> ct_maps_held c = false -> rc_token_node (ct_ctx c) !! token = Some n ->
  verify_node (mjoin (send_header token)) c = (c, Ok n).
Proof.
  intros Hv Hh Hn. rewrite send_visible by done. cbn [mjoin option_join].
  unfold verify_node, mbind, effect_bind, lock_maps, gets, of_result. rewrite visible_no_bearer by done.
  by rewrite Hh, Hn.
Qed.

Lemma register_returns req addr id token now c c' a :
  perform_register_node req addr id token now c = (c', Ok a) -> a = token.
Proof.
  unfold perform_register_node, register_with. intros (c1 & code & _ & E)%bind_ok.
  do 4 apply bind_ok in E as (? & ? & _ & E). injection E as _ <-. done.
Qed.

Lemma obtain_renewal_ok fates code dw ctx addr path h h' token issued :
  coherent issued (ho_controller h) ->
  (forall t, nodes_table (tables (ct_session (ho_controller h))) !! (t, dw_id dw) = None) ->
  is_renewal_token_valid (dw_renewal dw) = true ->
  obtain_renewal_token fates code dw ctx addr path h = (h', Ok token) ->
  coherent issued (ho_controller h') /\ is_renewal_token_valid token = true
  /\ dk_files (ho_disk h') !! token_file path = Some token /\ token_file path ∉ dk_denied (ho_disk h').
Proof.
  intros Hc Hid Hv E. unfold obtain_renewal_token in E. apply bind_ok in E as (h1 & t & Er & E).
  unfold read_renewal_token, on_disk, read_file, mbind, effect_bind, mret, effect_ret in Er.
  assert (h1 = h) as -> by (destruct h; repeat case_decide; by simplify_eq/=).
  destruct t as [t|].
  { injection E as <- <-. case_decide; [done|]. destruct (dk_files (ho_disk h) !! _) as [u|]; [|done]. cbn in Er.
    destruct (is_renewal_token_valid u) eqn:Eu; by simplify_eq. }
  apply bind_ok in E as (h2 & o & Ereg & E). apply bind_ok in E as (h3 & t & Eu & E).
  apply unwrap_ok in Eu as [-> ->]. unfold perform_registration in Ereg.
  apply bind_ok in Ereg as (h3 & rc & Eu & Ereg). apply unwrap_ok in Eu as [-> ->].
  destruct (send_header addr) as [x|]; [|by injection Ereg].
  apply exchange_Some in Ereg as (c2 & Ereg & ->). unfold register_node in Ereg.
  apply bind_ok in Ereg as (c1 & na & Ea & Ereg). unfold of_result in Ea. injection Ea as <- _.
  assert (Hc2 : coherent issued c2) by (by eapply register_coherent).
  apply register_returns in Ereg as ->. apply bind_ok in E as (h3 & st & Est & E).
  destruct st as [[]|]; [|by injection E]. injection E as <- <-.
  unfold store_renewal_token, on_disk, create_file, write_all, mbind, effect_bind in Est. cbn in Est.
  case_decide; [by simplify_eq|]. cbn in Est. destruct (dk_full (ho_disk h)); simplify_eq. cbn.
  split; [done|]. split; [done|]. split; [apply lookup_insert_eq|done].
Qed.

Lemma token_returns access_token now renewal_token c c' t id :
  perform_token_creation closed access_token now renewal_token c = (c', Ok (t, id)) ->
  t = access_token /\ exists i n,
    list_find (fun n => ms_renewal_token n = renewal_token) (rc_nodes (ct_ctx c)) = Some (i, n) /\ id = ms_id n
    /\ rc_nodes (ct_ctx c') = <[i := with_token (Some access_token) n]> (rc_nodes (ct_ctx c)).
Proof.
  intros E. unfold perform_token_creation, mbind at 1, effect_bind at 1, lock_maps in E.
  destruct (ct_maps_held c); [done|]. unfold mbind at 1, effect_bind at 1, gets in E.
  destruct (list_find _ _) as [[i n]|]; [|done].
  unfold mbind at 1, effect_bind at 1, set_ctx at 1, modify at 1 in E.
  unfold mbind at 1, effect_bind at 1, update_service_access_token in E.
  edestruct (run_execute (D := D)) as (d & E2 & Hd) in E. erewrite ct_db_run in E by exact E2. cbn [map_err] in E.
  unfold mbind at 1, effect_bind at 1, set_ctx, modify in E.
  cbn [ct_session ct_ctx ct_mgpp ct_maps_held ct_health_held] in E.
  unfold mbind, effect_bind, broadcast_storage in E. cbn [ct_session ct_ctx ct_mgpp] in E.
  destruct (broadcast_packet _ _ _) as [sv [b|]]; [|done]. injection E as <- <- <-.
  split; [done|]. exists i, n. done.
Qed.

Lemma obtain_access_ok fates dw ctx h h' ctx' issued :
  coherent issued (ho_controller h) -> (forall id, issued !! id <> Some (dw_access dw)) ->
  obtain_access_token closed fates dw ctx h = (h', Ok ctx') ->
  coherent (<[mc_id ctx' := dw_access dw]> issued) (ho_controller h') /\ ho_disk h' = ho_disk h
  /\ mc_access_token ctx' = dw_access dw /\ mc_client ctx' = dw_access dw
  /\ mc_renewal_token ctx' = mc_renewal_token ctx
  /\ exists i n,
    list_find (fun n => ms_renewal_token n = mc_renewal_token ctx) (rc_nodes (ct_ctx (ho_controller h))) = Some (i, n)
    /\ mc_id ctx' = ms_id n
    /\ rc_nodes (ct_ctx (ho_controller h'))
       = <[i := with_token (Some (dw_access dw)) n]> (rc_nodes (ct_ctx (ho_controller h))).
Proof.
  intros Hc Hf E. unfold obtain_access_token in E. apply bind_ok in E as (h1 & o & Ex & E).
  apply bind_ok in E as (h2 & [t id] & Eu & E). apply unwrap_ok in Eu as [-> ->].
  unfold fetch_access_token in Ex. apply exchange_Some in Ex as (c1 & Ex & ->).
  assert (Hc1 := token_coherent _ _ _ _ _ _ _ _ Hc Hf Ex ltac:(done)). cbn in Hc1.
  destruct (token_returns _ _ _ _ _ _ _ Ex) as [-> (i & n & Hn & -> & Hnodes)].
  unfold update_client in E. destruct (forallb _ _); [|done]. injection E as <- <-. cbn.
  split_and!; try done. by exists i, n.
Qed.

Lemma certificate_ok fate ctx addrs domains h h' key cert :
  Forall visible (mc_client ctx) -> Forall wf_ip addrs -> Forall cert_domain domains -> addrs <> [] \/ domains <> [] ->
  perform_certificate_request validity fate ctx addrs domains h = (h', Ok (Some (key, cert))) ->
  h' = h /\ alt_names cert = subject_alt_names (mkSigning addrs domains validity).
Proof.
  intros Hv Ha Hd Hne E. unfold perform_certificate_request in E.
  destruct new_request as [[pkey der]|]; [|by injection E].
  destruct (send_header (mc_renewal_token ctx)) as [sec|]; [|by injection E].
  destruct (send_addresses addrs domains Ha Hd Hne) as (x_addr & Ex & Eg). rewrite Ex in E.
  apply bind_ok in E as (h1 & o & Er & E). unfold mret, effect_ret in E. injection E as <- E.
  destruct o as [rder|]; [|done]. cbn in E.
  destruct (cert_from_der rder) as [cert'|] eqn:Ec; [|done]. injection E as <- <-.
  apply exchange_Some in Er as (c1 & Er & ->). unfold security_csr in Er.
  apply bind_ok in Er as (c2 & n & En & Er). apply verify_ok in En as (-> & _ & _); [|done].
  apply bind_ok in Er as (c2 & csr & Ecsr & Er). unfold of_result in Ecsr. injection Ecsr as <- Ecsr.
  rewrite Eg in Er. apply bind_ok in Er as (c2 & ad & Ead & Er). unfold of_result in Ead. cbn in Ead.
  injection Ead as <- <-. cbn beta iota in Er. unfold of_result in Er. injection Er as <- Er.
  split; [by destruct h|]. unfold sign_node_csr in Er. destruct sec as [tok|]; [|done].
  case_decide; [|done]. destruct (sign_csr csr _) as [cert''|] eqn:Es; [|done]. cbn in Er.
  destruct (cert_to_der cert'') as [der'|] eqn:Ed; [|done]. cbn in Er. injection Er as ->.
  apply cert_der in Ed. rewrite Ec in Ed. injection Ed as ->. by eapply build_names.
Qed.

Lemma heartbeat_ok fate now ctx h h' issued :
  Forall visible (mc_client ctx) -> coherent issued (ho_controller h) ->
  heartbeat fate now ctx h = (h', Ok (Some tt)) ->
  coherent issued (ho_controller h') /\ ho_disk h' = ho_disk h /\ ct_maps_held (ho_controller h') = false
  /\ rc_nodes (ct_ctx (ho_controller h')) = rc_nodes (ct_ctx (ho_controller h)).
Proof.
  intros Hv Hc E. unfold heartbeat in E. apply exchange_Some in E as (c1 & E & ->).
  apply bind_ok in E as (c2 & n & En & E). apply verify_ok in En as (-> & Hh & _); [|done].
  assert (Hk := ctx_keeps_beat n now issued _ Hc). rewrite E in Hk.
  unfold microservice_heart_beat, mbind, effect_bind, lock_health, set_ctx, modify in E.
  destruct (ct_health_held _); [done|]. injection E as <-. done.
Qed.

(** A coherent controller takes the last token of a node for the node. *)
Lemma client_accepted issued c id token :
  coherent issued c -> ct_maps_held c = false -> issued !! id = Some token -> Forall visible token ->
  exists n, ms_id n = id /\ verify_node (mjoin (send_header token)) c = (c, Ok n).
Proof.
  intros [_ Ht] Hh Hi Hv. destruct (ta_complete _ _ Ht _ _ Hi) as (n & Hn & Hid). exists n.
  split; [done|]. by apply verify_run.
Qed.

(** The parts of an enrolment that ended well. *)
Lemma run_enrolment fates code dw ctx0 self_addr addrs domains path h h' ctx pair issued :
  coherent issued (ho_controller h) ->
  (forall t, nodes_table (tables (ct_session (ho_controller h))) !! (t, dw_id dw) = None) ->
  (forall id, issued !! id <> Some (dw_access dw)) ->
  is_renewal_token_valid (dw_renewal dw) = true -> is_renewal_token_valid (dw_access dw) = true ->
  register_procedure closed validity fates code dw ctx0 self_addr addrs domains path h = (h', Ok (ctx, pair)) ->
  exists h1 token h2 h3,
    obtain_renewal_token fates code dw ctx0 self_addr path h = (h1, Ok token)
    /\ coherent issued (ho_controller h1) /\ dk_files (ho_disk h1) !! token_file path = Some token
    /\ (token_file path ∉ dk_denied (ho_disk h1))
    /\ obtain_access_token closed fates dw (with_renewal token ctx0) h1 = (h2, Ok ctx)
    /\ perform_certificate_request validity (fa_csr fates) ctx addrs domains h2 = (h3, Ok (Some pair))
    /\ heartbeat (fa_heartbeat fates) (dw_now dw) ctx h3 = (h', Ok (Some tt)).
Proof.
  intros Hc Hid Hf Hvr Hva E. unfold register_procedure in E.
  apply bind_ok in E as (h1 & token & E1 & E). exists h1, token.
  destruct (obtain_renewal_ok _ _ _ _ _ _ _ _ _ _ Hc Hid Hvr E1) as (Hc1 & _ & Hd1 & Hdd).
  apply bind_ok in E as (h2 & ctx1 & E2 & E). apply bind_ok in E as (h3 & o & E3 & E).
  apply bind_ok in E as (h4 & p & Eu & E). apply unwrap_ok in Eu as [-> ->].
  apply bind_ok in E as (h5 & b & E4 & E). apply bind_ok in E as (h6 & [] & Eu & E). apply unwrap_ok in Eu as [-> ->].
  injection E as -> -> ->. by exists h2, h3.
Qed.

(** The state that an enrolment leaves. *)
Lemma enrolled_state fates code dw ctx0 self_addr addrs domains path h h' ctx key cert issued :
  coherent issued (ho_controller h) ->
  (forall t, nodes_table (tables (ct_session (ho_controller h))) !! (t, dw_id dw) = None) ->
  (forall id, issued !! id <> Some (dw_access dw)) ->
  is_renewal_token_valid (dw_renewal dw) = true -> is_renewal_token_valid (dw_access dw) = true ->
  Forall wf_ip addrs -> Forall cert_domain domains -> addrs <> [] \/ domains <> [] ->
  register_procedure closed validity fates code dw ctx0 self_addr addrs domains path h = (h', Ok (ctx, (key, cert))) ->
  coherent (<[mc_id ctx := dw_access dw]> issued) (ho_controller h')
  /\ ct_maps_held (ho_controller h') = false /\ mc_access_token ctx = dw_access dw /\ mc_client ctx = dw_access dw
  /\ dk_files (ho_disk h') !! token_file path = Some (mc_renewal_token ctx)
  /\ alt_names cert = subject_alt_names (mkSigning addrs domains validity).
Proof.
  intros Hc Hid Hf Hvr Hva Ha Hd Hne E.
  destruct (run_enrolment _ _ _ _ _ _ _ _ _ _ _ _ _ Hc Hid Hf Hvr Hva E)
    as (h1 & token & h2 & h3 & E1 & Hc1 & Hd1 & _ & E2 & E3 & E4).
  destruct (obtain_access_ok _ _ _ _ _ _ _ Hc1 Hf E2) as (Hc2 & Hd2 & Ht & Hcl & Hr & _).
  assert (Hv : Forall visible (mc_client ctx)) by (rewrite Hcl; by apply valid_token_visible).
  destruct (certificate_ok _ _ _ _ _ _ _ _ Hv Ha Hd Hne E3) as [-> Hcert].
  destruct (heartbeat_ok _ _ _ _ _ _ Hv Hc2 E4) as (Hc4 & Hd4 & Hh4 & _).
  split_and!; try done. by rewrite Hd4, Hd2, Hd1, Hr.
Qed.

(** C7: an enrolled node is known.  When the procedure ends, whatever was lost before, the
    controller takes the node's client for the node under its id, tells peers that exactly its
    access token is the node's, and has recorded it in the database; the renewal token is on
    the node's disk, and the certificate is good for exactly the configured names. *)
Theorem enrolled_node_known fates code dw ctx0 self_addr addrs domains path h h' ctx key cert issued :
  coherent issued (ho_controller h) ->
  (forall t, nodes_table (tables (ct_session (ho_controller h))) !! (t, dw_id dw) = None) ->
  (forall id, issued !! id <> Some (dw_access dw)) ->
  is_renewal_token_valid (dw_renewal dw) = true -> is_renewal_token_valid (dw_access dw) = true ->
  Forall wf_ip addrs -> Forall cert_domain domains -> addrs <> [] \/ domains <> [] ->
  register_procedure closed validity fates code dw ctx0 self_addr addrs domains path h = (h', Ok (ctx, (key, cert))) ->
  let c := ho_controller h' in
  coherent (<[mc_id ctx := mc_access_token ctx]> issued) c
  /\ (exists n, ms_id n = mc_id ctx /\ verify_node (mjoin (send_header (mc_client ctx))) c = (c, Ok n))
  /\ (forall t, validate_peer (mc_id ctx) t c = (c, Ok (bool_decide (t = mc_access_token ctx))))
  /\ dk_files (ho_disk h') !! token_file path = Some (mc_renewal_token ctx)
  /\ alt_names cert = subject_alt_names (mkSigning addrs domains validity).
Proof.
  intros Hc Hid Hf Hvr Hva Ha Hd Hne E c.
  destruct (enrolled_state _ _ _ _ _ _ _ _ _ _ _ _ _ _ Hc Hid Hf Hvr Hva Ha Hd Hne E) as (Hc4 & Hh4 & Ht & Hcl & Hdk & Hcert).
  assert (Hv : Forall visible (mc_client ctx)) by (rewrite Hcl; by apply valid_token_visible).
  rewrite Ht. split; [done|]. split; [|split; [|done]].
  - apply (client_accepted _ _ _ _ Hc4 Hh4); [|done]. rewrite Hcl. apply lookup_insert_eq.
  - intros t. subst c. rewrite (coherent_peer _ _ _ _ Hc4 Hh4), lookup_insert_eq. do 2 f_equal.
    apply bool_decide_ext. split; congruence.
Qed.

(** C32: a node that starts again with its renewal token is the node it was: the same id, no
    further node, and no register code needed.  Its address is not sent again: the controller
    keeps the one of the registration. *)
Theorem restart_keeps_identity fates code dw ctx0 self_addr addrs domains path h h' ctx pair issued n :
  coherent issued (ho_controller h) ->
  (forall t, nodes_table (tables (ct_session (ho_controller h))) !! (t, dw_id dw) = None) ->
  (forall id, issued !! id <> Some (dw_access dw)) ->
  is_renewal_token_valid (dw_renewal dw) = true -> is_renewal_token_valid (dw_access dw) = true ->
  Forall wf_ip addrs -> Forall cert_domain domains -> addrs <> [] \/ domains <> [] ->
  dk_files (ho_disk h) !! token_file path = Some (ms_renewal_token n) -> (token_file path ∉ dk_denied (ho_disk h)) ->
  is_renewal_token_valid (ms_renewal_token n) = true ->
  n ∈ rc_nodes (ct_ctx (ho_controller h)) -> NoDup (map ms_renewal_token (rc_nodes (ct_ctx (ho_controller h)))) ->
  register_procedure closed validity fates code dw ctx0 self_addr addrs domains path h = (h', Ok (ctx, pair)) ->
  mc_id ctx = ms_id n /\ ho_disk h' = ho_disk h
  /\ map ms_id (rc_nodes (ct_ctx (ho_controller h'))) = map ms_id (rc_nodes (ct_ctx (ho_controller h)))
  /\ map ms_address (rc_nodes (ct_ctx (ho_controller h'))) = map ms_address (rc_nodes (ct_ctx (ho_controller h))).
Proof.
  intros Hc Hid Hf Hvr Hva Ha Hd Hne Hfile Hden Hvn Hn Hnd E.
  destruct (run_enrolment _ _ _ _ _ _ _ _ _ _ _ _ _ Hc Hid Hf Hvr Hva E)
    as (h1 & token & h2 & h3 & E1 & Hc1 & _ & _ & E2 & E3 & E4).
  assert (h1 = h /\ token = ms_renewal_token n) as [-> ->].
  { unfold obtain_renewal_token, read_renewal_token, on_disk, read_file, mbind, effect_bind in E1.
    rewrite decide_False, Hfile in E1 by done. cbn in E1. rewrite Hvn in E1. destruct h. by injection E1 as <- <-. }
  destruct (obtain_access_ok _ _ _ _ _ _ _ Hc1 Hf E2) as (Hc2 & Hd2 & _ & Hcl & _ & i & m & Hm & Hmid & Hnodes).
  assert (Hv : Forall visible (mc_client ctx)) by (rewrite Hcl; by apply valid_token_visible).
  destruct pair as [key cert]. destruct (certificate_ok _ _ _ _ _ _ _ _ Hv Ha Hd Hne E3) as [-> _].
  destruct (heartbeat_ok _ _ _ _ _ _ Hv Hc2 E4) as (_ & Hd4 & _ & Hn4).
  apply list_find_Some in Hm as (Hi & Hmr & _). cbn in Hmr.
  assert (m = n) as ->.
  { apply list_elem_of_lookup in Hn as [j Hj].
    assert (i = j) as ->; [|congruence]. eapply (NoDup_lookup _ i j (ms_renewal_token n) Hnd); rewrite list_lookup_fmap.
    - by rewrite Hi, <- Hmr.
    - by rewrite Hj. }
  split; [done|]. rewrite Hd4, Hd2, Hn4, Hnodes. split; [done|].
  split; (rewrite list_fmap_insert; apply list_insert_id; by rewrite list_lookup_fmap, Hi).
Qed.
End finished.

(** ** Enrolment comes to an end *)
Section live.
  Context {D : Type} `{ReliableDatabase D} {Key Csr Cert Der : Type} `{PkiLaws Key Csr Cert Der}.
  Variable closed : bool.
  Variable validity : u32.
  Implicit Types (c : Controller D) (h : Host D).

Definition storage_changed : MGPPPacket := InvalidateCache (u8_of_CacheId NodeStorageMap) [].

(** A controller whose maps are free and whose broadcasts return. *)
Definition responsive c : Prop :=
  ct_maps_held c = false /\ ct_health_held c = false /\ (broadcast_packet closed storage_changed (ct_mgpp c)).2 <> None.

Lemma run_register req node_addr id token now c code :
  responsive c -> table (R := ServiceRegisterCode) (tables (ct_session c)) !! nr_code req = Some code -> rc_valid code = true ->
  exists c', perform_register_node req node_addr id token now c = (c', Ok token) /\ responsive c'
    /\ rc_nodes (ct_ctx c') = rc_nodes (ct_ctx c)
         ++ [mkMicroserviceNode (i8_of_MicroserviceType (nr_service_type req)) id None None None 0 token node_addr now (rc_code code)].
Proof.
  intros (Hm & Hh & Hb) Hcode Hvalid. unfold perform_register_node, usable_code, get_service_register_code.
  destruct (run_find_row (R := ServiceRegisterCode) (nr_code req) (ct_session c)) as (d1 & E1 & Hd1).
  unfold mbind at 1 2, effect_bind at 1 2. rewrite (ct_db_run _ _ _ _ _ E1), Hcode. cbn [ok_or map_err]. rewrite Hvalid.
  unfold mret at 1, effect_ret at 1, register_with, update_service_register_code, insert_microservice_node.
  unfold mbind at 1, effect_bind at 1. edestruct (run_execute (D := D)) as (d2 & E2 & Hd2).
  erewrite ct_db_run by exact E2. cbn [map_err]. unfold mbind at 1, effect_bind at 1.
  edestruct (run_insert_row (D := D) (R := MicroserviceNode)) as (d3 & E3 & Hd3). erewrite ct_db_run by exact E3. cbn [map_err].
  unfold mbind, effect_bind, lock_maps, set_ctx, modify, mret, effect_ret. cbn [ct_maps_held]. rewrite Hm.
  eexists. split; [done|]. by split.
Qed.

Lemma run_token access_token now renewal_token c i n :
  responsive c ->
  list_find (fun n => ms_renewal_token n = renewal_token) (rc_nodes (ct_ctx c)) = Some (i, n) ->
  exists c', perform_token_creation closed access_token now renewal_token c = (c', Ok (access_token, ms_id n))
    /\ ct_maps_held c' = false /\ ct_health_held c' = false
    /\ rc_token_node (ct_ctx c') !! access_token = Some (with_token (Some access_token) n).
Proof.
  intros (Hm & Hh & Hb) Hfind. unfold perform_token_creation, mbind at 1, effect_bind at 1, lock_maps. rewrite Hm.
  unfold mbind at 1, effect_bind at 1, gets. rewrite Hfind.
  unfold mbind at 1, effect_bind at 1, set_ctx at 1, modify at 1.
  unfold mbind at 1, effect_bind at 1, update_service_access_token.
  edestruct (run_execute (D := D)) as (d & E2 & Hd). erewrite ct_db_run by exact E2. cbn [map_err].
  unfold mbind at 1, effect_bind at 1, set_ctx, modify.
  cbn [ct_session ct_ctx ct_mgpp ct_maps_held ct_health_held].
  unfold mbind, effect_bind, broadcast_storage. cbn [ct_session ct_ctx ct_mgpp ct_maps_held ct_health_held].
  unfold storage_changed in Hb. destruct (broadcast_packet _ _ _) as [sv [b|]]; [|done].
  eexists. split; [done|]. cbn. split; [done|]. split; [done|]. apply lookup_insert_eq.
Qed.

(** OpenSSL makes keys and certificates. *)
Definition pki_works : Prop :=
  is_Some (new_request (Key := Key) (Csr := Csr) (Cert := Cert) (Der := Der))
  /\ forall csr names, exists cert der, build_cert csr names validity = Some cert /\ cert_to_der cert = Some der.

Lemma exchange_run {E A} (m : effect (Controller D) (Stop E) A) h c' a :
  m (ho_controller h) = (c', Ok a) -> exchange Delivered m h = (mkHost (ho_disk h) c', Ok (Some a)).
Proof. unfold exchange. by intros ->. Qed.

Lemma run_certificate ctx addrs domains h n :
  pki_works -> Forall visible (mc_client ctx) -> Forall visible (mc_renewal_token ctx) ->
  Forall wf_ip addrs -> Forall cert_domain domains -> addrs <> [] \/ domains <> [] ->
  ct_maps_held (ho_controller h) = false ->
  rc_token_node (ct_ctx (ho_controller h)) !! mc_client ctx = Some n -> ms_renewal_token n = mc_renewal_token ctx ->
  exists pair, perform_certificate_request validity Delivered ctx addrs domains h = (h, Ok (Some pair)).
Proof.
  intros [[[pkey der] Enew] Hsign] Hv Hvr Ha Hd Hne Hh Hn Hr. unfold perform_certificate_request. rewrite Enew.
  assert (exists csr, csr_from_der der = Some csr) as [csr Ecsr].
  { revert Enew. unfold new_request. destruct generate_private_key as [k|]; cbn; [|done].
    destruct (generate_csr k) as [csr|]; cbn; [|done]. destruct (csr_to_der csr) as [der'|] eqn:Ed; cbn; [|done].
    intros [= <- <-]. exists csr. by apply csr_der. }
  destruct (send_addresses addrs domains Ha Hd Hne) as (x_addr & Ex & Eg). rewrite Ex, (send_visible _ Hvr).
  destruct (Hsign csr (subject_alt_names (mkSigning addrs domains validity))) as (cert & cder & Eb & Ec).
  exists (pkey, cert). erewrite effect_bind_run.
  2:{ apply exchange_run. unfold security_csr. erewrite effect_bind_run by by apply verify_run.
      unfold mbind, effect_bind, of_result. rewrite Ecsr, Eg. cbn [ok_or]. unfold sign_node_csr, sign_csr.
      rewrite decide_True by done. cbn [sd_validity_days]. rewrite Eb. cbn. by rewrite Ec. }
  unfold mret, effect_ret. cbn. rewrite (cert_der _ _ Ec). by destruct h.
Qed.

Lemma run_heartbeat now ctx h n :
  Forall visible (mc_client ctx) -> ct_maps_held (ho_controller h) = false -> ct_health_held (ho_controller h) = false ->
  rc_token_node (ct_ctx (ho_controller h)) !! mc_client ctx = Some n ->
  exists h', heartbeat Delivered now ctx h = (h', Ok (Some tt)).
Proof.
  intros Hv Hm Hh Hn. eexists. unfold heartbeat. apply exchange_run. erewrite effect_bind_run by by apply verify_run.
  unfold microservice_heart_beat, mbind, effect_bind, lock_health. by rewrite Hh.
Qed.

(** From a renewal token that the controller knows, the rest follows. *)
Lemma run_from_token fates dw ctx0 token addrs domains h i n :
  fa_authenticate fates = Delivered -> fa_csr fates = Delivered -> fa_heartbeat fates = Delivered ->
  pki_works -> responsive (ho_controller h) -> Forall wf_ip addrs -> Forall cert_domain domains ->
  addrs <> [] \/ domains <> [] -> Forall visible token -> Forall visible (dw_access dw) ->
  list_find (fun n => ms_renewal_token n = token) (rc_nodes (ct_ctx (ho_controller h))) = Some (i, n) ->
  exists h' ctx pair, mc_id ctx = ms_id n
    /\ (ctx ← obtain_access_token closed fates dw (with_renewal token ctx0);
        certificate_pair ← perform_certificate_request validity (fa_csr fates) ctx addrs domains;
        certificate_pair ← unwrap certificate_pair;
        beat ← heartbeat (fa_heartbeat fates) (dw_now dw) ctx;
        _ ← unwrap beat;
        mret (ctx, certificate_pair)) h = (h', Ok (ctx, pair)).
Proof.
  intros F1 F2 F3 Hpki Hresp Ha Hd Hne Hv Hva Hfind.
  destruct (run_token (dw_access dw) (dw_now dw) token _ _ _ Hresp Hfind) as (c1 & E1 & Hm & Hh & Hn).
  apply list_find_Some in Hfind as (_ & Hr & _).
  set (ctx := mkMsContext (dw_access dw) token (mc_microservice_type ctx0) (ms_id n) (dw_access dw)).
  assert (Eo : obtain_access_token closed fates dw (with_renewal token ctx0) h = (mkHost (ho_disk h) c1, Ok ctx)).
  { unfold obtain_access_token. erewrite effect_bind_run by (unfold fetch_access_token; rewrite F1; by apply exchange_run).
    cbn [unwrap]. erewrite effect_bind_run by done. unfold update_client. cbn [mc_access_token fst].
    rewrite (proj2 (forallb_forall _ _)); [done|]. intros c Hc%list_elem_of_In. apply visible_chars.
    by eapply Forall_forall. }
  destruct (run_certificate ctx addrs domains (mkHost (ho_disk h) c1) _ Hpki Hva Hv Ha Hd Hne Hm Hn Hr) as [pair Ep].
  destruct (run_heartbeat (dw_now dw) ctx (mkHost (ho_disk h) c1) _ Hva Hm Hh Hn) as [h' Eh].
  exists h', ctx, pair. split; [done|]. rewrite (effect_bind_run _ _ _ _ _ Eo), F2, (effect_bind_run _ _ _ _ _ Ep).
  cbn [unwrap]. erewrite effect_bind_run by done. by rewrite F3, (effect_bind_run _ _ _ _ _ Eh).
Qed.

Lemma run_obtain_renewal fates dw ctx self_addr addr code row path h :
  fa_register fates = Delivered -> responsive (ho_controller h) ->
  dk_files (ho_disk h) !! token_file path = None -> (token_file path ∉ dk_denied (ho_disk h)) ->
  dk_full (ho_disk h) = false -> send_header self_addr = Some (Some addr) ->
  table (R := ServiceRegisterCode) (tables (ct_session (ho_controller h))) !! code = Some row -> rc_valid row = true ->
  exists h' node, obtain_renewal_token fates (Some code) dw ctx self_addr path h = (h', Ok (dw_renewal dw))
    /\ responsive (ho_controller h') /\ rc_nodes (ct_ctx (ho_controller h')) = rc_nodes (ct_ctx (ho_controller h)) ++ [node]
    /\ ms_id node = dw_id dw /\ ms_renewal_token node = dw_renewal dw.
Proof.
  intros F Hresp Hfile Hden Hfull Hsend Hcode Hvalid.
  destruct (run_register (mkRegister code (mc_microservice_type ctx)) addr (dw_id dw) (dw_renewal dw) (dw_now dw)
    _ _ Hresp Hcode Hvalid) as (c1 & E1 & Hr1 & Hn1).
  exists (mkHost (set_file (token_file path) (dw_renewal dw) (set_file (token_file path) [] (ho_disk h))) c1). eexists.
  split; [|by split; [|split]]. unfold obtain_renewal_token. erewrite effect_bind_run.
  2:{ unfold read_renewal_token, on_disk, read_file, mbind, effect_bind. by rewrite decide_False, Hfile. }
  cbn beta iota delta [ok_or]. erewrite effect_bind_run.
  2:{ unfold perform_registration. cbn [unwrap]. erewrite effect_bind_run by done. rewrite Hsend, F. apply exchange_run.
      unfold register_node. erewrite effect_bind_run by done. exact E1. }
  cbn [unwrap]. erewrite effect_bind_run by done. erewrite effect_bind_run.
  2:{ unfold store_renewal_token, on_disk, create_file, write_all, mbind, effect_bind. cbn.
      rewrite decide_False by done. cbn. by rewrite Hfull. }
  done.
Qed.

(** C33: a new node with a valid register code gets in: when no exchange is lost, the controller is
    responsive, and the disk has room for the token, the procedure ends, and the node has the id
    under which the controller registered it. *)
Theorem enrolment_completes dw ctx0 self_addr addr code row addrs domains path h :
  pki_works -> responsive (ho_controller h) ->
  dk_files (ho_disk h) !! token_file path = None -> (token_file path ∉ dk_denied (ho_disk h)) ->
  dk_full (ho_disk h) = false -> send_header self_addr = Some (Some addr) ->
  table (R := ServiceRegisterCode) (tables (ct_session (ho_controller h))) !! code = Some row -> rc_valid row = true ->
  Forall wf_ip addrs -> Forall cert_domain domains -> addrs <> [] \/ domains <> [] ->
  Forall visible (dw_renewal dw) -> Forall visible (dw_access dw) ->
  Forall (fun n => ms_renewal_token n <> dw_renewal dw) (rc_nodes (ct_ctx (ho_controller h))) ->
  exists h' ctx pair,
    register_procedure closed validity (mkFates Delivered Delivered Delivered Delivered) (Some code) dw ctx0 self_addr
      addrs domains path h = (h', Ok (ctx, pair))
    /\ mc_id ctx = dw_id dw.
Proof.
  intros Hpki Hresp Hfile Hden Hfull Hsend Hcode Hvalid Ha Hd Hne Hvr Hva Hfresh.
  set (fates := mkFates _ _ _ _).
  destruct (run_obtain_renewal fates dw ctx0 self_addr addr code row path h) as (h1 & n & E1 & Hr1 & Hn1 & Hid & Hrn);
    try done.
  assert (Hfind : exists i, list_find (fun n => ms_renewal_token n = dw_renewal dw) (rc_nodes (ct_ctx (ho_controller h1)))
    = Some (i, n)).
  { rewrite Hn1, list_find_app_r by by apply list_find_None. cbn. rewrite decide_True by done. cbn. eauto. }
  destruct Hfind as [i Hfind].
  destruct (run_from_token fates dw ctx0 (dw_renewal dw) addrs domains h1 i n) as (h' & ctx & pair & Hc & E); try done.
  exists h', ctx, pair. split; [|by rewrite Hc]. unfold register_procedure. by rewrite (effect_bind_run _ _ _ _ _ E1).
Qed.
End live.

(** ** A cluster *)
#[global] Instance toy_pki : Pki unit unit (list GeneralName) (option (list GeneralName)) := {
  generate_private_key := Some tt;
  generate_csr _ := Some tt;
  csr_to_der _ := Some None;
  csr_from_der _ := Some tt;
  build_cert _ names _ := Some names;
  cert_to_der names := Some (Some names);
  cert_from_der der := der;
  alt_names names := names
}.

#[global] Instance toy_pki_laws : PkiLaws unit unit (list GeneralName) (option (list GeneralName)).
Proof.
  split.
  - by intros [] der _.
  - intros cert der E. by injection E as <-.
  - intros csr names days cert E. by injection E as <-.
Qed.

Definition token64 (i : nat) : Text := controller_token (replicate 64 i).
Definition draws0 : Draws := mkDraws 5 (token64 0) (token64 1) 1.
Definition draws1 : Draws := mkDraws 6 (token64 2) (token64 3) 2.
Definition all_delivered : Fates := mkFates Delivered Delivered Delivered Delivered.
Definition addrs0 : list IpAddr := [V4 [10; 0; 0; 7]; V6 [65152; 0; 0; 0; 0; 0; 0; 1]].
Definition domains0 : list Text := [str "node.example.com"%string].

(** A start of the node on a host, with its address and the register code of its environment. *)
Definition start_on (fates : Fates) (code : option Text) (dw : Draws) (self_addr : Text) (h : Host Tables) :=
  register_procedure (Key := unit) (Csr := unit) (Cert := list GeneralName) (Der := option (list GeneralName))
    true 30 fates code dw (MicroserviceRequestContext_new StorageNode 0) self_addr addrs0 domains0 None h.

Definition host0 : Host Tables := mkHost (mkDisk ∅ ∅ false) c_code.
Definition host1 : Host Tables := (start_on all_delivered (Some (str "k"%string)) draws0 (str "10.0.0.7"%string) host0).1.
Definition context_of (dw : Draws) : MicroserviceRequestContext :=
  mkMsContext (dw_access dw) (token64 0) StorageNode 5 (dw_access dw).
Definition names0 : list GeneralName := subject_alt_names (mkSigning addrs0 domains0 30).

Lemma start_host0 :
  start_on all_delivered (Some (str "k"%string)) draws0 (str "10.0.0.7"%string) host0
  = (host1, Ok (context_of draws0, (tt, names0))).
Proof. vm_compute. reflexivity. Qed.

Lemma addrs0_wf : Forall wf_ip addrs0.
Proof. repeat constructor; by apply (bool_decide_unpack _). Qed.

Lemma domains0_ok : Forall cert_domain domains0.
Proof. repeat constructor; unfold visible; vm_compute; congruence. Qed.

Lemma c_code_coherent : coherent ∅ c_code.
Proof. apply no_nodes_coherent. split; vm_compute; reflexivity. Qed.

Lemma enrolled_node_known_witness :
  alt_names names0 = [IpName (str "10.0.0.7"%string); IpName (str "fe80::1"%string); DnsName (str "node.example.com"%string)]
  /\ validate_peer 5 (token64 1) (ho_controller host1) = (ho_controller host1, Ok true).
Proof.
  split; [reflexivity|].
  destruct (enrolled_node_known (D := Tables) true 30 all_delivered (Some (str "k"%string)) draws0
    (MicroserviceRequestContext_new StorageNode 0) (str "10.0.0.7"%string) addrs0 domains0 None host0 host1
    (context_of draws0) tt names0 ∅) as (_ & _ & Hp & _).
  - exact c_code_coherent.
  - intros t. reflexivity.
  - intros id. by rewrite lookup_empty.
  - vm_compute. reflexivity.
  - vm_compute. reflexivity.
  - exact addrs0_wf.
  - exact domains0_ok.
  - by left.
  - exact start_host0.
  - exact (Hp (token64 1)).
Defined.

Definition register0 : Request :=
  ReqRegister (mkRegister (str "k"%string) StorageNode) (str "10.0.0.7"%string) 5 (token64 0) 1.
Definition token0 : Request := ReqToken (token64 1) 1 (token64 0).

Lemma host1_steps : rtc (answered_step true) (∅, c_code) ({[ 5 := token64 1 ]}, ho_controller host1).
Proof.
  apply (rtc_l _ _ (∅, (serve true register0 c_code).1)).
  { exists register0, OtherAnswer. split; [vm_compute; reflexivity|]. split; [done|]. split; [intros t; reflexivity|done]. }
  apply (rtc_l _ _ ({[ 5 := token64 1 ]}, (serve true token0 (serve true register0 c_code).1).1)).
  { exists token0, (Issued 5 (token64 1)). split; [vm_compute; reflexivity|].
    split; [done|]. split; [intros id; cbn [fst]; by rewrite lookup_empty|done]. }
  apply rtc_once. exists (ReqBeat (Some (token64 1)) 1), OtherAnswer. split; [vm_compute; reflexivity|]. done.
Qed.

Lemma host1_coherent : coherent {[ 5 := token64 1 ]} (ho_controller host1).
Proof. exact (steps_coherent true _ _ host1_steps c_code_coherent). Qed.

Definition node1 : MicroserviceNode :=
  mkMicroserviceNode 1 5 None None (Some (token64 1)) 0 (token64 0) (str "10.0.0.7"%string) 1 (str "k"%string).
Definition host2 : Host Tables := (start_on all_delivered None draws1 (str "10.0.0.8"%string) host1).1.

Lemma restart_keeps_identity_witness :
  start_on all_delivered None draws1 (str "10.0.0.8"%string) host1 = (host2, Ok (context_of draws1, (tt, names0)))
  /\ map ms_address (rc_nodes (ct_ctx (ho_controller host2))) = [str "10.0.0.7"%string].
Proof.
  assert (E : start_on all_delivered None draws1 (str "10.0.0.8"%string) host1 = (host2, Ok (context_of draws1, (tt, names0))))
    by (vm_compute; reflexivity).
  split; [exact E|].
  destruct (restart_keeps_identity (D := Tables) true 30 all_delivered None draws1
    (MicroserviceRequestContext_new StorageNode 0) (str "10.0.0.8"%string) addrs0 domains0 None host1 host2
    (context_of draws1) (tt, names0) {[ 5 := token64 1 ]} node1) as (_ & _ & _ & Ha).
  - exact host1_coherent.
  - intros t. vm_compute. by destruct t as [|[]|].
  - intros id. destruct (decide (id = 5)) as [->|Hid]; [vm_compute; congruence|].
    by rewrite lookup_singleton_ne.
  - vm_compute. reflexivity.
  - vm_compute. reflexivity.
  - exact addrs0_wf.
  - exact domains0_ok.
  - by left.
  - vm_compute. reflexivity.
  - vm_compute. by intros ?.
  - vm_compute. reflexivity.
  - vm_compute. left.
  - vm_compute. repeat constructor. by intros ?%elem_of_nil.
  - exact E.
  - rewrite Ha. vm_compute. reflexivity.
Defined.

Lemma enrolment_completes_witness :
  exists h' ctx pair, start_on all_delivered (Some (str "k"%string)) draws0 (str "10.0.0.7"%string) host0 = (h', Ok (ctx, pair))
    /\ mc_id ctx = 5.
Proof.
  apply (enrolment_completes (D := Tables) true 30 draws0 (MicroserviceRequestContext_new StorageNode 0)
    (str "10.0.0.7"%string) (str "10.0.0.7"%string) (str "k"%string) (mkRegisterCode (str "k"%string) 0 true)).
  - split; [by eexists|]. intros csr names. by exists names, (Some names).
  - split; [reflexivity|]. split; [reflexivity|]. vm_compute. congruence.
  - reflexivity.
  - vm_compute. by intros ?.
  - reflexivity.
  - vm_compute. reflexivity.
  - vm_compute. reflexivity.
  - reflexivity.
  - exact addrs0_wf.
  - exact domains0_ok.
  - by left.
  - apply valid_token_visible. vm_compute. reflexivity.
  - apply valid_token_visible. vm_compute. reflexivity.
  - vm_compute. constructor.
Defined.

(** A registration whose answer is lost, or whose token cannot be written, uses up the code: the
    node never gets in with it, and the controller keeps a node that does not exist. *)
Lemma lost_registration :
  let lost := start_on (mkFates ResponseLost Delivered Delivered Delivered) (Some (str "k"%string)) draws0 (str "10.0.0.7"%string) host0 in
  let full := start_on all_delivered (Some (str "k"%string)) draws0 (str "10.0.0.7"%string)
                (mkHost (mkDisk ∅ ∅ true) c_code) in
  lost.2 = Err Panic /\ full.2 = Err Panic
  /\ (start_on all_delivered (Some (str "k"%string)) draws1 (str "10.0.0.7"%string) lost.1).2 = Err Panic
  /\ (start_on all_delivered (Some (str "k"%string)) draws1 (str "10.0.0.7"%string)
        (mkHost (mkDisk ∅ ∅ false) (ho_controller full.1))).2 = Err Panic
  /\ map ms_id (rc_nodes (ct_ctx (ho_controller lost.1))) = [5].
Proof. vm_compute. split_and!; reflexivity. Qed.
