(* ===== verification/Peers.v ===== *)
(** * Peers

    What a node knows of the other nodes: their addresses and the space they have, as it reports
    its own ([update_storage], the heart of [node/src/init_procedure.rs]), fetches that of the
    others ([node/src/peer], [node/src/caching/node_storage_map.rs]) and refreshes it before it
    places a file ([node/src/lib.rs]).

    Times are in nanoseconds. *)
From Stdlib Require Import ZArith Lia List.
From stdpp Require Import base numbers gmap list strings.
From S2P Require Import Prelude Errors FragmentLedger Paths Addresses Config Database Directories Dashboard Tokens Mgpp Controller Enrolment.
Local Open Scope Z_scope.

(** The shared maps of a node, and when it refreshed them last. *)
Record PeerView : Type := mkView {
  pv_node_addr : gmap Uuid Text;
  pv_node_storage_map : gmap Uuid u64;
  pv_last_peer_refresh : Z
}.

(** [Default] of the time: the epoch. *)
Definition view_new (peers : gmap Uuid PeerStorage) : PeerView := mkView (pe_addr <$> peers) (pe_storage <$> peers) 0.

Definition apply_peers (peers : gmap Uuid PeerStorage) (v : PeerView) : PeerView :=
  mkView (pe_addr <$> peers) (pe_storage <$> peers) (pv_last_peer_refresh v).

Definition NANOS : Z := 1000000000.
(** [signed_duration_since(..).num_seconds()] *)
Definition seconds_since (last now : Z) : i64 := Z.quot (now - last) NANOS.

Section peers.
  Context {D : Type} `{Database D}.
  Variable closed : bool.

Abbreviation Node := (effect (Host D) Halt).

Definition update_storage (fate : Fate) (now : Z) (ctx : MicroserviceRequestContext) (req : UpdateStorageNodeProperties)
    : Node (option unit) :=
  exchange fate (node ← verify_node (mjoin (send_header (mc_client ctx)));
                 update_storage_node_properties closed node req now).

Definition validate_peer_token (fate : Fate) (ctx : MicroserviceRequestContext) (peer_token : Text) (id : Uuid)
    : Node (option bool) :=
  exchange fate (node ← verify_node (mjoin (send_header (mc_client ctx))); validate_peer id peer_token).

Definition fetch_general_config (fate : Fate) (general_configuration : GeneralConfiguration)
    (ctx : MicroserviceRequestContext) : Node (option GeneralConfiguration) :=
  exchange fate (node ← verify_node (mjoin (send_header (mc_client ctx))); mret general_configuration).

Definition fetch_peer_storage_info (fate : Fate) (ctx : MicroserviceRequestContext) : Node (option (gmap Uuid PeerStorage)) :=
  exchange fate (node ← verify_node (mjoin (send_header (mc_client ctx))); fetch_free_storage).

(** [NodeStorageMapInvalidator] *)
Definition invalidate (fate : Fate) (ctx : MicroserviceRequestContext) (v : PeerView) : Node PeerView :=
  new_nodes ← fetch_peer_storage_info fate ctx;
  mret match new_nodes with Some peers => apply_peers peers v | None => v end.

(** The inserts leave what the controller does not name. *)
Definition refresh_peer_data (fate : Fate) (ctx : MicroserviceRequestContext) (now : Z) (v : PeerView)
    : Node (PeerView * result NodeClientError unit) :=
  peers ← fetch_peer_storage_info fate ctx;
  mret match peers with
       | None => (v, Err NcInternalError)
       | Some peers => (mkView (pv_node_addr v) ((pe_storage <$> peers) ∪ pv_node_storage_map v) now, Ok tt)
       end.

(** [now], [later]: the clock before and after the exchange *)
Definition safe_refresh_peer_data (fate : Fate) (heart_beat_interval_seconds : u64) (ctx : MicroserviceRequestContext)
    (now later : Z) (v : PeerView) : Node (PeerView * result NodeClientError bool) :=
  if decide (as_signed 64 heart_beat_interval_seconds <= seconds_since (pv_last_peer_refresh v) now) then
    '(v, r) ← refresh_peer_data fate ctx later (mkView (pv_node_addr v) (pv_node_storage_map v) now);
    mret (v, match r with Ok _ => Ok true | Err e => Err e end)
  else mret (v, Ok false).
End peers.

(** ** The start of a node *)
Section starting.
  Context {D : Type} `{Database D} {Key Csr Cert Der : Type} `{Pki Key Csr Cert Der}.
  Variable closed : bool.
  Variable autogen_ssl_validity : u32.

(** [register_node] of [init_procedure.rs]; [id] is drawn for the context and replaced on enrolment. *)
Definition enrol_node (fates : Fates) (register_code : option Text) (dw : Draws) (config : NodeConfigInstance) (id : Uuid)
    : effect (Host D) Halt (MicroserviceRequestContext * (Key * Cert)) :=
  register_procedure closed autogen_ssl_validity fates register_code dw
    (MicroserviceRequestContext_new StorageNode id) (ni_broadcast_address config) (ni_cert_addresses config)
    (ni_cert_domains config) (ni_renewal_token_path config).

(** What follows the initialisation of the ledger: the view of the others, and the first report. *)
Definition join_peers {M} (fates : Fate * Fate) (now : Z) (req_ctx : MicroserviceRequestContext) (ledger : Ledger M)
    : effect (Host D) Halt PeerView :=
  peers ← fetch_peer_storage_info fates.1 req_ctx;
  peers ← unwrap peers;
  updated ← update_storage closed fates.2 now req_ctx (storage_info_of (get_storage_info ledger));
  _ ← unwrap updated;
  mret (view_new peers).

(** The exchanges of [start_node] with the controller, around the ledger that was initialised in
    between; [later]: the fates of the three that follow the enrolment. *)
Definition start_node {M} (fates : Fates) (later : Fate * Fate * Fate) (register_code : option Text) (dw : Draws)
    (config : NodeConfigInstance) (general_configuration : GeneralConfiguration) (ledger : Ledger M) (id : Uuid)
    : effect (Host D) Halt (MicroserviceRequestContext * (Key * Cert) * GeneralConfiguration * PeerView) :=
  init_res ← enrol_node fates register_code dw config id;
  let '(req_ctx, certificates) := init_res in
  global_conf ← fetch_general_config later.1.1 general_configuration req_ctx;
  global_conf ← unwrap global_conf;
  view ← join_peers (later.1.2, later.2) (dw_now dw) req_ctx ledger;
  mret (req_ctx, certificates, global_conf, view).
End starting.

Section views.
  Context {D : Type} `{ReliableDatabase D}.
  Variable closed : bool.
  Implicit Types (c : Controller D) (h : Host D) (issued : gmap Uuid Text).

Lemma run_fetch_peers ctx h n :
  Forall visible (mc_client ctx) -> ct_maps_held (ho_controller h) = false -> ct_health_held (ho_controller h) = false ->
  rc_token_node (ct_ctx (ho_controller h)) !! mc_client ctx = Some n ->
  fetch_peer_storage_info Delivered ctx h = (h, Ok (Some (free_storage (ct_ctx (ho_controller h))))).
Proof.
  intros Hv Hm Hh Hn. unfold fetch_peer_storage_info.
  rewrite (exchange_run _ h (ho_controller h) (free_storage (ct_ctx (ho_controller h)))); [by destruct h|]. erewrite effect_bind_run by by apply verify_run.
  unfold fetch_free_storage, mbind, effect_bind, lock_health, lock_maps, gets. by rewrite Hh, Hm.
Qed.

Lemma fetch_keeps c c' peers : fetch_free_storage c = (c', Ok peers) -> c' = c.
Proof.
  unfold fetch_free_storage, mbind, effect_bind, lock_health, lock_maps, gets.
  destruct (ct_health_held c), (ct_maps_held c); naive_solver.
Qed.

Lemma update_storage_ok fate now ctx req h h' issued :
  Forall visible (mc_client ctx) -> coherent issued (ho_controller h) ->
  update_storage closed fate now ctx req h = (h', Ok (Some tt)) ->
  coherent issued (ho_controller h') /\ ct_maps_held (ho_controller h') = false /\ ct_health_held (ho_controller h') = false
  /\ rc_nodes (ct_ctx (ho_controller h')) = rc_nodes (ct_ctx (ho_controller h))
  /\ exists id, issued !! id = Some (mc_client ctx)
    /\ rc_node_health (ct_ctx (ho_controller h')) !! id = Some (mkHealth now (Some req)).
Proof.
  intros Hv Hc E. unfold update_storage in E. apply exchange_Some in E as (c1 & E & ->).
  apply bind_ok in E as (c2 & n & En & E). apply verify_ok in En as (-> & Hm & Hn); [|done].
  assert (Hk := ctx_keeps_storage closed n req now issued _ Hc). rewrite E in Hk.
  apply storage_update_ok in E as (Hnodes & Hhealth & Hm' & Hh'). cbn.
  split; [done|]. split; [congruence|]. split; [done|]. split; [done|]. exists (ms_id n). split.
  - destruct Hc as [_ Ht]. by apply (ta_sound _ _ Ht).
  - rewrite Hhealth. apply lookup_insert_eq.
Qed.

(** C21: space reaches the peers.  When a node has reported its ledger, and another node has then
    been told to fetch the map of the nodes and could do so, it plans with exactly the space
    that is available in the ledger, and knows the address; it forgets nodes that are gone. *)
Theorem space_reaches_peers {M} (L : Ledger M) fate now ctx ctx' id h h1 issued node v :
  in_width 64 (max_physical_size L) -> coherent issued (ho_controller h) ->
  Forall visible (mc_client ctx) -> Forall visible (mc_client ctx') ->
  issued !! ms_id node = Some (mc_client ctx) -> issued !! id = Some (mc_client ctx') ->
  node ∈ rc_nodes (ct_ctx (ho_controller h)) -> ms_type node = i8_of_MicroserviceType StorageNode ->
  update_storage closed fate now ctx (storage_info_of (get_storage_info L)) h = (h1, Ok (Some tt)) ->
  exists v', invalidate Delivered ctx' v h1 = (h1, Ok v')
    /\ pv_node_storage_map v' !! ms_id node = Some (get_available_space L)
    /\ pv_node_addr v' !! ms_id node = Some (ms_address node)
    /\ forall i, i ∉ map ms_id (rc_nodes (ct_ctx (ho_controller h))) ->
        pv_node_storage_map v' !! i = None /\ pv_node_addr v' !! i = None.
Proof.
  intros Hmax Hc Hv Hv' Hi Hi' Hin Hty E.
  destruct (update_storage_ok _ _ _ _ _ _ _ Hv Hc E) as (Hc1 & Hm & Hh & Hnodes & id0 & Hid0 & Hhealth).
  assert (id0 = ms_id node) as -> by (destruct Hc as [_ Ht]; by eapply tokens_agree_unique).
  destruct (ta_complete _ _ (proj2 Hc1) _ _ Hi') as (n' & Hn' & _).
  eexists. split.
  { unfold invalidate. erewrite effect_bind_run by by eapply run_fetch_peers. done. }
  cbn [pv_node_storage_map pv_node_addr apply_peers]. rewrite !lookup_fmap, free_storage_lookup, Hhealth;
    [|rewrite Hnodes; apply Hc|by rewrite Hnodes|done].
  cbn [fmap option_fmap option_map pe_storage pe_addr]. rewrite reported_space_exact by done.
  split; [done|]. split; [done|]. intros i Hni. rewrite !lookup_fmap.
  assert (free_storage (ct_ctx (ho_controller h1)) !! i = None) as ->; [|done].
  unfold free_storage. rewrite map_lookup_imap.
  change (fold_left _ ?nodes ∅) with (storage_peers nodes ∅). by rewrite storage_peers_other by by rewrite Hnodes.
Qed.


(** A refresh takes over what the controller knows, but keeps the rest and no addresses. *)
Lemma run_refresh ctx now v h n :
  Forall visible (mc_client ctx) -> ct_maps_held (ho_controller h) = false -> ct_health_held (ho_controller h) = false ->
  rc_token_node (ct_ctx (ho_controller h)) !! mc_client ctx = Some n ->
  exists v', refresh_peer_data Delivered ctx now v h = (h, Ok (v', Ok tt)) /\ pv_last_peer_refresh v' = now
    /\ pv_node_addr v' = pv_node_addr v
    /\ forall id, pv_node_storage_map v' !! id
      = match free_storage (ct_ctx (ho_controller h)) !! id with
        | Some peer => Some (pe_storage peer)
        | None => pv_node_storage_map v !! id
        end.
Proof.
  intros Hv Hm Hh Hn. unfold refresh_peer_data. erewrite effect_bind_run by by eapply run_fetch_peers.
  eexists. split; [done|]. split; [done|]. split; [done|]. intros id. cbn.
  rewrite lookup_union, lookup_fmap. by destruct (free_storage _ !! id), (pv_node_storage_map v !! id).
Qed.

(** Attempts are limited: one within the interval after another, even a failed one, neither
    asks the controller nor changes the view. *)
Lemma refresh_limited fate fate' interval ctx now later now' later' v v' h h' r :
  safe_refresh_peer_data fate interval ctx now later v h = (h', Ok (v', r)) -> r <> Ok false ->
  now <= later -> seconds_since now now' < as_signed 64 interval ->
  seconds_since later now' < as_signed 64 interval ->
  safe_refresh_peer_data fate' interval ctx now' later' v' h' = (h', Ok (v', Ok false)).
Proof.
  unfold safe_refresh_peer_data at 1. intros E Hr Hl H1 H2. case_decide; [|by injection E as <- <- <-].
  apply bind_ok in E as (h2 & [v2 r2] & E & E2). injection E2 as <- <- <-.
  unfold refresh_peer_data in E. apply bind_ok in E as (h3 & o & _ & E).
  assert (pv_last_peer_refresh v2 = now \/ pv_last_peer_refresh v2 = later) as Hlast.
  { destruct o; injection E as <- <- <-; [by right|by left]. }
  unfold safe_refresh_peer_data. rewrite decide_False; [done|]. destruct Hlast as [-> | ->]; lia.
Qed.
End views.

(** ** A report *)
Definition ledger1000 : Ledger unit := FragmentLedger_new 1000 tt ∅.
Definition context5 : MicroserviceRequestContext := mkMsContext (str "t"%string) (str "r"%string) StorageNode 5 (str "t"%string).
Definition node5_t : MicroserviceNode := with_token (Some (str "t"%string))
  (mkMicroserviceNode 1 5 None None None 0 (str "r"%string) (str "h"%string) 1 (str "k"%string)).
Definition host5 : Host Tables := mkHost (mkDisk ∅ ∅ false) c_token.
Definition host5_reported : Host Tables :=
  (update_storage true Delivered 3 context5 (storage_info_of (get_storage_info ledger1000)) host5).1.

Lemma space_reaches_peers_witness :
  exists v', invalidate Delivered context5 (mkView ∅ {[ 9 := 77 ]} 0) host5_reported = (host5_reported, Ok v')
    /\ pv_node_storage_map v' !! 5 = Some 1000 /\ pv_node_storage_map v' !! 9 = None.
Proof.
  destruct (space_reaches_peers (D := Tables) true ledger1000 Delivered 3 context5 context5 5 host5 host5_reported
    {[ 5 := str "t"%string ]} node5_t (mkView ∅ {[ 9 := 77 ]} 0)) as (v' & E & Hs & _ & Hgone).
  - vm_compute. split; congruence.
  - exact c_token_coherent.
  - repeat constructor; vm_compute; congruence.
  - repeat constructor; vm_compute; congruence.
  - reflexivity.
  - reflexivity.
  - vm_compute. left.
  - reflexivity.
  - vm_compute. reflexivity.
  - exists v'. split; [exact E|]. split; [exact Hs|]. apply (Hgone 9).
    apply (bool_decide_unpack _). vm_compute. exact I.
Defined.

(** A node that was removed stays in the map of one that only refreshes. *)
Lemma refresh_keeps_removed :
  let view := mkView {[ 5 := str "h"%string; 9 := str "gone"%string ]} {[ 5 := 0; 9 := 77 ]} 0 in
  exists v', safe_refresh_peer_data (D := Tables) Delivered 60 context5 (100 * NANOS) (100 * NANOS) view host5_reported
    = (host5_reported, Ok (v', Ok true))
    /\ pv_node_storage_map v' !! 5 = Some 1000 /\ pv_node_storage_map v' !! 9 = Some 77.
Proof. eexists. split; [vm_compute; reflexivity|]. split; vm_compute; reflexivity. Qed.

(** ** A start *)
Definition config0 : NodeConfigInstance :=
  mkNodeConfigInstance LOCALHOST 8090 1000 (str "ca_cert.pem"%string) LOCALHOST 8080 (V4 [127; 0; 0; 1]) (str "10.0.0.7"%string)
    addrs0 domains0 None None None (str "/data/"%string) 1024 [] [] [] [] 60.
Definition started0 := start_node (D := Tables) (Key := unit) (Csr := unit) (Cert := list GeneralName)
  (Der := option (list GeneralName)) true 30 all_delivered (Delivered, Delivered, Delivered) (Some (str "k"%string)) draws0 config0
  GeneralConfiguration_new ledger1000 0 host0.
Definition view0 : PeerView := mkView {[ 5 := str "10.0.0.7"%string ]} {[ 5 := 0 ]} 0.

