(* ===== verification/UploadPipe.v ===== *)
(** * The pipe of an upload

    The upload routes of [node/src/public/routes/file_transfer.rs]: one task takes the items of
    the request's payload and writes them into a pipe of 8 KiB, another reads from the pipe what
    it needs for the upload and cancels the first when it is done.

    The two tasks, the token and the pipe are one state; an action is what a task does between
    two points where it may wait.  What the reading task does with the bytes is in [Uploads]:
    here it may read as much as there is and return whenever it likes. *)
From Stdlib Require Import ZArith Lia List.
From stdpp Require Import base numbers list relations.
From S2P Require Import Prelude Errors.
Local Open Scope nat_scope.

Definition USER_TRANSFER_BUFFER : nat := 8 * 1024.

(** What [payload.next()] yields. *)
Inductive Item : Type := Data (bytes : list u8) | PayloadError.

(** The task of the handler: it runs, or has returned, which drops its end of the pipe, or is
    done, after it has cancelled the other. *)
Inductive Task : Type :=
| Running
| Returned (r : result NodeClientError unit)
| Done (r : result NodeClientError unit).

#[global] Instance Task_eq_dec : EqDecision Task.
Proof. solve_decision. Defined.

Record Pipe : Type := mkPipe {
  pp_payload : list Item;
  (** What is left of the item that [write_all] is writing. *)
  pp_writing : option (list u8);
  pp_buffer : list u8;
  (** The result of the loop over the payload, and whether its end of the pipe is shut down. *)
  pp_send_res : option (result NodeClientError unit);
  pp_closed : bool;
  pp_cancelled : bool;
  pp_task : Task;
  (** What the task has read, and whether it has seen the end. *)
  pp_read : list u8;
  pp_eof : bool
}.

Definition start (payload : list Item) : Pipe := mkPipe payload None [] None false false Running [] false.

Inductive Action : Type :=
| PayloadNext
| LoopCancelled
| Write (n : nat)
| Written
| WriteBroken
| Shutdown
| TaskRead (n : nat)
| TaskEof
| TaskReturn (r : result NodeClientError unit)
| TaskCancel
| TaskPanic.

Definition with_loop (payload : list Item) (writing : option (list u8)) (buffer : list u8)
    (send_res : option (result NodeClientError unit)) (p : Pipe) : Pipe :=
  mkPipe payload writing buffer send_res (pp_closed p) (pp_cancelled p) (pp_task p) (pp_read p) (pp_eof p).

Definition with_task (task : Task) (buffer : list u8) (read : list u8) (eof cancelled : bool) (p : Pipe) : Pipe :=
  mkPipe (pp_payload p) (pp_writing p) buffer (pp_send_res p) (pp_closed p) cancelled task read eof.

(** The loop over the payload up to its end, and the shutdown of the pipe. *)
Definition loop_act (a : Action) (p : Pipe) : option Pipe :=
  match a, pp_send_res p, pp_writing p with
  | PayloadNext, None, None =>
      match pp_payload p with
      | [] => Some (with_loop [] None (pp_buffer p) (Some (Ok tt)) p)
      | Data bytes :: rest => Some (with_loop rest (Some bytes) (pp_buffer p) None p)
      | PayloadError :: rest => Some (with_loop rest None (pp_buffer p) (Some (Err NcBadRequest)) p)
      end
  | LoopCancelled, None, None =>
      if pp_cancelled p then Some (with_loop (pp_payload p) None (pp_buffer p) (Some (Ok tt)) p) else None
  | Write n, None, Some bytes =>
      if decide (0 < n /\ n <= length bytes /\ length (pp_buffer p) + n <= USER_TRANSFER_BUFFER /\ pp_task p = Running)
      then Some (with_loop (pp_payload p) (Some (drop n bytes)) (pp_buffer p ++ take n bytes) None p)
      else None
  | Written, None, Some [] => Some (with_loop (pp_payload p) None (pp_buffer p) None p)
  | WriteBroken, None, Some (_ :: _) =>
      if decide (pp_task p = Running) then None
      else Some (with_loop (pp_payload p) None (pp_buffer p) (Some (Err NcInternalError)) p)
  | Shutdown, Some r, _ =>
      if pp_closed p then None
      else Some (mkPipe (pp_payload p) (pp_writing p) (pp_buffer p) (Some r) true (pp_cancelled p) (pp_task p)
                   (pp_read p) (pp_eof p))
  | _, _, _ => None
  end.

(** The task that handles the upload. *)
Definition task_act (a : Action) (p : Pipe) : option Pipe :=
  match a, pp_task p with
  | TaskRead n, Running =>
      if decide (0 < n /\ n <= length (pp_buffer p))
      then Some (with_task Running (drop n (pp_buffer p)) (pp_read p ++ take n (pp_buffer p)) (pp_eof p) (pp_cancelled p) p)
      else None
  | TaskEof, Running =>
      if decide (pp_buffer p = [] /\ pp_closed p = true /\ pp_eof p = false)
      then Some (with_task Running [] (pp_read p) true (pp_cancelled p) p) else None
  | TaskReturn r, Running => Some (with_task (Returned r) [] (pp_read p) (pp_eof p) (pp_cancelled p) p)
  | TaskCancel, Returned r => Some (with_task (Done r) (pp_buffer p) (pp_read p) (pp_eof p) true p)
  | TaskPanic, Running => Some (with_task (Done (Err NcInternalError)) [] (pp_read p) (pp_eof p) (pp_cancelled p) p)
  | _, _ => None
  end.

Definition act (a : Action) (p : Pipe) : option Pipe :=
  match loop_act a p with Some p' => Some p' | None => task_act a p end.

Definition step (p p' : Pipe) : Prop := exists a, act a p = Some p'.

(** The response of the route. *)
Definition response (p : Pipe) : option (result NodeClientError unit) :=
  match pp_closed p, pp_task p with
  | true, Done (Err e) => Some (Err e)
  | true, Done (Ok _) => pp_send_res p
  | _, _ => None
  end.

(** ** What the task reads *)
(** The bytes of a payload up to an error. *)
Fixpoint body (payload : list Item) : list u8 :=
  match payload with Data bytes :: rest => bytes ++ body rest | _ => [] end.

Fixpoint broken (payload : list Item) : bool :=
  match payload with Data _ :: rest => broken rest | PayloadError :: _ => true | [] => false end.

(** What the loop would still write. *)
Definition pending (p : Pipe) : list u8 := default [] (pp_writing p) ++ body (pp_payload p).

Record pipe_inv (payload : list Item) (p : Pipe) : Prop := {
  pi_buffer : length (pp_buffer p) <= USER_TRANSFER_BUFFER;
  pi_closed : pp_closed p = true -> pp_send_res p <> None;
  pi_broken : pp_send_res p = None -> broken (pp_payload p) = broken payload;
  pi_cancelled : pp_cancelled p = true -> exists r, pp_task p = Done r;
  pi_eof : pp_eof p = true -> pp_read p = body payload /\ pp_closed p = true;
  pi_running : pp_task p = Running ->
    match pp_send_res p with
    | None => pp_read p ++ pp_buffer p ++ pending p = body payload
    | Some r => pp_read p ++ pp_buffer p = body payload /\ (r <> Ok tt -> broken payload = true)
    end;
  pi_over : pp_task p <> Running -> exists lost,
    match pp_send_res p with
    | None => pp_read p ++ lost ++ pending p = body payload
    | Some r => pp_read p ++ lost = body payload /\ (r <> Ok tt -> broken payload = true \/ lost <> [])
    end
}.

Lemma start_inv payload : pipe_inv payload (start payload).
Proof. split; cbn; try done. unfold USER_TRANSFER_BUFFER. lia. Qed.

Lemma loop_act_inv payload a p p' : pipe_inv payload p -> loop_act a p = Some p' -> pipe_inv payload p'.
Proof.
  intros [Hb Hc Hbr Hca He Hrun Hover] E. unfold loop_act in E.
  destruct p as [items writing buffer send_res closed cancelled task read eof]; unfold pending in *; cbn in *.
  destruct a as [| |n| | | |n| |r'| |], send_res as [r|], writing as [bytes|]; try done; cbn in *.
  - destruct items as [|[bytes|] rest]; simplify_eq/=; split; unfold pending; cbn; try done.
    + intros Ht. specialize (Hrun Ht). by rewrite app_nil_r in Hrun.
    + intros Ht. destruct (Hover Ht) as [lost Hl]. exists lost. by rewrite app_nil_r in Hl.
    + intros Ht. specialize (Hrun Ht). rewrite app_nil_r in Hrun. split; [done|]. intros _. by rewrite <- Hbr.
    + intros Ht. destruct (Hover Ht) as [lost Hl]. exists lost. rewrite app_nil_r in Hl. split; [done|].
      intros _. left. by rewrite <- Hbr.
  - destruct cancelled; simplify_eq/=. destruct (Hca eq_refl) as [r Hr]. split; cbn; try done; [naive_solver|].
    intros Ht. destruct (Hover Ht) as [lost Hl]. by exists (lost ++ body items).
  - case_decide as Hn; simplify_eq/=. destruct Hn as (Hn & Hlen & Hcap & ->). split; unfold pending; cbn; try done.
    + rewrite length_app, length_take. lia.
    + intros _. rewrite <- (Hrun eq_refl), <- !app_assoc. by rewrite (app_assoc (take n bytes)), take_drop.
  - destruct bytes; simplify_eq/=. by split.
  - destruct bytes as [|b bytes]; [done|]. case_decide as Ht; simplify_eq/=. split; cbn; try done.
    intros _. destruct (Hover Ht) as [lost Hl]. eexists. split; [exact Hl|]. intros _. right. by destruct lost.
  - destruct closed; simplify_eq/=. split; cbn; try done. naive_solver.
  - destruct closed; simplify_eq/=. split; cbn; try done. naive_solver.
Qed.

Lemma task_act_inv payload a p p' : pipe_inv payload p -> task_act a p = Some p' -> pipe_inv payload p'.
Proof.
  intros [Hb Hc Hbr Hca He Hrun Hover] E. unfold task_act in E.
  destruct p as [items writing buffer send_res closed cancelled task read eof]; unfold pending in *; cbn in *.
  assert (Hgone : task = Running -> exists lost, match send_res with
    | None => read ++ lost ++ default [] writing ++ body items = body payload
    | Some r => read ++ lost = body payload /\ (r <> Ok tt -> broken payload = true \/ lost <> [])
    end).
  { intros Ht. exists buffer. specialize (Hrun Ht). destruct send_res as [r|]; [|done]. naive_solver. }
  destruct a as [| |n| | | |n| |r'| |], task as [|r|r]; try done; cbn in *.
  - case_decide as Hn; simplify_eq/=. assert (take n buffer ++ drop n buffer = buffer) as Ecat by apply take_drop.
    specialize (Hrun eq_refl). split; unfold pending; cbn; try done.
    + rewrite length_drop. lia.
    + intros Heof. destruct (He Heof) as [-> Hcl]. split; [|done]. specialize (Hc Hcl). destruct send_res as [r|]; [|done].
      destruct Hrun as [Hrun _]. rewrite <- (app_nil_r (body payload)) in Hrun at 2. apply app_inv_head in Hrun as ->.
      simpl in Hn. lia.
    + intros _. destruct send_res; rewrite <- !app_assoc, (app_assoc (take n buffer)), Ecat || rewrite <- !app_assoc, Ecat; done.
  - case_decide as Hn; simplify_eq/=. destruct Hn as (-> & -> & _). specialize (Hrun eq_refl).
    specialize (Hc eq_refl). destruct send_res as [r|]; [|done]. rewrite app_nil_r in Hrun.
    split; cbn; try done.
    + intros _. by destruct Hrun.
    + intros _. by rewrite app_nil_r.
  - simplify_eq/=. split; cbn; try done; [unfold USER_TRANSFER_BUFFER; lia|..]; naive_solver.
  - simplify_eq/=. split; cbn; try done; [naive_solver|]. intros _. by apply Hover.
  - simplify_eq/=. split; cbn; try done; [unfold USER_TRANSFER_BUFFER; lia|..]; naive_solver.
Qed.

Lemma reachable_pipe_inv payload p : rtc step (start payload) p -> pipe_inv payload p.
Proof.
  assert (H : forall p, pipe_inv payload p -> forall p', rtc step p p' -> pipe_inv payload p').
  { intros q Hq q' Hs. induction Hs as [q|q q1 q2 (a & E) _ IH]; [done|]. apply IH. unfold act in E.
    destruct (loop_act a q) eqn:El; simplify_eq; [by eapply loop_act_inv|by eapply task_act_inv]. }
  apply H, start_inv.
Qed.

(** C22: the pipe is faithful.  However the two tasks interleave, what the handler has read is a
    prefix of the request's body, and all of it up to its end or an error once the handler sees
    the end; no more than the buffer is ever in between.  The response is the handler's error if
    it has one; if it succeeded with the whole of an unbroken body, the response is a success. *)
Theorem upload_pipe_faithful payload p :
  rtc step (start payload) p ->
  pp_read p `prefix_of` body payload /\ length (pp_buffer p) <= USER_TRANSFER_BUFFER
  /\ (pp_eof p = true -> pp_read p = body payload)
  /\ forall r, response p = Some r ->
      (exists r', pp_task p = Done r' /\ (r' <> Ok tt -> r = r'))
      /\ (pp_task p = Done (Ok tt) -> pp_read p = body payload -> broken payload = false -> r = Ok tt).
Proof.
  intros Hs. destruct (reachable_pipe_inv _ _ Hs) as [Hb _ _ _ He Hrun Hover].
  split; [|split; [done|split; [by intros H; apply He|]]].
  - destruct (decide (pp_task p = Running)) as [Ht|Ht].
    + specialize (Hrun Ht). destruct (pp_send_res p) as [r|]; [destruct Hrun as [Hrun _]|]; rewrite <- Hrun; by eexists.
    + destruct (Hover Ht) as [lost Hl]. destruct (pp_send_res p) as [r|]; [destruct Hl as [Hl _]|]; rewrite <- Hl; by eexists.
  - intros r Hr. unfold response in Hr. destruct (pp_closed p); [|done].
    destruct (pp_task p) as [|r'|[[]|e]] eqn:Ht; try done.
    + split; [by eexists|]. intros _ Hread Hbr. destruct (Hover ltac:(done)) as [lost Hl]. rewrite Hr in Hl.
      destruct Hl as [Hl Hr']. destruct (decide (r = Ok tt)) as [|Hne]; [done|].
      destruct (Hr' Hne) as [H|H]; [congruence|]. rewrite Hread in Hl.
      rewrite <- (app_nil_r (body payload)) in Hl at 2. by apply app_inv_head in Hl.
    + split; [|done]. eexists. split; [done|]. intros _. congruence.
Qed.

(** ** Requests are answered *)
Definition item_cost (i : Item) : nat := match i with Data bytes => 4 * length bytes + 4 | PayloadError => 0 end.

Definition cost (p : Pipe) : nat :=
  sum_list (map item_cost (pp_payload p))
  + match pp_writing p with Some bytes => 3 * length bytes + 2 | None => 0 end
  + length (pp_buffer p)
  + match pp_send_res p with None => 1 | Some _ => 0 end
  + (if pp_closed p then 0 else 1)
  + (if pp_eof p then 0 else 1)
  + match pp_task p with Running => 2 | Returned _ => 1 | Done _ => 0 end.

Lemma step_cost p p' : step p p' -> cost p' < cost p.
Proof.
  intros (a & E). unfold act in E. destruct (loop_act a p) as [q|] eqn:El.
  - injection E as ->. unfold loop_act in El. unfold cost.
    destruct p as [items writing buffer send_res closed cancelled task read eof]; cbn in *.
    destruct a as [| |n| | | |n| |r'| |], send_res as [r|], writing as [bytes|]; try done; cbn in *.
    + destruct items as [|[bytes|] rest]; simplify_eq/=; lia.
    + destruct cancelled; simplify_eq/=. lia.
    + case_decide; simplify_eq/=. rewrite length_app, length_take, length_drop. lia.
    + destruct bytes; simplify_eq/=. lia.
    + destruct bytes; [done|]. case_decide; simplify_eq/=. lia.
    + destruct closed; simplify_eq/=. lia.
    + destruct closed; simplify_eq/=. lia.
  - unfold task_act in E. unfold cost. destruct p as [items writing buffer send_res closed cancelled task read eof]; cbn in *.
    destruct a as [| |n| | | |n| |r'| |], task as [|r|r]; try done; cbn in *.
    + case_decide; simplify_eq/=. rewrite length_drop. lia.
    + case_decide as H; simplify_eq/=. destruct H as (-> & _ & ->). simpl. lia.
    + simplify_eq/=. lia.
    + simplify_eq/=. lia.
    + simplify_eq/=. lia.
Qed.

(** The actions that do not depend on what the handler makes of the bytes. *)
Definition own (a : Action) : Prop := match a with TaskReturn _ | TaskPanic => False | _ => True end.

Lemma loop_goes_on payload p :
  pipe_inv payload p -> pp_send_res p = None -> (pp_task p = Running -> pp_buffer p = []) ->
  exists a p', own a /\ act a p = Some p'.
Proof.
  intros Hi Hr Hb. destruct p as [items writing buffer send_res closed cancelled task read eof]; cbn in *. subst send_res.
  destruct writing as [[|b bytes]|].
  - exists Written. by eexists.
  - destruct (decide (task = Running)) as [->|Ht].
    + exists (Write 1). unfold act, loop_act. cbn. rewrite Hb by done.
      rewrite decide_True; [by eexists|]. unfold USER_TRANSFER_BUFFER. simpl. split_and!; done || lia.
    + exists WriteBroken. unfold act, loop_act. cbn. rewrite decide_False by done. by eexists.
  - exists PayloadNext. destruct items as [|[|] ?]; by eexists.
Qed.

Fixpoint payload_bytes (payload : list Item) : nat :=
  match payload with [] => 0 | Data bytes :: rest => length bytes + payload_bytes rest | PayloadError :: rest => payload_bytes rest end.

Lemma start_cost payload : cost (start payload) <= 4 * payload_bytes payload + 4 * length payload + 5.
Proof.
  unfold cost. cbn. assert (sum_list (map item_cost payload) <= 4 * payload_bytes payload + 4 * length payload); [|lia].
  induction payload as [|[bytes|] rest IH]; simpl; lia.
Qed.

Lemma nsteps_cost n p p' : nsteps step n p p' -> n + cost p' <= cost p.
Proof. induction 1 as [p|n p p1 p2 Hs _ IH]; [lia|]. apply step_cost in Hs. lia. Qed.

Lemma request_goes_on payload p :
  pipe_inv payload p -> response p = None ->
  (pp_task p = Running /\ pp_eof p = true) \/ exists a p', own a /\ act a p = Some p'.
Proof.
  intros Hi Hr. destruct (pp_send_res p) as [r|] eqn:Es; [|].
  2:{ destruct (decide (pp_task p = Running /\ pp_buffer p <> [])) as [[Ht Hb]|Hb].
      - right. exists (TaskRead 1). destruct p as [items writing buffer send_res closed cancelled task read eof]; cbn in *; subst.
        unfold act. cbn. rewrite decide_True; [by eexists|]. destruct buffer; [done|]. simpl. lia.
      - right. eapply loop_goes_on; [done|done|]. intros Ht. destruct (decide (pp_buffer p = [])); [done|]. by destruct Hb. }
  destruct p as [items writing buffer send_res closed cancelled task read eof]; cbn in *; subst.
  destruct closed; [|right; exists Shutdown; by eexists].
  destruct task as [|r'|[[]|e]]; [|right; exists TaskCancel; by eexists|done|done].
  destruct buffer as [|b buffer].
  - destruct eof; [by left|]. right. exists TaskEof. unfold act. cbn. by eexists.
  - right. exists (TaskRead 1). unfold act. cbn. rewrite decide_True by lia. by eexists.
Qed.


(** ** Executions *)
Fixpoint run (actions : list Action) (p : Pipe) : option Pipe :=
  match actions with [] => Some p | a :: actions => p ← act a p; run actions p end.

Lemma run_reachable actions p p' : run actions p = Some p' -> rtc step p p'.
Proof.
  revert p. induction actions as [|a actions IH]; intros p E; simpl in E; [by simplify_eq|].
  destruct (act a p) as [q|] eqn:Ea; [|done]. eapply rtc_l; [by exists a|]. by apply IH.
Qed.

(** A handler that returns without reading everything, as a durable upload does with a body that
    is longer than its session, may get the request answered with an error although it
    succeeded: the loop is writing when the pipe breaks. *)
Lemma success_answered_with_error :
  exists p, rtc step (start [Data [1%Z]; Data [2%Z; 3%Z]]) p
    /\ pp_task p = Done (Ok tt) /\ response p = Some (Err NcInternalError).
Proof.
  eexists. split; [apply (run_reachable [PayloadNext; Write 1; Written; TaskRead 1; PayloadNext; TaskReturn (Ok tt);
    WriteBroken; TaskCancel; Shutdown]); reflexivity|]. split; reflexivity.
Qed.

(** An upload of two items, read to the end. *)
Definition answered : Pipe := mkPipe [] None [] (Some (Ok tt)) true true (Done (Ok tt)) [1%Z; 2%Z; 3%Z] true.

Lemma upload_pipe_faithful_witness :
  rtc step (start [Data [1%Z]; Data [2%Z; 3%Z]]) answered
  /\ response answered = Some (Ok tt) /\ pp_read answered = body [Data [1%Z]; Data [2%Z; 3%Z]].
Proof.
  assert (Hs : rtc step (start [Data [1%Z]; Data [2%Z; 3%Z]]) answered).
  { apply (run_reachable [PayloadNext; Write 1; Written; PayloadNext; TaskRead 1; Write 2; Written; PayloadNext;
      TaskRead 2; Shutdown; TaskEof; TaskReturn (Ok tt); TaskCancel]). reflexivity. }
  split; [exact Hs|]. split; [reflexivity|]. apply (upload_pipe_faithful _ _ Hs). reflexivity.
Defined.
