(* ===== verification/Routes.v ===== *)
(** * The routes of a node

    [node/src/public/routes] and the scopes of [start_node] in [node/src/lib.rs]: what the
    services above answer to an authenticated request, with the status and the headers of the
    response.

    The streams between a request's body and an upload are in [UploadPipe]; a requested range is
    the function [to_satisfiable_range] of its specification, as in [Listing]. *)
From Stdlib Require Import ZArith Lia List Ascii.
From stdpp Require Import base numbers gmap list strings.
From S2P Require Import Prelude Errors MetaStore Placement FileAccess Paths Permissions Database UploadSessions Directories FileServices Uploads Listing Addresses Config.
Local Open Scope Z_scope.

(** [NodeClientError::status_code] *)
Definition status_code (e : NodeClientError) : u16 :=
  match e with
  | NcInternalError => 500
  | NcBadRequest | NcBadResourcePath | NcEntityExists | NcNotEmpty | NcProtocolError => 400
  | NcBadAuth => 401
  | NcInsufficientStorage => 418
  | NcNotFound | NcNoSuchSession => 404
  | NcRangeUnsatisfiable => 416
  end.

(** [Range::parse], if it succeeds *)
Inductive RangeHeader : Type := RangeBytes (specs : list (u64 -> option (u64 * u64))) | RangeUnregistered.

Record FileResponse : Type := mkFileResponse {
  fr_status : u16;
  fr_content_length : u64;
  fr_x_file_content_length : u64;
  fr_attachment : Text;
  fr_body : list u8
}.

(** The requests with their paths, bodies and headers; a header is its text, if it is text. *)
Inductive Request : Type :=
| UploadOneshot (path : EntryPath) (content_length : option (option Text))
| StartUploadDurable (path : EntryPath) (size : u64)
| ResumeDurableUpload (app_id bucket_id session_id : Uuid)
| UploadDurable (app_id bucket_id session_id : Uuid)
| Download (path : EntryPath) (range : option RangeHeader)
| RenameFile (path : EntryPath) (req : RenameEntityRequest)
| DeleteFile (path : EntryPath)
| CreateDirectory (path : EntryPath)
| DeleteDirectory (path : EntryPath) (req : DeleteDirectoryRequest)
| RenameDirectory (path : EntryPath) (req : RenameEntityRequest)
| ListDirectory (path : EntryPath) (paginate : PaginationInfo)
| ListBucketFiles (app_id bucket_id : Uuid) (paginate : PaginationInfo)
| ListBucketDirectories (app_id bucket_id : Uuid) (paginate : PaginationInfo)
| StatEntity (path : EntryPath)
| GetBucketInfo (app_id bucket_id : Uuid).

Inductive Reply : Type :=
| Finished
| SessionStarted (session_id : Uuid) (validity : u32) (uploaded : u64)
| Uploaded (uploaded_size : u64)
| Streaming (r : FileResponse)
| Entities (entities : list Entity)
| OneEntity (entity : Entity)
| BucketInfo (bucket : Bucket).

(** The length that [upload_oneshot] takes from the header. *)
Definition content_size (content_length : option (option Text)) : NodeClientResponse u64 :=
  match content_length with
  | None => Err NcBadRequest
  | Some None => Err NcBadRequest
  | Some (Some text) => ok_or (u64_from_str text) NcBadRequest
  end.

(** The single range of bytes that [download] accepts. *)
Definition byte_range (range : option RangeHeader) : NodeClientResponse (option (u64 -> option (u64 * u64))) :=
  match range with
  | Some (RangeBytes [spec]) => Ok (Some spec)
  | Some (RangeBytes _) => Err NcRangeUnsatisfiable
  | Some RangeUnregistered | None => Ok None
  end.

Section routes.
  Context {D M : Type} `{Database D} `{ExtFragmentMetaStore M}.
  Variables (new_v4 clock : nat -> Z) (channel_id fragment_size : u32) (now utc utc_end : Z).
  Variable refresh : NodeClientResponse (option (list (Uuid * u64))).
  Variable inbound_transfer : nat -> Transfer -> NodeState M -> NodeState M * NodeClientResponse unit.
  Variable ticks : nat -> list (Z * Z).
(** What the nodes hold, and the fuel for visiting directories. *)
  Variable content : Uuid -> list u8.
  Variable fuel : nat.

Abbreviation Service A := (effect (AppState D M) NodeClientError A).

Definition upload_oneshot (path : EntryPath) (content_length : option (option Text)) (acc : BucketAccessor) : Service unit :=
  size ← of_result (content_size content_length);
  handle_upload_oneshot new_v4 channel_id fragment_size now utc utc_end refresh inbound_transfer ticks path size acc.

Definition resume_durable_upload (app_id bucket_id session_id : Uuid) : Service u64 :=
  size ← resume_upload_session channel_id fragment_size now utc app_id bucket_id session_id;
  mret (wrap 64 size).

Definition download (path : EntryPath) (acc : BucketAccessor) (range : option RangeHeader)
    : effect D NodeClientError FileResponse :=
  byte_range ← of_result (byte_range range);
  r ← download_file content path acc byte_range;
  let '(info, body) := r in
  let len :=
    match byte_range with
    | Some to_satisfiable_range =>
        match to_satisfiable_range (dl_size info) with
        | Some y => u64_add (u64_sub y.2 y.1) 1
        | None => dl_size info
        end
    | None => dl_size info
    end in
  mret (mkFileResponse (match byte_range with Some _ => 206 | None => 200 end) len len (dl_attachment_name info) body).

(** A service of the directories, whose iteration may need more than the fuel. *)
Definition on_directories (m : D -> option (D * NodeClientResponse unit)) (s : AppState D M)
    : option (AppState D M * NodeClientResponse Reply) :=
  '(d, r) ← m (db_session s);
  Some (mkAppState (node_state s) d, match r with Ok _ => Ok Finished | Err e => Err e end).

Definition replies {A} (f : A -> Reply) (m : Service A) (s : AppState D M) : option (AppState D M * NodeClientResponse Reply) :=
  Some ((a ← m; mret (f a)) s).

(** The routes of the scopes for files, directories and buckets. *)
Definition serve (acc : BucketAccessor) (req : Request) (s : AppState D M)
    : option (AppState D M * NodeClientResponse Reply) :=
  match req with
  | UploadOneshot path content_length => replies (fun _ => Finished) (upload_oneshot path content_length acc) s
  | StartUploadDurable path size =>
      replies (fun '(id, validity, uploaded) => SessionStarted id validity uploaded)
        (start_upload_session new_v4 channel_id fragment_size now utc refresh path acc size) s
  | ResumeDurableUpload app_id bucket_id session_id =>
      replies Uploaded (resume_durable_upload app_id bucket_id session_id) s
  | UploadDurable app_id bucket_id session_id =>
      replies (fun _ => Finished) (handle_upload_durable new_v4 channel_id fragment_size now utc utc_end
        inbound_transfer ticks session_id app_id bucket_id) s
  | Download path range => replies Streaming (on_db (download path acc range)) s
  | RenameFile path req => replies (fun _ => Finished) (rename_file_srv channel_id fragment_size now utc path req acc) s
  | DeleteFile path => replies (fun _ => Finished) (delete_file_srv channel_id fragment_size now path acc) s
  | CreateDirectory path => replies (fun _ => Finished) (on_db (do_create_directory new_v4 clock path acc)) s
  | DeleteDirectory path req => on_directories (do_delete_directory fuel path req acc) s
  | RenameDirectory path req => on_directories (do_rename_directory new_v4 clock fuel path req acc) s
  | ListDirectory path paginate => replies Entities (on_db (do_list_dir path acc paginate)) s
  | ListBucketFiles app_id bucket_id paginate =>
      replies Entities (on_db (do_list_bucket_files app_id bucket_id acc paginate)) s
  | ListBucketDirectories app_id bucket_id paginate =>
      replies Entities (on_db (do_list_bucket_directories app_id bucket_id acc paginate)) s
  | StatEntity path => replies OneEntity (on_db (do_stat_file path acc)) s
  | GetBucketInfo app_id bucket_id => replies BucketInfo (on_db (do_fetch_bucket_info app_id bucket_id acc)) s
  end.
End routes.

(** ** Permissions *)
Definition bucket_of (req : Request) : Uuid * Uuid :=
  match req with
  | UploadOneshot path _ | StartUploadDurable path _ | Download path _ | RenameFile path _ | DeleteFile path
  | CreateDirectory path | DeleteDirectory path _ | RenameDirectory path _ | ListDirectory path _ | StatEntity path =>
      (ep_app_id path, ep_bucket_id path)
  | ResumeDurableUpload app_id bucket_id _ | UploadDurable app_id bucket_id _ | ListBucketFiles app_id bucket_id _
  | ListBucketDirectories app_id bucket_id _ | GetBucketInfo app_id bucket_id => (app_id, bucket_id)
  end.

(** The requests that are checked before anything happens. *)
Definition guarded (req : Request) : bool :=
  match req with RenameFile _ _ | ResumeDurableUpload _ _ _ | UploadDurable _ _ _ => false | _ => true end.

Definition refused {S A} (m : effect S NodeClientError A) : Prop := forall s, exists e, m s = (s, Err e).

Lemma refused_first {S A B} (r : NodeClientResponse A) (f : A -> effect S NodeClientError B) :
  (forall a, r = Ok a -> refused (f a)) -> refused (a ← of_result r; f a).
Proof.
  intros Hr s. unfold mbind, effect_bind, of_result. destruct r as [a|e]; [|by eexists].
  exact (Hr a eq_refl s).
Qed.

Lemma refused_check {S A B} (r : NodeClientResponse A) (f : A -> effect S NodeClientError B) :
  (forall a, r <> Ok a) -> refused (a ← of_result r; f a).
Proof. intros Hr. apply refused_first. intros a E. by destruct (Hr a). Qed.

Lemma refused_bind {S A B} (m : effect S NodeClientError A) (f : A -> effect S NodeClientError B) :
  refused m -> refused (a ← m; f a).
Proof. intros Hm s. unfold mbind, effect_bind. destruct (Hm s) as [e ->]. by exists e. Qed.

Lemma refused_on_db {D M A} (m : effect D NodeClientError A) : refused m -> refused (on_db (M := M) m).
Proof. intros Hm s. unfold on_db. destruct (Hm (db_session s)) as [e ->]. exists e. by destruct s. Qed.

Section guards.
  Context {D M : Type} `{Database D} `{ExtFragmentMetaStore M}.
  Variables (new_v4 clock : nat -> Z) (channel_id fragment_size : u32) (now utc utc_end : Z).
  Variable refresh : NodeClientResponse (option (list (Uuid * u64))).
  Variable inbound_transfer : nat -> Transfer -> NodeState M -> NodeState M * NodeClientResponse unit.
  Variable ticks : nat -> list (Z * Z).
  Variable content : Uuid -> list u8.
  Variable fuel : nat.

Lemma refused_replies {A} (f : A -> Reply) (m : effect (AppState D M) NodeClientError A) s :
  refused m -> exists e, replies f m s = Some (s, Err e).
Proof. intros Hm. unfold replies. destruct (refused_bind m (fun a => mret (f a)) Hm s) as [e ->]. by exists e. Qed.

Lemma refused_directories m (s : AppState D M) e :
  m (db_session s) = Some (db_session s, Err e) -> on_directories m s = Some (s, Err e).
Proof. unfold on_directories. intros ->. by destruct s. Qed.

(** C23: no permission, no effect.  For a token that may do nothing with a bucket, every route is
    refused, without a read or a change of the database or the nodes - but for the renaming of
    a file and the two requests of a running durable upload, which do not check the token. *)
Theorem routes_guarded acc req s :
  guarded req = true -> (forall requested, has_permission acc (bucket_of req).1 (bucket_of req).2 requested <> Ok tt) ->
  exists e, serve new_v4 clock channel_id fragment_size now utc utc_end refresh inbound_transfer ticks content fuel acc req s
    = Some (s, Err e).
Proof.
  intros Hg Hp.
  assert (Hno : forall requested a, has_permission acc (bucket_of req).1 (bucket_of req).2 requested <> Ok a)
    by (intros requested []; apply Hp).
  destruct req; try done; cbn [serve bucket_of fst snd] in *.
  - apply refused_replies, refused_first. intros size _. by apply refused_check.
  - apply refused_replies, refused_check. intros a. specialize (Hno UPLOAD_ALLOWANCE).
    destruct (has_permission _ _ _ _); [by destruct (Hno a0)|done].
  - apply refused_replies, refused_on_db, refused_first. intros r _. apply refused_bind. by apply refused_check.
  - apply refused_replies, refused_check. done.
  - apply refused_replies, refused_on_db, refused_check. done.
  - destruct (has_permission acc (ep_app_id path) (ep_bucket_id path) DELETE_ALLOWANCE) as [[]|e] eqn:E; [by destruct (Hp DELETE_ALLOWANCE)|].
    exists e. apply refused_directories. unfold do_delete_directory. by rewrite E.
  - destruct (has_permission acc (ep_app_id path) (ep_bucket_id path) RENAME_DIRECTORY_ALLOWANCE) as [[]|e] eqn:E; [by destruct (Hp RENAME_DIRECTORY_ALLOWANCE)|].
    exists e. apply refused_directories. unfold do_rename_directory. by rewrite E.
  - apply refused_replies, refused_on_db, refused_first. intros _ _. by apply refused_check.
  - apply refused_replies, refused_on_db, refused_first. intros _ _. by apply refused_check.
  - apply refused_replies, refused_on_db, refused_first. intros _ _. by apply refused_check.
  - apply refused_replies, refused_on_db, refused_check. done.
  - apply refused_replies, refused_on_db, refused_check. done.
Qed.
End guards.


(** ** Requests *)
(** The range from the second byte on. *)
Definition from_second (size : u64) : option (u64 * u64) := if decide (2 <= size) then Some (1, size - 1) else None.


Definition nothing_allowed : BucketAccessor := mkAccessor [] 1.

(** The routes with arguments for an example. *)
Definition serve_example := serve (D := Tables) (M := gmap Uuid ExtFragmentMeta) (fun _ => 0) (fun _ => 0) 1 8 0 0 0
  (Ok None) (fun _ _ st => (st, Err NcInternalError)) no_ticks content500 10.

Lemma routes_guarded_witness :
  exists e, serve_example nothing_allowed (DeleteFile (entry "f")) state500 = Some (state500, Err e).
Proof.
  apply routes_guarded; [reflexivity|]. intros requested. vm_compute. congruence.
Defined.

(** A token without any permission renames a file. *)
Lemma rename_unguarded :
  exists s, serve_example nothing_allowed (RenameFile (entry "f") (rename_to "g")) state500 = Some (s, Ok Finished)
    /\ file_at (db_session s) 7 [] (str "g") <> None /\ file_at (db_session s) 7 [] (str "f") = None.
Proof. eexists. split; [vm_compute; reflexivity|]. split; vm_compute; congruence. Qed.
