(* ===== verification/Orphans.v ===== *)
(** * Orphaned fragments

    [remove_orphaned_fragments] of [node/src/io/fragment_ledger.rs]: the fragments whose file is
    not in the database any more are looked up, and then deleted.

    The function keeps its guards on the map of the chunks and on the metadata while it deletes;
    the deletion needs the map for writing.  [None] is a wait that never ends. *)
From stdpp Require Import base gmap list strings.
From S2P Require Import Prelude Errors MetaStore FragmentLedger Database.
Open Scope Z_scope.

Section orphans.
  Context {D M : Type} `{Database D} `{ExtFragmentMetaStore M}.
  Implicit Types (L : Ledger M) (d : D).

(** [delete_chunk], called while the map of the chunks is locked for reading. *)
Definition delete_chunk_held (chunk_id : Uuid) L : Ledger M * option (MeowithIoResult unit) :=
  let L1 := ext_remove chunk_id L in
  let uncommited := bool_decide (is_Some (uncommited_map L !! chunk_id)) in
  let L2 := set_uncommited_map (delete chunk_id) L1 in
  match remove_file (get_path chunk_id uncommited) L2 with
  | (L3, false) => (L3, Some (Err IoNotFound))
  | (L3, true) => (L3, None)
  end.

(** The fragments to delete, in the order of the keys. *)
Fixpoint mark_orphans (store : M) (ids : list Uuid) : effect D MeowithIoError (list Uuid) :=
  match ids with
  | [] => mret []
  | id :: ids =>
      match meta_get id store with
      | Ok assoc =>
          file ← on_err (fun _ => IoInternal) (maybe_get_file_by_id (meta_bucket_id assoc) (meta_file_id assoc));
          mark ← mark_orphans store ids;
          mret match file with None => id :: mark | Some _ => mark end
      | Err IoNotFound => mark_orphans store ids
      | Err err => throw err
      end
  end.

Fixpoint sweep (mark : list Uuid) L : Ledger M * option (MeowithIoResult unit) :=
  match mark with
  | [] => (L, Some (Ok tt))
  | id :: mark =>
      match delete_chunk_held id L with
      | (L, Some (Ok _)) => sweep mark L
      | (L, r) => (L, r)
      end
  end.

(** [keys]: the keys of the map in the order of its iteration.  The store is there since the
    start of the ledger. *)
Definition remove_orphaned_fragments (keys : list Uuid) (store : M) (L : Ledger M) (d : D)
    : Ledger M * D * option (MeowithIoResult unit) :=
  match mark_orphans store keys d with
  | (d, Err err) => (L, d, Some (Err err))
  | (d, Ok mark) => let '(L, r) := sweep mark L in (L, d, r)
  end.
End orphans.

Section outcome.
  Context {D M : Type} `{ReliableDatabase D} `{ExtFragmentMetaStore M}.
  Implicit Types (L : Ledger M) (d : D).

(** A fragment whose file the database does not know. *)
Definition is_orphan (T : Tables) (store : M) (id : Uuid) : bool :=
  match meta_get id store with
  | Ok assoc => bool_decide (rows_where (fun f => bool_decide (f_bucket_id f = meta_bucket_id assoc /\ f_id f = meta_file_id assoc)) T = [])
  | Err _ => false
  end.

Lemma run_mark store ids d :
  Forall (fun id => forall e, meta_get id store = Err e -> e = IoNotFound) ids ->
  exists d', mark_orphans store ids d = (d', Ok (filter (fun id => is_orphan (tables d) store id = true) ids))
    /\ tables d' = tables d.
Proof.
  intros Hids. revert d. induction Hids as [|id ids Hid Hids IH]; intros d; [by exists d|]. cbn [mark_orphans].
  rewrite filter_cons. destruct (meta_get id store) as [assoc|e] eqn:Em.
  - unfold maybe_get_file_by_id, mbind at 1, effect_bind at 1, on_err.
    set (p := fun f => bool_decide (f_bucket_id f = meta_bucket_id assoc /\ f_id f = meta_file_id assoc)).
    destruct (run_maybe_find_first (R := File) p d) as (d1 & o & E1 & Hd1 & Ho). rewrite E1. cbn [map_err].
    destruct (IH d1) as (d2 & E2 & Hd2). rewrite Hd1 in E2, Hd2. erewrite effect_bind_run by exact E2.
    exists d2. split; [|done]. unfold mret, effect_ret. do 2 f_equal.
    assert (Eo : is_orphan (tables d) store id = match o with None => true | Some _ => false end).
    { unfold is_orphan. rewrite Em. fold p. destruct o as [f|]; [apply bool_decide_eq_false|apply bool_decide_eq_true].
      - destruct Ho as [Hp [k Hk]]. intros Hn.
        assert (Hin : f ∈ rows_where p (tables d)) by (apply elem_of_rows_where; eauto). rewrite Hn in Hin.
        by apply elem_of_nil in Hin.
      - destruct (rows_where p (tables d)) as [|f l] eqn:Er; [done|].
        assert (Hin : f ∈ rows_where p (tables d)) by (rewrite Er; left).
        apply elem_of_rows_where in Hin as [Hp [k Hk]]. by rewrite (Ho k f Hk) in Hp. }
    destruct o; [rewrite decide_False by congruence|rewrite decide_True by done]; done.
  - rewrite (Hid e eq_refl). rewrite decide_False; [apply IH|]. unfold is_orphan. by rewrite Em.
Qed.

(** The removal ends only where it removes nothing.  Without orphans it succeeds; at the first
    orphan it deletes the metadata and the file, and then waits for ever for the map that it
    holds itself, in which the fragment stays counted; a missing file ends it with an error. *)
Theorem orphan_removal_waits keys store L d :
  Forall (fun id => forall e, meta_get id store = Err e -> e = IoNotFound) keys ->
  exists L' d' r, remove_orphaned_fragments keys store L d = (L', d', r) /\ tables d' = tables d
    /\ chunk_set L' = chunk_set L /\ disk_physical_size L' = disk_physical_size L
    /\ match filter (fun id => is_orphan (tables d) store id = true) keys with
       | [] => L' = L /\ r = Some (Ok tt)
       | id :: _ =>
           let path := get_path id (bool_decide (is_Some (uncommited_map L !! id))) in
           files L' = delete path (files L) /\ uncommited_map L' = delete id (uncommited_map L)
           /\ r = match files L !! path with Some _ => None | None => Some (Err IoNotFound) end
       end.
Proof.
  intros Hk. destruct (run_mark store keys d Hk) as (d' & E & Hd). unfold remove_orphaned_fragments. rewrite E.
  destruct (filter _ keys) as [|id mark]; [by exists L, d', (Some (Ok tt))|]. cbn [sweep].
  unfold delete_chunk_held, remove_file. set (path := get_path id _). destruct L as [cs rm um store' mp dp dc dr pa fs].
  cbn in *. destruct (fs !! path) as [f|] eqn:Ef; eexists _, d', _; (split; [done|]); (split; [done|]); cbn; try done.
  split_and!; try done. by rewrite delete_id.
Qed.
End outcome.
